(** * Verification of [probabilistic/prob_utils.py] and of the
      hyperparameter-search configuration modules

    The Python sources are embedded shallowly.  Tensor entries are real
    numbers (floating point rounding is abstracted away), a tensor is a
    shape together with its entries in row-major order, Python
    exceptions are values of an error monad, and random draws thread an
    explicit generator state. *)

From Stdlib Require Import String Reals Lra Lia ZArith Bool Arith List.
Import ListNotations.
Local Open Scope R_scope.

(** ** Python exceptions *)

Inductive exn : Type :=
| AssertionError
| IndexError
| NameError
| RuntimeError
| TypeError
| ValueError
| ZeroDivisionError.

Inductive result (A : Type) : Type :=
| Ok (a : A)
| Raise (e : exn).

Arguments Ok {A} a.
Arguments Raise {A} e.

Definition bind {A B : Type} (m : result A) (k : A -> result B) : result B :=
  match m with
  | Ok a => k a
  | Raise e => Raise e
  end.

Notation "x <- m ;; k" := (bind m (fun x => k))
  (at level 61, m at next level, right associativity).

Definition fmap {A B : Type} (f : A -> B) (m : result A) : result B :=
  x <- m ;; Ok (f x).

(** [for x in l: ...] collecting one value per element, stopping at the
    first exception. *)
Fixpoint mapM {A B : Type} (f : A -> result B) (l : list A) : result (list B) :=
  match l with
  | [] => Ok []
  | x :: l' => y <- f x ;; ys <- mapM f l' ;; Ok (y :: ys)
  end.

(** ** Lists of reals *)

Fixpoint map2 {A B C : Type} (f : A -> B -> C) (l : list A) (m : list B) : list C :=
  match l, m with
  | x :: l', y :: m' => f x y :: map2 f l' m'
  | _, _ => []
  end.

Definition rsum (l : list R) : R := fold_right Rplus 0 l.

(** [sum_n n f] is the finite sum of [f j] for [j] in [0 .. n-1]. *)
Fixpoint sum_n (n : nat) (f : nat -> R) : R :=
  match n with
  | O => 0
  | S k => f O + sum_n k (fun j => f (S j))
  end.

(** [tab n f] tabulates [f] on the indices [0 .. n-1]. *)
Definition tab (n : nat) (f : nat -> R) : list R := map f (seq 0 n).

(** [chunks k n l] cuts [l] into [n] consecutive pieces of [k] entries. *)
Fixpoint chunks (k n : nat) (l : list R) : list (list R) :=
  match n with
  | O => []
  | S n' => firstn k l :: chunks k n' (skipn k l)
  end.

(** ** Tensors *)

Record Tensor : Type := mkT { shape : list nat; data : list R }.

Definition numel (s : list nat) : nat := fold_right Nat.mul 1%nat s.

(** A tensor is well formed when it has as many entries as its shape says. *)
Definition wf (t : Tensor) : Prop := length (data t) = numel (shape t).

(** A zero-dimensional tensor, as returned by [torch.sum]. *)
Definition scalar (x : R) : Tensor := mkT [] [x].

(** The entries of [t] as a tensor of one dimension. *)
Definition flatten (t : Tensor) : Tensor := mkT [numel (shape t)] (data t).

(** ** Memory layout

    [t.view(-1)] does not copy, so it depends on how the entries of [t]
    lie in memory.  A tensor that a caller hands over is therefore given
    with the strides of its dimensions; [tensor] holds its entries in the
    order of their indices, whatever the strides are.  A transposed or
    expanded tensor and a slice of columns have strides other than those
    of a contiguous tensor. *)
Record Strided : Type := mkStrided { tensor : Tensor; strides : list nat }.

(** The strides of a contiguous tensor of shape [s]. *)
Fixpoint row_major (s : list nat) : list nat :=
  match s with
  | [] => []
  | _ :: s' => numel s' :: row_major s'
  end.

Definition contiguous (t : Tensor) : Strided := mkStrided t (row_major (shape t)).

(** The dimensions that hold more than one index, with their strides. *)
Definition squeeze_dims (sizes strides : list nat) : list (nat * nat) :=
  filter (fun p => negb (fst p =? 1)%nat) (combine sizes strides).

(** Every dimension steps over exactly the entries of the next one:
    [stride[i] = stride[i+1] * size[i+1]]. *)
Fixpoint mergeable (dims : list (nat * nat)) : bool :=
  match dims with
  | (_, stride1) :: (((size2, stride2) :: _) as dims') =>
      (stride1 =? stride2 * size2)%nat && mergeable dims'
  | _ => true
  end.

(** Whether dimensions of these sizes and strides can be seen as one
    dimension without a copy: there is no entry, or the dimensions of more
    than one index merge into one. *)
Definition mergeable_dims (sizes strides : list nat) : bool :=
  (numel sizes =? 0)%nat || mergeable (squeeze_dims sizes strides).

Definition viewable (t : Strided) : bool :=
  mergeable_dims (shape (tensor t)) (strides t).

(** [t.view(-1)] *)
Definition view_flat (t : Strided) : result Tensor :=
  if viewable t then Ok (flatten (tensor t)) else Raise RuntimeError.

Definition shape_eqb (s1 s2 : list nat) : bool :=
  if list_eq_dec Nat.eq_dec s1 s2 then true else false.

(** [torch.cat(ts)] along dimension 0.  An empty sequence is rejected, and
    so are zero-dimensional tensors and tensors that disagree on the
    trailing dimensions.  In row-major order the entries of the result are
    the entries of the arguments one after the other. *)
Definition cat (ts : list Tensor) : result Tensor :=
  match ts with
  | [] => Raise RuntimeError
  | t0 :: _ =>
      match shape t0 with
      | [] => Raise RuntimeError
      | _ :: rest =>
          if forallb (fun t => match shape t with
                               | [] => false
                               | _ :: r => shape_eqb r rest
                               end) ts
          then Ok (mkT (fold_right Nat.add 0%nat (map (fun t => hd 0%nat (shape t)) ts) :: rest)
                       (concat (map data ts)))
          else Raise RuntimeError
      end
  end.

(** Elementwise application of a function of one argument; covers
    [torch.exp], [torch.log], [t ** 2], [0.5 * t], [-1 + t] and the like. *)
Definition tmap (f : R -> R) (t : Tensor) : Tensor := mkT (shape t) (map f (data t)).

(** Broadcasting of two shapes, aligned at the last dimension. *)
Fixpoint bshape_rev (a b : list nat) : option (list nat) :=
  match a, b with
  | [], _ => Some b
  | _, [] => Some a
  | x :: a', y :: b' =>
      match bshape_rev a' b' with
      | None => None
      | Some r =>
          if (x =? y)%nat then Some (x :: r)
          else if (x =? 1)%nat then Some (y :: r)
          else if (y =? 1)%nat then Some (x :: r)
          else None
      end
  end.

Definition broadcast_shapes (a b : list nat) : option (list nat) :=
  option_map (@rev nat) (bshape_rev (rev a) (rev b)).

Definition pad_left (n : nat) (s : list nat) : list nat :=
  repeat 1%nat (n - length s) ++ s.

(** Entries of a tensor of shape [sin] repeated to fill the shape [sout];
    the two shapes have the same number of dimensions and every dimension
    of [sin] is the one of [sout] or 1. *)
Fixpoint expand (sin sout : list nat) (d : list R) : list R :=
  match sin, sout with
  | x :: sin', y :: sout' =>
      let rows := map (expand sin' sout') (chunks (numel sin') x d) in
      if (x =? y)%nat then concat rows else concat (repeat (concat rows) y)
  | _, _ => d
  end.

Definition expand_to (s sout : list nat) (d : list R) : list R :=
  expand (pad_left (length sout) s) sout d.

(** Elementwise application of a function of two arguments to two tensors,
    with broadcasting; shapes that do not broadcast raise [RuntimeError]. *)
Definition tbin (f : R -> R -> R) (a b : Tensor) : result Tensor :=
  match broadcast_shapes (shape a) (shape b) with
  | None => Raise RuntimeError
  | Some s => Ok (mkT s (map2 f (expand_to (shape a) s (data a))
                               (expand_to (shape b) s (data b))))
  end.

(** Operands are evaluated from left to right. *)
Definition lift2 (op : Tensor -> Tensor -> result Tensor)
    (a b : result Tensor) : result Tensor :=
  x <- a ;; y <- b ;; op x y.

Declare Scope tensor_scope.
Delimit Scope tensor_scope with T.
Notation "a + b" := (lift2 (tbin Rplus) a b) : tensor_scope.
Notation "a - b" := (lift2 (tbin Rminus) a b) : tensor_scope.
Notation "a * b" := (lift2 (tbin Rmult) a b) : tensor_scope.
Notation "a / b" := (lift2 (tbin Rdiv) a b) : tensor_scope.

(** [torch.sum(t)] and [t.sum()] *)
Definition tsum (t : Tensor) : Tensor := scalar (rsum (data t)).

(** [torch.norm(t, p=2)] *)
Definition tnorm2 (t : Tensor) : Tensor :=
  scalar (sqrt (rsum (map (fun x => x ^ 2) (data t)))).

Definition texp : Tensor -> Tensor := tmap exp.
Definition tlog : Tensor -> Tensor := tmap ln.
Definition tsqrt : Tensor -> Tensor := tmap sqrt.
Definition tpow (t : Tensor) (n : nat) : Tensor := tmap (fun x => x ^ n) t.
(** [c * t] and [c + t] for a Python number [c] *)
Definition rmul (c : R) : Tensor -> Tensor := tmap (Rmult c).
Definition radd (c : R) : Tensor -> Tensor := tmap (Rplus c).
(** [t - c] for a Python number [c] *)
Definition rsubr (c : R) : Tensor -> Tensor := tmap (fun x => x - c).
(** [t + c] for a Python number [c] *)
Definition raddr (c : R) : Tensor -> Tensor := tmap (fun x => x + c).
(** [-t] *)
Definition tneg : Tensor -> Tensor := tmap Ropp.
(** [F.softplus(t)] *)
Definition softplus : Tensor -> Tensor := tmap (fun x => ln (1 + exp x)).

(** ** [prob_utils.py]: the analytic functions *)

(** [kl_diag_gaussians(mean_a, logvar_a, mean_b, logvar_b)] *)
Definition kl_diag_gaussians (mean_a logvar_a mean_b logvar_b : list Strided)
  : result Tensor :=
  mean_a_flat <- (views <- mapM view_flat mean_a ;; cat views) ;;
  logvar_a_flat <- (views <- mapM view_flat logvar_a ;; cat views) ;;
  mean_b_flat <- (views <- mapM view_flat mean_b ;; cat views) ;;
  logvar_b_flat <- (views <- mapM view_flat logvar_b ;; cat views) ;;
  fmap (fun t => rmul 0.5 (tsum t))
    (fmap (radd (-1))
       ((Ok (texp logvar_a_flat)
         + fmap (fun t => tpow t 2) (Ok mean_b_flat - Ok mean_a_flat))
        / Ok (texp logvar_b_flat))
     + Ok logvar_b_flat - Ok logvar_a_flat)%T.

(** [kl_diag_gauss_with_standard_gauss(mean, logvar)] *)
Definition kl_diag_gauss_with_standard_gauss (mean logvar : list Strided)
  : result Tensor :=
  mean_flat <- (views <- mapM view_flat mean ;; cat views) ;;
  logvar_flat <- (views <- mapM view_flat logvar ;; cat views) ;;
  let var_flat := texp logvar_flat in
  fmap (fun t => rmul (-0.5) (tsum t))
    (fmap (radd 1) (Ok logvar_flat) - Ok (tpow mean_flat 2) - Ok var_flat)%T.

(** [square_wasserstein_2(mean_a, logvar_a, mean_b, logvar_b)] *)
Definition square_wasserstein_2 (mean_a logvar_a mean_b logvar_b : list Strided)
  : result Tensor :=
  mean_a_flat <- (views <- mapM view_flat mean_a ;; cat views) ;;
  var_a_flat <- fmap texp (views <- mapM view_flat logvar_a ;; cat views) ;;
  mean_b_flat <- (views <- mapM view_flat mean_b ;; cat views) ;;
  var_b_flat <- fmap texp (views <- mapM view_flat logvar_b ;; cat views) ;;
  (fmap (fun t => tpow (tnorm2 t) 2) (Ok mean_a_flat - Ok mean_b_flat)
   + fmap tsum (Ok var_a_flat + Ok var_b_flat
                - fmap (rmul 2) (fmap tsqrt (Ok var_a_flat * Ok var_b_flat))))%T.

(** [torch.clamp(t, min=0.0)] *)
Definition clamp_min0 : Tensor -> Tensor := tmap (fun x => Rmax x 0).

(** [x != y] on Python numbers *)
Definition Rneqb (x y : R) : bool := if Req_dec_T x y then false else true.

(** [compute_kl(mean, exp_var, prior_mean, prior_exp_var, sum, lamb,
    initial_prior_var)]; the Python numbers [lamb] and
    [initial_prior_var] are reals. *)
Definition compute_kl (mean exp_var prior_mean prior_exp_var : Tensor)
    (sum : bool) (lamb initial_prior_var : R) : result Tensor :=
  trace_term <- fmap texp (Ok exp_var - Ok prior_exp_var)%T ;;
  mean_term <-
    (if Rneqb lamb 1 then
       (fmap (fun t => tpow t 2) (Ok mean - Ok prior_mean)
        * Ok (raddr (1.0 / exp (1.0 * initial_prior_var))
                (rmul lamb
                   (clamp_min0
                      (rsubr (1.0 / exp (1.0 * initial_prior_var))
                         (texp (tneg prior_exp_var)))))))%T
     else
       (fmap (fun t => tpow t 2) (Ok mean - Ok prior_mean)
        * Ok (texp (tneg prior_exp_var)))%T) ;;
  det_term <- (Ok prior_exp_var - Ok exp_var)%T ;;
  if sum then
    fmap (fun t => rmul 0.5 (tsum t))
      (fmap (rsubr 1) (Ok trace_term + Ok mean_term + Ok det_term))%T
  else
    fmap (rmul 0.5)
      (fmap (rsubr 1) (Ok trace_term + Ok mean_term + Ok det_term))%T.

(** [kl_gauss(mean_a, logvar_a, mean_b, logvar_b)] *)
Definition kl_gauss (mean_a logvar_a mean_b logvar_b : Tensor) : result Tensor :=
  fmap (rsubr 0.5)
    (fmap (rmul 0.5) (Ok logvar_b - Ok logvar_a)
     + fmap (rmul 0.5)
         (Ok (texp logvar_a) + fmap (fun t => tpow t 2) (Ok mean_a - Ok mean_b))
       / Ok (texp logvar_b))%T.

(** ** Reference formulas

    These follow the mathematical statements; the functions above follow
    the source. *)

(** The Gaussian KL divergence of one coordinate. *)
Definition kl_elem (mean_a logvar_a mean_b logvar_b : R) : R :=
  0.5 * (exp (logvar_a - logvar_b) + (mean_a - mean_b) ^ 2 * exp (- logvar_b)
         + logvar_b - logvar_a - 1).

(** Entry [j] of a tensor. *)
Definition entry (t : Tensor) (j : nat) : R := nth j (data t) 0.

(** The entries of a list of tensors, flattened and concatenated. *)
Definition flat (ts : list Tensor) : list R := concat (map data ts).

(** Two lists of tensors with the same shapes, index by index. *)
Definition same_shapes (xs ys : list Tensor) : Prop :=
  Forall2 (fun x y => shape x = shape y) xs ys.

(** The analytic KL divergence of two diagonal Gaussians, summed over the
    flattened and concatenated coordinates. *)
Definition kl_diag_formula (mean_a logvar_a mean_b logvar_b : list Tensor) : R :=
  0.5 * sum_n (length (flat mean_a))
          (fun j =>
             -1 + (exp (nth j (flat logvar_a) 0)
                   + (nth j (flat mean_b) 0 - nth j (flat mean_a) 0) ^ 2)
                  / exp (nth j (flat logvar_b) 0)
             + nth j (flat logvar_b) 0 - nth j (flat logvar_a) 0).

(** The analytic squared Wasserstein-2 distance of two diagonal Gaussians. *)
Definition w2_formula (mean_a logvar_a mean_b logvar_b : list Tensor) : R :=
  sum_n (length (flat mean_a))
    (fun j => (nth j (flat mean_a) 0 - nth j (flat mean_b) 0) ^ 2)
  + sum_n (length (flat mean_a))
      (fun j =>
         exp (nth j (flat logvar_a) 0) + exp (nth j (flat logvar_b) 0)
         - 2 * sqrt (exp (nth j (flat logvar_a) 0) * exp (nth j (flat logvar_b) 0))).

(** ** Random draws

    A generator state of type [G] answers requests for tensors of
    independent draws and moves on.  No distributional fact is used: the
    properties below hold for every sequence of draws. *)

Class Generator (G : Type) : Type := {
  (** [torch.normal(torch.zeros(shape), 1., generator=g)] *)
  normal : list nat -> G -> Tensor * G;
  (** [torch.rand(size=shape)] *)
  rand : list nat -> G -> Tensor * G;
  normal_shape : forall s g, shape (fst (normal s g)) = s;
  normal_wf : forall s g, wf (fst (normal s g));
  rand_shape : forall s g, shape (fst (rand s g)) = s;
  rand_wf : forall s g, wf (fst (rand s g))
}.

(** A generator that reads its draws off a tape. *)
Record Tape : Type := mkTape { draws : nat -> R; pos : nat }.

Definition tape_draw (s : list nat) (g : Tape) : Tensor * Tape :=
  (mkT s (map (draws g) (seq (pos g) (numel s))),
   mkTape (draws g) (pos g + numel s)).

#[export] Instance tape_generator : Generator Tape := {|
  normal := tape_draw;
  rand := tape_draw;
  normal_shape := fun s g => eq_refl;
  normal_wf := fun s g =>
    eq_trans (length_map (draws g) (seq (pos g) (numel s)))
             (length_seq (numel s) (pos g));
  rand_shape := fun s g => eq_refl;
  rand_wf := fun s g =>
    eq_trans (length_map (draws g) (seq (pos g) (numel s)))
             (length_seq (numel s) (pos g))
|}.

(** Computations that draw from a generator and may raise.  The generator
    keeps the draws made before an exception. *)
Definition rng (G A : Type) : Type := G -> result A * G.

Definition sret {G A : Type} (a : A) : rng G A := fun g => (Ok a, g).

Definition sbind {G A B : Type} (m : rng G A) (k : A -> rng G B) : rng G B :=
  fun g =>
    match m g with
    | (Ok a, g') => k a g'
    | (Raise e, g') => (Raise e, g')
    end.

Definition slift {G A : Type} (r : result A) : rng G A := fun g => (r, g).

Definition draw {G A : Type} (d : G -> A * G) : rng G A :=
  fun g => let (a, g') := d g in (Ok a, g').

Notation "x <~ m ;; k" := (sbind m (fun x => k))
  (at level 61, m at next level, right associativity).

(** [for i, x in enumerate(l)], with the loop state [acc]. *)
Fixpoint for_enumerate {G A St : Type} (body : nat -> A -> St -> rng G St)
    (i : nat) (l : list A) (acc : St) : rng G St :=
  match l with
  | [] => sret acc
  | x :: l' => acc' <~ body i x acc ;; for_enumerate body (S i) l' acc'
  end.

(** [for i in range(n)] *)
Definition for_range {G St : Type} (n : nat) (body : nat -> St -> rng G St)
    (acc : St) : rng G St :=
  for_enumerate (fun _ i => body i) 0 (seq 0 n) acc.

(** [l[i]] on a Python list *)
Definition getitem {A : Type} (l : list A) (i : nat) : result A :=
  match nth_error l i with
  | Some x => Ok x
  | None => Raise IndexError
  end.

(** ** [prob_utils.py]: sampling *)

Section Sampling.
Context {G : Type} `{Generator G}.

(** [sample_diag_gauss(mean, std, generator, is_radial)].  The device
    lookup [mean[0].device] has no counterpart here. *)
Definition sample_diag_gauss (mean std : list Tensor) (is_radial : bool)
  : rng G (list Tensor) :=
  for_enumerate
    (fun i m sample =>
       eps <~ draw (normal (shape m)) ;;
       if negb is_radial then
         x <~ slift (Ok m + Ok eps * getitem std i)%T ;;
         sret (sample ++ [x])
       else
         r <~ draw (normal []) ;;
         x <~ slift (Ok m + getitem std i * Ok r * Ok eps / Ok (tnorm2 eps))%T ;;
         sret (sample ++ [x]))
    0 mean [].

(** [decode_and_sample_diag_gauss(mean, rho, logvar_enc, generator,
    is_radial)] *)
Definition decode_and_sample_diag_gauss (mean rho : list Tensor)
    (logvar_enc is_radial : bool) : rng G (list Tensor) :=
  if negb (length mean =? length rho)%nat then slift (Raise AssertionError)
  else
    for_range (length mean)
      (fun i sample =>
         std <~ slift (if logvar_enc
                       then fmap (fun t => texp (rmul 0.5 t)) (getitem rho i)
                       else fmap softplus (getitem rho i)) ;;
         eps <~ draw (normal (shape std)) ;;
         if negb is_radial then
           x <~ slift (getitem mean i + Ok eps * Ok std)%T ;;
           sret (sample ++ [x])
         else
           r <~ draw (normal []) ;;
           x <~ slift (getitem mean i + Ok std * Ok r * Ok eps / Ok (tnorm2 eps))%T ;;
           sret (sample ++ [x]))
      [].
End Sampling.

(** What the documentation of the radial posterior promises for one
    parameter tensor: [mean + std * (eps / ||eps||) * r]. *)
Definition radial_tensor (m s eps : Tensor) (r : R) : Tensor :=
  mkT (shape m)
    (tab (numel (shape m))
       (fun j =>
          entry m j
          + entry s j
            * (entry eps j / sqrt (sum_n (numel (shape m)) (fun k => entry eps k ^ 2)))
            * r)).

(** One direction tensor and one fresh radius per parameter tensor, in the
    order of the list. *)
Fixpoint radial_sample {G : Type} `{Generator G} (mean std : list Tensor) (g : G)
  : list Tensor * G :=
  match mean, std with
  | m :: mean', s :: std' =>
      let (eps, g1) := normal (shape m) g in
      let (r, g2) := normal [] g1 in
      let (xs, g3) := radial_sample mean' std' g2 in
      (radial_tensor m s eps (entry r 0) :: xs, g3)
  | _, _ => ([], g)
  end.

(** [decode_diag_gauss] on its default return: the standard deviations. *)
Definition decode_std (logvar_enc : bool) (rho : Tensor) : Tensor :=
  if logvar_enc then texp (rmul 0.5 rho) else softplus rho.

(** ** [torch.distributions.Normal] *)

Record NormalDist : Type := mkNormal { loc : Tensor; scale : Tensor }.

Definition Rpositiveb (x : R) : bool := if Rlt_dec 0 x then true else false.

(** [Normal(loc, scale)]: the parameters are broadcast against each other
    and the scale is checked to be positive, as the argument validation of
    the distribution does. *)
Definition Normal (mu sigma : Tensor) : result NormalDist :=
  match broadcast_shapes (shape mu) (shape sigma) with
  | None => Raise RuntimeError
  | Some s =>
      let l := mkT s (expand_to (shape mu) s (data mu)) in
      let sc := mkT s (expand_to (shape sigma) s (data sigma)) in
      if forallb Rpositiveb (data sc) then Ok (mkNormal l sc)
      else Raise ValueError
  end.

(** [p.log_prob(value)], which is
    [-((value - loc) ** 2) / (2 * var) - log_scale
     - math.log(math.sqrt(2 * math.pi))] with [var = scale ** 2]. *)
Definition log_prob (p : NormalDist) (value : Tensor) : result Tensor :=
  let var := tpow (scale p) 2 in
  let log_scale := tlog (scale p) in
  fmap (rsubr (ln (sqrt (2 * PI))))
    (fmap tneg (fmap (fun t => tpow t 2) (Ok value - Ok (loc p)))
     / Ok (rmul 2 var)
     - Ok log_scale)%T.

(** ** [kl_radial_bnn_with_diag_gauss] *)

(** The accumulator [cross_entropy] starts as the Python number [0] and
    becomes a tensor at the first [+=]. *)
Inductive pynum : Type :=
| PyNum (x : R)
| PyTensor (t : Tensor).

(** [a += t] on a tensor [a]: the result must keep the shape of [a]. *)
Definition tbin_inplace (f : R -> R -> R) (a t : Tensor) : result Tensor :=
  match broadcast_shapes (shape a) (shape t) with
  | None => Raise RuntimeError
  | Some s =>
      if shape_eqb s (shape a)
      then Ok (mkT s (map2 f (expand_to (shape a) s (data a))
                             (expand_to (shape t) s (data t))))
      else Raise RuntimeError
  end.

(** [acc += t] *)
Definition iadd (acc : pynum) (t : Tensor) : result pynum :=
  match acc with
  | PyNum x => Ok (PyTensor (radd x t))
  | PyTensor a => fmap PyTensor (tbin_inplace Rplus a t)
  end.

(** [acc /= n] for a Python integer [n] *)
Definition idiv (acc : pynum) (n : Z) : result pynum :=
  match acc with
  | PyNum x => if (n =? 0)%Z then Raise ZeroDivisionError
               else Ok (PyNum (x / IZR n))
  | PyTensor a => Ok (PyTensor (tmap (fun x => x / IZR n) a))
  end.

(** [t - acc] *)
Definition tsub_pynum (t : Tensor) (acc : pynum) : result Tensor :=
  match acc with
  | PyNum x => Ok (rsubr x t)
  | PyTensor a => tbin Rminus t a
  end.

Section KlRadial.
Context {G : Type} `{Generator G}.

(** [kl_radial_bnn_with_diag_gauss(mean_a, std_a, mean_b, std_b,
    ce_sample_size, generator)] *)
Definition kl_radial_bnn_with_diag_gauss (mean_a : list Tensor)
    (std_a : list Strided) (mean_b std_b : list Tensor)
    (ce_sample_size : Z) : rng G Tensor :=
  entropy <~ slift (fmap (fun t => tneg (tsum (tlog t)))
                      (views <- mapM view_flat std_a ;; cat views)) ;;
  cross_entropy <~
    for_range (Z.to_nat ce_sample_size)
      (fun n cross_entropy =>
         sample <~ sample_diag_gauss mean_a (map tensor std_a) true ;;
         for_range (length mean_b)
           (fun i cross_entropy =>
              p_b <~ slift (mu <- getitem mean_b i ;;
                            sigma <- getitem std_b i ;;
                            Normal mu sigma) ;;
              lp <~ slift (x <- getitem sample i ;; log_prob p_b x) ;;
              slift (iadd cross_entropy (tsum lp)))
           cross_entropy)
      (PyNum 0) ;;
  cross_entropy <~ slift (idiv cross_entropy ce_sample_size) ;;
  slift (tsub_pynum entropy cross_entropy).
End KlRadial.

(** The logarithm of the density of [N(mu, sigma^2)] at [x]. *)
Definition log_normal (x mu sigma : R) : R :=
  ln (/ (sigma * sqrt (2 * PI)) * exp (- (x - mu) ^ 2 / (2 * sigma ^ 2))).

(** The log-density summed over the entries of one parameter tensor. *)
Definition log_normal_sum (x mu sigma : Tensor) : R :=
  sum_n (numel (shape mu))
    (fun e => log_normal (entry x e) (entry mu e) (entry sigma e)).

(** ... and over the parameter tensors. *)
Fixpoint cross_sum (sample mean_b std_b : list Tensor) : R :=
  match sample, mean_b, std_b with
  | x :: sample', mu :: mean_b', sigma :: std_b' =>
      log_normal_sum x mu sigma + cross_sum sample' mean_b' std_b'
  | _, _, _ => 0
  end.

(** The sum of the log-densities of [n] successive radial samples. *)
Fixpoint cross_total {G : Type} `{Generator G}
    (mean_a std_a mean_b std_b : list Tensor) (n : nat) (g : G) : R * G :=
  match n with
  | O => (0, g)
  | S k =>
      let (sample, g1) := radial_sample mean_a std_a g in
      let (rest, g2) := cross_total mean_a std_a mean_b std_b k g1 in
      (cross_sum sample mean_b std_b + rest, g2)
  end.

(** The negative entropy term of the radial posterior minus the average
    log-density of [n] samples. *)
Definition kl_radial_formula {G : Type} `{Generator G}
    (mean_a std_a mean_b std_b : list Tensor) (n : Z) (g : G) : R :=
  - sum_n (length (flat std_a)) (fun j => ln (nth j (flat std_a) 0))
  - 1 / IZR n * fst (cross_total mean_a std_a mean_b std_b (Z.to_nat n) g).

(** Every entry is positive, as for a standard deviation. *)
Definition positive (ts : list Tensor) : Prop :=
  Forall (fun t => Forall (fun x => 0 < x) (data t)) ts.

(** The accumulator holds the real [x], as a Python number or as a
    zero-dimensional tensor. *)
Definition acc_val (acc : pynum) (x : R) : Prop :=
  acc = PyNum x \/ acc = PyTensor (scalar x).

(** ** Hypernetwork outputs *)

(** The return value of [extract_mean_std]: a pair, or a triple when
    [return_logvar] is set. *)
Inductive mean_std : Type :=
| MeanStd (mean std : list Tensor)
| MeanStdLogvar (mean std logvar : list Tensor).

(** [extract_mean_std(hnet_outputs, return_logvar)].  The deprecation
    warning issued before the assertion does not change the value; it is
    part of the store semantics further down. *)
Definition extract_mean_std (hnet_outputs : list Tensor) (return_logvar : bool)
  : result mean_std :=
  if negb (length hnet_outputs mod 2 =? 0)%nat then Raise AssertionError
  else
    let n := (length hnet_outputs / 2)%nat in
    let mean := skipn n hnet_outputs in
    let logvar := firstn n hnet_outputs in
    std <- mapM (fun i => fmap (fun t => texp (rmul 0.5 t)) (getitem logvar i))
             (seq 0 n) ;;
    if return_logvar then Ok (MeanStdLogvar mean std logvar)
    else Ok (MeanStd mean std).

Section HnetSampling.
Context {G : Type} `{Generator G}.

(** [p.rsample()]: one draw of the shape of the distribution, scaled and
    shifted. *)
Definition rsample (p : NormalDist) : rng G Tensor :=
  eps <~ draw (normal (shape (loc p))) ;;
  slift (Ok (loc p) + Ok eps * Ok (scale p))%T.

(** [sample_diag_gaus_from_hnet(hnet_outputs)]; the draws come from the
    default generator. *)
Definition sample_diag_gaus_from_hnet (hnet_outputs : list Tensor)
  : rng G (list Tensor) :=
  if negb (length hnet_outputs mod 2 =? 0)%nat then slift (Raise AssertionError)
  else
    let n := (length hnet_outputs / 2)%nat in
    let mu := skipn n hnet_outputs in
    let logvar := firstn n hnet_outputs in
    for_range n
      (fun i sample =>
         std <~ slift (fmap (fun t => texp (rmul 0.5 t)) (getitem logvar i)) ;;
         p <~ slift (m <- getitem mu i ;; Normal m std) ;;
         x <~ rsample p ;;
         sret (sample ++ [x]))
      [].

(** Reparametrised samples of the Gaussians with means [mu] and
    log-variances [logvar], tensor by tensor. *)
Fixpoint reparam_sample (mu logvar : list Tensor) : rng G (list Tensor) :=
  match mu, logvar with
  | m :: mu', lv :: logvar' =>
      p <~ slift (Normal m (texp (rmul 0.5 lv))) ;;
      x <~ rsample p ;;
      xs <~ reparam_sample mu' logvar' ;;
      sret (x :: xs)
  | _, _ => sret []
  end.
End HnetSampling.

(** ** Shape manipulation, indexing and softmax *)

(** [len(t)] on a tensor *)
Definition tlen (t : Tensor) : result nat :=
  match shape t with
  | [] => Raise TypeError
  | n :: _ => Ok n
  end.

(** [t[i]]: the slice [i] along dimension 0 *)
Definition tindex (t : Tensor) (i : nat) : result Tensor :=
  match shape t with
  | [] => Raise IndexError
  | n :: rest =>
      if (i <? n)%nat
      then Ok (mkT rest (firstn (numel rest) (skipn (i * numel rest) (data t))))
      else Raise IndexError
  end.

(** [torch.unsqueeze(t, d)] *)
Definition unsqueeze (t : Tensor) (d : nat) : result Tensor :=
  if (d <=? length (shape t))%nat
  then Ok (mkT (firstn d (shape t) ++ 1%nat :: skipn d (shape t)) (data t))
  else Raise IndexError.

(** Entries of a tensor of shape [s] repeated [reps] times along each
    dimension. *)
Fixpoint tile_data (s reps : list nat) (d : list R) : list R :=
  match s, reps with
  | x :: s', r :: reps' =>
      let rows := map (tile_data s' reps') (chunks (numel s') x d) in
      concat (repeat (concat rows) r)
  | _, _ => d
  end.

(** [torch.tile(t, reps)]: the shorter of the shape and [reps] is filled
    with ones on the left. *)
Definition tile (t : Tensor) (reps : list nat) : Tensor :=
  let n := Nat.max (length (shape t)) (length reps) in
  let s := pad_left n (shape t) in
  let r := pad_left n reps in
  mkT (map2 Nat.mul s r) (tile_data s r (data t)).

(** [F.softmax(t, dim)]: entry [j] is normalised by the sum over the
    entries that differ from [j] in the index along [dim] only. *)
Definition softmax (t : Tensor) (dim : nat) : result Tensor :=
  match shape t with
  | [] =>
      if (dim =? 0)%nat then Ok (tmap (fun x => exp x / exp x) t)
      else Raise IndexError
  | _ =>
      if (dim <? length (shape t))%nat then
        let n := nth dim (shape t) 0%nat in
        let inner := numel (skipn (S dim) (shape t)) in
        Ok (mkT (shape t)
              (tab (length (data t))
                 (fun j =>
                    exp (entry t j)
                    / sum_n n
                        (fun i =>
                           exp (entry t ((j / (n * inner)) * (n * inner)
                                         + i * inner + j mod inner))))))
      else Raise IndexError
  end.

(** ** [sample_gumbel] *)

(** [for i in l: body], where the body may return from the function; the
    statements after the loop run when it does not. *)
Fixpoint for_return {G A : Type} (l : list nat) (body : nat -> rng G (option A))
    (after : rng G A) : rng G A :=
  match l with
  | [] => after
  | i :: l' =>
      r <~ body i ;;
      match r with
      | Some v => sret v
      | None => for_return l' body after
      end
  end.

(** What [sample_gumbel] returns: the list [sample] or a tensor. *)
Inductive gumbel_value : Type :=
| GumbelList (sample : list Tensor)
| GumbelTensor (t : Tensor).

(** [1. / tau] *)
Definition py_inv (tau : R) : result R :=
  if Req_dec_T tau 0 then Raise ZeroDivisionError else Ok (1 / tau).

(** [-torch.log(-torch.log(u + eps) + eps)] *)
Definition gumbel_noise (eps : R) (u : Tensor) : Tensor :=
  tneg (tlog (raddr eps (tneg (tlog (raddr eps u))))).

Section Gumbel.
Context {G : Type} `{Generator G}.

(** [sample_gumbel(mean, rho, logvar_enc, coef, tau, gauss_mixture, K, d_in,
    d_out, is_bias, generator, is_radial)]; [mean] and [rho] are lists of
    tensors and [coef] is a tensor, as [torch.unsqueeze(coef, 0)] needs.
    The argument [generator] is not used by the source: [torch.rand] draws
    from the default generator. *)
Definition sample_gumbel (mean rho : list Tensor) (logvar_enc : bool)
    (coef : Tensor) (tau : R) (gauss_mixture K d_in d_out : nat)
    (is_bias is_radial : bool) : rng G gumbel_value :=
  _ <~ slift (if negb (length mean =? length rho)%nat then Raise AssertionError
              else n <- tlen coef ;;
                   if negb (length mean =? n)%nat then Raise AssertionError
                   else Ok tt) ;;
  let sample := [] in
  (* device = mean[0][0].device if len(mean) > 0 else None *)
  _ <~ slift (if (0 <? length mean)%nat
              then m <- getitem mean 0 ;; _ <- tindex m 0 ;; Ok tt
              else Ok tt) ;;
  for_return (seq 0 (length mean))
    (fun i =>
       std <~ slift (if logvar_enc
                     then fmap (fun t => texp (rmul 0.5 t)) (getitem rho i)
                     else fmap softplus (getitem rho i)) ;;
       let zero_term := if negb is_bias then [K; gauss_mixture; d_in; d_out]
                        else [K; gauss_mixture; 1%nat; d_out] in
       coef_expand <~
         slift (if negb is_bias
                then fmap (fun t => tile t [K; 1; 1; 1]%nat) (unsqueeze coef 0)
                else u <- unsqueeze coef 0 ;;
                     fmap (fun t => tile t [K; 1; 1; 1]%nat) (unsqueeze u 2)) ;;
       let eps := 1e-20 in
       gumbel_sample <~ draw (rand zero_term) ;;
       let gumbel_sample := gumbel_noise eps gumbel_sample in
       coff_expand_softmax <~ slift (softmax coef_expand 1) ;;
       coff_expand_softmax_gumbel <~
         slift (c <- py_inv tau ;;
                x <- (Ok (tlog coff_expand_softmax) + Ok gumbel_sample)%T ;;
                softmax (rmul c x) 1) ;;
       sret (Some (GumbelTensor coff_expand_softmax_gumbel)))
    (sret (GumbelList sample)).

End Gumbel.

(** * The hyperparameter-search configuration modules *)

(** The values of a search grid. *)
Inductive pyval : Type :=
| PBool (b : bool)
| PInt (z : Z)
| PFloat (r : R)
| PStr (s : string).

(** A grid maps parameter names to the values to search, in the order of
    the dictionary display. *)
Definition pydict : Type := list (string * list pyval).

(** A condition is a pair of two such dictionaries. *)
Definition condition : Type := (pydict * pydict)%type.

(** The values bound to the names of a configuration module. *)
Inductive nsval : Type :=
| VDict (d : pydict)
| VConditions (l : list condition)
| VStr (s : string)
| VStrs (l : list string)
| VBool (b : bool)
| VNone
| VHandle (h : string).

(** The namespace of a module, updated by each assignment. *)
Definition namespace : Type := string -> option nsval.

Definition empty_namespace : namespace := fun _ => None.

Definition assign (name : string) (v : nsval) (ns : namespace) : namespace :=
  fun x => if String.eqb x name then Some v else ns x.

(** Reading a name that is expected to hold a list of conditions. *)
Definition load_conditions (ns : namespace) (name : string)
  : result (list condition) :=
  match ns name with
  | Some (VConditions l) => Ok l
  | Some _ => Raise TypeError
  | None => Raise NameError
  end.

(** [assert(key is None or key in keywords)] *)
Definition assert_key (key : option string) (keywords : list string)
  : result unit :=
  match key with
  | None => Ok tt
  | Some k => if existsb (String.eqb k) keywords then Ok tt
              else Raise AssertionError
  end.

(** The attributes that the configurations read from the modules they
    import; those modules are not part of the sources at hand. *)
Module hpsplit.
Record attributes : Type := {
  _BASE_CONDITIONS : list condition;
  _BBB_CONDITIONS : list condition;
  _SUMMARY_KEYWORDS : list string
}.
End hpsplit.

Module hpsplitbbb.
Record attributes : Type := {
  _BASE_CONDITIONS : list condition
}.
End hpsplitbbb.

Module hpsplitssge.
Record attributes : Type := {
  _SSGE_CONDITIONS : list condition;
  _SUMMARY_FILENAME : string;
  _SUMMARY_KEYWORDS : list string
}.
End hpsplitssge.

(** [probabilistic/prob_cifar/hpsearch_config_zenke_bbb_mixture.py] *)
Module hpsearch_config_zenke_bbb_mixture.
Local Open Scope string_scope.
Local Open Scope list_scope.

Definition grid : pydict :=
  [ ("beta", [PFloat 0.01]);
    ("cl_scenario", [PInt 1]);
    ("use_adam", [PBool true]);
    ("radial_bnn", [PBool false]);
    ("hnet_type", [PStr "hmlp"]);
    ("disable_data_augmentation", [PBool true]) ]%string.

(** The conditions written by the user: none. *)
Definition conditions : list condition := [].

(** The statements of the module, in their order. *)
Definition init (imported : hpsplit.attributes) : result namespace :=
  let ns := empty_namespace in
  let ns := assign "grid" (VDict grid) ns in
  let ns := assign "conditions" (VConditions conditions) ns in
  c <- load_conditions ns "conditions" ;;
  let ns := assign "conditions"
              (VConditions (c ++ hpsplit._BASE_CONDITIONS imported
                              ++ hpsplit._BBB_CONDITIONS imported)) ns in
  let ns := assign "_SCRIPT_NAME" (VStr "train_zenke_bbb.py") ns in
  let ns := assign "_SUMMARY_FILENAME" (VStr "performance_overview.txt") ns in
  let ns := assign "_SUMMARY_KEYWORDS"
              (VStrs (hpsplit._SUMMARY_KEYWORDS imported)) ns in
  let ns := assign "_OUT_ARG" (VStr "out_dir") ns in
  let ns := assign "_SUMMARY_PARSER_HANDLE" VNone ns in
  let ns := assign "_PERFORMANCE_EVAL_HANDLE"
              (VHandle "hpsplit._performance_criteria") ns in
  let ns := assign "_PERFORMANCE_KEY" (VStr "acc_avg_final") ns in
  _ <- assert_key (Some "acc_avg_final") (hpsplit._SUMMARY_KEYWORDS imported) ;;
  let ns := assign "_PERFORMANCE_SORT_ASC" (VBool false) ns in
  let ns := assign "targs" (VHandle "probabilistic.prob_mnist.train_args") ns in
  let ns := assign "_ARGPARSE_HANDLE" (VHandle "lambda argv") ns in
  Ok ns.

End hpsearch_config_zenke_bbb_mixture.

(** [probabilistic/prob_gmm/hpsearch_config_gmm_ssge.py] *)
Module hpsearch_config_gmm_ssge.
Local Open Scope string_scope.
Local Open Scope list_scope.

Definition grid : pydict :=
  [ ("beta", [PFloat 1]);
    ("use_adam", [PBool true]);
    ("imp_hnet_type", [PStr "hmlp"]);
    ("hh_hnet_type", [PStr "hmlp"]);
    ("full_support_perturbation", [PInt (-1)]) ]%string.

(** The conditions written by the user: none. *)
Definition conditions : list condition := [].

(** The statements of the module, in their order. *)
Definition init (bbb : hpsplitbbb.attributes) (ssge : hpsplitssge.attributes)
  : result namespace :=
  let ns := empty_namespace in
  let ns := assign "grid" (VDict grid) ns in
  let ns := assign "conditions" (VConditions conditions) ns in
  c <- load_conditions ns "conditions" ;;
  let ns := assign "conditions"
              (VConditions (c ++ hpsplitbbb._BASE_CONDITIONS bbb
                              ++ hpsplitssge._SSGE_CONDITIONS ssge)) ns in
  let ns := assign "_SCRIPT_NAME" (VStr "train_gmm_ssge.py") ns in
  let ns := assign "_SUMMARY_FILENAME"
              (VStr (hpsplitssge._SUMMARY_FILENAME ssge)) ns in
  let ns := assign "_SUMMARY_KEYWORDS"
              (VStrs (hpsplitssge._SUMMARY_KEYWORDS ssge)) ns in
  let ns := assign "_OUT_ARG" (VStr "out_dir") ns in
  let ns := assign "_SUMMARY_PARSER_HANDLE" VNone ns in
  let ns := assign "_PERFORMANCE_EVAL_HANDLE"
              (VHandle "hpsplitbbb._performance_criteria") ns in
  let ns := assign "_PERFORMANCE_KEY" (VStr "acc_avg_final") ns in
  _ <- assert_key (Some "acc_avg_final") (hpsplitssge._SUMMARY_KEYWORDS ssge) ;;
  let ns := assign "_PERFORMANCE_SORT_ASC" (VBool false) ns in
  let ns := assign "targs" (VHandle "probabilistic.prob_mnist.train_args") ns in
  let ns := assign "_ARGPARSE_HANDLE" (VHandle "lambda argv") ns in
  Ok ns.

End hpsearch_config_gmm_ssge.

(** * Gaussian mixtures *)

(** A mixture as the source indexes it: [m[0]] the component means, [m[1]]
    the component log-variances, [m[2]] the coefficient logits. *)
Record mixture : Type := {
  component_means : list Tensor;
  component_logvars : list Tensor;
  coefficient_logits : Tensor
}.

(** [range(n)] for a Python integer [n] *)
Definition zrange (n : Z) : list Z := map Z.of_nat (seq 0 (Z.to_nat n)).

(** [compute_coef(num_component)] *)
Definition compute_coef (num_component : Z) : list Z :=
  let result := [1%Z] in
  let result :=
    fold_left (fun result i => result ++ [((i + 1) * 1000)%Z])
      (zrange (num_component - 1)) result in
  rev result.

(** [for i in l], with the loop state [acc], in code that draws nothing. *)
Fixpoint for_each {A St : Type} (l : list A) (body : A -> St -> result St)
    (acc : St) : result St :=
  match l with
  | [] => Ok acc
  | x :: l' => acc' <- body x acc ;; for_each l' body acc'
  end.

(** [upperbound_kl_mixture_gauss(mixture_gauss_a, mixture_gauss_b)], with
    the helper it calls as a parameter. *)
Definition upperbound_kl_mixture_gauss_with (compute_coef : Z -> list Z)
    (mixture_gauss_a mixture_gauss_b : mixture) : result pynum :=
  let num_component := length (component_means mixture_gauss_a) in
  let list_mean_a := component_means mixture_gauss_a in
  let list_mean_b := component_means mixture_gauss_b in
  let list_logvar_a := component_logvars mixture_gauss_a in
  let list_logvar_b := component_logvars mixture_gauss_b in
  list_coef_a <- softmax (coefficient_logits mixture_gauss_a) 0 ;;
  list_coef_b <- softmax (coefficient_logits mixture_gauss_b) 0 ;;
  let kl := PyNum 0 in
  let coef := compute_coef (Z.of_nat num_component) in
  for_each (seq 0 num_component)
    (fun i kl =>
       kl <- (x <- (tindex list_coef_a i
                    * (fmap tlog (tindex list_coef_a i)
                       - fmap tlog (tindex list_coef_b i)))%T ;;
              iadd kl (tsum x)) ;;
       x <- (tindex list_coef_a i
             * (mean_a <- getitem list_mean_a i ;;
                logvar_a <- getitem list_logvar_a i ;;
                mean_b <- getitem list_mean_b i ;;
                logvar_b <- getitem list_logvar_b i ;;
                kl_gauss mean_a logvar_a mean_b logvar_b))%T ;;
       iadd kl (tsum x))
    kl.

Definition upperbound_kl_mixture_gauss : mixture -> mixture -> result pynum :=
  upperbound_kl_mixture_gauss_with compute_coef.

(** The softmax over dimension 0 of the logits [c]: the weight of
    component [i] at position [p] of a component slice. *)
Definition coef_weight (c : Tensor) (i p : nat) : R :=
  let n := hd 0%nat (shape c) in
  let P := numel (tl (shape c)) in
  exp (entry c (i * P + p)) / sum_n n (fun k => exp (entry c (k * P + p))).

(** The position of the weight that multiplies entry [e] of a component:
    the only one when there is one weight per component, position [e]
    when the weights have the shape of the component. *)
Definition coef_position (c : Tensor) (e : nat) : nat :=
  match tl (shape c) with
  | [] => 0%nat
  | _ => e
  end.

(** The upper bound on the KL divergence of two Gaussian mixtures:
    [sum_i (sum (ca_i * (log ca_i - log cb_i))
            + sum (ca_i * kl_gauss(mean_a_i, logvar_a_i, mean_b_i, logvar_b_i)))]. *)
Definition upperbound_formula (a b : mixture) : R :=
  let ca := coef_weight (coefficient_logits a) in
  let cb := coef_weight (coefficient_logits b) in
  let P := numel (tl (shape (coefficient_logits a))) in
  sum_n (length (component_means a))
    (fun i =>
       sum_n P (fun p => ca i p * (ln (ca i p) - ln (cb i p)))
       + sum_n (numel (shape (nth i (component_means a) (scalar 0))))
           (fun e =>
              ca i (coef_position (coefficient_logits a) e)
              * kl_elem (entry (nth i (component_means a) (scalar 0)) e)
                        (entry (nth i (component_logvars a) (scalar 0)) e)
                        (entry (nth i (component_means b) (scalar 0)) e)
                        (entry (nth i (component_logvars b) (scalar 0)) e))).

(** The weights have the shape [sc]: none, or the shape of every
    component. *)
Definition weights_fit (sc : list nat) (ts : list Tensor) : Prop :=
  Forall (fun t => sc = [] \/ shape t = sc) ts.

(** The weight that [softmax] over dimension 0 gives to entry [j] of
    logits tabulated by [f], in [n] slices of [P] entries. *)
Definition softmax0_entry (n P : nat) (f : nat -> R) (j : nat) : R :=
  exp (f j) / sum_n n (fun k => exp (f (k * P + j mod P)%nat)).


(** ** The Gumbel-softmax weights, entry by entry

    For the sample [k], the component [m] and the position [q] in a
    component slice of [inner] entries, with [u] the tensor of uniform
    draws: the logit is
    [(1 / tau) * (log softmax(coef)[m, q] + noise[k, m, q])], where
    [noise = -log(-log(u + 1e-20) + 1e-20)] and the softmax is taken over
    the components. *)
Definition gumbel_logit (coef u : Tensor) (tau : R) (gauss_mixture inner : nat)
    (k m q : nat) : R :=
  1 / tau
  * (ln (coef_weight coef m q)
     + - ln (- ln (entry u ((k * gauss_mixture + m) * inner + q) + 1e-20) + 1e-20)).

(** The weight of the component [m] is the softmax of the logits over the
    components. *)
Definition gumbel_weight (coef u : Tensor) (tau : R) (gauss_mixture inner : nat)
    (k m q : nat) : R :=
  exp (gumbel_logit coef u tau gauss_mixture inner k m q)
  / sum_n gauss_mixture
      (fun m' => exp (gumbel_logit coef u tau gauss_mixture inner k m' q)).

(** The tensor of shape [(K, gauss_mixture, c, d_out)] of these weights;
    entry [j] is the one of sample [j / (gauss_mixture * inner)],
    component [(j / inner) mod gauss_mixture] and position [j mod inner],
    for [inner = c * d_out]. *)
Definition gumbel_softmax_formula (coef u : Tensor) (tau : R)
    (gauss_mixture K c d_out : nat) : Tensor :=
  let inner := numel [c; d_out] in
  mkT [K; gauss_mixture; c; d_out]
    (tab (numel [K; gauss_mixture; c; d_out])
       (fun j => gumbel_weight coef u tau gauss_mixture inner
                   (j / (gauss_mixture * inner))
                   ((j / inner) mod gauss_mixture)
                   (j mod inner))).

(** [torch.zeros_like(t)] *)
Definition zeros_like (t : Tensor) : Tensor := tmap (fun _ => 0) t.

(** The zero tensors of the shapes of [ts], contiguous as [torch.zeros]
    makes them. *)
Definition zeros_of (ts : list Strided) : list Strided :=
  map contiguous (map zeros_like (map tensor ts)).


(** [kl_mixture_gauss(distribution_a, distribution_b, gauss_mixture, lamb)];
    a distribution is indexed like a mixture: the means, the exponents of
    the variances, the coefficients. *)
Definition kl_mixture_gauss (distribution_a distribution_b : mixture)
    (gauss_mixture : Z) (lamb : R) : result pynum :=
  let mean_a := component_means distribution_a in
  let mean_b := component_means distribution_b in
  let var_a := component_logvars distribution_a in
  let var_b := component_logvars distribution_b in
  let coff_a := coefficient_logits distribution_a in
  let coff_b := coefficient_logits distribution_b in
  let kl := PyNum 0 in
  for_each (seq 0 (Z.to_nat gauss_mixture))
    (fun i kl =>
       kl <- (x <- (tindex coff_a i
                    * (fmap tlog (tindex coff_a i) - fmap tlog (tindex coff_b i)))%T ;;
              iadd kl (tsum x)) ;;
       x <- (tindex coff_a i
             * (ma <- getitem mean_a i ;;
                va <- getitem var_a i ;;
                mb <- getitem mean_b i ;;
                vb <- getitem var_b i ;;
                compute_kl ma va mb vb false lamb 0.0))%T ;;
       iadd kl (tsum x))
    kl.

(** What [decode_diag_gauss] returns: one list, or a tuple of lists. *)
Inductive lists : Type :=
| ListOf (l : list Tensor)
| TupleOf (ls : list (list Tensor)).

(** [decode_diag_gauss(rho, logvar_enc, return_var, return_logvar)]; the
    loop state is the three lists the source appends to. *)
Definition decode_diag_gauss (rho : list Tensor)
    (logvar_enc return_var return_logvar : bool) : result lists :=
  let ret_std := [] in
  let ret_var := [] in
  let ret_logvar := [] in
  st <- for_each (seq 0 (length rho))
          (fun i st =>
             let '(ret_std, ret_var, ret_logvar) := st in
             sl <- (if logvar_enc then
                      std <- fmap texp (fmap (rmul 0.5) (getitem rho i)) ;;
                      logvar <- getitem rho i ;;
                      Ok (std, logvar)
                    else
                      std <- fmap softplus (getitem rho i) ;;
                      logvar <- fmap (rmul 2) (fmap tlog (Ok std)) ;;
                      Ok (std, logvar)) ;;
             let ret_std := ret_std ++ [fst sl] in
             let ret_logvar := ret_logvar ++ [snd sl] in
             if return_var then
               Ok (ret_std, ret_var ++ [tpow (fst sl) 2], ret_logvar)
             else Ok (ret_std, ret_var, ret_logvar))
          (ret_std, ret_var, ret_logvar) ;;
  let '(ret_std, ret_var, ret_logvar) := st in
  if return_var && return_logvar then Ok (TupleOf [ret_std; ret_var; ret_logvar])
  else if return_var then Ok (TupleOf [ret_std; ret_var])
  else if return_logvar then Ok (TupleOf [ret_std; ret_logvar])
  else Ok (ListOf ret_std).


(** * The functions of [prob_utils.py] over a Python store

    For the effects of the functions, lists and tensors are objects of a
    store: a list object holds references, a tensor is a view (storage,
    slices, shape, layout) on a storage object, and a call turns a store
    into a store.  The numbers computed are those of the definitions
    above. *)

Module Py.

Definition addr : Type := nat.

(** How the entries that a view sees lie in its window of the storage:
    one after the other in the order of their indices, as in a contiguous
    tensor, or the entry of index [(i_1, ..., i_k)] at
    [offset + i_1 * steps_1 + ... + i_k * steps_k], as in a transposed or
    expanded tensor or a slice of columns. *)
Inductive layout : Type :=
| Dense
| Strides (offset : nat) (steps : list nat).

(** A tensor value: a view on a storage.  The slices are taken one after
    the other, each as (offset, length), and give the window of the
    view. *)
Record handle : Type := mkHandle {
  storage : addr;
  slices : list (nat * nat);
  hshape : list nat;
  hlayout : layout
}.

#[warnings="-register-all"]
Inductive value : Type :=
| VNone
| VBool (b : bool)
| VInt (z : Z)
| VFloat (x : R)
| VList (l : addr)
| VTuple (vs : list value)
| VTensor (h : handle)
| VNormal (mu sigma : handle)
| VGenerator (i : nat)
| VDict.

Inductive object : Type :=
| OList (items : list value)
| OStorage (d : list R).

(** [l[i] = x] on the representation of the store; nothing changes out
    of range. *)
Fixpoint replace_nth {A : Type} (i : nat) (x : A) (l : list A) : list A :=
  match l, i with
  | [], _ => []
  | _ :: l', O => x :: l'
  | y :: l', S j => y :: replace_nth j x l'
  end.

(** The entries that a view sees in its storage. *)
Definition window (sl : list (nat * nat)) (d : list R) : list R :=
  fold_left (fun d p => firstn (snd p) (skipn (fst p) d)) sl d.

(** The positions in the window of the entries of a strided view, in the
    order of their indices. *)
Fixpoint positions (offset : nat) (sizes steps : list nat) : list nat :=
  match sizes with
  | [] => [offset]
  | n :: sizes' =>
      flat_map (fun i => positions (offset + i * hd 0%nat steps) sizes' (tl steps))
        (seq 0 n)
  end.

(** The entries at the positions [ps]. *)
Definition gather (ps : list nat) (d : list R) : list R :=
  map (fun p => nth p d 0) ps.

(** The entries at the positions [ps] replaced by those of [new]. *)
Fixpoint scatter (ps : list nat) (new d : list R) : list R :=
  match ps, new with
  | p :: ps', x :: new' => scatter ps' new' (replace_nth p x d)
  | _, _ => d
  end.

(** The entries that a view sees in its storage [d], in the order of their
    indices. *)
Definition seen (h : handle) (d : list R) : list R :=
  match hlayout h with
  | Dense => window (slices h) d
  | Strides offset steps =>
      gather (positions offset (hshape h) steps) (window (slices h) d)
  end.

(** The strides of a view, one per dimension; where the steps of a strided
    view are too few, a missing step counts as 0, as it does in
    [positions]. *)
Definition strides_of (h : handle) : list nat :=
  match hlayout h with
  | Dense => row_major (hshape h)
  | Strides _ steps => steps ++ repeat 0%nat (length (hshape h) - length steps)
  end.

(** The storage after the entries seen through the slices are replaced. *)
Fixpoint write_slices (sl : list (nat * nat)) (d new : list R) : list R :=
  match sl with
  | [] => new
  | (o, n) :: sl' =>
      firstn o d ++ write_slices sl' (firstn n (skipn o d)) new ++ skipn (o + n) d
  end.

Section Store.
Context {G : Type} `{Generator G}.

(** The store: the objects, the names bound at the level of the module,
    the default generator of [torch], the generator objects, and the
    warnings and lines written so far. *)
Record store : Type := mkStore {
  heap : list object;
  module_globals : list (string * value);
  default_generator : G;
  generators : list G;
  warnings : list string;
  stdout : list string
}.

Definition set_heap (h : list object) (s : store) : store :=
  mkStore h (module_globals s) (default_generator s) (generators s)
    (warnings s) (stdout s).

Definition M (A : Type) : Type := store -> result A * store.

Definition ret {A : Type} (a : A) : M A := fun s => (Ok a, s).

Definition raise {A : Type} (e : exn) : M A := fun s => (Raise e, s).

Definition mbind {A B : Type} (m : M A) (k : A -> M B) : M B :=
  fun s =>
    match m s with
    | (Ok a, s') => k a s'
    | (Raise e, s') => (Raise e, s')
    end.

Definition lift_result {A : Type} (r : result A) : M A := fun s => (r, s).

Notation "x <<- m ;; k" := (mbind m (fun x => k))
  (at level 61, m at next level, right associativity).

(** ** Objects *)

Definition alloc (o : object) : M addr :=
  fun s => (Ok (length (heap s)), set_heap (heap s ++ [o]) s).

Definition lookup (l : addr) : M object :=
  fun s =>
    match nth_error (heap s) l with
    | Some o => (Ok o, s)
    | None => (Raise RuntimeError, s)
    end.

Definition update (l : addr) (o : object) : M unit :=
  fun s => (Ok tt, set_heap (replace_nth l o (heap s)) s).

(** ** Lists *)

(** [[x, ...]], a slice or a comprehension: a new list object *)
Definition new_list (items : list value) : M value :=
  l <<- alloc (OList items) ;; ret (VList l).

(** The elements of a list or tuple, for [len], indexing and iteration. *)
Definition list_items (v : value) : M (list value) :=
  match v with
  | VList l =>
      o <<- lookup l ;;
      match o with
      | OList items => ret items
      | OStorage _ => raise TypeError
      end
  | VTuple vs => ret vs
  | _ => raise TypeError
  end.

(** [v.append(x)] *)
Definition append (v x : value) : M unit :=
  match v with
  | VList l => items <<- list_items v ;; update l (OList (items ++ [x]))
  | _ => raise TypeError
  end.

(** ** Tensors *)

Definition read_handle (s : store) (h : handle) : option Tensor :=
  match nth_error (heap s) (storage h) with
  | Some (OStorage d) => Some (mkT (hshape h) (seen h d))
  | _ => None
  end.

Definition read_tensor (s : store) (v : value) : option Tensor :=
  match v with
  | VTensor h => read_handle s h
  | _ => None
  end.

(** The tensor that an argument of a [torch] function denotes. *)
Definition load (v : value) : M Tensor :=
  fun s =>
    match read_tensor s v with
    | Some t => (Ok t, s)
    | None => (Raise TypeError, s)
    end.

(** A tensor with a storage of its own, as every [torch] function that
    computes entries returns. *)
Definition new_tensor (t : Tensor) : M value :=
  l <<- alloc (OStorage (data t)) ;; ret (VTensor (mkHandle l [] (shape t) Dense)).

(** Functions of one and of two tensors: the arguments are read, the
    result gets a new storage. *)
Definition torch1 (f : Tensor -> Tensor) (m : M value) : M value :=
  a <<- m ;; t <<- load a ;; new_tensor (f t).

Definition torch1r (f : Tensor -> result Tensor) (m : M value) : M value :=
  a <<- m ;; t <<- load a ;; r <<- lift_result (f t) ;; new_tensor r.

Definition torch2 (op : Tensor -> Tensor -> result Tensor) (ma mb : M value)
  : M value :=
  a <<- ma ;; b <<- mb ;;
  x <<- load a ;; y <<- load b ;;
  r <<- lift_result (op x y) ;; new_tensor r.

(** The step of the one dimension that the dimensions of a view merge
    into: the step of the last dimension of more than one index. *)
Definition merged_step (sizes steps : list nat) : nat :=
  last (map snd (squeeze_dims sizes steps)) 1%nat.

(** [t.view(-1)]: a view on the same storage, where the dimensions merge
    into one; no copy is made, and [RuntimeError] is raised where they do
    not merge. *)
Definition view_flat (v : value) : M value :=
  match v with
  | VTensor h =>
      if mergeable_dims (hshape h) (strides_of h)
      then ret (VTensor
                  (mkHandle (storage h) (slices h) [numel (hshape h)]
                     match hlayout h with
                     | Dense => Dense
                     | Strides offset _ =>
                         Strides offset [merged_step (hshape h) (strides_of h)]
                     end))
      else raise RuntimeError
  | _ => raise TypeError
  end.

(** [torch.unsqueeze(t, d)]: a view on the same storage; the new dimension
    of one index steps over the dimension it is put before. *)
Definition unsqueeze (v : value) (d : nat) : M value :=
  match v with
  | VTensor h =>
      if (d <=? length (hshape h))%nat
      then ret (VTensor
                  (mkHandle (storage h) (slices h)
                     (firstn d (hshape h) ++ 1%nat :: skipn d (hshape h))
                     match hlayout h with
                     | Dense => Dense
                     | Strides offset steps =>
                         Strides offset
                           (firstn d steps
                            ++ match nth_error (combine (hshape h) steps) d with
                               | Some (n, step) => (n * step)%nat
                               | None => 1%nat
                               end
                            :: skipn d steps)
                     end))
      else raise IndexError
  | _ => raise TypeError
  end.

(** [v[i]]: an element of a list or tuple, or the view of the slice [i]
    of a tensor *)
Definition getitem (v : value) (i : nat) : M value :=
  match v with
  | VTensor h =>
      match hshape h with
      | [] => raise IndexError
      | n :: rest =>
          if (i <? n)%nat
          then ret (VTensor
                      match hlayout h with
                      | Dense =>
                          mkHandle (storage h)
                            (slices h ++ [((i * numel rest)%nat, numel rest)])
                            rest Dense
                      | Strides offset steps =>
                          mkHandle (storage h) (slices h) rest
                            (Strides (offset + i * hd 0%nat steps) (tl steps))
                      end)
          else raise IndexError
      end
  | _ =>
      items <<- list_items v ;;
      match nth_error items i with
      | Some x => ret x
      | None => raise IndexError
      end
  end.

(** [len(v)] *)
Definition len (v : value) : M nat :=
  match v with
  | VTensor h =>
      match hshape h with
      | [] => raise TypeError
      | n :: _ => ret n
      end
  | _ => items <<- list_items v ;; ret (length items)
  end.

(** [v[n:]]: a new list of the elements of a list from the index [n] on,
    the tuple of those of a tuple, or the view of the slices of a tensor
    from [n] on *)
Definition slice_from (v : value) (n : nat) : M value :=
  match v with
  | VList _ => items <<- list_items v ;; new_list (skipn n items)
  | VTuple vs => ret (VTuple (skipn n vs))
  | VTensor h =>
      match hshape h with
      | [] => raise IndexError
      | k :: rest =>
          let n := Nat.min n k in
          ret (VTensor
                 match hlayout h with
                 | Dense =>
                     mkHandle (storage h)
                       (slices h ++ [((n * numel rest)%nat, ((k - n) * numel rest)%nat)])
                       ((k - n)%nat :: rest) Dense
                 | Strides offset steps =>
                     mkHandle (storage h) (slices h) ((k - n)%nat :: rest)
                       (Strides (offset + n * hd 0%nat steps) steps)
                 end)
      end
  | _ => raise TypeError
  end.

(** [v[:n]]: likewise, the elements before the index [n] *)
Definition slice_to (v : value) (n : nat) : M value :=
  match v with
  | VList _ => items <<- list_items v ;; new_list (firstn n items)
  | VTuple vs => ret (VTuple (firstn n vs))
  | VTensor h =>
      match hshape h with
      | [] => raise IndexError
      | k :: rest =>
          let n := Nat.min n k in
          ret (VTensor
                 match hlayout h with
                 | Dense =>
                     mkHandle (storage h)
                       (slices h ++ [(0%nat, (n * numel rest)%nat)])
                       (n :: rest) Dense
                 | Strides offset steps =>
                     mkHandle (storage h) (slices h) (n :: rest)
                       (Strides offset steps)
                 end)
      end
  | _ => raise TypeError
  end.

(** The entries of a view are replaced in its storage. *)
Definition store_tensor (h : handle) (new : list R) : M unit :=
  o <<- lookup (storage h) ;;
  match o with
  | OStorage d =>
      update (storage h)
        (OStorage
           (write_slices (slices h) d
              match hlayout h with
              | Dense => new
              | Strides offset steps =>
                  scatter (positions offset (hshape h) steps) new
                    (window (slices h) d)
              end))
  | OList _ => raise TypeError
  end.

(** [acc += x] for a tensor [x]: on a number the sum is a new tensor, on a
    tensor the sum is written into it. *)
Definition iadd (acc x : value) : M value :=
  match acc with
  | VInt z => torch1 (radd (IZR z)) (ret x)
  | VFloat c => torch1 (radd c) (ret x)
  | VTensor h =>
      a <<- load acc ;; t <<- load x ;;
      r <<- lift_result (tbin_inplace Rplus a t) ;;
      _ <<- store_tensor h (data r) ;;
      ret acc
  | _ => raise TypeError
  end.

(** [acc /= n] for a Python integer [n] *)
Definition idiv (acc : value) (n : Z) : M value :=
  match acc with
  | VInt z => if (n =? 0)%Z then raise ZeroDivisionError
              else ret (VFloat (IZR z / IZR n))
  | VFloat c => if (n =? 0)%Z then raise ZeroDivisionError
                else ret (VFloat (c / IZR n))
  | VTensor h =>
      a <<- load acc ;;
      _ <<- store_tensor h (map (fun x => x / IZR n) (data a)) ;;
      ret acc
  | _ => raise TypeError
  end.

(** ** Generators, warnings and output *)

Definition set_default_generator (g : G) (s : store) : store :=
  mkStore (heap s) (module_globals s) g (generators s) (warnings s) (stdout s).

Definition set_generators (gs : list G) (s : store) : store :=
  mkStore (heap s) (module_globals s) (default_generator s) gs
    (warnings s) (stdout s).

(** A draw from the generator [gen], or from the default generator when
    [gen] is [None]. *)
Definition with_generator {A : Type} (gen : value) (d : G -> A * G) : M A :=
  match gen with
  | VNone =>
      fun s => let (a, g') := d (default_generator s) in
               (Ok a, set_default_generator g' s)
  | VGenerator i =>
      fun s =>
        match nth_error (generators s) i with
        | Some g => let (a, g') := d g in
                    (Ok a, set_generators (replace_nth i g' (generators s)) s)
        | None => (Raise RuntimeError, s)
        end
  | _ => raise TypeError
  end.

(** [torch.normal(torch.zeros_like(m), 1., generator=gen)] *)
Definition normal_like (m gen : value) : M value :=
  t <<- load m ;;
  eps <<- with_generator gen (normal (shape t)) ;;
  new_tensor eps.

(** [torch.normal(torch.tensor(0.).to(device), 1., generator=gen)] *)
Definition normal_scalar (gen : value) : M value :=
  r <<- with_generator gen (normal []) ;; new_tensor r.

(** [ns.setdefault(k, v)] on the names of a module *)
Definition setdefault (k : string) (v : value) (ns : list (string * value))
  : list (string * value) :=
  if existsb (fun p => String.eqb (fst p) k) ns then ns else ns ++ [(k, v)].

(** [warn(msg, DeprecationWarning)]: [warnings.warn] takes the registry of
    the calling module with
    [globals.setdefault('__warningregistry__', {})], which binds the name
    to a new dict where it was not bound, and hands the warning to the
    warnings machinery.  The entries of the dict are not followed. *)
Definition warn (msg : string) : M unit :=
  fun s => (Ok tt, mkStore (heap s)
                     (setdefault "__warningregistry__" VDict (module_globals s))
                     (default_generator s)
                     (generators s) (warnings s ++ [msg]) (stdout s)).

(** [print(...)] *)
Definition print (line : string) : M unit :=
  fun s => (Ok tt, mkStore (heap s) (module_globals s) (default_generator s)
                     (generators s) (warnings s) (stdout s ++ [line])).

(** [for x in l], with the loop state [acc] *)
Fixpoint for_in {A St : Type} (l : list A) (body : A -> St -> M St) (acc : St)
  : M St :=
  match l with
  | [] => ret acc
  | x :: l' => acc' <<- body x acc ;; for_in l' body acc'
  end.

(** [[f(x) for x in l]] *)
Fixpoint map_in {A B : Type} (f : A -> M B) (l : list A) : M (list B) :=
  match l with
  | [] => ret []
  | x :: l' => y <<- f x ;; ys <<- map_in f l' ;; ret (y :: ys)
  end.

Declare Scope py_scope.
Delimit Scope py_scope with py.
Notation "a + b" := (torch2 (tbin Rplus) a b) : py_scope.
Notation "a - b" := (torch2 (tbin Rminus) a b) : py_scope.
Notation "a * b" := (torch2 (tbin Rmult) a b) : py_scope.
Notation "a / b" := (torch2 (tbin Rdiv) a b) : py_scope.

(** ** More of [torch] *)

(** The elements that [for x in v] visits: those of a list or tuple, or
    the views of the slices of a tensor. *)
Definition iter_items (v : value) : M (list value) :=
  match v with
  | VTensor h =>
      match hshape h with
      | [] => raise TypeError
      | n :: _ => map_in (getitem v) (seq 0 n)
      end
  | _ => list_items v
  end.

(** [torch.cat(v)] for a list [v] of tensors *)
Definition torch_cat (mv : M value) : M value :=
  v <<- mv ;;
  items <<- list_items v ;;
  ts <<- map_in load items ;;
  r <<- lift_result (cat ts) ;;
  new_tensor r.

(** [[t.view(-1) for t in v]] *)
Definition flat_views (v : value) : M value :=
  items <<- iter_items v ;;
  views <<- map_in view_flat items ;;
  new_list views.

(** [torch.normal(0.0, 1., size=size, generator=gen)] *)
Definition normal_size (size : list nat) (gen : value) : M value :=
  eps <<- with_generator gen (normal size) ;; new_tensor eps.

(** [torch.rand(size=size)], from the default generator *)
Definition torch_rand (size : list nat) : M value :=
  u <<- with_generator VNone (rand size) ;; new_tensor u.

(** [Normal(mu, sigma)] *)
Definition new_Normal (mmu msigma : M value) : M value :=
  a <<- mmu ;; b <<- msigma ;;
  x <<- load a ;; y <<- load b ;;
  p <<- lift_result (Normal x y) ;;
  lm <<- alloc (OStorage (data (loc p))) ;;
  ls <<- alloc (OStorage (data (scale p))) ;;
  ret (VNormal (mkHandle lm [] (shape (loc p)) Dense)
         (mkHandle ls [] (shape (scale p)) Dense)).

(** [p.log_prob(v)] *)
Definition Normal_log_prob (p : value) (mv : M value) : M value :=
  v <<- mv ;;
  match p with
  | VNormal hm hs =>
      m <<- load (VTensor hm) ;; sg <<- load (VTensor hs) ;; x <<- load v ;;
      r <<- lift_result (log_prob (mkNormal m sg) x) ;;
      new_tensor r
  | _ => raise TypeError
  end.

(** [p.rsample()], from the default generator *)
Definition Normal_rsample (p : value) : M value :=
  match p with
  | VNormal hm hs =>
      m <<- load (VTensor hm) ;; sg <<- load (VTensor hs) ;;
      eps <<- with_generator VNone (normal (shape m)) ;;
      r <<- lift_result (Ok m + Ok eps * Ok sg)%T ;;
      new_tensor r
  | _ => raise TypeError
  end.

(** [t - acc] for a number or tensor [acc] *)
Definition sub_value (t acc : value) : M value :=
  match acc with
  | VInt z => torch1 (rsubr (IZR z)) (ret t)
  | VFloat c => torch1 (rsubr c) (ret t)
  | _ => torch2 (tbin Rminus) (ret t) (ret acc)
  end.

(** ** The functions *)

(** [decode_and_sample_diag_gauss(mean, rho, logvar_enc, generator,
    is_radial)] *)
Definition decode_and_sample_diag_gauss (mean rho : value) (logvar_enc : bool)
    (generator : value) (is_radial : bool) : M value :=
  n <<- len mean ;;
  nr <<- len rho ;;
  if negb (n =? nr)%nat then raise AssertionError
  else
    sample <<- new_list [] ;;
    _ <<- (if (0 <? n)%nat then getitem mean 0 else ret VNone) ;;
    _ <<- for_in (seq 0 n)
            (fun i _ =>
               std <<- (if logvar_enc
                        then torch1 texp (torch1 (rmul 0.5) (getitem rho i))
                        else torch1 softplus (getitem rho i)) ;;
               eps <<- normal_like std generator ;;
               if negb is_radial then
                 x <<- (getitem mean i + ret eps * ret std)%py ;;
                 append sample x
               else
                 r <<- normal_scalar generator ;;
                 x <<- (getitem mean i
                        + ret std * ret r * ret eps / torch1 tnorm2 (ret eps))%py ;;
                 append sample x)
            tt ;;
    ret sample.

(** [decode_diag_gauss(rho, logvar_enc, return_var, return_logvar)] *)
Definition decode_diag_gauss (rho : value) (logvar_enc return_var return_logvar : bool)
  : M value :=
  ret_std <<- new_list [] ;;
  ret_var <<- new_list [] ;;
  ret_logvar <<- new_list [] ;;
  n <<- len rho ;;
  _ <<- for_in (seq 0 n)
          (fun i _ =>
             sl <<- (if logvar_enc then
                       std <<- torch1 texp (torch1 (rmul 0.5) (getitem rho i)) ;;
                       logvar <<- getitem rho i ;;
                       ret (std, logvar)
                     else
                       std <<- torch1 softplus (getitem rho i) ;;
                       logvar <<- torch1 (rmul 2) (torch1 tlog (ret std)) ;;
                       ret (std, logvar)) ;;
             _ <<- append ret_std (fst sl) ;;
             _ <<- append ret_logvar (snd sl) ;;
             if return_var then
               v <<- torch1 (fun t => tpow t 2) (ret (fst sl)) ;;
               append ret_var v
             else ret tt)
          tt ;;
  if return_var && return_logvar then ret (VTuple [ret_std; ret_var; ret_logvar])
  else if return_var then ret (VTuple [ret_std; ret_var])
  else if return_logvar then ret (VTuple [ret_std; ret_logvar])
  else ret ret_std.

(** [sample_diag_gauss(mean, std, generator, is_radial)] *)
Definition sample_diag_gauss (mean std generator : value) (is_radial : bool)
  : M value :=
  sample <<- new_list [] ;;
  n <<- len mean ;;
  _ <<- (if (0 <? n)%nat then getitem mean 0 else ret VNone) ;;
  items <<- iter_items mean ;;
  _ <<- for_in (combine (seq 0 (length items)) items)
          (fun im _ =>
             let i := fst im in
             let m := snd im in
             eps <<- normal_like m generator ;;
             if negb is_radial then
               x <<- (ret m + ret eps * getitem std i)%py ;;
               append sample x
             else
               r <<- normal_scalar generator ;;
               x <<- (ret m + getitem std i * ret r * ret eps
                      / torch1 tnorm2 (ret eps))%py ;;
               append sample x)
          tt ;;
  ret sample.

(** [kl_diag_gaussians(mean_a, logvar_a, mean_b, logvar_b)] *)
Definition kl_diag_gaussians (mean_a logvar_a mean_b logvar_b : value) : M value :=
  mean_a_flat <<- torch_cat (flat_views mean_a) ;;
  logvar_a_flat <<- torch_cat (flat_views logvar_a) ;;
  mean_b_flat <<- torch_cat (flat_views mean_b) ;;
  logvar_b_flat <<- torch_cat (flat_views logvar_b) ;;
  torch1 (rmul 0.5)
    (torch1 tsum
       (torch1 (radd (-1))
          ((torch1 texp (ret logvar_a_flat)
            + torch1 (fun t => tpow t 2) (ret mean_b_flat - ret mean_a_flat))
           / torch1 texp (ret logvar_b_flat))
        + ret logvar_b_flat - ret logvar_a_flat))%py.

(** [kl_diag_gauss_with_standard_gauss(mean, logvar)] *)
Definition kl_diag_gauss_with_standard_gauss (mean logvar : value) : M value :=
  mean_flat <<- torch_cat (flat_views mean) ;;
  logvar_flat <<- torch_cat (flat_views logvar) ;;
  var_flat <<- torch1 texp (ret logvar_flat) ;;
  torch1 (rmul (-0.5))
    (torch1 tsum
       (torch1 (radd 1) (ret logvar_flat)
        - torch1 (fun t => tpow t 2) (ret mean_flat)
        - ret var_flat))%py.

(** [square_wasserstein_2(mean_a, logvar_a, mean_b, logvar_b)] *)
Definition square_wasserstein_2 (mean_a logvar_a mean_b logvar_b : value)
  : M value :=
  mean_a_flat <<- torch_cat (flat_views mean_a) ;;
  var_a_flat <<- torch1 texp (torch_cat (flat_views logvar_a)) ;;
  mean_b_flat <<- torch_cat (flat_views mean_b) ;;
  var_b_flat <<- torch1 texp (torch_cat (flat_views logvar_b)) ;;
  (torch1 (fun t => tpow t 2) (torch1 tnorm2 (ret mean_a_flat - ret mean_b_flat))
   + torch1 tsum
       (ret var_a_flat + ret var_b_flat
        - torch1 (rmul 2) (torch1 tsqrt (ret var_a_flat * ret var_b_flat))))%py.

(** [kl_radial_bnn_with_diag_gauss(mean_a, std_a, mean_b, std_b,
    ce_sample_size, generator)] *)
Definition kl_radial_bnn_with_diag_gauss (mean_a std_a mean_b std_b : value)
    (ce_sample_size : Z) (generator : value) : M value :=
  entropy <<- torch1 tneg (torch1 tsum (torch1 tlog (torch_cat (flat_views std_a)))) ;;
  cross_entropy <<-
    for_in (seq 0 (Z.to_nat ce_sample_size))
      (fun n cross_entropy =>
         sample <<- sample_diag_gauss mean_a std_a generator true ;;
         nb <<- len mean_b ;;
         for_in (seq 0 nb)
           (fun i cross_entropy =>
              p_b <<- new_Normal (getitem mean_b i) (getitem std_b i) ;;
              lp <<- torch1 tsum (Normal_log_prob p_b (getitem sample i)) ;;
              iadd cross_entropy lp)
           cross_entropy)
      (VInt 0) ;;
  cross_entropy <<- idiv cross_entropy ce_sample_size ;;
  sub_value entropy cross_entropy.

(** [sample_diag_gaus_from_hnet(hnet_outputs)]; of the message of the
    warning, the first words are kept. *)
Definition sample_diag_gaus_from_hnet (hnet_outputs : value) : M value :=
  _ <<- warn "Please use a main network wrapper" ;;
  k <<- len hnet_outputs ;;
  if negb (k mod 2 =? 0)%nat then raise AssertionError
  else
    k <<- len hnet_outputs ;;
    let n := (k / 2)%nat in
    mu <<- slice_from hnet_outputs n ;;
    logvar <<- slice_to hnet_outputs n ;;
    sample <<- new_list [] ;;
    _ <<- for_in (seq 0 n)
            (fun i _ =>
               std <<- torch1 texp (torch1 (rmul 0.5) (getitem logvar i)) ;;
               p <<- new_Normal (getitem mu i) (ret std) ;;
               x <<- Normal_rsample p ;;
               append sample x)
            tt ;;
    ret sample.

(** [extract_mean_std(hnet_outputs, return_logvar)]; of the message of the
    warning, the first words are kept. *)
Definition extract_mean_std (hnet_outputs : value) (return_logvar : bool) : M value :=
  _ <<- warn "Please use a main network wrapper" ;;
  k <<- len hnet_outputs ;;
  if negb (k mod 2 =? 0)%nat then raise AssertionError
  else
    k <<- len hnet_outputs ;;
    let n := (k / 2)%nat in
    mean <<- slice_from hnet_outputs n ;;
    logvar <<- slice_to hnet_outputs n ;;
    stds <<- map_in (fun i => torch1 texp (torch1 (rmul 0.5) (getitem logvar i)))
               (seq 0 n) ;;
    std <<- new_list stds ;;
    if return_logvar then ret (VTuple [mean; std; logvar])
    else ret (VTuple [mean; std]).

(** [sample_gumbel_softmax(x, tau)] *)
Definition sample_gumbel_softmax (x : value) (tau : R) : M value :=
  let eps := 1e-20 in
  t <<- load x ;;
  uniform_sample <<- torch_rand (shape t) ;;
  gumbel_sample <<- torch1 (gumbel_noise eps) (ret uniform_sample) ;;
  c <<- lift_result (py_inv tau) ;;
  torch1r (fun t => softmax t 0)
    (torch1 (rmul c)
       (torch1 tlog (torch1r (fun t => softmax t 0) (ret x))
        + ret gumbel_sample))%py.

(** [compute_kl(mean, exp_var, prior_mean, prior_exp_var, sum, lamb,
    initial_prior_var)] *)
Definition compute_kl (mean exp_var prior_mean prior_exp_var : value)
    (sum : bool) (lamb initial_prior_var : R) : M value :=
  trace_term <<- torch1 texp (ret exp_var - ret prior_exp_var)%py ;;
  mean_term <<-
    (if Rneqb lamb 1 then
       (torch1 (fun t => tpow t 2) (ret mean - ret prior_mean)
        * torch1 (raddr (1.0 / exp (1.0 * initial_prior_var)))
            (torch1 (rmul lamb)
               (torch1 clamp_min0
                  (torch1 (rsubr (1.0 / exp (1.0 * initial_prior_var)))
                     (torch1 texp (torch1 tneg (ret prior_exp_var)))))))%py
     else
       (torch1 (fun t => tpow t 2) (ret mean - ret prior_mean)
        * torch1 texp (torch1 tneg (ret prior_exp_var)))%py) ;;
  det_term <<- (ret prior_exp_var - ret exp_var)%py ;;
  if sum then
    torch1 (rmul 0.5)
      (torch1 tsum
         (torch1 (rsubr 1) (ret trace_term + ret mean_term + ret det_term)))%py
  else
    torch1 (rmul 0.5)
      (torch1 (rsubr 1) (ret trace_term + ret mean_term + ret det_term))%py.

(** [kl_mixture_gauss(distribution_a, distribution_b, gauss_mixture, lamb)] *)
Definition kl_mixture_gauss (distribution_a distribution_b : value)
    (gauss_mixture : Z) (lamb : R) : M value :=
  mean_a <<- getitem distribution_a 0 ;;
  mean_b <<- getitem distribution_b 0 ;;
  var_a <<- getitem distribution_a 1 ;;
  var_b <<- getitem distribution_b 1 ;;
  coff_a <<- getitem distribution_a 2 ;;
  coff_b <<- getitem distribution_b 2 ;;
  for_in (seq 0 (Z.to_nat gauss_mixture))
    (fun i kl =>
       t1 <<- torch1 tsum
                (getitem coff_a i
                 * (torch1 tlog (getitem coff_a i) - torch1 tlog (getitem coff_b i)))%py ;;
       kl <<- iadd kl t1 ;;
       t2 <<- torch1 tsum
                (getitem coff_a i
                 * (ma <<- getitem mean_a i ;;
                    va <<- getitem var_a i ;;
                    mb <<- getitem mean_b i ;;
                    vb <<- getitem var_b i ;;
                    compute_kl ma va mb vb false lamb 0.0))%py ;;
       iadd kl t2)
    (VInt 0).

(** [sample_gauss(mean, rho, logvar_enc, coef, gauss_mixture, K, d_in,
    d_out, is_bias, generator, is_radial)]; the name [mean] is bound anew
    in every iteration and carried to the next one. *)
Definition sample_gauss (mean rho : value) (logvar_enc : bool) (coef : value)
    (gauss_mixture K d_in d_out : nat) (is_bias : bool) (generator : value)
    (is_radial : bool) : M value :=
  n <<- len mean ;;
  nr <<- len rho ;;
  ok <<- (if (n =? nr)%nat then nc <<- len coef ;; ret (n =? nc)%nat
          else ret false) ;;
  if negb ok then raise AssertionError
  else
    sample <<- new_list [] ;;
    _ <<- (if (0 <? n)%nat then m0 <<- getitem mean 0 ;; getitem m0 0
           else ret VNone) ;;
    _ <<- for_in (seq 0 n)
            (fun i mean =>
               std <<- (if logvar_enc
                        then torch1 texp (torch1 (rmul 0.5) (getitem rho i))
                        else
                          _ <<- getitem rho i ;;
                          _ <<- print "The rho: " ;;
                          torch1 softplus (torch1 (fun t => t) (getitem rho i))) ;;
               ems <<- (if negb is_bias then
                          eps <<- normal_size [K; gauss_mixture; d_in; d_out] generator ;;
                          ret (eps, (mean, std))
                        else
                          eps <<- normal_size [K; gauss_mixture; 1%nat; d_out] generator ;;
                          ms <<- iter_items mean ;;
                          ms' <<- map_in (fun t => unsqueeze t 0) ms ;;
                          mean' <<- new_list ms' ;;
                          ss <<- iter_items std ;;
                          ss' <<- map_in (fun t => unsqueeze t 0) ss ;;
                          std' <<- new_list ss' ;;
                          ret (eps, (mean', std'))) ;;
               let eps := fst ems in
               mean <<- torch1 (fun t => tile t [K; 1; 1; 1]%nat)
                          (unsqueeze (fst (snd ems)) 0) ;;
               std <<- torch1 (fun t => tile t [K; 1; 1; 1]%nat)
                         (unsqueeze (snd (snd ems)) 0) ;;
               x <<- (if negb is_radial then
                        (getitem mean i + ret eps * ret std)%py
                      else
                        r <<- normal_scalar generator ;;
                        (getitem mean i
                         + ret std * ret r * ret eps / torch1 tnorm2 (ret eps))%py) ;;
               _ <<- append sample x ;;
               ret mean)
            mean ;;
    ret sample.

(** [for i in l: body], where the body may return from the function *)
Fixpoint for_in_return {A : Type} (l : list nat) (body : nat -> M (option A))
    (after : M A) : M A :=
  match l with
  | [] => after
  | i :: l' =>
      r <<- body i ;;
      match r with
      | Some v => ret v
      | None => for_in_return l' body after
      end
  end.

(** [sample_gumbel(mean, rho, logvar_enc, coef, tau, gauss_mixture, K, d_in,
    d_out, is_bias, generator, is_radial)] *)
Definition sample_gumbel (mean rho : value) (logvar_enc : bool) (coef : value)
    (tau : R) (gauss_mixture K d_in d_out : nat) (is_bias : bool)
    (generator : value) (is_radial : bool) : M value :=
  n <<- len mean ;;
  nr <<- len rho ;;
  ok <<- (if (n =? nr)%nat then nc <<- len coef ;; ret (n =? nc)%nat
          else ret false) ;;
  if negb ok then raise AssertionError
  else
    sample <<- new_list [] ;;
    _ <<- (if (0 <? n)%nat then m0 <<- getitem mean 0 ;; getitem m0 0
           else ret VNone) ;;
    for_in_return (seq 0 n)
      (fun i =>
         std <<- (if logvar_enc
                  then torch1 texp (torch1 (rmul 0.5) (getitem rho i))
                  else torch1 softplus (getitem rho i)) ;;
         let zero_term := if negb is_bias then [K; gauss_mixture; d_in; d_out]
                          else [K; gauss_mixture; 1%nat; d_out] in
         coef_expand <<-
           (if negb is_bias
            then torch1 (fun t => tile t [K; 1; 1; 1]%nat) (unsqueeze coef 0)
            else u <<- unsqueeze coef 0 ;;
                 torch1 (fun t => tile t [K; 1; 1; 1]%nat) (unsqueeze u 2)) ;;
         let eps := 1e-20 in
         gumbel_sample <<- torch_rand zero_term ;;
         gumbel_sample <<- torch1 (gumbel_noise eps) (ret gumbel_sample) ;;
         coff_expand_softmax <<- torch1r (fun t => softmax t 1) (ret coef_expand) ;;
         c <<- lift_result (py_inv tau) ;;
         coff_expand_softmax_gumbel <<-
           torch1r (fun t => softmax t 1)
             (torch1 (rmul c)
                (torch1 tlog (ret coff_expand_softmax) + ret gumbel_sample))%py ;;
         ret (Some coff_expand_softmax_gumbel))
      (ret sample).

(** [sample_from_gumbel_softmax_trick(...)]: the call of [sample_gumbel]
    passes eleven arguments to a function of twelve parameters, which
    Python rejects with [TypeError] before the statements that follow. *)
Definition sample_from_gumbel_softmax_trick (mean rho coef : value) (tau : R)
    (gauss_mixture K d_in d_out : nat) (is_bias logvar_enc : bool)
    (generator : value) (is_radial : bool) : M value :=
  gauss_sample <<- sample_gauss mean rho logvar_enc coef gauss_mixture K
                     d_in d_out is_bias generator is_radial ;;
  raise TypeError.

(** [compute_coef(num_component)] *)
Definition compute_coef (num_component : Z) : M value :=
  result <<- new_list [] ;;
  _ <<- append result (VInt 1) ;;
  _ <<- for_in (zrange (num_component - 1))
          (fun i _ => append result (VInt ((i + 1) * 1000)))
          tt ;;
  items <<- list_items result ;;
  result <<- new_list (rev items) ;;
  ret result.

(** [kl_gauss(mean_a, logvar_a, mean_b, logvar_b)] *)
Definition kl_gauss (mean_a logvar_a mean_b logvar_b : value) : M value :=
  torch1 (rsubr 0.5)
    (torch1 (rmul 0.5) (ret logvar_b - ret logvar_a)
     + torch1 (rmul 0.5)
         (torch1 texp (ret logvar_a)
          + torch1 (fun t => tpow t 2) (ret mean_a - ret mean_b))
       / torch1 texp (ret logvar_b))%py.

(** [upperbound_kl_mixture_gauss(mixture_gauss_a, mixture_gauss_b)] *)
Definition upperbound_kl_mixture_gauss (mixture_gauss_a mixture_gauss_b : value)
  : M value :=
  means <<- getitem mixture_gauss_a 0 ;;
  num_component <<- len means ;;
  list_mean_a <<- getitem mixture_gauss_a 0 ;;
  list_mean_b <<- getitem mixture_gauss_b 0 ;;
  list_logvar_a <<- getitem mixture_gauss_a 1 ;;
  list_logvar_b <<- getitem mixture_gauss_b 1 ;;
  list_coef_a <<- torch1r (fun t => softmax t 0) (getitem mixture_gauss_a 2) ;;
  list_coef_b <<- torch1r (fun t => softmax t 0) (getitem mixture_gauss_b 2) ;;
  coef <<- compute_coef (Z.of_nat num_component) ;;
  for_in (seq 0 num_component)
    (fun i kl =>
       t1 <<- torch1 tsum
                (getitem list_coef_a i
                 * (torch1 tlog (getitem list_coef_a i)
                    - torch1 tlog (getitem list_coef_b i)))%py ;;
       kl <<- iadd kl t1 ;;
       t2 <<- torch1 tsum
                (getitem list_coef_a i
                 * (ma <<- getitem list_mean_a i ;;
                    la <<- getitem list_logvar_a i ;;
                    mb <<- getitem list_mean_b i ;;
                    lb <<- getitem list_logvar_b i ;;
                    kl_gauss ma la mb lb))%py ;;
       iadd kl t2)
    (VFloat 0).

(** ** What a call may change *)

(** [v] refers to an object made when the store had [b] objects already. *)
Definition fresh (b : nat) (v : value) : Prop :=
  match v with
  | VList l => (b <= l)%nat
  | VTensor h => (b <= storage h)%nat
  | _ => True
  end.

(** What a slice [a] of the argument [v] is: a list object made when the
    store had [b] objects already for a list, a tuple for a tuple, a
    tensor for a tensor. *)
Definition slice_of (b : nat) (v a : value) : Prop :=
  match v with
  | VList _ => exists l, a = VList l /\ (b <= l)%nat
  | VTuple _ => exists vs, a = VTuple vs
  | VTensor _ => exists h, a = VTensor h
  | _ => False
  end.

(** What [extract_mean_std] returns in a store that had [b] objects: a
    tuple of the slice [mean], the new list [std] and, if asked for, the
    slice [logvar]. *)
Definition mean_std_tuple (b : nat) (hnet_outputs : value) (return_logvar : bool)
    (a : value) : Prop :=
  exists mean std rest,
    a = VTuple (mean :: std :: rest)
    /\ slice_of b hnet_outputs mean
    /\ (exists l, std = VList l /\ (b <= l)%nat)
    /\ Forall (slice_of b hnet_outputs) rest
    /\ length rest = if return_logvar then 1%nat else 0%nat.

(** No object is lost, the objects below [b] are as they were, and so are
    the names of the module. *)
Definition preserves (b : nat) (s s' : store) : Prop :=
  (length (heap s) <= length (heap s'))%nat
  /\ (forall l, (l < b)%nat -> nth_error (heap s') l = nth_error (heap s) l)
  /\ module_globals s' = module_globals s.

(** From a store with at least [b] objects, [m] preserves the objects below
    [b], and what it returns satisfies [Q]. *)
Definition framed {A : Type} (b : nat) (m : M A) (Q : A -> Prop) : Prop :=
  forall s, (b <= length (heap s))%nat ->
    preserves b s (snd (m s)) /\ (forall a, fst (m s) = Ok a -> Q a).

(** A call is stateless when every list and every tensor storage of the
    store it starts from is the same afterwards, and so are the names of
    the module, whether it returns or raises. *)
Definition stateless {A : Type} (m : M A) : Prop :=
  forall s,
    (forall l o, nth_error (heap s) l = Some o ->
                 nth_error (heap (snd (m s))) l = Some o)
    /\ module_globals (snd (m s)) = module_globals s.

(** A call that warns keeps every list and every tensor storage of the
    store it starts from, and leaves the names of the module as
    [warnings.warn] leaves them: a name that was bound is bound as before,
    and [__warningregistry__] is bound where it was not. *)
Definition stateless_but_registry {A : Type} (m : M A) : Prop :=
  forall s,
    (forall l o, nth_error (heap s) l = Some o ->
                 nth_error (heap (snd (m s))) l = Some o)
    /\ module_globals (snd (m s))
       = setdefault "__warningregistry__" VDict (module_globals s).

(** ** What a call computes *)

(** Every object of [s] is the same in [s']. *)
Definition extends (s s' : store) : Prop :=
  forall l o, nth_error (heap s) l = Some o -> nth_error (heap s') l = Some o.

(** The tensors that a sequence of values denotes. *)
Fixpoint read_tensors (s : store) (vs : list value) : option (list Tensor) :=
  match vs with
  | [] => Some []
  | v :: vs' =>
      match read_tensor s v, read_tensors s vs' with
      | Some t, Some ts => Some (t :: ts)
      | _, _ => None
      end
  end.

(** The elements of a list or tuple. *)
Definition items_of (s : store) (v : value) : option (list value) :=
  match v with
  | VList l =>
      match nth_error (heap s) l with
      | Some (OList items) => Some items
      | _ => None
      end
  | VTuple vs => Some vs
  | _ => None
  end.

(** A list or tuple of tensors. *)
Definition read_list (s : store) (v : value) : option (list Tensor) :=
  match items_of s v with
  | Some items => read_tensors s items
  | None => None
  end.

(** A tensor with its layout, as [view(-1)] sees it. *)
Definition read_strided (s : store) (v : value) : option Strided :=
  match v with
  | VTensor h =>
      option_map (fun t => mkStrided t (strides_of h)) (read_handle s h)
  | _ => None
  end.

Fixpoint read_strideds (s : store) (vs : list value) : option (list Strided) :=
  match vs with
  | [] => Some []
  | v :: vs' =>
      match read_strided s v, read_strideds s vs' with
      | Some t, Some ts => Some (t :: ts)
      | _, _ => None
      end
  end.

(** A list or tuple of tensors with their layouts. *)
Definition read_views (s : store) (v : value) : option (list Strided) :=
  match items_of s v with
  | Some items => read_strideds s items
  | None => None
  end.

(** A list or tuple that starts with the means, the log-variances and the
    coefficients of a mixture. *)
Definition read_mixture (s : store) (v : value) : option mixture :=
  match items_of s v with
  | Some (m :: lv :: c :: _) =>
      match read_list s m, read_list s lv, read_tensor s c with
      | Some ms, Some lvs, Some ct => Some (Build_mixture ms lvs ct)
      | _, _, _ => None
      end
  | _ => None
  end.

(** A Python number or a tensor. *)
Definition read_pynum (s : store) (v : value) : option pynum :=
  match v with
  | VInt z => Some (PyNum (IZR z))
  | VFloat x => Some (PyNum x)
  | VTensor h => option_map PyTensor (read_handle s h)
  | _ => None
  end.

(** A list of Python integers. *)
Definition read_ints (s : store) (v : value) : option (list Z) :=
  match v with
  | VList l =>
      match nth_error (heap s) l with
      | Some (OList items) =>
          fold_right (fun x acc =>
                        match x, acc with
                        | VInt z, Some zs => Some (z :: zs)
                        | _, _ => None
                        end) (Some []) items
      | _ => None
      end
  | _ => None
  end.

(** A list of tensors, or a tuple of lists of tensors. *)
Definition read_lists (s : store) (v : value) : option lists :=
  match v with
  | VTuple vs =>
      option_map TupleOf
        (fold_right (fun x acc =>
                       match read_list s x, acc with
                       | Some ts, Some ls => Some (ts :: ls)
                       | _, _ => None
                       end) (Some []) vs)
  | _ => option_map ListOf (read_list s v)
  end.

(** What a caller sees of a call: the exception, or the returned value
    read in the store that the call leaves. *)
Definition outcome {O : Type} (rd : store -> value -> option O)
    (p : result value * store) : result (option O) :=
  match fst p with
  | Ok v => Ok (rd (snd p) v)
  | Raise e => Raise e
  end.

(** Two calls raise the same exception, or return values that read as the
    same data. *)
Definition same_outcome {O : Type} (rd : store -> value -> option O)
    (p1 p2 : result value * store) : Prop :=
  exists r : result O, outcome rd p1 = fmap Some r /\ outcome rd p2 = fmap Some r.

(** Two arguments are equal inputs: [v1] in the store [s1] and [v2] in
    the store [s2] read as the same data. *)
Definition same_input {O : Type} (rd : store -> value -> option O)
    (s1 : store) (v1 : value) (s2 : store) (v2 : value) : Prop :=
  exists x : O, rd s1 v1 = Some x /\ rd s2 v2 = Some x.

(** From every store that extends [s0], [m] keeps the objects there are
    and raises as [r] does, or returns what reads as the value of [r]. *)
Definition computes {A B : Type} (D : store -> A -> option B) (s0 : store)
    (m : M A) (r : result B) : Prop :=
  forall s, extends s0 s ->
    extends s (snd (m s))
    /\ match r with
       | Ok x => exists a, fst (m s) = Ok a /\ D (snd (m s)) a = Some x
       | Raise e => fst (m s) = Raise e
       end.

(** The accumulator [kl] of a loop holds [acc]: a number, or a tensor
    with a storage of its own made after the store had [b] objects. *)
Definition holds (b : nat) (s : store) (kl : value) (acc : pynum) : Prop :=
  match acc with
  | PyNum x => kl = VFloat x \/ exists z, kl = VInt z /\ x = IZR z
  | PyTensor t =>
      exists h, kl = VTensor h /\ (b <= storage h)%nat /\ slices h = []
                /\ hlayout h = Dense /\ hshape h = shape t
                /\ nth_error (heap s) (storage h) = Some (OStorage (data t))
  end.

(** The list object at [l], made after the store had [b] objects, has
    the elements [vs]. *)
Definition local_list (b : nat) (s : store) (l : addr) (vs : list value) : Prop :=
  (b <= l)%nat /\ nth_error (heap s) l = Some (OList vs).


(** The list [v], made after the store had [b] objects, holds tensors
    that read as [ts]. *)
Definition list_holds (b : nat) (s : store) (v : value) (ts : list Tensor) : Prop :=
  exists l vs, v = VList l /\ local_list b s l vs /\ read_tensors s vs = Some ts.

(** The slice [v] of an argument holds tensors that read as [ts]: it is
    a tuple of them, or a list made after the store had [b] objects. *)
Definition slice_holds (b : nat) (s : store) (v : value) (ts : list Tensor) : Prop :=
  (exists vs, v = VTuple vs /\ read_tensors s vs = Some ts) \/ list_holds b s v ts.

(** The lists [ret_std], [ret_var] and [ret_logvar] that
    [decode_diag_gauss] fills hold the tensors of [st]. *)
Definition decode_lists (b : nat) (ret_std ret_var ret_logvar : value) (s : store)
    (_ : unit) (st : list Tensor * list Tensor * list Tensor) : Prop :=
  list_holds b s ret_std (fst (fst st))
  /\ list_holds b s ret_var (snd (fst st))
  /\ list_holds b s ret_logvar (snd st).

(** What [extract_mean_std] returns: a tuple of two or three lists. *)
Definition read_mean_std (s : store) (v : value) : option mean_std :=
  match v with
  | VTuple [m; sd] =>
      match read_list s m, read_list s sd with
      | Some ms, Some sds => Some (MeanStd ms sds)
      | _, _ => None
      end
  | VTuple [m; sd; lv] =>
      match read_list s m, read_list s sd, read_list s lv with
      | Some ms, Some sds, Some lvs => Some (MeanStdLogvar ms sds lvs)
      | _, _, _ => None
      end
  | _ => None
  end.

(** A normal distribution: its location and its scale. *)
Definition read_normal (s : store) (v : value) : option NormalDist :=
  match v with
  | VNormal hm hs =>
      match read_handle s hm, read_handle s hs with
      | Some l, Some sc => Some (mkNormal l sc)
      | _, _ => None
      end
  | _ => None
  end.

(** A pair of tensors. *)
Definition read_pair (s : store) (p : value * value) : option (Tensor * Tensor) :=
  match read_tensor s (fst p), read_tensor s (snd p) with
  | Some a, Some b => Some (a, b)
  | _, _ => None
  end.

(** From a store [s] that extends [sb] and satisfies [P], [m] keeps the
    objects of [sb] and raises as [r] does, or returns a value [a] with
    [Q s' a x] for the value [x] of [r] and the store [s'] it leaves. *)
Definition hoare {A B : Type} (sb : store) (P : store -> Prop) (m : M A)
    (r : result B) (Q : store -> A -> B -> Prop) : Prop :=
  forall s, extends sb s -> P s ->
    extends sb (snd (m s))
    /\ match r with
       | Ok x => exists a, fst (m s) = Ok a /\ Q (snd (m s)) a x
       | Raise e => fst (m s) = Raise e
       end.

(** [P] holds on in every store that keeps the objects. *)
Definition stable (P : store -> Prop) : Prop :=
  forall s s', extends s s' -> P s -> P s'.


(** ** Which generators a call draws from *)

(** The default generator and the generator objects are as they were. *)
Definition same_generators (s s' : store) : Prop :=
  default_generator s' = default_generator s /\ generators s' = generators s.

(** The default generator and every generator object but the one at [i]
    are as they were. *)
Definition same_generators_but (i : nat) (s s' : store) : Prop :=
  default_generator s' = default_generator s
  /\ forall j, j <> i -> nth_error (generators s') j = nth_error (generators s) j.

(** The generator objects are as they were; the default generator may
    have moved on. *)
Definition same_generator_objects (s s' : store) : Prop :=
  generators s' = generators s.

(** [m] leaves every store in the relation [R] to the store it leaves. *)
Definition keeps {A : Type} (R : store -> store -> Prop) (m : M A) : Prop :=
  forall s, R s (snd (m s)).

(** [m] raises an exception, from whatever store it starts. *)
Definition raises {A : Type} (m : M A) : Prop :=
  forall s, exists e, fst (m s) = Raise e.

(** ** What a call draws *)

(** The generator that the argument [generator] selects: a generator
    object, or the default generator for [None]. *)
Definition generator_of (gen : value) (s : store) : option G :=
  match gen with
  | VNone => Some (default_generator s)
  | VGenerator i => nth_error (generators s) i
  | _ => None
  end.

(** From a store [s] that extends [sb] and satisfies [P], in which [gen]
    selects a generator in the state [g], [m] keeps the objects of [sb],
    leaves that generator in the state in which [r] leaves [g], and raises
    as [r] does from [g], or returns a value [a] with [Q s' a x] for the
    value [x] of [r] and the store [s'] it leaves. *)
Definition draws_like {A B : Type} (sb : store) (gen : value) (P : store -> Prop)
    (m : M A) (r : rng G B) (Q : store -> A -> B -> Prop) : Prop :=
  forall s g, extends sb s -> P s -> generator_of gen s = Some g ->
    extends sb (snd (m s))
    /\ generator_of gen (snd (m s)) = Some (snd (r g))
    /\ match fst (r g) with
       | Ok x => exists a, fst (m s) = Ok a /\ Q (snd (m s)) a x
       | Raise e => fst (m s) = Raise e
       end.


End Store.
End Py.

(** * Properties *)

(** ** The result monad *)

Lemma bind_Ok {A B : Type} (a : A) (k : A -> result B) : bind (Ok a) k = k a.
Proof. reflexivity. Qed.

Lemma fmap_Ok {A B : Type} (f : A -> B) (a : A) : fmap f (Ok a) = Ok (f a).
Proof. reflexivity. Qed.

(** ** Lists, tabulations and finite sums *)

Lemma map2_length {A B C : Type} (f : A -> B -> C) (l : list A) (m : list B) :
  length (map2 f l m) = Nat.min (length l) (length m).
Proof.
  revert m; induction l as [|x l IH]; intros [|y m]; simpl; auto.
Qed.

Lemma tab_length (n : nat) (f : nat -> R) : length (tab n f) = n.
Proof. unfold tab. now rewrite length_map, length_seq. Qed.

Lemma map_seq_shift (f : nat -> R) (a n : nat) :
  map f (seq (S a) n) = map (fun j => f (S j)) (seq a n).
Proof. now rewrite <- seq_shift, map_map. Qed.

Lemma tab_S (n : nat) (f : nat -> R) :
  tab (S n) f = f O :: tab n (fun j => f (S j)).
Proof. unfold tab. simpl. now rewrite map_seq_shift. Qed.

Lemma tab_of_list (l : list R) :
  l = tab (length l) (fun j => nth j l 0).
Proof.
  induction l as [|x l IH]; [reflexivity|].
  simpl length. rewrite tab_S. simpl. now rewrite <- IH.
Qed.

Lemma map_tab (g : R -> R) (n : nat) (f : nat -> R) :
  map g (tab n f) = tab n (fun j => g (f j)).
Proof. unfold tab. now rewrite map_map. Qed.

Lemma map2_tab (g : R -> R -> R) (n : nat) (f h : nat -> R) :
  map2 g (tab n f) (tab n h) = tab n (fun j => g (f j) (h j)).
Proof.
  revert f h; induction n as [|n IH]; intros f h; [reflexivity|].
  rewrite !tab_S. simpl. now rewrite IH.
Qed.

Lemma tab_ext (n : nat) (f g : nat -> R) :
  (forall j, (j < n)%nat -> f j = g j) -> tab n f = tab n g.
Proof.
  intros H. unfold tab. apply map_ext_in. intros j Hj.
  apply in_seq in Hj. apply H. lia.
Qed.

Lemma rsum_tab (n : nat) (f : nat -> R) : rsum (tab n f) = sum_n n f.
Proof.
  revert f; induction n as [|n IH]; intros f; [reflexivity|].
  rewrite tab_S. simpl. now rewrite <- IH.
Qed.

Lemma sum_n_ext (n : nat) (f g : nat -> R) :
  (forall j, (j < n)%nat -> f j = g j) -> sum_n n f = sum_n n g.
Proof.
  revert f g; induction n as [|n IH]; intros f g H; [reflexivity|].
  simpl. rewrite (H O) by lia. f_equal. apply IH. intros j Hj. apply H. lia.
Qed.

Lemma sum_n_nonneg (n : nat) (f : nat -> R) :
  (forall j, 0 <= f j) -> 0 <= sum_n n f.
Proof.
  revert f; induction n as [|n IH]; intros f H; simpl; [lra|].
  specialize (IH (fun j => f (S j)) (fun j => H (S j))). specialize (H O). lra.
Qed.

Lemma sum_n_plus (n : nat) (f g : nat -> R) :
  sum_n n (fun j => f j + g j) = sum_n n f + sum_n n g.
Proof.
  revert f g; induction n as [|n IH]; intros f g; simpl; [lra|].
  rewrite IH. lra.
Qed.

Lemma sum_n_scal (n : nat) (c : R) (f : nat -> R) :
  sum_n n (fun j => c * f j) = c * sum_n n f.
Proof.
  revert f; induction n as [|n IH]; intros f; simpl; [lra|].
  rewrite IH. lra.
Qed.

Lemma half_eq : 0.5 = / 2.
Proof. lra. Qed.

(** ** Shapes and broadcasting *)

Lemma chunks_concat (k n : nat) (l : list R) :
  length l = (n * k)%nat -> concat (chunks k n l) = l.
Proof.
  revert l; induction n as [|n IH]; intros l H; simpl in *.
  - now destruct l.
  - rewrite IH.
    + apply firstn_skipn.
    + rewrite length_skipn. lia.
Qed.

Lemma chunks_Forall (k n : nat) (l : list R) :
  length l = (n * k)%nat -> Forall (fun c => length c = k) (chunks k n l).
Proof.
  revert l; induction n as [|n IH]; intros l H; simpl in *; constructor.
  - rewrite length_firstn. lia.
  - apply IH. rewrite length_skipn. lia.
Qed.

Lemma expand_id (s : list nat) (d : list R) :
  length d = numel s -> expand s s d = d.
Proof.
  revert d; induction s as [|x s IH]; intros d H; simpl in *; [reflexivity|].
  rewrite Nat.eqb_refl.
  rewrite map_ext_in with (g := fun c => c).
  - rewrite map_id. now apply chunks_concat.
  - intros c Hc. apply IH.
    pose proof (chunks_Forall (numel s) x d H) as HF.
    rewrite Forall_forall in HF. now apply HF.
Qed.

Lemma concat_repeat_repeat (x : R) (k y : nat) :
  concat (repeat (repeat x k) y) = repeat x (y * k).
Proof.
  induction y as [|y IH]; simpl; [reflexivity|].
  now rewrite IH, repeat_app.
Qed.

Lemma numel_ones (m : nat) : numel (repeat 1%nat m) = 1%nat.
Proof. induction m as [|m IH]; simpl; [reflexivity|]. rewrite IH. reflexivity. Qed.

Lemma expand_scalar (x : R) (s : list nat) :
  expand (repeat 1%nat (length s)) s [x] = repeat x (numel s).
Proof.
  induction s as [|y s IH]; [reflexivity|].
  simpl. rewrite numel_ones. simpl. rewrite IH, app_nil_r.
  destruct y as [|[|y]].
  - reflexivity.
  - now rewrite Nat.mul_1_l.
  - apply concat_repeat_repeat.
Qed.

Lemma bshape_rev_same (s : list nat) : bshape_rev s s = Some s.
Proof.
  induction s as [|x s IH]; simpl; [reflexivity|].
  now rewrite IH, Nat.eqb_refl.
Qed.

Lemma broadcast_shapes_same (s : list nat) : broadcast_shapes s s = Some s.
Proof.
  unfold broadcast_shapes. rewrite bshape_rev_same. simpl. now rewrite rev_involutive.
Qed.

Lemma broadcast_shapes_nil_l (s : list nat) : broadcast_shapes [] s = Some s.
Proof.
  unfold broadcast_shapes. simpl. now rewrite rev_involutive.
Qed.

Lemma broadcast_shapes_nil_r (s : list nat) : broadcast_shapes s [] = Some s.
Proof.
  unfold broadcast_shapes. change (rev []) with (@nil nat).
  assert (H : bshape_rev (rev s) [] = Some (rev s)) by now destruct (rev s).
  rewrite H. simpl. now rewrite rev_involutive.
Qed.

Lemma expand_to_same (s : list nat) (d : list R) :
  length d = numel s -> expand_to s s d = d.
Proof.
  intros H. unfold expand_to, pad_left. rewrite Nat.sub_diag. simpl.
  now apply expand_id.
Qed.

Lemma expand_to_scalar (x : R) (s : list nat) :
  expand_to [] s [x] = repeat x (numel s).
Proof.
  unfold expand_to, pad_left. simpl. rewrite Nat.sub_0_r, app_nil_r.
  apply expand_scalar.
Qed.

Lemma map2_repeat_l (f : R -> R -> R) (x : R) (l : list R) :
  map2 f (repeat x (length l)) l = map (f x) l.
Proof. induction l as [|y l IH]; simpl; [reflexivity|]. now rewrite IH. Qed.

Lemma map2_repeat_r (f : R -> R -> R) (x : R) (l : list R) :
  map2 f l (repeat x (length l)) = map (fun y => f y x) l.
Proof. induction l as [|y l IH]; simpl; [reflexivity|]. now rewrite IH. Qed.

(** Two tensors of one shape combine entry by entry. *)
Lemma tbin_same (f : R -> R -> R) (s : list nat) (da db : list R) :
  length da = numel s -> length db = numel s ->
  tbin f (mkT s da) (mkT s db) = Ok (mkT s (map2 f da db)).
Proof.
  intros Ha Hb. unfold tbin. cbn [shape data]. rewrite broadcast_shapes_same.
  now rewrite !expand_to_same.
Qed.

(** A zero-dimensional tensor combines with every entry of the other one. *)
Lemma tbin_scalar_l (f : R -> R -> R) (x : R) (s : list nat) (d : list R) :
  length d = numel s ->
  tbin f (scalar x) (mkT s d) = Ok (mkT s (map (f x) d)).
Proof.
  intros H. unfold tbin, scalar. cbn [shape data]. rewrite broadcast_shapes_nil_l.
  rewrite expand_to_scalar, expand_to_same by assumption.
  now rewrite <- H, map2_repeat_l.
Qed.

Lemma tbin_scalar_r (f : R -> R -> R) (x : R) (s : list nat) (d : list R) :
  length d = numel s ->
  tbin f (mkT s d) (scalar x) = Ok (mkT s (map (fun y => f y x) d)).
Proof.
  intros H. unfold tbin, scalar. cbn [shape data]. rewrite broadcast_shapes_nil_r.
  rewrite expand_to_scalar, expand_to_same by assumption.
  now rewrite <- H, map2_repeat_r.
Qed.

(** The tabulated form, used to push a whole expression under one index. *)
Lemma tbin_tab (f : R -> R -> R) (s : list nat) (n : nat) (g h : nat -> R) :
  n = numel s ->
  tbin f (mkT s (tab n g)) (mkT s (tab n h))
  = Ok (mkT s (tab n (fun j => f (g j) (h j)))).
Proof.
  intros ->. rewrite tbin_same by apply tab_length. now rewrite map2_tab.
Qed.

Lemma lift2_tab (f : R -> R -> R) (s : list nat) (n : nat) (g h : nat -> R) :
  n = numel s ->
  lift2 (tbin f) (Ok (mkT s (tab n g))) (Ok (mkT s (tab n h)))
  = Ok (mkT s (tab n (fun j => f (g j) (h j)))).
Proof. intros H. unfold lift2. simpl. now apply tbin_tab. Qed.

Lemma tmap_tab (f : R -> R) (s : list nat) (n : nat) (g : nat -> R) :
  tmap f (mkT s (tab n g)) = mkT s (tab n (fun j => f (g j))).
Proof. unfold tmap. simpl. now rewrite map_tab. Qed.

Lemma tsum_tab (s : list nat) (n : nat) (g : nat -> R) :
  tsum (mkT s (tab n g)) = scalar (sum_n n g).
Proof. unfold tsum. simpl. now rewrite rsum_tab. Qed.

(** A well-formed tensor in tabulated form. *)
Lemma tensor_tab (t : Tensor) :
  wf t -> t = mkT (shape t) (tab (numel (shape t)) (fun j => nth j (data t) 0)).
Proof.
  intros H. destruct t as [s d]. unfold wf in H. simpl in *.
  rewrite <- H. now rewrite <- tab_of_list.
Qed.

Lemma Rneqb_refl (x : R) : Rneqb x x = false.
Proof. unfold Rneqb. now destruct (Req_dec_T x x). Qed.

Ltac unfold_ops :=
  unfold texp, tlog, tsqrt, tpow, rmul, radd, rsubr, raddr, tneg, softplus,
    clamp_min0 in *.

Ltac tensor_step :=
  first
    [ rewrite lift2_tab by (simpl; lia)
    | rewrite fmap_Ok
    | rewrite bind_Ok
    | rewrite tmap_tab
    | rewrite tsum_tab ].

Lemma tab_nth (n : nat) (f : nat -> R) (j : nat) :
  (j < n)%nat -> nth j (tab n f) 0 = f j.
Proof.
  intros H. unfold tab.
  rewrite nth_indep with (d' := f O) by now rewrite length_map, length_seq.
  rewrite map_nth with (d := O). now rewrite seq_nth.
Qed.

Lemma list_tab_ex (d : list R) (n : nat) :
  length d = n -> exists f, d = tab n f.
Proof. intros <-. eexists. apply tab_of_list. Qed.

(** Replace a well-formed tensor by a tabulated one. *)
Tactic Notation "tabulate" constr(t) hyp(W) ident(f) :=
  let s := fresh "s" in
  let d := fresh "d" in
  let E := fresh "E" in
  destruct t as [s d]; unfold wf in W; cbn [shape data] in *;
  destruct (list_tab_ex d _ W) as [f E]; subst d; clear W.

Ltac tensor_norm := unfold_ops; repeat tensor_step.

(** ** [kl_gauss] and [compute_kl] *)

Lemma exp_minus (x y : R) : exp (x - y) = exp x / exp y.
Proof. unfold Rminus, Rdiv. now rewrite exp_plus, exp_Ropp. Qed.

Lemma kl_elem_alt (ma la mb lb : R) :
  0.5 * (lb - la) + 0.5 * (exp la + (ma - mb) ^ 2) / exp lb - 0.5
  = kl_elem ma la mb lb.
Proof.
  unfold kl_elem. rewrite exp_minus, exp_Ropp, half_eq.
  field. apply exp_neq_0.
Qed.

(** C3: on four tensors of one shape, [kl_gauss] and [compute_kl] with
    [sum=False], [lamb=1] and [initial_prior_var=0.0] return the same
    tensor, whose entries are the per-coordinate Gaussian KL
    [0.5 * (exp (la - lb) + (ma - mb)^2 * exp (-lb) + lb - la - 1)]. *)
Theorem kl_gauss_eq_compute_kl (mean_a logvar_a mean_b logvar_b : Tensor) :
  wf mean_a -> wf logvar_a -> wf mean_b -> wf logvar_b ->
  shape logvar_a = shape mean_a ->
  shape mean_b = shape mean_a ->
  shape logvar_b = shape mean_a ->
  kl_gauss mean_a logvar_a mean_b logvar_b
  = compute_kl mean_a logvar_a mean_b logvar_b false 1 0.0
  /\ kl_gauss mean_a logvar_a mean_b logvar_b
     = Ok (mkT (shape mean_a)
             (tab (numel (shape mean_a))
                (fun j => kl_elem (entry mean_a j) (entry logvar_a j)
                            (entry mean_b j) (entry logvar_b j)))).
Proof.
  intros Wma Wla Wmb Wlb Sla Smb Slb.
  tabulate mean_a Wma fa. tabulate logvar_a Wla ga.
  tabulate mean_b Wmb fb. tabulate logvar_b Wlb gb.
  subst. unfold entry. cbn [shape data].
  unfold kl_gauss, compute_kl. rewrite Rneqb_refl.
  tensor_norm.
  split; f_equal; f_equal; apply tab_ext; intros j Hj;
    rewrite ?tab_nth by assumption.
  - rewrite kl_elem_alt. unfold kl_elem. lra.
  - apply kl_elem_alt.
Qed.

(** ** Flattening and concatenation *)

Lemma flat_length (ts : list Tensor) :
  Forall wf ts ->
  length (flat ts) = fold_right Nat.add 0%nat (map (fun t => numel (shape t)) ts).
Proof.
  unfold flat. induction 1 as [|t ts Ht _ IH]; simpl; [reflexivity|].
  rewrite length_app, IH. now rewrite Ht.
Qed.

Lemma flat_length_same (xs ys : list Tensor) :
  Forall wf xs -> Forall wf ys -> same_shapes xs ys ->
  length (flat ys) = length (flat xs).
Proof.
  intros Wx Wy H. rewrite !flat_length by assumption.
  induction H as [|x y xs ys E _ IH]; simpl; [reflexivity|].
  inversion Wx; inversion Wy; subst. rewrite E. f_equal. now apply IH.
Qed.

Lemma flatten_forallb (ts : list Tensor) :
  forallb (fun t => match shape t with
                    | [] => false
                    | _ :: r => shape_eqb r []
                    end) (map flatten ts) = true.
Proof. induction ts as [|t ts IH]; simpl; [reflexivity|exact IH]. Qed.

Lemma cat_flatten (ts : list Tensor) :
  ts <> [] -> Forall wf ts ->
  cat (map flatten ts) = Ok (mkT [length (flat ts)] (flat ts)).
Proof.
  intros Hne W. destruct ts as [|t0 ts']; [congruence|].
  unfold cat. cbn [map]. cbn [flatten shape].
  change (flatten t0 :: map flatten ts') with (map flatten (t0 :: ts')).
  rewrite flatten_forallb. f_equal.
  rewrite flat_length by assumption. unfold flat.
  rewrite !map_map. cbn [flatten shape data hd]. reflexivity.
Qed.

(** ** Views

    The dimensions of a contiguous tensor merge into one, so
    [t.view(-1)] returns on it. *)
Lemma squeeze_row_major (s : list nat) :
  mergeable (squeeze_dims s (row_major s)) = true /\
  match squeeze_dims s (row_major s) with
  | [] => True
  | (n, stride) :: _ => (stride * n)%nat = numel s
  end.
Proof.
  induction s as [|a s' [IHm IHh]]; [split; [reflexivity|exact I]|].
  unfold squeeze_dims in *. cbn [row_major combine filter fst negb].
  destruct (Nat.eqb_spec a 1) as [->|Ha]; cbn [negb].
  - split; [exact IHm|].
    destruct (filter _ (combine s' (row_major s'))) as [|[n st] r]; [exact I|].
    cbn [numel fold_right]. fold (numel s'). lia.
  - split.
    + cbn [mergeable].
      destruct (filter _ (combine s' (row_major s'))) as [|[n st] r]; [reflexivity|].
      rewrite IHh, Nat.eqb_refl. exact IHm.
    + cbn [numel fold_right]. fold (numel s'). lia.
Qed.

Lemma mergeable_row_major (s : list nat) : mergeable_dims s (row_major s) = true.
Proof.
  unfold mergeable_dims. rewrite (proj1 (squeeze_row_major s)). apply orb_true_r.
Qed.

Lemma viewable_contiguous (t : Tensor) : viewable (contiguous t) = true.
Proof. unfold viewable, contiguous. cbn [tensor strides]. apply mergeable_row_major. Qed.

Lemma view_flat_contiguous (t : Tensor) : view_flat (contiguous t) = Ok (flatten t).
Proof. unfold view_flat. now rewrite viewable_contiguous. Qed.

Lemma forallb_viewable_contiguous (ts : list Tensor) :
  forallb viewable (map contiguous ts) = true.
Proof.
  induction ts as [|t ts IH]; [reflexivity|].
  cbn [map forallb]. now rewrite viewable_contiguous, IH.
Qed.

Lemma tensor_contiguous (ts : list Tensor) : map tensor (map contiguous ts) = ts.
Proof. rewrite map_map. cbn [contiguous tensor]. apply map_id. Qed.

Lemma mapM_view_flat (xs : list Strided) :
  forallb viewable xs = true ->
  mapM view_flat xs = Ok (map flatten (map tensor xs)).
Proof.
  induction xs as [|x xs IH]; [reflexivity|].
  cbn [forallb map mapM]. intros [Hx Hxs]%andb_prop.
  unfold view_flat at 1. rewrite Hx. cbn [bind]. now rewrite (IH Hxs).
Qed.

(** On the first tensor that is no view of one dimension,
    [[t.view(-1) for t in xs]] raises. *)
Lemma mapM_view_flat_raises (xs : list Strided) :
  forallb viewable xs = false -> mapM view_flat xs = Raise RuntimeError.
Proof.
  induction xs as [|x xs IH]; [discriminate|].
  cbn [forallb mapM]. unfold view_flat at 1.
  destruct (viewable x); cbn [andb bind]; [|reflexivity].
  intros Hxs. now rewrite (IH Hxs).
Qed.

Lemma cat_views (xs : list Strided) :
  forallb viewable xs = true ->
  (views <- mapM view_flat xs ;; cat views) = cat (map flatten (map tensor xs)).
Proof. intros Hv. now rewrite (mapM_view_flat xs Hv). Qed.

Lemma cat_views_contiguous (ts : list Tensor) :
  (views <- mapM view_flat (map contiguous ts) ;; cat views) = cat (map flatten ts).
Proof.
  rewrite (cat_views _ (forallb_viewable_contiguous ts)). now rewrite tensor_contiguous.
Qed.

Lemma cat_views_raises (xs : list Strided) :
  forallb viewable xs = false ->
  (views <- mapM view_flat xs ;; cat views) = Raise RuntimeError.
Proof. intros Hv. now rewrite (mapM_view_flat_raises xs Hv). Qed.

Lemma cat_nil : cat [] = Raise RuntimeError.
Proof. reflexivity. Qed.

Lemma same_shapes_nonempty (xs ys : list Tensor) :
  same_shapes xs ys -> xs <> [] -> ys <> [].
Proof. intros H Hne. destruct H; congruence. Qed.

(** ** [kl_diag_gaussians] *)

Section FlatArguments.
Variables mean_a logvar_a mean_b logvar_b : list Tensor.
Hypothesis Hne : mean_a <> [].
Hypothesis Wma : Forall wf mean_a.
Hypothesis Wla : Forall wf logvar_a.
Hypothesis Wmb : Forall wf mean_b.
Hypothesis Wlb : Forall wf logvar_b.
Hypothesis Sla : same_shapes mean_a logvar_a.
Hypothesis Smb : same_shapes mean_a mean_b.
Hypothesis Slb : same_shapes mean_a logvar_b.

(** The four flattened arguments as tabulations of one length. *)
Lemma flat_arguments :
  exists (n : nat) (fa ga fb gb : nat -> R),
    flat mean_a = tab n fa /\ flat logvar_a = tab n ga /\
    flat mean_b = tab n fb /\ flat logvar_b = tab n gb /\
    cat (map flatten mean_a) = Ok (mkT [n] (tab n fa)) /\
    cat (map flatten logvar_a) = Ok (mkT [n] (tab n ga)) /\
    cat (map flatten mean_b) = Ok (mkT [n] (tab n fb)) /\
    cat (map flatten logvar_b) = Ok (mkT [n] (tab n gb)).
Proof.
  pose proof (flat_length_same _ _ Wma Wla Sla) as La.
  pose proof (flat_length_same _ _ Wma Wmb Smb) as Lb.
  pose proof (flat_length_same _ _ Wma Wlb Slb) as Lc.
  pose proof (cat_flatten mean_a Hne Wma) as Ca.
  pose proof (cat_flatten logvar_a (same_shapes_nonempty _ _ Sla Hne) Wla) as Cb.
  pose proof (cat_flatten mean_b (same_shapes_nonempty _ _ Smb Hne) Wmb) as Cc.
  pose proof (cat_flatten logvar_b (same_shapes_nonempty _ _ Slb Hne) Wlb) as Cd.
  rewrite La in Cb. rewrite Lb in Cc. rewrite Lc in Cd.
  exists (length (flat mean_a)).
  destruct (list_tab_ex (flat mean_a) _ eq_refl) as [fa Ea].
  destruct (list_tab_ex (flat logvar_a) _ La) as [ga Eg].
  destruct (list_tab_ex (flat mean_b) _ Lb) as [fb Eb].
  destruct (list_tab_ex (flat logvar_b) _ Lc) as [gb Egb].
  exists fa, ga, fb, gb.
  rewrite Ca, Cb, Cc, Cd.
  rewrite <- Ea, <- Eg, <- Eb, <- Egb. repeat split; assumption.
Qed.
End FlatArguments.

(** C1 (amended): on non-empty lists of tensors with matching shapes, each
    of which [view(-1)] can see as one dimension without a copy,
    [kl_diag_gaussians] returns the analytic KL divergence
    [0.5 * sum_j (-1 + (exp la_j + (mb_j - ma_j)^2) / exp lb_j + lb_j - la_j)]
    over the flattened and concatenated coordinates. *)
Theorem kl_diag_gaussians_formula (mean_a logvar_a mean_b logvar_b : list Strided) :
  mean_a <> [] ->
  forallb viewable mean_a = true -> forallb viewable logvar_a = true ->
  forallb viewable mean_b = true -> forallb viewable logvar_b = true ->
  Forall wf (map tensor mean_a) -> Forall wf (map tensor logvar_a) ->
  Forall wf (map tensor mean_b) -> Forall wf (map tensor logvar_b) ->
  same_shapes (map tensor mean_a) (map tensor logvar_a) ->
  same_shapes (map tensor mean_a) (map tensor mean_b) ->
  same_shapes (map tensor mean_a) (map tensor logvar_b) ->
  kl_diag_gaussians mean_a logvar_a mean_b logvar_b
  = Ok (scalar (kl_diag_formula (map tensor mean_a) (map tensor logvar_a)
                  (map tensor mean_b) (map tensor logvar_b))).
Proof.
  intros Hne Vma Vla Vmb Vlb Wma Wla Wmb Wlb Sla Smb Slb.
  assert (Hne' : map tensor mean_a <> []) by (destruct mean_a; [congruence|discriminate]).
  destruct (flat_arguments _ _ _ _ Hne' Wma Wla Wmb Wlb Sla Smb Slb)
    as (n & fa & ga & fb & gb & Ea & Eg & Eb & Egb & Ca & Cg & Cb & Cgb).
  unfold kl_diag_gaussians, kl_diag_formula.
  rewrite !cat_views by assumption.
  rewrite Ca, Cg, Cb, Cgb, Ea, Eg, Eb, Egb, tab_length.
  tensor_norm. unfold scalar, tmap. cbn [shape data map]. do 4 f_equal.
  apply sum_n_ext. intros j Hj. now rewrite !tab_nth.
Qed.

Lemma kl_diag_gaussians_formula_witness :
  let m := [contiguous (mkT [2%nat] [1; 2])] in
  let v := [contiguous (mkT [2%nat] [0; 0])] in
  kl_diag_gaussians m v m v
  = Ok (scalar (kl_diag_formula (map tensor m) (map tensor v)
                  (map tensor m) (map tensor v))).
Proof.
  intros m v. apply kl_diag_gaussians_formula;
    solve [ discriminate | reflexivity | repeat constructor ].
Defined.

(** C1 as stated fails on empty lists, where [torch.cat] rejects the empty
    sequence, and on lists of matching shapes that hold a transposed
    tensor, where [view(-1)] raises: no value is returned. *)
Lemma kl_diag_gaussians_raises :
  let transposed := [mkStrided (mkT [3%nat; 2%nat] [1; 4; 2; 5; 3; 6]) [1%nat; 3%nat]] in
  (same_shapes [] [] /\
   kl_diag_gaussians [] [] [] [] = Raise RuntimeError /\
   kl_diag_gaussians [] [] [] [] <> Ok (scalar (kl_diag_formula [] [] [] [])))
  /\
  (transposed <> [] /\
   Forall wf (map tensor transposed) /\
   same_shapes (map tensor transposed) (map tensor transposed) /\
   kl_diag_gaussians transposed transposed transposed transposed
   = Raise RuntimeError).
Proof.
  intros transposed. repeat split; try discriminate; repeat constructor.
Qed.

(** ** [square_wasserstein_2] *)

Lemma tnorm2_tab (s : list nat) (n : nat) (g : nat -> R) :
  tnorm2 (mkT s (tab n g)) = scalar (sqrt (sum_n n (fun j => g j ^ 2))).
Proof. unfold tnorm2. cbn [data]. now rewrite map_tab, rsum_tab. Qed.

Lemma tmap_scalar (f : R -> R) (x : R) : tmap f (scalar x) = scalar (f x).
Proof. reflexivity. Qed.

Lemma tbin_scalars (f : R -> R -> R) (x y : R) :
  tbin f (scalar x) (scalar y) = Ok (scalar (f x y)).
Proof. reflexivity. Qed.

Lemma lift2_scalar (f : R -> R -> R) (x y : R) :
  lift2 (tbin f) (Ok (scalar x)) (Ok (scalar y)) = Ok (scalar (f x y)).
Proof. reflexivity. Qed.

(** C2 (amended): on non-empty lists of tensors with matching shapes, each
    of which [view(-1)] can see as one dimension without a copy,
    [square_wasserstein_2] returns
    [||ma - mb||_2^2 + sum_j (va_j + vb_j - 2 * sqrt (va_j * vb_j))] with
    [va = exp la] and [vb = exp lb] over the flattened and concatenated
    coordinates. *)
Theorem square_wasserstein_2_formula (mean_a logvar_a mean_b logvar_b : list Strided) :
  mean_a <> [] ->
  forallb viewable mean_a = true -> forallb viewable logvar_a = true ->
  forallb viewable mean_b = true -> forallb viewable logvar_b = true ->
  Forall wf (map tensor mean_a) -> Forall wf (map tensor logvar_a) ->
  Forall wf (map tensor mean_b) -> Forall wf (map tensor logvar_b) ->
  same_shapes (map tensor mean_a) (map tensor logvar_a) ->
  same_shapes (map tensor mean_a) (map tensor mean_b) ->
  same_shapes (map tensor mean_a) (map tensor logvar_b) ->
  square_wasserstein_2 mean_a logvar_a mean_b logvar_b
  = Ok (scalar (w2_formula (map tensor mean_a) (map tensor logvar_a)
                  (map tensor mean_b) (map tensor logvar_b))).
Proof.
  intros Hne Vma Vla Vmb Vlb Wma Wla Wmb Wlb Sla Smb Slb.
  assert (Hne' : map tensor mean_a <> []) by (destruct mean_a; [congruence|discriminate]).
  destruct (flat_arguments _ _ _ _ Hne' Wma Wla Wmb Wlb Sla Smb Slb)
    as (n & fa & ga & fb & gb & Ea & Eg & Eb & Egb & Ca & Cg & Cb & Cgb).
  unfold square_wasserstein_2, w2_formula.
  rewrite !cat_views by assumption.
  rewrite Ca, Cg, Cb, Cgb, Ea, Eg, Eb, Egb, tab_length.
  tensor_norm. rewrite tnorm2_tab, tmap_scalar, lift2_scalar.
  do 2 f_equal. f_equal.
  - rewrite pow2_sqrt.
    + apply sum_n_ext. intros j Hj. now rewrite !tab_nth.
    + apply sum_n_nonneg. intros j. apply pow2_ge_0.
  - apply sum_n_ext. intros j Hj. now rewrite !tab_nth.
Qed.

Lemma square_wasserstein_2_formula_witness :
  let m := [contiguous (mkT [2%nat] [1; 2])] in
  let v := [contiguous (mkT [2%nat] [0; 0])] in
  square_wasserstein_2 m v m v
  = Ok (scalar (w2_formula (map tensor m) (map tensor v)
                  (map tensor m) (map tensor v))).
Proof.
  intros m v. apply square_wasserstein_2_formula;
    solve [ discriminate | reflexivity | repeat constructor ].
Defined.

(** C2 as stated fails on empty lists, where [torch.cat] raises, and on
    lists of matching shapes that hold a transposed tensor, where
    [view(-1)] raises. *)
Lemma square_wasserstein_2_raises :
  let transposed := [mkStrided (mkT [3%nat; 2%nat] [1; 4; 2; 5; 3; 6]) [1%nat; 3%nat]] in
  (same_shapes [] [] /\
   square_wasserstein_2 [] [] [] [] = Raise RuntimeError /\
   square_wasserstein_2 [] [] [] [] <> Ok (scalar (w2_formula [] [] [] [])))
  /\
  (transposed <> [] /\
   Forall wf (map tensor transposed) /\
   same_shapes (map tensor transposed) (map tensor transposed) /\
   square_wasserstein_2 transposed transposed transposed transposed
   = Raise RuntimeError).
Proof.
  intros transposed. repeat split; try discriminate; repeat constructor.
Qed.

Lemma kl_gauss_eq_compute_kl_witness :
  let t := mkT [2%nat] [1; 2] in
  kl_gauss t t t t = compute_kl t t t t false 1 0.0
  /\ kl_gauss t t t t
     = Ok (mkT [2%nat]
             (tab 2 (fun j => kl_elem (entry t j) (entry t j) (entry t j) (entry t j)))).
Proof.
  intros t. apply (kl_gauss_eq_compute_kl t t t t); reflexivity.
Defined.

(** ** Sampling *)

Lemma lift2_tab_scalar_r (f : R -> R -> R) (s : list nat) (n : nat)
    (g : nat -> R) (x : R) :
  n = numel s ->
  lift2 (tbin f) (Ok (mkT s (tab n g))) (Ok (scalar x))
  = Ok (mkT s (tab n (fun j => f (g j) x))).
Proof.
  intros ->. unfold lift2. simpl bind.
  rewrite tbin_scalar_r by apply tab_length. now rewrite map_tab.
Qed.

Lemma lift2_tab_scalar_l (f : R -> R -> R) (s : list nat) (n : nat)
    (g : nat -> R) (x : R) :
  n = numel s ->
  lift2 (tbin f) (Ok (scalar x)) (Ok (mkT s (tab n g)))
  = Ok (mkT s (tab n (fun j => f x (g j)))).
Proof.
  intros ->. unfold lift2. simpl bind.
  rewrite tbin_scalar_l by apply tab_length. now rewrite map_tab.
Qed.

Lemma wf_scalar_inv (t : Tensor) :
  wf t -> shape t = [] -> t = scalar (entry t 0).
Proof.
  destruct t as [s d]. unfold wf, entry, scalar. simpl. intros W ->.
  simpl in W. destruct d as [|x [|y d]]; simpl in *; try discriminate.
  reflexivity.
Qed.

Lemma getitem_app {A : Type} (pre : list A) (x : A) (post : list A) :
  getitem (pre ++ x :: post) (length pre) = Ok x.
Proof.
  unfold getitem. rewrite nth_error_app2 by lia.
  now rewrite Nat.sub_diag.
Qed.

(** The entries of one radial sample, as the source computes them. *)
Lemma radial_expression (m s eps : Tensor) (x : R) :
  wf m -> wf s -> wf eps -> shape s = shape m -> shape eps = shape m ->
  (Ok m + Ok s * Ok (scalar x) * Ok eps / Ok (tnorm2 eps))%T
  = Ok (radial_tensor m s eps x).
Proof.
  intros Wm Ws We Ss Se. unfold radial_tensor.
  tabulate m Wm fm. tabulate s Ws fs. tabulate eps We fe. subst.
  rewrite tnorm2_tab.
  rewrite lift2_tab_scalar_r by reflexivity.
  rewrite lift2_tab by reflexivity.
  rewrite lift2_tab_scalar_r by reflexivity.
  rewrite lift2_tab by reflexivity.
  f_equal. f_equal. apply tab_ext. intros j Hj. unfold entry. cbn [data].
  rewrite !tab_nth by assumption.
  rewrite (sum_n_ext _ (fun k => nth k (tab (numel s0) fe) 0 ^ 2) (fun k => fe k ^ 2)).
  - unfold Rdiv. ring.
  - intros k Hk. now rewrite tab_nth.
Qed.

Lemma sbind_draw {G A B : Type} (d : G -> A * G) (k : A -> rng G B) (g : G) :
  (x <~ draw d ;; k x) g = k (fst (d g)) (snd (d g)).
Proof. unfold sbind, draw. now destruct (d g). Qed.

Lemma sbind_slift_Ok {G A B : Type} (a : A) (k : A -> rng G B) (g : G) :
  (x <~ slift (Ok a) ;; k x) g = k a g.
Proof. reflexivity. Qed.

Lemma sbind_slift_Raise {G A B : Type} (e : exn) (k : A -> rng G B) (g : G) :
  (x <~ slift (Raise e) ;; k x) g = (Raise e, g).
Proof. reflexivity. Qed.

Lemma sbind_sret {G A B : Type} (a : A) (k : A -> rng G B) (g : G) :
  (x <~ sret a ;; k x) g = k a g.
Proof. reflexivity. Qed.

Lemma sbind_assoc {G A B C : Type} (m : rng G A) (k : A -> rng G B)
    (k' : B -> rng G C) (g : G) :
  (y <~ (x <~ m ;; k x) ;; k' y) g = (x <~ m ;; y <~ k x ;; k' y) g.
Proof. unfold sbind. destruct (m g) as [[a|e] g1]; reflexivity. Qed.

Lemma sbind_ext {G A B : Type} (m : rng G A) (k1 k2 : A -> rng G B) (g : G) :
  (forall a g', k1 a g' = k2 a g') ->
  (x <~ m ;; k1 x) g = (x <~ m ;; k2 x) g.
Proof. intros E. unfold sbind. destruct (m g) as [[a|e] g']; auto. Qed.

Section SamplingProofs.
Context {G : Type} `{Generator G}.

Lemma sample_diag_gauss_loop (pre : list Tensor) (mean std acc : list Tensor) (g : G) :
  Forall wf mean -> Forall wf std -> same_shapes mean std ->
  for_enumerate
    (fun i m sample =>
       eps <~ draw (normal (shape m)) ;;
       r <~ draw (normal []) ;;
       x <~ slift (Ok m + getitem (pre ++ std) i * Ok r * Ok eps
                   / Ok (tnorm2 eps))%T ;;
       sret (sample ++ [x]))
    (length pre) mean acc g
  = (Ok (acc ++ fst (radial_sample mean std g)), snd (radial_sample mean std g)).
Proof.
  intros Wm Ws Sh. revert pre acc g Wm Ws.
  induction Sh as [|m s mean std Ems _ IH]; intros pre acc g Wm Ws.
  - simpl. unfold sret. now rewrite app_nil_r.
  - inversion Wm as [|? ? Wm0 Wm']; inversion Ws as [|? ? Ws0 Ws']; subst.
    cbn [for_enumerate radial_sample].
    rewrite sbind_assoc, sbind_draw.
    pose proof (normal_shape (shape m) g) as Se.
    pose proof (normal_wf (shape m) g) as We.
    destruct (normal (shape m) g) as [eps g1]. cbn [fst snd] in *.
    rewrite sbind_assoc, sbind_draw.
    pose proof (normal_shape [] g1) as Sr.
    pose proof (normal_wf [] g1) as Wr.
    destruct (normal [] g1) as [r g2]. cbn [fst snd] in *.
    rewrite (wf_scalar_inv r Wr Sr).
    rewrite getitem_app.
    rewrite radial_expression by (assumption || now symmetry).
    rewrite sbind_assoc, sbind_slift_Ok, sbind_sret.
    replace (pre ++ s :: std) with ((pre ++ [s]) ++ std)
      by now rewrite <- app_assoc.
    replace (S (length pre)) with (length (pre ++ [s]))
      by (rewrite length_app; simpl; lia).
    rewrite IH by assumption.
    destruct (radial_sample mean std g2) as [xs g3]. cbn [fst snd].
    unfold entry at 2. cbn [data scalar nth].
    now rewrite <- app_assoc.
Qed.

(** The radial branch of [sample_diag_gauss] draws one direction tensor
    and one radius per parameter tensor. *)
Lemma sample_diag_gauss_radial (mean std : list Tensor) (g : G) :
  Forall wf mean -> Forall wf std -> same_shapes mean std ->
  sample_diag_gauss mean std true g
  = (Ok (fst (radial_sample mean std g)), snd (radial_sample mean std g)).
Proof.
  intros Wm Ws Sh. unfold sample_diag_gauss.
  apply (sample_diag_gauss_loop [] mean std [] g Wm Ws Sh).
Qed.

Lemma decode_std_shape (logvar_enc : bool) (rho : Tensor) :
  shape (decode_std logvar_enc rho) = shape rho.
Proof. now destruct logvar_enc. Qed.

Lemma decode_std_wf (logvar_enc : bool) (rho : Tensor) :
  wf rho -> wf (decode_std logvar_enc rho).
Proof.
  unfold wf. destruct logvar_enc; simpl; now rewrite ?length_map.
Qed.

Lemma decode_and_sample_loop (logvar_enc : bool) (pre_m pre_r : list Tensor)
    (mean rho acc : list Tensor) (k : nat) (g : G) :
  length pre_r = length pre_m ->
  Forall wf mean -> Forall wf rho -> same_shapes mean rho ->
  for_enumerate
    (fun (_ : nat) i sample =>
       std <~ slift (if logvar_enc
                     then fmap (fun t => texp (rmul 0.5 t)) (getitem (pre_r ++ rho) i)
                     else fmap softplus (getitem (pre_r ++ rho) i)) ;;
       eps <~ draw (normal (shape std)) ;;
       r <~ draw (normal []) ;;
       x <~ slift (getitem (pre_m ++ mean) i + Ok std * Ok r * Ok eps
                   / Ok (tnorm2 eps))%T ;;
       sret (sample ++ [x]))
    k (seq (length pre_m) (length mean)) acc g
  = (Ok (acc ++ fst (radial_sample mean (map (decode_std logvar_enc) rho) g)),
     snd (radial_sample mean (map (decode_std logvar_enc) rho) g)).
Proof.
  intros L Wm Wr Sh. revert pre_m pre_r acc k g L Wm Wr.
  induction Sh as [|m rh mean rho Emr _ IH]; intros pre_m pre_r acc k g L Wm Wr.
  - simpl. unfold sret. now rewrite app_nil_r.
  - inversion Wm as [|? ? Wm0 Wm']; inversion Wr as [|? ? Wr0 Wr']; subst.
    cbn [length seq for_enumerate radial_sample map].
    assert (Eg : getitem (pre_r ++ rh :: rho) (length pre_m) = Ok rh)
      by (rewrite <- L; apply getitem_app).
    rewrite !Eg. clear Eg.
    assert (Ed : (if logvar_enc
                  then fmap (fun t => texp (rmul 0.5 t)) (Ok rh)
                  else fmap softplus (Ok rh))
                 = Ok (decode_std logvar_enc rh)) by now destruct logvar_enc.
    rewrite Ed. clear Ed.
    rewrite sbind_assoc, sbind_slift_Ok.
    rewrite sbind_assoc, sbind_draw.
    rewrite decode_std_shape, <- Emr.
    pose proof (normal_shape (shape m) g) as Se.
    pose proof (normal_wf (shape m) g) as We.
    destruct (normal (shape m) g) as [eps g1]. cbn [fst snd] in *.
    rewrite sbind_assoc, sbind_draw.
    pose proof (normal_shape [] g1) as Sr.
    pose proof (normal_wf [] g1) as Wsc.
    destruct (normal [] g1) as [r g2]. cbn [fst snd] in *.
    rewrite (wf_scalar_inv r Wsc Sr).
    rewrite getitem_app.
    rewrite radial_expression;
      [| assumption | now apply decode_std_wf | assumption
       | now rewrite decode_std_shape | assumption].
    rewrite sbind_assoc, sbind_slift_Ok, sbind_sret.
    replace (pre_m ++ m :: mean) with ((pre_m ++ [m]) ++ mean)
      by now rewrite <- app_assoc.
    replace (pre_r ++ rh :: rho) with ((pre_r ++ [rh]) ++ rho)
      by now rewrite <- app_assoc.
    replace (S (length pre_m)) with (length (pre_m ++ [m]))
      by (rewrite length_app; simpl; lia).
    rewrite IH; [| rewrite !length_app; simpl; lia | assumption | assumption].
    destruct (radial_sample mean (map (decode_std logvar_enc) rho) g2) as [xs g3].
    cbn [fst snd]. unfold entry at 2. cbn [data scalar nth].
    now rewrite <- app_assoc.
Qed.

Lemma same_shapes_length (xs ys : list Tensor) :
  same_shapes xs ys -> length ys = length xs.
Proof. induction 1; simpl; congruence. Qed.

(** C4: with [is_radial=True], on lists of matching shapes,
    [sample_diag_gauss] returns for every parameter tensor
    [mean + std * (eps / ||eps||_2) * r], where [eps] is drawn with the
    shape of the mean, the norm is taken per tensor and the radius [r] is
    a fresh draw for every tensor; [decode_and_sample_diag_gauss] returns
    the same on the standard deviations decoded from [rho]. *)
Theorem radial_sampling (mean std rho : list Tensor) (logvar_enc : bool) (g : G) :
  Forall wf mean -> Forall wf std -> Forall wf rho ->
  same_shapes mean std -> same_shapes mean rho ->
  sample_diag_gauss mean std true g
  = (Ok (fst (radial_sample mean std g)), snd (radial_sample mean std g))
  /\ decode_and_sample_diag_gauss mean rho logvar_enc true g
     = (Ok (fst (radial_sample mean (map (decode_std logvar_enc) rho) g)),
        snd (radial_sample mean (map (decode_std logvar_enc) rho) g)).
Proof.
  intros Wm Ws Wr Ss Sr. split.
  - now apply sample_diag_gauss_radial.
  - unfold decode_and_sample_diag_gauss.
    rewrite (same_shapes_length _ _ Sr), Nat.eqb_refl. cbn [negb].
    unfold for_range.
    apply (decode_and_sample_loop logvar_enc [] [] mean rho [] 0%nat g
             eq_refl Wm Wr Sr).
Qed.
End SamplingProofs.

Lemma radial_sampling_witness :
  let m := [mkT [2%nat] [1; 2]] in
  let g := mkTape (fun _ => 1) 0 in
  sample_diag_gauss m m true g
  = (Ok (fst (radial_sample m m g)), snd (radial_sample m m g))
  /\ decode_and_sample_diag_gauss m m true true g
     = (Ok (fst (radial_sample m (map (decode_std true) m) g)),
        snd (radial_sample m (map (decode_std true) m) g)).
Proof.
  intros m g. apply (radial_sampling m m m true g); repeat constructor.
Defined.

(** ** [kl_radial_bnn_with_diag_gauss] *)

Lemma sqrt_2PI_pos : 0 < sqrt (2 * PI).
Proof. apply sqrt_lt_R0. pose proof PI_RGT_0. lra. Qed.

(** The expression of [log_prob] is the logarithm of the density. *)
Lemma log_normal_alt (x mu sigma : R) :
  0 < sigma ->
  - (x - mu) ^ 2 / (2 * sigma ^ 2) - ln sigma - ln (sqrt (2 * PI))
  = log_normal x mu sigma.
Proof.
  intros Hs. unfold log_normal. pose proof sqrt_2PI_pos as Hq.
  assert (Hp : 0 < sigma * sqrt (2 * PI)) by now apply Rmult_lt_0_compat.
  rewrite ln_mult; [| now apply Rinv_0_lt_compat | apply exp_pos].
  rewrite ln_exp, ln_Rinv by assumption.
  rewrite ln_mult by assumption. lra.
Qed.

Lemma forallb_positive (l : list R) :
  Forall (fun x => 0 < x) l -> forallb Rpositiveb l = true.
Proof.
  induction 1 as [|x l Hx _ IH]; simpl; [reflexivity|].
  rewrite IH. unfold Rpositiveb. now destruct (Rlt_dec 0 x).
Qed.

Lemma Forall_tab (P : R -> Prop) (n : nat) (f : nat -> R) :
  Forall P (tab n f) -> forall j, (j < n)%nat -> P (f j).
Proof.
  intros HF j Hj. rewrite Forall_forall in HF. apply HF.
  unfold tab. apply in_map. apply in_seq. lia.
Qed.

Lemma log_prob_sum (x mu sigma : Tensor) :
  wf x -> wf mu -> wf sigma ->
  shape x = shape mu -> shape sigma = shape mu ->
  Forall (fun v => 0 < v) (data sigma) ->
  (p <- Normal mu sigma ;; fmap tsum (log_prob p x))
  = Ok (scalar (log_normal_sum x mu sigma)).
Proof.
  intros Wx Wm Ws Sx Ss Pos. unfold Normal, log_normal_sum.
  rewrite Ss, broadcast_shapes_same.
  rewrite !expand_to_same by (unfold wf in *; congruence).
  rewrite forallb_positive by assumption. cbn [bind].
  unfold log_prob. cbn [loc scale].
  tabulate x Wx fx. tabulate mu Wm fm. tabulate sigma Ws fs. subst.
  tensor_norm. unfold scalar. do 3 f_equal. apply sum_n_ext. intros j Hj.
  unfold entry. cbn [data]. rewrite !tab_nth by assumption.
  rewrite <- log_normal_alt by (eapply Forall_tab; eassumption).
  reflexivity.
Qed.

Lemma sbind_eq {G A B : Type} (m : rng G A) (k : A -> rng G B) (g g' : G) (a : A) :
  m g = (Ok a, g') -> (x <~ m ;; k x) g = k a g'.
Proof. intros E. unfold sbind. now rewrite E. Qed.

Lemma same_shapes_sym (xs ys : list Tensor) :
  same_shapes xs ys -> same_shapes ys xs.
Proof. induction 1; constructor; auto. Qed.

Lemma same_shapes_trans (xs ys zs : list Tensor) :
  same_shapes xs ys -> same_shapes ys zs -> same_shapes xs zs.
Proof.
  intros H. revert zs. induction H as [|x y xs ys E _ IH]; intros zs Hz;
    inversion Hz; subst; constructor.
  - congruence.
  - now apply IH.
Qed.

Lemma acc_val_iadd (acc : pynum) (x v : R) :
  acc_val acc x ->
  exists acc', iadd acc (scalar v) = Ok acc' /\ acc_val acc' (x + v).
Proof.
  intros [-> | ->]; eexists; (split; [reflexivity|]); now right.
Qed.

Lemma iadd_acc_val (acc : pynum) (x v : R) :
  acc_val acc x -> iadd acc (scalar v) = Ok (PyTensor (scalar (x + v))).
Proof. now intros [-> | ->]. Qed.

Lemma acc_val_eq (acc : pynum) (x y : R) : x = y -> acc_val acc x -> acc_val acc y.
Proof. now intros ->. Qed.

Section KlRadialProofs.
Context {G : Type} `{Generator G}.

Lemma radial_sample_props (mean std : list Tensor) (g : G) :
  same_shapes mean std ->
  Forall wf (fst (radial_sample mean std g))
  /\ same_shapes mean (fst (radial_sample mean std g)).
Proof.
  intros Sh. revert g. induction Sh as [|m s mean std _ _ IH]; intros g.
  - simpl. split; constructor.
  - cbn [radial_sample].
    destruct (normal (shape m) g) as [eps g1].
    destruct (normal [] g1) as [r g2].
    specialize (IH g2).
    destruct (radial_sample mean std g2) as [xs g3]. cbn [fst] in *.
    destruct IH as [IH1 IH2]. split; constructor; try assumption.
    + unfold wf, radial_tensor. cbn [shape data]. apply tab_length.
    + reflexivity.
Qed.

Lemma cross_entropy_inner (pre_s pre_m pre_b sample mean_b std_b : list Tensor)
    (acc : pynum) (x : R) (k : nat) (g : G) :
  length pre_m = length pre_s -> length pre_b = length pre_s ->
  Forall wf sample -> Forall wf mean_b -> Forall wf std_b ->
  same_shapes mean_b sample -> same_shapes mean_b std_b ->
  positive std_b -> acc_val acc x ->
  exists acc',
    for_enumerate
      (fun (_ : nat) i cross_entropy =>
         p_b <~ slift (mu <- getitem (pre_m ++ mean_b) i ;;
                       sigma <- getitem (pre_b ++ std_b) i ;;
                       Normal mu sigma) ;;
         lp <~ slift (x <- getitem (pre_s ++ sample) i ;; log_prob p_b x) ;;
         slift (iadd cross_entropy (tsum lp)))
      k (seq (length pre_s) (length mean_b)) acc g
    = (Ok acc', g)
    /\ acc_val acc' (x + cross_sum sample mean_b std_b).
Proof.
  intros Lm Lb Ws Wm Wb Sms Smb Pos.
  revert pre_s pre_m pre_b sample std_b acc x k Lm Lb Ws Wm Wb Sms Smb Pos.
  induction mean_b as [|mu mean_b IH];
    intros pre_s pre_m pre_b sample std_b acc x k Lm Lb Ws Wm Wb Sms Smb Pos Hacc.
  - inversion Sms; inversion Smb; subst. exists acc. split; [reflexivity|].
    simpl. eapply acc_val_eq; [|eassumption]. lra.
  - inversion Sms as [|? xs ? sample' Ex Sms']; subst.
    inversion Smb as [|? sigma ? std_b' Eb Smb']; subst.
    inversion Ws; inversion Wm; inversion Wb; inversion Pos; subst.
    cbn [length seq for_enumerate cross_sum].
    assert (E1 : getitem (pre_m ++ mu :: mean_b) (length pre_s) = Ok mu)
      by (rewrite <- Lm; apply getitem_app).
    assert (E2 : getitem (pre_b ++ sigma :: std_b') (length pre_s) = Ok sigma)
      by (rewrite <- Lb; apply getitem_app).
    rewrite E1, E2, getitem_app. cbn [bind].
    pose proof (log_prob_sum xs mu sigma) as Hlp.
    specialize (Hlp ltac:(assumption) ltac:(assumption) ltac:(assumption)
                    (eq_sym Ex) (eq_sym Eb) ltac:(assumption)).
    destruct (Normal mu sigma) as [p|e]; [|discriminate].
    cbn [bind] in Hlp. rewrite sbind_assoc, sbind_slift_Ok.
    destruct (log_prob p xs) as [lp|e]; [|discriminate].
    cbn [fmap bind] in Hlp. injection Hlp as Hlp.
    rewrite sbind_assoc, sbind_slift_Ok. unfold tsum. rewrite Hlp.
    destruct (acc_val_iadd acc x (log_normal_sum xs mu sigma) Hacc)
      as (acc1 & Ei & Hacc1).
    rewrite Ei, sbind_slift_Ok.
    replace (pre_m ++ mu :: mean_b) with ((pre_m ++ [mu]) ++ mean_b)
      by now rewrite <- app_assoc.
    replace (pre_b ++ sigma :: std_b') with ((pre_b ++ [sigma]) ++ std_b')
      by now rewrite <- app_assoc.
    replace (pre_s ++ xs :: sample') with ((pre_s ++ [xs]) ++ sample')
      by now rewrite <- app_assoc.
    replace (S (length pre_s)) with (length (pre_s ++ [xs]))
      by (rewrite length_app; simpl; lia).
    destruct (IH (pre_s ++ [xs]) (pre_m ++ [mu]) (pre_b ++ [sigma]) sample'
                std_b' acc1 (x + log_normal_sum xs mu sigma) (S k))
      as (acc2 & E & Hacc2);
      try assumption; try (rewrite !length_app; simpl; lia).
    exists acc2. split; [exact E|].
    eapply acc_val_eq; [|eassumption]. lra.
Qed.

Section Arguments.
Variables mean_a std_a mean_b std_b : list Tensor.
Hypothesis Wma : Forall wf mean_a.
Hypothesis Wsa : Forall wf std_a.
Hypothesis Wmb : Forall wf mean_b.
Hypothesis Wsb : Forall wf std_b.
Hypothesis Ssa : same_shapes mean_a std_a.
Hypothesis Smb : same_shapes mean_a mean_b.
Hypothesis Ssb : same_shapes mean_a std_b.
Hypothesis Pos : positive std_b.

Lemma cross_entropy_outer (n start k : nat) (acc : pynum) (x : R) (g : G) :
  acc_val acc x ->
  exists acc',
    for_enumerate
      (fun (_ : nat) (n : nat) cross_entropy =>
         sample <~ sample_diag_gauss mean_a std_a true ;;
         for_range (length mean_b)
           (fun i cross_entropy =>
              p_b <~ slift (mu <- getitem mean_b i ;;
                            sigma <- getitem std_b i ;;
                            Normal mu sigma) ;;
              lp <~ slift (x <- getitem sample i ;; log_prob p_b x) ;;
              slift (iadd cross_entropy (tsum lp)))
           cross_entropy)
      k (seq start n) acc g
    = (Ok acc', snd (cross_total mean_a std_a mean_b std_b n g))
    /\ acc_val acc' (x + fst (cross_total mean_a std_a mean_b std_b n g)).
Proof.
  revert start k acc x g.
  induction n as [|n IH]; intros start k acc x g Hacc.
  - exists acc. split; [reflexivity|]. simpl.
    eapply acc_val_eq; [|eassumption]. lra.
  - cbn [seq for_enumerate cross_total].
    rewrite sbind_assoc.
    rewrite (sbind_eq _ _ _ _ _ (sample_diag_gauss_radial mean_a std_a g Wma Wsa Ssa)).
    destruct (radial_sample_props mean_a std_a g Ssa) as [Wxs Sxs].
    destruct (radial_sample mean_a std_a g) as [xs g1]. cbn [fst snd] in *.
    assert (Smx : same_shapes mean_b xs)
      by (eapply same_shapes_trans; [apply same_shapes_sym; exact Smb | exact Sxs]).
    assert (Smsb : same_shapes mean_b std_b)
      by (eapply same_shapes_trans; [apply same_shapes_sym; exact Smb | exact Ssb]).
    destruct (cross_entropy_inner [] [] [] xs mean_b std_b acc x 0%nat g1
                eq_refl eq_refl Wxs Wmb Wsb Smx Smsb Pos Hacc)
      as (acc1 & E1 & Hacc1).
    cbn [app length] in E1. unfold for_range.
    rewrite (sbind_eq _ _ _ _ _ E1).
    destruct (IH (S start) (S k) acc1 _ g1 Hacc1) as (acc2 & E2 & Hacc2).
    destruct (cross_total mean_a std_a mean_b std_b n g1) as [rest g2].
    cbn [fst snd] in *.
    exists acc2. split; [exact E2|].
    eapply acc_val_eq; [|eassumption]. lra.
Qed.
End Arguments.
End KlRadialProofs.

Lemma rsum_map_nth (f : R -> R) (l : list R) :
  rsum (map f l) = sum_n (length l) (fun j => f (nth j l 0)).
Proof.
  rewrite (tab_of_list l) at 1. now rewrite map_tab, rsum_tab.
Qed.

(** C5 (amended): on non-empty lists of tensors with matching shapes, with
    every tensor of [std_a] one that [view(-1)] can see as one dimension
    without a copy and every entry of [std_b] positive, and for
    [ce_sample_size = n >= 1], [kl_radial_bnn_with_diag_gauss] returns
    [(- sum_j ln std_a_j) - (1/n) * sum over the n samples, the parameter
    tensors and their entries of ln N(sample; mean_b, std_b)], the samples
    being drawn one after the other by the radial branch of
    [sample_diag_gauss]. *)
Theorem kl_radial_bnn_formula {G : Type} `{Generator G}
    (mean_a : list Tensor) (std_a : list Strided) (mean_b std_b : list Tensor)
    (n : Z) (g : G) :
  mean_a <> [] ->
  forallb viewable std_a = true ->
  Forall wf mean_a -> Forall wf (map tensor std_a) ->
  Forall wf mean_b -> Forall wf std_b ->
  same_shapes mean_a (map tensor std_a) ->
  same_shapes mean_a mean_b ->
  same_shapes mean_a std_b ->
  positive std_b ->
  (1 <= n)%Z ->
  kl_radial_bnn_with_diag_gauss mean_a std_a mean_b std_b n g
  = (Ok (scalar (kl_radial_formula mean_a (map tensor std_a) mean_b std_b n g)),
     snd (cross_total mean_a (map tensor std_a) mean_b std_b (Z.to_nat n) g)).
Proof.
  intros Hne Vsa Wma Wsa Wmb Wsb Ssa Smb Ssb Pb Hn.
  unfold kl_radial_bnn_with_diag_gauss, kl_radial_formula.
  rewrite (cat_views std_a Vsa).
  rewrite (cat_flatten (map tensor std_a) (same_shapes_nonempty _ _ Ssa Hne) Wsa).
  rewrite fmap_Ok, sbind_slift_Ok.
  destruct (cross_entropy_outer mean_a (map tensor std_a) mean_b std_b Wma Wsa Wmb Wsb
              Ssa Smb Ssb Pb (Z.to_nat n) 0%nat 0%nat (PyNum 0) 0 g)
    as (acc & E & Hacc); [now left|].
  unfold for_range. rewrite (sbind_eq _ _ _ _ _ E).
  destruct (cross_total mean_a (map tensor std_a) mean_b std_b (Z.to_nat n) g)
    as [tot g'].
  cbn [fst snd] in *.
  assert (Hz : (n =? 0)%Z = false) by (apply Z.eqb_neq; lia).
  unfold tlog, tsum, tneg. rewrite !tmap_scalar. cbn [tmap shape data].
  rewrite rsum_map_nth.
  destruct Hacc as [-> | ->]; cbn [idiv]; rewrite ?Hz;
    rewrite sbind_slift_Ok; unfold slift, tsub_pynum.
  - unfold rsubr. rewrite tmap_scalar.
    do 3 f_equal. unfold Rdiv. ring.
  - rewrite tmap_scalar, tbin_scalars.
    do 3 f_equal. unfold Rdiv. ring.
Qed.

Lemma kl_radial_bnn_formula_witness :
  let m := [mkT [2%nat] [1; 2]] in
  let g := mkTape (fun _ => 1) 0 in
  kl_radial_bnn_with_diag_gauss m (map contiguous m) m m 1 g
  = (Ok (scalar (kl_radial_formula m (map tensor (map contiguous m)) m m 1 g)),
     snd (cross_total m (map tensor (map contiguous m)) m m (Z.to_nat 1) g)).
Proof.
  intros m g. apply (kl_radial_bnn_formula m (map contiguous m) m m 1 g);
    try solve [ discriminate | reflexivity | repeat constructor; lra | lia ].
Defined.

Lemma Rpositiveb_0 : Rpositiveb 0 = false.
Proof. unfold Rpositiveb. destruct (Rlt_dec 0 0); [lra|reflexivity]. Qed.

(** C5 as stated fails in three ways on lists of matching shapes: on empty
    lists the entropy term concatenates the empty sequence, which
    [torch.cat] rejects; on a transposed [std_a] its [view(-1)] raises;
    and where [std_b] has an entry that is not positive, [Normal] rejects
    it.  In each case an exception leaves the call and no value is
    returned. *)
Lemma kl_radial_bnn_raises :
  let g := mkTape (fun _ => 1) 0 in
  let m := [mkT [3%nat; 2%nat] [1; 4; 2; 5; 3; 6]] in
  let transposed := [mkStrided (mkT [3%nat; 2%nat] [1; 4; 2; 5; 3; 6]) [1%nat; 3%nat]] in
  let v := [mkT [2%nat] [1; 2]] in
  let zero := [mkT [2%nat] [0; 1]] in
  (same_shapes [] [] /\
   fst (kl_radial_bnn_with_diag_gauss [] [] [] [] 1 g) = Raise RuntimeError)
  /\
  (Forall wf m /\ same_shapes m (map tensor transposed) /\ positive m /\
   fst (kl_radial_bnn_with_diag_gauss m transposed m m 1 g) = Raise RuntimeError)
  /\
  (Forall wf v /\ Forall wf zero /\ same_shapes v zero /\
   forallb viewable (map contiguous v) = true /\
   fst (kl_radial_bnn_with_diag_gauss v (map contiguous v) v zero 1 g)
   = Raise ValueError).
Proof.
  intros g m transposed v zero.
  split; [|split].
  - split; [constructor|reflexivity].
  - repeat split; try (repeat constructor; lra).
  - repeat split; try (repeat constructor).
    unfold kl_radial_bnn_with_diag_gauss.
    rewrite (cat_views (map contiguous v) eq_refl), tensor_contiguous.
    rewrite (cat_flatten v); [|discriminate|repeat constructor].
    rewrite fmap_Ok, sbind_slift_Ok.
    assert (EN : (mu <- getitem v 0 ;; sigma <- getitem zero 0 ;; Normal mu sigma)
                 = Raise ValueError).
    { cbn [v zero getitem nth_error bind]. unfold Normal. cbn [shape data].
      rewrite broadcast_shapes_same, !expand_to_same by reflexivity.
      cbn [forallb]. now rewrite Rpositiveb_0. }
    assert (Wv : Forall wf v) by repeat constructor.
    assert (Sv : same_shapes v v) by repeat constructor.
    unfold for_range. change (Z.to_nat 1) with 1%nat.
    cbn [seq for_enumerate]. rewrite !sbind_assoc.
    rewrite (sbind_eq _ _ _ _ _ (sample_diag_gauss_radial v v g Wv Wv Sv)).
    destruct (radial_sample v v g) as [xs g1]. cbn [fst snd].
    change (length v) with 1%nat. cbn [seq for_enumerate].
    rewrite !sbind_assoc, EN, sbind_slift_Raise. reflexivity.
Qed.

(** ** Splitting the hypernetwork output *)

Lemma mapM_getitem {A B : Type} (f : A -> B) (pre l : list A) :
  mapM (fun i => fmap f (getitem (pre ++ l) i)) (seq (length pre) (length l))
  = Ok (map f l).
Proof.
  revert pre. induction l as [|x l IH]; intros pre; [reflexivity|].
  cbn [length seq mapM map]. rewrite getitem_app. cbn [fmap bind].
  replace (pre ++ x :: l) with ((pre ++ [x]) ++ l) by now rewrite <- app_assoc.
  replace (S (length pre)) with (length (pre ++ [x]))
    by (rewrite length_app; simpl; lia).
  now rewrite IH.
Qed.

Lemma half_lengths {A : Type} (h : list A) :
  (length h mod 2 = 0)%nat ->
  length (firstn (length h / 2) h) = (length h / 2)%nat
  /\ length (skipn (length h / 2) h) = (length h / 2)%nat.
Proof.
  intros E. rewrite length_firstn, length_skipn.
  pose proof (Nat.div_mod_eq (length h) 2). lia.
Qed.

Section HnetProofs.
Context {G : Type} `{Generator G}.

Lemma reparam_loop (pre_m pre_l mu logvar acc : list Tensor) (k : nat) (g : G) :
  length pre_l = length pre_m -> length logvar = length mu ->
  for_enumerate
    (fun (_ : nat) i sample =>
       std <~ slift (fmap (fun t => texp (rmul 0.5 t)) (getitem (pre_l ++ logvar) i)) ;;
       p <~ slift (m <- getitem (pre_m ++ mu) i ;; Normal m std) ;;
       x <~ rsample p ;;
       sret (sample ++ [x]))
    k (seq (length pre_m) (length mu)) acc g
  = (xs <~ reparam_sample mu logvar ;; sret (acc ++ xs)) g.
Proof.
  intros Lp Ll. revert pre_m pre_l logvar acc k g Lp Ll.
  induction mu as [|m mu IH]; intros pre_m pre_l logvar acc k g Lp Ll.
  - destruct logvar; [|discriminate]. cbn. unfold sret. now rewrite app_nil_r.
  - destruct logvar as [|lv logvar]; [discriminate|].
    cbn [length seq for_enumerate reparam_sample].
    assert (E1 : getitem (pre_l ++ lv :: logvar) (length pre_m) = Ok lv)
      by (rewrite <- Lp; apply getitem_app).
    rewrite E1, getitem_app, fmap_Ok. cbn [bind].
    rewrite !sbind_assoc, sbind_slift_Ok.
    rewrite sbind_assoc.
    destruct (Normal m (texp (rmul 0.5 lv))) as [p|e].
    2:{ now rewrite !sbind_slift_Raise. }
    rewrite !sbind_slift_Ok, !sbind_assoc.
    apply sbind_ext. intros x g1.
    rewrite sbind_sret.
    replace (pre_m ++ m :: mu) with ((pre_m ++ [m]) ++ mu) by now rewrite <- app_assoc.
    replace (pre_l ++ lv :: logvar) with ((pre_l ++ [lv]) ++ logvar)
      by now rewrite <- app_assoc.
    replace (S (length pre_m)) with (length (pre_m ++ [m]))
      by (rewrite length_app; simpl; lia).
    rewrite IH by (rewrite ?length_app; simpl in *; lia).
    rewrite !sbind_assoc.
    apply sbind_ext. intros xs g2.
    rewrite sbind_sret. unfold sret. now rewrite <- app_assoc.
Qed.

Lemma sbind_sret_r {A : Type} (m : rng G A) (g : G) :
  (x <~ m ;; sret x) g = m g.
Proof. unfold sbind, sret. now destruct (m g) as [[a|e] g']. Qed.

(** C10: [extract_mean_std] raises [AssertionError] exactly on lists of odd
    length; on a list of even length [2n] it returns the second half as
    the mean, [exp (0.5 * t)] for the tensors [t] of the first half as the
    standard deviation, and the first half as the log-variance when
    [return_logvar] is set.  [sample_diag_gaus_from_hnet] makes the same
    assertion and samples with the means from the second half and the
    log-variances from the first half. *)
Theorem hnet_output_split (hnet_outputs : list Tensor) (return_logvar : bool) (g : G) :
  let n := (length hnet_outputs / 2)%nat in
  let mean := skipn n hnet_outputs in
  let logvar := firstn n hnet_outputs in
  let std := map (fun t => texp (rmul 0.5 t)) logvar in
  (extract_mean_std hnet_outputs return_logvar = Raise AssertionError
   <-> (length hnet_outputs mod 2 = 1)%nat)
  /\ ((length hnet_outputs mod 2 = 0)%nat ->
      extract_mean_std hnet_outputs return_logvar
      = Ok (if return_logvar then MeanStdLogvar mean std logvar
            else MeanStd mean std))
  /\ ((length hnet_outputs mod 2 = 1)%nat ->
      sample_diag_gaus_from_hnet hnet_outputs g = (Raise AssertionError, g))
  /\ ((length hnet_outputs mod 2 = 0)%nat ->
      sample_diag_gaus_from_hnet hnet_outputs g = reparam_sample mean logvar g).
Proof.
  intros n mean logvar std.
  assert (Hev : (length hnet_outputs mod 2 = 0)%nat ->
                extract_mean_std hnet_outputs return_logvar
                = Ok (if return_logvar then MeanStdLogvar mean std logvar
                      else MeanStd mean std)).
  { intros E. unfold extract_mean_std. rewrite E. cbn [Nat.eqb negb].
    fold n. fold logvar. fold mean.
    destruct (half_lengths hnet_outputs E) as [L1 _]. fold n in L1. fold logvar in L1.
    pose proof (mapM_getitem (fun t => texp (rmul 0.5 t)) [] logvar) as M.
    cbn [app length] in M. rewrite L1 in M. rewrite M. cbn [bind].
    now destruct return_logvar. }
  assert (Hmod : (length hnet_outputs mod 2 = 0 \/ length hnet_outputs mod 2 = 1)%nat).
  { pose proof (Nat.mod_upper_bound (length hnet_outputs) 2). lia. }
  repeat split.
  - intros E. destruct Hmod as [E0|E1]; [|exact E1].
    rewrite (Hev E0) in E. discriminate.
  - intros E. unfold extract_mean_std. now rewrite E.
  - exact Hev.
  - intros E. unfold sample_diag_gaus_from_hnet. now rewrite E.
  - intros E. unfold sample_diag_gaus_from_hnet. rewrite E. cbn [Nat.eqb negb].
    fold n. fold logvar. fold mean. unfold for_range.
    destruct (half_lengths hnet_outputs E) as [L1 L2].
    fold n in L1, L2. fold logvar in L1. fold mean in L2.
    pose proof (reparam_loop [] [] mean logvar [] 0%nat g eq_refl) as R.
    cbn [app length] in R. rewrite L2 in R. rewrite R by congruence.
    apply sbind_sret_r.
Qed.
End HnetProofs.

Lemma hnet_output_split_witness :
  let a := mkT [1%nat] [1] in
  let b := mkT [1%nat] [2] in
  let g := mkTape (fun _ => 1) 0 in
  extract_mean_std [a; b] true
  = Ok (MeanStdLogvar [b] [texp (rmul 0.5 a)] [a])
  /\ sample_diag_gaus_from_hnet [a; b] g = reparam_sample [b] [a] g.
Proof.
  intros a b g.
  destruct (hnet_output_split [a; b] true g) as (_ & E1 & _ & E2).
  split; [apply E1 | apply E2]; reflexivity.
Defined.

(** ** [sample_gumbel] *)

Lemma tab_app (a b : nat) (f : nat -> R) :
  tab (a + b) f = tab a f ++ tab b (fun j => f (a + j)%nat).
Proof.
  revert f. induction a as [|a IH]; intros f; [reflexivity|].
  cbn [Nat.add]. rewrite !tab_S, IH. reflexivity.
Qed.

Lemma concat_repeat_tab (K n : nat) (f : nat -> R) :
  concat (repeat (tab n f) K) = tab (K * n) (fun j => f (j mod n)).
Proof.
  induction K as [|K IH]; [reflexivity|].
  cbn [repeat concat]. rewrite IH. change (S K * n)%nat with (n + K * n)%nat.
  rewrite tab_app. f_equal; apply tab_ext; intros j Hj.
  - now rewrite Nat.mod_small.
  - f_equal. replace (n + j)%nat with (j + 1 * n)%nat by lia.
    symmetry. apply Nat.Div0.mod_add.
Qed.

Lemma tile_data_ones (s : list nat) (d : list R) :
  length d = numel s -> tile_data s (repeat 1%nat (length s)) d = d.
Proof.
  revert d; induction s as [|x s IH]; intros d Hd; [reflexivity|].
  cbn [length repeat tile_data concat]. rewrite app_nil_r.
  change (numel (x :: s)) with (x * numel s)%nat in Hd.
  rewrite map_ext_in with (g := fun c => c).
  - rewrite map_id. now apply chunks_concat.
  - intros c Hc. apply IH.
    pose proof (chunks_Forall (numel s) x d Hd) as HF.
    rewrite Forall_forall in HF. now apply HF.
Qed.

(** Tiling [K] times along a first dimension of one index repeats the
    entries [K] times. *)
Lemma tile_first (K : nat) (s : list nat) (d : list R) :
  length d = numel s ->
  tile_data (1%nat :: s) (K :: repeat 1%nat (length s)) d = concat (repeat d K).
Proof.
  intros Hd. cbn [tile_data chunks map concat]. rewrite app_nil_r.
  rewrite firstn_all2 by lia. now rewrite tile_data_ones.
Qed.

(** The logits after [unsqueeze] and [tile]: the entries of [coef], [K]
    times. *)
Lemma coef_expand_tab (gm K d_in d_out : nat) (is_bias : bool) (fc : nat -> R) :
  let c := if is_bias then 1%nat else d_in in
  let sc := if is_bias then [gm; d_out] else [gm; d_in; d_out] in
  let coef := mkT sc (tab (numel sc) fc) in
  (if negb is_bias
   then fmap (fun t => tile t [K; 1; 1; 1]%nat) (unsqueeze coef 0)
   else u <- unsqueeze coef 0 ;;
        fmap (fun t => tile t [K; 1; 1; 1]%nat) (unsqueeze u 2))
  = Ok (mkT [K; gm; c; d_out]
          (tab (K * numel [gm; c; d_out])
             (fun j => fc (j mod numel [gm; c; d_out])))).
Proof.
  intros c sc coef. subst c sc coef.
  destruct is_bias; cbn [negb]; unfold unsqueeze;
    cbn [shape data length Nat.leb firstn skipn app bind fmap];
    unfold tile;
    cbn [shape data length Nat.max pad_left Nat.sub repeat app map2];
    rewrite Nat.mul_1_l, !Nat.mul_1_r; do 2 f_equal.
  - replace (numel [gm; d_out]) with (numel [gm; 1%nat; d_out]) by (cbn; lia).
    rewrite (tile_first K [gm; 1%nat; d_out]) by apply tab_length.
    apply concat_repeat_tab.
  - rewrite (tile_first K [gm; d_in; d_out]) by apply tab_length.
    apply concat_repeat_tab.
Qed.

(** The flat index of the entry [(k, m, q)] of a tensor of [gm] slices of
    [inner] entries per sample. *)
Lemma index_parts (gm inner k m q : nat) :
  (m < gm)%nat -> (q < inner)%nat ->
  let j := ((k * gm + m) * inner + q)%nat in
  (j / (gm * inner) = k /\ (j / inner) mod gm = m /\ j mod inner = q
   /\ j mod (gm * inner) = m * inner + q)%nat.
Proof.
  intros Hm Hq j.
  assert (E1 : (j / inner = k * gm + m)%nat).
  { symmetry. apply (Nat.div_unique j inner _ q); [assumption|]. subst j. lia. }
  assert (E2 : (j mod inner = q)%nat).
  { symmetry. apply (Nat.mod_unique j inner (k * gm + m) q); [assumption|]. subst j. lia. }
  assert (Hr : (m * inner + q < gm * inner)%nat) by nia.
  assert (E3 : (j / (gm * inner) = k)%nat).
  { symmetry. apply (Nat.div_unique j (gm * inner) _ (m * inner + q)); [assumption|].
    subst j. lia. }
  assert (E4 : (j mod (gm * inner) = m * inner + q)%nat).
  { symmetry. apply (Nat.mod_unique j (gm * inner) k (m * inner + q)); [assumption|].
    subst j. lia. }
  repeat split; try assumption.
  rewrite E1. symmetry. apply (Nat.mod_unique _ gm k m); [assumption|]. lia.
Qed.

Lemma index_bound (gm inner K k m q : nat) :
  (k < K)%nat -> (m < gm)%nat -> (q < inner)%nat ->
  ((k * gm + m) * inner + q < K * (gm * inner))%nat.
Proof.
  intros Hk Hm Hq.
  assert (H1 : (k * gm + m + 1 <= K * gm)%nat) by nia.
  assert (H2 : ((k * gm + m + 1) * inner <= K * gm * inner)%nat)
    by (apply Nat.mul_le_mono_r; exact H1).
  lia.
Qed.

Lemma index_of_parts (gm inner K j : nat) :
  (j < K * (gm * inner))%nat ->
  (j / (gm * inner) < K /\ (j / inner) mod gm < gm /\ j mod inner < inner
   /\ j = (j / (gm * inner) * gm + (j / inner) mod gm) * inner + j mod inner)%nat.
Proof.
  intros Hj.
  assert (Hi : (0 < inner)%nat) by nia.
  assert (Hg : (0 < gm)%nat) by nia.
  repeat split.
  - apply Nat.Div0.div_lt_upper_bound. lia.
  - apply Nat.mod_upper_bound. lia.
  - apply Nat.mod_upper_bound. lia.
  - pose proof (Nat.div_mod_eq j inner) as D1.
    pose proof (Nat.div_mod_eq (j / inner) gm) as D2.
    rewrite (Nat.mul_comm gm inner), <- Nat.Div0.div_div. nia.
Qed.

(** [F.softmax] over dimension 1 of a tensor of four dimensions. *)
Lemma softmax_dim1_tab (K gm c d_out : nat) (f : nat -> R) :
  let inner := numel [c; d_out] in
  softmax (mkT [K; gm; c; d_out] (tab (K * (gm * inner)) f)) 1
  = Ok (mkT [K; gm; c; d_out]
          (tab (K * (gm * inner))
             (fun j =>
                exp (f j)
                / sum_n gm
                    (fun i =>
                       exp (f ((j / (gm * inner) * gm + i) * inner + j mod inner)%nat))))).
Proof.
  intros inner. unfold softmax. cbn [shape data length Nat.ltb Nat.leb nth skipn].
  fold inner. rewrite tab_length. do 2 f_equal. apply tab_ext. intros j Hj.
  unfold entry. cbn [data]. rewrite tab_nth by assumption. f_equal.
  apply sum_n_ext. intros i Hi.
  destruct (index_of_parts gm inner K j Hj) as (Hk & _ & Hq & _).
  replace (j / (gm * inner) * (gm * inner) + i * inner + j mod inner)%nat
    with ((j / (gm * inner) * gm + i) * inner + j mod inner)%nat by lia.
  rewrite tab_nth; [reflexivity|]. now apply index_bound.
Qed.

Section GumbelProofs.
Context {G : Type} `{Generator G}.

(** The softmax of the logits of [coef] over the components, at the entry
    [(m, q)]. *)
Lemma coef_weight_tab (sc : list nat) (gm inner : nat) (fc : nat -> R) (m q : nat) :
  hd 0%nat sc = gm -> numel (tl sc) = inner ->
  (m < gm)%nat -> (q < inner)%nat ->
  coef_weight (mkT sc (tab (gm * inner) fc)) m q
  = exp (fc (m * inner + q)%nat) / sum_n gm (fun i => exp (fc (i * inner + q)%nat)).
Proof.
  intros Hn HP Hm Hq. unfold coef_weight, entry. cbn [shape data]. rewrite Hn, HP.
  rewrite tab_nth by nia. f_equal. apply sum_n_ext. intros i Hi.
  now rewrite tab_nth by nia.
Qed.

(** One entry of the tensor that the loop body computes. *)
Lemma gumbel_entry (sc : list nat) (gm K c d_out : nat) (tau : R)
    (fc fu : nat -> R) (j : nat) :
  let inner := numel [c; d_out] in
  let period := (gm * inner)%nat in
  let P := fun j' =>
    exp (fc (j' mod period))
    / sum_n gm
        (fun i => exp (fc (((j' / period * gm + i) * inner + j' mod inner)
                           mod period))) in
  let X := fun j' =>
    1 / tau * (ln (P j') + - ln (- ln (fu j' + 1e-20) + 1e-20)) in
  hd 0%nat sc = gm -> numel (tl sc) = inner ->
  (j < K * period)%nat ->
  exp (X j)
  / sum_n gm (fun i => exp (X ((j / period * gm + i) * inner + j mod inner)%nat))
  = gumbel_weight (mkT sc (tab (numel sc) fc))
      (mkT [K; gm; c; d_out] (tab (K * period) fu)) tau gm inner
      (j / period) ((j / inner) mod gm) (j mod inner).
Proof.
  intros inner period P X Hn HP Hj. subst period.
  assert (Esc : numel sc = (gm * inner)%nat).
  { destruct sc as [|n sc']; cbn [hd tl] in *.
    - subst gm. cbn in Hj. lia.
    - subst n. change (numel (gm :: sc')) with (gm * numel sc')%nat. now rewrite HP. }
  rewrite Esc.
  assert (Key : forall k m q, (k < K)%nat -> (m < gm)%nat -> (q < inner)%nat ->
            X ((k * gm + m) * inner + q)%nat
            = gumbel_logit (mkT sc (tab (gm * inner) fc))
                (mkT [K; gm; c; d_out] (tab (K * (gm * inner)) fu)) tau gm inner k m q).
  { intros k m q Hk Hm Hq. unfold X, P, gumbel_logit.
    destruct (index_parts gm inner k m q Hm Hq) as (A1 & _ & A3 & A4).
    rewrite A1, A3, A4.
    rewrite (coef_weight_tab sc gm inner fc m q Hn HP Hm Hq).
    unfold entry. cbn [data].
    rewrite tab_nth by (now apply index_bound).
    do 3 f_equal. f_equal. apply sum_n_ext. intros i Hi.
    destruct (index_parts gm inner k i q Hi Hq) as (_ & _ & _ & B4).
    now rewrite B4. }
  destruct (index_of_parts gm inner K j Hj) as (Hk & Hm & Hq & Ej).
  unfold gumbel_weight. rewrite <- Key by assumption. rewrite <- Ej.
  f_equal. apply sum_n_ext. intros i Hi. now rewrite Key.
Qed.

(** The call up to the first iteration of the loop, which returns. *)
Lemma sample_gumbel_first_iteration (mean rho : list Tensor) (logvar_enc : bool)
    (coef : Tensor) (tau : R) (gauss_mixture K d_in d_out : nat)
    (is_bias is_radial : bool) (g : G) (m0 : Tensor) (d0 : nat) (s0 : list nat) :
  nth_error mean 0 = Some m0 -> shape m0 = S d0 :: s0 ->
  length rho = length mean -> tlen coef = Ok (length mean) ->
  sample_gumbel mean rho logvar_enc coef tau gauss_mixture K d_in d_out
    is_bias is_radial g
  = (coef_expand <~
       slift (if negb is_bias
              then fmap (fun t => tile t [K; 1; 1; 1]%nat) (unsqueeze coef 0)
              else u <- unsqueeze coef 0 ;;
                   fmap (fun t => tile t [K; 1; 1; 1]%nat) (unsqueeze u 2)) ;;
     gumbel_sample <~
       draw (rand (if negb is_bias then [K; gauss_mixture; d_in; d_out]
                   else [K; gauss_mixture; 1%nat; d_out])) ;;
     coff_expand_softmax <~ slift (softmax coef_expand 1) ;;
     coff_expand_softmax_gumbel <~
       slift (c <- py_inv tau ;;
              x <- (Ok (tlog coff_expand_softmax)
                    + Ok (gumbel_noise 1e-20 gumbel_sample))%T ;;
              softmax (rmul c x) 1) ;;
     sret (GumbelTensor coff_expand_softmax_gumbel)) g.
Proof.
  intros Hm Sm Hl Hc. unfold sample_gumbel.
  rewrite Hl, Nat.eqb_refl. cbn [negb]. rewrite Hc. cbn [bind].
  rewrite Nat.eqb_refl. cbn [negb]. rewrite sbind_slift_Ok.
  destruct mean as [|m mean']; [discriminate|].
  destruct rho as [|r rho']; [discriminate|].
  cbn in Hm. injection Hm as ->.
  cbn [length Nat.ltb Nat.leb]. unfold getitem at 1. cbn [nth_error bind].
  unfold tindex. rewrite Sm. cbn [Nat.ltb Nat.leb bind].
  rewrite sbind_slift_Ok.
  cbn [seq for_return]. unfold getitem. cbn [nth_error fmap bind].
  assert (Es : (if logvar_enc then Ok (texp (rmul 0.5 r)) else Ok (softplus r))
               = Ok (decode_std logvar_enc r)) by now destruct logvar_enc.
  rewrite Es. clear Es.
  rewrite !sbind_assoc, sbind_slift_Ok.
  repeat (rewrite !sbind_assoc; apply sbind_ext; intros ? ?).
  now rewrite sbind_sret.
Qed.

Lemma py_inv_nonzero (tau : R) : tau <> 0 -> py_inv tau = Ok (1 / tau).
Proof. intros Ht. unfold py_inv. now destruct (Req_dec_T tau 0). Qed.

Lemma py_inv_zero : py_inv 0 = Raise ZeroDivisionError.
Proof. unfold py_inv. destruct (Req_dec_T 0 0); [reflexivity|contradiction]. Qed.

(** With logits of the shape of the mixture, the first iteration draws the
    uniform tensor and then divides by [tau]. *)
Lemma sample_gumbel_run (mean rho : list Tensor) (logvar_enc : bool)
    (coef : Tensor) (tau : R) (gauss_mixture K d_in d_out : nat)
    (is_bias is_radial : bool) (g : G) (m0 : Tensor) (d0 : nat) (s0 : list nat) :
  let c := if is_bias then 1%nat else d_in in
  let u := rand [K; gauss_mixture; c; d_out] g in
  nth_error mean 0 = Some m0 -> shape m0 = S d0 :: s0 ->
  length rho = length mean -> length mean = gauss_mixture ->
  shape coef = (if is_bias then [gauss_mixture; d_out]
                else [gauss_mixture; d_in; d_out]) ->
  wf coef ->
  sample_gumbel mean rho logvar_enc coef tau gauss_mixture K d_in d_out
    is_bias is_radial g
  = (_ <- py_inv tau ;;
     Ok (GumbelTensor
           (gumbel_softmax_formula coef (fst u) tau gauss_mixture K c d_out)),
     snd u).
Proof.
  intros c u Hm Sm Hl Hgm Sc Wc.
  assert (Hc : tlen coef = Ok (length mean)).
  { unfold tlen. rewrite Sc, Hgm. now destruct is_bias. }
  rewrite (sample_gumbel_first_iteration mean rho logvar_enc coef tau gauss_mixture
             K d_in d_out is_bias is_radial g m0 d0 s0 Hm Sm Hl Hc).
  set (sc := if is_bias then [gauss_mixture; d_out]
             else [gauss_mixture; d_in; d_out]) in *.
  assert (Ec : exists fc, coef = mkT sc (tab (numel sc) fc)).
  { destruct coef as [sc' d]. unfold wf in Wc. cbn [shape data] in *. subst sc'.
    destruct (list_tab_ex d (numel sc) Wc) as [fc ->]. now exists fc. }
  destruct Ec as [fc ->]. clear Hc Wc Sc.
  pose proof (coef_expand_tab gauss_mixture K d_in d_out is_bias fc) as Ex.
  cbv zeta in Ex. fold sc c in Ex. rewrite Ex. clear Ex.
  rewrite sbind_slift_Ok.
  assert (Ez : (if negb is_bias then [K; gauss_mixture; d_in; d_out]
                else [K; gauss_mixture; 1%nat; d_out])
               = [K; gauss_mixture; c; d_out]) by (subst c; now destruct is_bias).
  rewrite Ez. clear Ez. rewrite sbind_draw. fold u.
  pose proof (rand_shape [K; gauss_mixture; c; d_out] g) as Su.
  pose proof (rand_wf [K; gauss_mixture; c; d_out] g) as Wu.
  fold u in Su, Wu. destruct u as [ut g1]. cbn [fst snd] in *.
  tabulate ut Wu fu. subst s.
  set (inner := numel [c; d_out]).
  change (numel [gauss_mixture; c; d_out]) with (gauss_mixture * inner)%nat.
  change (numel [K; gauss_mixture; c; d_out]) with (K * (gauss_mixture * inner))%nat.
  pose proof (softmax_dim1_tab K gauss_mixture c d_out) as Esm.
  cbv zeta in Esm. fold inner in Esm.
  rewrite Esm, sbind_slift_Ok.
  unfold py_inv. destruct (Req_dec_T tau 0) as [E0|_]; [reflexivity|].
  cbn [bind]. unfold gumbel_noise.
  assert (EN : numel [K; gauss_mixture; c; d_out] = (K * (gauss_mixture * inner))%nat)
    by reflexivity.
  unfold_ops. rewrite !tmap_tab, (lift2_tab _ _ _ _ _ (eq_sym EN)). cbn [bind].
  rewrite tmap_tab, Esm.
  rewrite sbind_slift_Ok.
  unfold sret, gumbel_softmax_formula. fold inner. rewrite EN.
  do 4 f_equal. apply tab_ext. intros j Hj.
  apply (gumbel_entry sc gauss_mixture K c d_out tau fc fu j); try assumption.
  - subst sc. now destruct is_bias.
  - subst sc inner c. destruct is_bias; cbn; lia.
Qed.

(** C9 (amended): on an empty [mean], with [rho] empty and [len(coef) = 0],
    [sample_gumbel] returns the empty list.  On a non-empty [mean] whose
    first tensor can be indexed, with
    [len(mean) == len(rho) == gauss_mixture] and logits [coef] of the shape
    [(gauss_mixture, d_in, d_out)], or [(gauss_mixture, d_out)] for a bias,
    and with [tau <> 0], it returns in the first iteration of its loop a
    single tensor of shape [(K, gauss_mixture, c, d_out)], [c] being
    [d_in] or 1: its entry for the sample [k], the component [m] and the
    position [q] is the softmax over the components of
    [(1 / tau) * (log softmax(coef)[m, q] - log(-log(u[k, m, q] + 1e-20) + 1e-20))],
    where [u] is the one tensor of uniform draws taken from the generator.
    Nothing of [mean] and [rho] enters the result, whatever the tensors at
    the indices 1 and above are.  With [tau = 0] the call raises
    [ZeroDivisionError] after the draw. *)
Theorem sample_gumbel_returns_early (mean rho : list Tensor) (logvar_enc : bool)
    (coef : Tensor) (tau : R) (gauss_mixture K d_in d_out : nat)
    (is_bias is_radial : bool) (g : G) :
  let c := if is_bias then 1%nat else d_in in
  let u := rand [K; gauss_mixture; c; d_out] g in
  (mean = [] -> rho = [] -> tlen coef = Ok 0%nat ->
   sample_gumbel mean rho logvar_enc coef tau gauss_mixture K d_in d_out
     is_bias is_radial g
   = (Ok (GumbelList []), g))
  /\ (forall m0 d0 s0,
        nth_error mean 0 = Some m0 -> shape m0 = S d0 :: s0 ->
        length rho = length mean -> length mean = gauss_mixture ->
        shape coef = (if is_bias then [gauss_mixture; d_out]
                      else [gauss_mixture; d_in; d_out]) ->
        wf coef ->
        (tau <> 0 ->
         sample_gumbel mean rho logvar_enc coef tau gauss_mixture K d_in d_out
           is_bias is_radial g
         = (Ok (GumbelTensor
                  (gumbel_softmax_formula coef (fst u) tau gauss_mixture K c d_out)),
            snd u))
        /\ (tau = 0 ->
            sample_gumbel mean rho logvar_enc coef tau gauss_mixture K d_in d_out
              is_bias is_radial g
            = (Raise ZeroDivisionError, snd u))).
Proof.
  intros c u. split.
  - intros -> -> Hc. unfold sample_gumbel. cbn [length Nat.eqb negb].
    rewrite Hc. reflexivity.
  - intros m0 d0 s0 Hm Sm Hl Hgm Sc Wc.
    pose proof (sample_gumbel_run mean rho logvar_enc coef tau gauss_mixture K
                  d_in d_out is_bias is_radial g m0 d0 s0 Hm Sm Hl Hgm Sc Wc) as E.
    cbv zeta in E. fold c u in E. rewrite E. split.
    + intros Ht. now rewrite (py_inv_nonzero tau Ht).
    + intros ->. now rewrite py_inv_zero.
Qed.
End GumbelProofs.

Lemma sample_gumbel_returns_early_witness :
  let m := mkT [1%nat; 1%nat; 1%nat] [1] in
  let g := mkTape (fun _ => 1) 0 in
  sample_gumbel [m] [m] false m 1 1 1 1 1 false false g
  = (Ok (GumbelTensor
           (gumbel_softmax_formula m (fst (rand [1; 1; 1; 1]%nat g)) 1 1 1 1 1)),
     snd (rand [1; 1; 1; 1]%nat g)).
Proof.
  intros m g.
  destruct (sample_gumbel_returns_early [m] [m] false m 1 1 1 1 1 false false g)
    as (_ & E).
  destruct (E m 0%nat [1%nat; 1%nat]) as [E1 _]; try reflexivity.
  apply E1. lra.
Defined.

(** C9 as stated fails on inputs with
    [len(mean) == len(rho) == len(coef) >= 1]: where [mean[0]] has no
    dimension, [mean[0][0]] raises [IndexError]; with [tau = 0] the
    division raises [ZeroDivisionError]; logits of shape [(1, 3)] against
    [d_out = 2] do not broadcast with the noise, so that the sum raises
    [RuntimeError]; and so do two rows of logits against
    [gauss_mixture = 3].  In each case no tensor is returned. *)
Lemma sample_gumbel_raises :
  let g := mkTape (fun _ => 1) 0 in
  let m := mkT [1%nat; 1%nat; 1%nat] [1] in
  let coef := mkT [1%nat; 3%nat] [1; 2; 3] in
  let two := mkT [2%nat; 1%nat; 1%nat] [1; 2] in
  (length [scalar 1] = length [m] /\ tlen m = Ok (length [scalar 1])
   /\ fst (sample_gumbel [scalar 1] [m] false m 1 1 1 1 1 false false g)
      = Raise IndexError)
  /\ (length [m] = length [m] /\ tlen m = Ok (length [m])
      /\ fst (sample_gumbel [m] [m] false m 0 1 1 1 1 false false g)
         = Raise ZeroDivisionError)
  /\ (length [m] = length [m] /\ tlen coef = Ok (length [m])
      /\ fst (sample_gumbel [m] [m] false coef 1 1 1 1 2 false false g)
         = Raise RuntimeError)
  /\ (length [m; m] = length [m; m] /\ tlen two = Ok (length [m; m])
      /\ fst (sample_gumbel [m; m] [m; m] false two 1 3 1 1 1 false false g)
         = Raise RuntimeError).
Proof.
  intros g m coef two.
  split; [|split; [|split]]; (split; [reflexivity|split; [reflexivity|]]).
  - reflexivity.
  - rewrite (sample_gumbel_run [m] [m] false m 0 1 1 1 1 false false g
               m 0%nat [1%nat; 1%nat]); try reflexivity.
    now rewrite py_inv_zero.
  - rewrite (sample_gumbel_first_iteration [m] [m] false coef 1 1 1 1 2 false false g
               m 0%nat [1%nat; 1%nat]); try reflexivity.
    rewrite (py_inv_nonzero 1) by lra.
    reflexivity.
  - rewrite (sample_gumbel_first_iteration [m; m] [m; m] false two 1 3 1 1 1 false
               false g m 0%nat [1%nat; 1%nat]); try reflexivity.
    rewrite (py_inv_nonzero 1) by lra.
    reflexivity.
Qed.

(** ** The configuration modules *)

Lemma assert_key_in (k : string) (keywords : list string) :
  In k keywords -> assert_key (Some k) keywords = Ok tt.
Proof.
  intros Hin. unfold assert_key.
  assert (E : existsb (String.eqb k) keywords = true).
  { apply existsb_exists. exists k. split; [assumption | apply String.eqb_refl]. }
  now rewrite E.
Qed.

(** From an initialisation that completed to the namespace it built. *)
Ltac namespace_of E :=
  cbn [load_conditions assign String.eqb Ascii.eqb Bool.eqb bind] in E;
  destruct (assert_key _ _) in E; [|discriminate];
  cbn [bind] in E; injection E as <-.

(** C6: when the initialisation of either configuration module completes,
    [conditions] is the list written by the user (empty in both files)
    followed by the imported base conditions, in order, and [grid] is the
    dictionary of the display; the initialisation completes when the
    performance key is among the imported summary keywords. *)
Theorem config_conditions_and_grid (imported : hpsplit.attributes)
    (bbb : hpsplitbbb.attributes) (ssge : hpsplitssge.attributes) :
  (forall ns,
     hpsearch_config_zenke_bbb_mixture.init imported = Ok ns ->
     ns "conditions"%string
     = Some (VConditions (hpsearch_config_zenke_bbb_mixture.conditions
                          ++ hpsplit._BASE_CONDITIONS imported
                          ++ hpsplit._BBB_CONDITIONS imported))
     /\ hpsearch_config_zenke_bbb_mixture.conditions = []
     /\ ns "grid"%string = Some (VDict hpsearch_config_zenke_bbb_mixture.grid))
  /\ (In "acc_avg_final"%string (hpsplit._SUMMARY_KEYWORDS imported) ->
      exists ns, hpsearch_config_zenke_bbb_mixture.init imported = Ok ns)
  /\ (forall ns,
        hpsearch_config_gmm_ssge.init bbb ssge = Ok ns ->
        ns "conditions"%string
        = Some (VConditions (hpsearch_config_gmm_ssge.conditions
                             ++ hpsplitbbb._BASE_CONDITIONS bbb
                             ++ hpsplitssge._SSGE_CONDITIONS ssge))
        /\ hpsearch_config_gmm_ssge.conditions = []
        /\ ns "grid"%string = Some (VDict hpsearch_config_gmm_ssge.grid))
  /\ (In "acc_avg_final"%string (hpsplitssge._SUMMARY_KEYWORDS ssge) ->
      exists ns, hpsearch_config_gmm_ssge.init bbb ssge = Ok ns).
Proof.
  split; [|split; [|split]].
  - intros ns E. unfold hpsearch_config_zenke_bbb_mixture.init in E.
    namespace_of E. repeat split.
  - intros Hin. unfold hpsearch_config_zenke_bbb_mixture.init.
    cbn [load_conditions assign String.eqb Ascii.eqb Bool.eqb bind].
    rewrite (assert_key_in _ _ Hin). eexists. reflexivity.
  - intros ns E. unfold hpsearch_config_gmm_ssge.init in E.
    namespace_of E. repeat split.
  - intros Hin. unfold hpsearch_config_gmm_ssge.init.
    cbn [load_conditions assign String.eqb Ascii.eqb Bool.eqb bind].
    rewrite (assert_key_in _ _ Hin). eexists. reflexivity.
Qed.

Lemma config_conditions_and_grid_witness :
  let imported := hpsplit.Build_attributes [] [] ["acc_avg_final"%string] in
  let bbb := hpsplitbbb.Build_attributes [] in
  let ssge := hpsplitssge.Build_attributes [] "performance_overview.txt"%string
                ["acc_avg_final"%string] in
  (exists ns, hpsearch_config_zenke_bbb_mixture.init imported = Ok ns)
  /\ (exists ns, hpsearch_config_gmm_ssge.init bbb ssge = Ok ns).
Proof.
  intros imported bbb ssge.
  destruct (config_conditions_and_grid imported bbb ssge) as (_ & Z & _ & M).
  split; [apply Z | apply M]; simpl; auto.
Defined.

(** ** Softmax over dimension 0 and component slices *)

Lemma seq_add_map (a b P : nat) :
  seq (a + b) P = map (fun p => (a + p)%nat) (seq b P).
Proof.
  revert b. induction P as [|P IH]; intros b; [reflexivity|].
  cbn [seq map]. f_equal. rewrite <- IH. now rewrite Nat.add_succ_r.
Qed.

Lemma tab_slice (N P i : nat) (f : nat -> R) :
  (i * P + P <= N)%nat ->
  firstn P (skipn (i * P) (tab N f)) = tab P (fun p => f (i * P + p)%nat).
Proof.
  intros Hb. unfold tab. rewrite skipn_map, firstn_map, skipn_seq.
  replace (N - i * P)%nat with (P + (N - i * P - P))%nat by lia.
  rewrite seq_app, firstn_app, length_seq, Nat.sub_diag, firstn_O, app_nil_r.
  rewrite firstn_all2 by (rewrite length_seq; lia).
  rewrite <- (map_map (fun p => (i * P + p)%nat) f).
  f_equal. rewrite Nat.add_0_l. rewrite <- (Nat.add_0_r (i * P)) at 1.
  apply seq_add_map.
Qed.

Lemma tindex_tab (n : nat) (sc : list nat) (f : nat -> R) (i : nat) :
  (i < n)%nat ->
  tindex (mkT (n :: sc) (tab (n * numel sc) f)) i
  = Ok (mkT sc (tab (numel sc) (fun p => f (i * numel sc + p)%nat))).
Proof.
  intros Hi. unfold tindex. cbn [shape data].
  apply Nat.ltb_lt in Hi as Hb. rewrite Hb.
  rewrite tab_slice by nia. reflexivity.
Qed.

Lemma softmax_dim0_tab (n : nat) (sc : list nat) (f : nat -> R) :
  softmax (mkT (n :: sc) (tab (n * numel sc) f)) 0
  = Ok (mkT (n :: sc) (tab (n * numel sc) (softmax0_entry n (numel sc) f))).
Proof.
  unfold softmax. cbn [shape data length Nat.ltb Nat.leb nth skipn].
  rewrite tab_length. do 2 f_equal. apply tab_ext. intros j Hj.
  unfold softmax0_entry, entry. cbn [data].
  rewrite tab_nth by assumption. f_equal.
  apply sum_n_ext. intros k Hk.
  rewrite Nat.div_small by assumption. cbn [Nat.mul Nat.add].
  assert (HP : (0 < numel sc)%nat) by nia.
  pose proof (Nat.mod_upper_bound j (numel sc)).
  rewrite tab_nth by nia. reflexivity.
Qed.

Lemma softmax0_entry_weight (n : nat) (sc : list nat) (f : nat -> R) (i p : nat) :
  (i < n)%nat -> (p < numel sc)%nat ->
  softmax0_entry n (numel sc) f (i * numel sc + p)
  = coef_weight (mkT (n :: sc) (tab (n * numel sc) f)) i p.
Proof.
  intros Hi Hp. unfold softmax0_entry, coef_weight, entry.
  cbn [shape data hd tl].
  rewrite tab_nth by nia. f_equal.
  apply sum_n_ext. intros k Hk.
  replace ((i * numel sc + p) mod numel sc)%nat with p
    by (rewrite Nat.add_comm, Nat.Div0.mod_add; now rewrite Nat.mod_small).
  rewrite tab_nth by nia. reflexivity.
Qed.

(** ** [upperbound_kl_mixture_gauss] *)

Lemma kl_gauss_tab (s : list nat) (n : nat) (fa ga fb gb : nat -> R) :
  n = numel s ->
  kl_gauss (mkT s (tab n fa)) (mkT s (tab n ga)) (mkT s (tab n fb)) (mkT s (tab n gb))
  = Ok (mkT s (tab n (fun j => kl_elem (fa j) (ga j) (fb j) (gb j)))).
Proof.
  intros ->. unfold kl_gauss. tensor_norm. do 2 f_equal.
  apply tab_ext. intros j _. apply kl_elem_alt.
Qed.

Lemma nth_getitem {A : Type} (l : list A) (i : nat) (d : A) :
  (i < length l)%nat -> getitem l i = Ok (nth i l d).
Proof.
  intros Hi. unfold getitem.
  now rewrite (nth_error_nth' l d Hi).
Qed.

Lemma same_shapes_nth (xs ys : list Tensor) (i : nat) (d : Tensor) :
  same_shapes xs ys -> shape (nth i ys d) = shape (nth i xs d).
Proof.
  intros Hs. revert i. induction Hs as [|x y xs ys E _ IH]; intros [|i]; simpl; auto.
Qed.

Lemma Forall_nth_wf (xs : list Tensor) (i : nat) :
  Forall wf xs -> wf (nth i xs (scalar 0)).
Proof.
  intros W. revert i. induction W as [|x xs Wx _ IH]; intros [|i]; simpl; auto;
    reflexivity.
Qed.

Lemma component_term (n : nat) (sc : list nat) (wa wb : nat -> R)
    (lma lla lmb llb : list Tensor) (i : nat) (acc : pynum) (x : R) :
  (i < n)%nat -> (i < length lma)%nat ->
  Forall wf lma -> Forall wf lla -> Forall wf lmb -> Forall wf llb ->
  same_shapes lma lla -> same_shapes lma lmb -> same_shapes lma llb ->
  sc = [] \/ shape (nth i lma (scalar 0)) = sc ->
  acc_val acc x ->
  exists acc',
    (kl <- (x <- (tindex (mkT (n :: sc) (tab (n * numel sc) wa)) i
                  * (fmap tlog (tindex (mkT (n :: sc) (tab (n * numel sc) wa)) i)
                     - fmap tlog (tindex (mkT (n :: sc) (tab (n * numel sc) wb)) i)))%T ;;
            iadd acc (tsum x)) ;;
     x <- (tindex (mkT (n :: sc) (tab (n * numel sc) wa)) i
           * (mean_a <- getitem lma i ;;
              logvar_a <- getitem lla i ;;
              mean_b <- getitem lmb i ;;
              logvar_b <- getitem llb i ;;
              kl_gauss mean_a logvar_a mean_b logvar_b))%T ;;
     iadd kl (tsum x))
    = Ok acc'
    /\ acc_val acc'
         (x + (sum_n (numel sc)
                 (fun p => wa (i * numel sc + p)%nat
                           * (ln (wa (i * numel sc + p)%nat)
                              - ln (wb (i * numel sc + p)%nat)))
               + sum_n (numel (shape (nth i lma (scalar 0))))
                   (fun e =>
                      wa (i * numel sc + match sc with [] => 0 | _ => e end)%nat
                      * kl_elem (entry (nth i lma (scalar 0)) e)
                                (entry (nth i lla (scalar 0)) e)
                                (entry (nth i lmb (scalar 0)) e)
                                (entry (nth i llb (scalar 0)) e)))).
Proof.
  intros Hi Hl Wma Wla Wmb Wlb Sla Smb Slb Hfit Hacc.
  rewrite !tindex_tab by assumption.
  rewrite (nth_getitem lma i (scalar 0)) by assumption.
  rewrite (nth_getitem lla i (scalar 0)) by (rewrite (same_shapes_length _ _ Sla); assumption).
  rewrite (nth_getitem lmb i (scalar 0)) by (rewrite (same_shapes_length _ _ Smb); assumption).
  rewrite (nth_getitem llb i (scalar 0)) by (rewrite (same_shapes_length _ _ Slb); assumption).
  pose proof (Forall_nth_wf lma i Wma) as W1.
  pose proof (Forall_nth_wf lla i Wla) as W2.
  pose proof (Forall_nth_wf lmb i Wmb) as W3.
  pose proof (Forall_nth_wf llb i Wlb) as W4.
  pose proof (same_shapes_nth lma lla i (scalar 0) Sla) as S2.
  pose proof (same_shapes_nth lma lmb i (scalar 0) Smb) as S3.
  pose proof (same_shapes_nth lma llb i (scalar 0) Slb) as S4.
  generalize dependent (nth i llb (scalar 0)). intros lb W4 S4.
  generalize dependent (nth i lmb (scalar 0)). intros mb W3 S3.
  generalize dependent (nth i lla (scalar 0)). intros la W2 S2.
  generalize dependent (nth i lma (scalar 0)). intros ma Hfit W1 S2 S3 S4.
  tabulate ma W1 fa. tabulate la W2 ga. tabulate mb W3 fb. tabulate lb W4 gb.
  subst. cbn [bind].
  rewrite kl_gauss_tab by reflexivity.
  tensor_norm.
  rewrite (iadd_acc_val acc x _ Hacc). cbn [bind].
  unfold entry. cbn [data shape].
  destruct Hfit as [-> | <-].
  - (* one weight per component *)
    cbn [numel fold_right] in *. unfold tab at 1. cbn [seq map].
    change (mkT [] [wa (i * 1 + 0)%nat]) with (scalar (wa (i * 1 + 0)%nat)).
    rewrite lift2_tab_scalar_l by reflexivity. cbn [bind]. rewrite tsum_tab.
    rewrite (iadd_acc_val _ _ _ (or_intror eq_refl)).
    eexists. split; [reflexivity|]. right. do 2 f_equal.
    rewrite Rplus_assoc. do 2 f_equal.
    apply sum_n_ext. intros e He. now rewrite !tab_nth.
  - (* the weights have the shape of the component *)
    rewrite lift2_tab by reflexivity. cbn [bind]. rewrite tsum_tab.
    rewrite (iadd_acc_val _ _ _ (or_intror eq_refl)).
    eexists. split; [reflexivity|]. right. do 2 f_equal.
    rewrite Rplus_assoc. do 2 f_equal.
    apply sum_n_ext. intros e He. rewrite !tab_nth by assumption.
    destruct s; [|reflexivity].
    cbn in He. replace e with 0%nat by lia. reflexivity.
Qed.

Lemma weights_fit_nth (sc : list nat) (ts : list Tensor) (i : nat) :
  weights_fit sc ts -> (i < length ts)%nat ->
  sc = [] \/ shape (nth i ts (scalar 0)) = sc.
Proof.
  intros Hf. revert i. induction Hf as [|t ts Ht _ IH]; intros [|i] Hi;
    simpl in *; try lia; auto. apply IH. lia.
Qed.

Lemma mixture_loop (n : nat) (sc : list nat) (wa wb : nat -> R)
    (lma lla lmb llb : list Tensor) (len start : nat) (acc : pynum) (x : R) :
  (start + len <= n)%nat -> (start + len <= length lma)%nat ->
  Forall wf lma -> Forall wf lla -> Forall wf lmb -> Forall wf llb ->
  same_shapes lma lla -> same_shapes lma lmb -> same_shapes lma llb ->
  weights_fit sc lma ->
  acc_val acc x ->
  exists acc',
    for_each (seq start len)
      (fun i kl =>
         kl <- (x <- (tindex (mkT (n :: sc) (tab (n * numel sc) wa)) i
                      * (fmap tlog (tindex (mkT (n :: sc) (tab (n * numel sc) wa)) i)
                         - fmap tlog (tindex (mkT (n :: sc) (tab (n * numel sc) wb)) i)))%T ;;
                iadd kl (tsum x)) ;;
         x <- (tindex (mkT (n :: sc) (tab (n * numel sc) wa)) i
               * (mean_a <- getitem lma i ;;
                  logvar_a <- getitem lla i ;;
                  mean_b <- getitem lmb i ;;
                  logvar_b <- getitem llb i ;;
                  kl_gauss mean_a logvar_a mean_b logvar_b))%T ;;
         iadd kl (tsum x))
      acc
    = Ok acc'
    /\ acc_val acc'
         (x + sum_n len
                (fun k =>
                   let i := (start + k)%nat in
                   sum_n (numel sc)
                     (fun p => wa (i * numel sc + p)%nat
                               * (ln (wa (i * numel sc + p)%nat)
                                  - ln (wb (i * numel sc + p)%nat)))
                   + sum_n (numel (shape (nth i lma (scalar 0))))
                       (fun e =>
                          wa (i * numel sc + match sc with [] => 0 | _ => e end)%nat
                          * kl_elem (entry (nth i lma (scalar 0)) e)
                                    (entry (nth i lla (scalar 0)) e)
                                    (entry (nth i lmb (scalar 0)) e)
                                    (entry (nth i llb (scalar 0)) e)))).
Proof.
  intros Hn Hl Wma Wla Wmb Wlb Sla Smb Slb Hfit.
  revert start acc x Hn Hl. induction len as [|len IH]; intros start acc x Hn Hl Hacc.
  - exists acc. split; [reflexivity|]. simpl.
    eapply acc_val_eq; [|exact Hacc]. lra.
  - cbn [seq for_each].
    destruct (component_term n sc wa wb lma lla lmb llb start acc x)
      as (acc1 & E1 & Hacc1); try assumption; try lia.
    { apply weights_fit_nth; [assumption | lia]. }
    rewrite E1. cbn [bind].
    destruct (IH (S start) acc1 _ ltac:(lia) ltac:(lia) Hacc1) as (acc2 & E2 & Hacc2).
    exists acc2. split; [exact E2|].
    eapply acc_val_eq; [|exact Hacc2].
    cbn [sum_n]. rewrite Nat.add_0_r, Rplus_assoc. do 2 f_equal.
    apply sum_n_ext. intros k _. cbv zeta. now rewrite Nat.add_succ_r.
Qed.

(** C7: on two mixtures with the same number of components, coefficient
    logits of the shape [n :: sc] and components of matching shapes (one
    weight per component, or weights of the shape of the component),
    [upperbound_kl_mixture_gauss] returns
    [sum_i (sum (ca_i * (log ca_i - log cb_i))
            + sum (ca_i * kl_gauss(mean_a_i, logvar_a_i, mean_b_i, logvar_b_i)))]
    with [ca] and [cb] the softmax over dimension 0 of the logits, and the
    result is the same whatever [compute_coef] returns. *)
Theorem upperbound_kl_mixture_gauss_formula (a b : mixture) (sc : list nat) :
  shape (coefficient_logits a) = length (component_means a) :: sc ->
  shape (coefficient_logits b) = length (component_means a) :: sc ->
  wf (coefficient_logits a) -> wf (coefficient_logits b) ->
  Forall wf (component_means a) -> Forall wf (component_logvars a) ->
  Forall wf (component_means b) -> Forall wf (component_logvars b) ->
  same_shapes (component_means a) (component_logvars a) ->
  same_shapes (component_means a) (component_means b) ->
  same_shapes (component_means a) (component_logvars b) ->
  weights_fit sc (component_means a) ->
  (exists r, upperbound_kl_mixture_gauss a b = Ok r
             /\ acc_val r (upperbound_formula a b))
  /\ (forall f, upperbound_kl_mixture_gauss_with f a b
                = upperbound_kl_mixture_gauss a b).
Proof.
  intros Sa Sb Wa Wb Wma Wla Wmb Wlb Sla Smb Slb Hfit.
  split; [|reflexivity].
  destruct a as [lma lla ca], b as [lmb llb cb]. cbn [component_means
    component_logvars coefficient_logits] in *.
  unfold upperbound_kl_mixture_gauss, upperbound_kl_mixture_gauss_with,
    upperbound_formula.
  cbn [component_means component_logvars coefficient_logits].
  set (n := length lma) in *.
  tabulate ca Wa fa. tabulate cb Wb fb. subst.
  cbn [numel fold_right] in *. fold (numel sc) in *.
  rewrite !softmax_dim0_tab. cbn [bind].
  destruct (mixture_loop n sc (softmax0_entry n (numel sc) fa)
              (softmax0_entry n (numel sc) fb) lma lla lmb llb n 0%nat (PyNum 0) 0)
    as (r & E & Hr); try assumption; try (subst n; lia); [now left|].
  exists r. split; [exact E|].
  eapply acc_val_eq; [|exact Hr].
  rewrite Rplus_0_l. cbn [shape tl]. apply sum_n_ext. intros i Hi.
  cbv zeta. cbn [Nat.add]. f_equal.
  - apply sum_n_ext. intros p Hp.
    now rewrite !softmax0_entry_weight.
  - apply sum_n_ext. intros e He. f_equal.
    unfold coef_position. cbn [shape tl].
    apply softmax0_entry_weight; [assumption|].
    destruct (weights_fit_nth sc lma i Hfit Hi) as [-> | Es].
    + cbn. lia.
    + rewrite Es in He. destruct sc; [cbn in *; lia | assumption].
Qed.

Lemma upperbound_kl_mixture_gauss_formula_witness :
  let t := mkT [2%nat] [1; 2] in
  let m := Build_mixture [t] [t] (mkT [1%nat] [0]) in
  (exists r, upperbound_kl_mixture_gauss m m = Ok r
             /\ acc_val r (upperbound_formula m m))
  /\ (forall f, upperbound_kl_mixture_gauss_with f m m
                = upperbound_kl_mixture_gauss m m).
Proof.
  intros t m. apply (upperbound_kl_mixture_gauss_formula m m []);
    try reflexivity; repeat constructor.
Defined.

(** * Statelessness over the Python store *)

Section Framing.
Context {G : Type} `{Generator G}.
Import Py.

Notation "x <<- m ;; k" := (mbind m (fun x => k))
  (at level 61, m at next level, right associativity).
Abbreviation store := (@Py.store G).
Abbreviation M := (@Py.M G).
Abbreviation preserves := (@Py.preserves G).
Abbreviation framed := (@Py.framed G).
Abbreviation stateless := (@Py.stateless G).
Abbreviation stateless_but_registry := (@Py.stateless_but_registry G).

Lemma preserves_refl (b : nat) (s : store) : preserves b s s.
Proof. repeat split; auto. Qed.

Lemma preserves_trans (b : nat) (s1 s2 s3 : store) :
  preserves b s1 s2 -> preserves b s2 s3 -> preserves b s1 s3.
Proof.
  intros (L1 & P1 & G1) (L2 & P2 & G2). repeat split.
  - lia.
  - intros l Hl. rewrite P2, P1 by assumption. reflexivity.
  - congruence.
Qed.

Lemma framed_ret {A : Type} (b : nat) (a : A) (Q : A -> Prop) :
  Q a -> framed b (ret a) Q.
Proof.
  intros HQ s Hb. split; [apply preserves_refl|].
  intros a' E. cbn in E. now injection E as <-.
Qed.

Lemma framed_raise {A : Type} (b : nat) (e : exn) (Q : A -> Prop) :
  framed b (raise e) Q.
Proof. intros s Hb. split; [apply preserves_refl|]. discriminate. Qed.

Lemma framed_lift_result {A : Type} (b : nat) (r : result A) :
  framed b (lift_result r) (fun _ => True).
Proof. intros s Hb. split; [apply preserves_refl|]. auto. Qed.

Lemma framed_weaken {A : Type} (b : nat) (m : M A) (Q Q' : A -> Prop) :
  framed b m Q -> (forall a, Q a -> Q' a) -> framed b m Q'.
Proof.
  intros Hm HQ s Hb. destruct (Hm s Hb) as [P HQa]. split; auto.
Qed.

Lemma framed_bind {A B : Type} (b : nat) (m : M A) (k : A -> M B)
    (Q : A -> Prop) (Q' : B -> Prop) :
  framed b m Q -> (forall a, Q a -> framed b (k a) Q') ->
  framed b (x <<- m ;; k x) Q'.
Proof.
  intros Hm Hk s Hb. destruct (Hm s Hb) as [P HQ].
  unfold mbind. destruct (m s) as [[a|e] s1]; cbn [fst snd] in *.
  - specialize (Hk a (HQ a eq_refl) s1).
    destruct P as (L & P & Gl).
    destruct (Hk ltac:(lia)) as [P2 HQ2]. split; [|exact HQ2].
    eapply preserves_trans; [|exact P2]. repeat split; assumption.
  - split; [exact P | discriminate].
Qed.

(** *** Objects *)

Lemma nth_error_replace_nth_other {A : Type} (i j : nat) (x : A) (l : list A) :
  i <> j -> nth_error (replace_nth i x l) j = nth_error l j.
Proof.
  revert i j. induction l as [|y l IH]; intros [|i] [|j] Hij; simpl; auto;
    try congruence.
Qed.

Lemma length_replace_nth {A : Type} (i : nat) (x : A) (l : list A) :
  length (replace_nth i x l) = length l.
Proof. revert i. induction l as [|y l IH]; intros [|i]; simpl; auto. Qed.

Lemma framed_alloc (b : nat) (o : object) :
  framed b (alloc o) (fun l => (b <= l)%nat).
Proof.
  intros s Hb. cbn. split.
  - repeat split; cbn.
    + rewrite length_app. lia.
    + intros l Hl. apply nth_error_app1. lia.
  - intros a E. injection E as <-. exact Hb.
Qed.

Lemma framed_lookup (b : nat) (l : addr) :
  framed b (lookup l) (fun _ => True).
Proof.
  intros s Hb. unfold lookup. destruct (nth_error (heap s) l);
    (split; [apply preserves_refl | auto]).
Qed.

Lemma framed_update (b : nat) (l : addr) (o : object) :
  (b <= l)%nat -> framed b (update l o) (fun _ => True).
Proof.
  intros Hl s Hb. cbn. split; [|auto]. repeat split; cbn.
  - now rewrite length_replace_nth.
  - intros l' Hl'. apply nth_error_replace_nth_other. lia.
Qed.

(** *** Lists *)

Lemma framed_new_list (b : nat) (items : list value) :
  framed b (new_list items) (fresh b).
Proof.
  unfold new_list. eapply framed_bind; [apply framed_alloc|].
  intros l Hl. now apply framed_ret.
Qed.

Lemma framed_list_items (b : nat) (v : value) :
  framed b (list_items v) (fun _ => True).
Proof.
  unfold list_items. destruct v; try apply framed_raise.
  - eapply framed_bind; [apply framed_lookup|].
    intros [items|d] _; [now apply framed_ret | apply framed_raise].
  - now apply framed_ret.
Qed.

Lemma framed_append (b : nat) (v x : value) :
  fresh b v -> framed b (append v x) (fun _ => True).
Proof.
  intros Hv. unfold append. destruct v; try apply framed_raise.
  eapply framed_bind; [apply framed_list_items|].
  intros items _. now apply framed_update.
Qed.

(** *** Tensors *)

Lemma framed_load (b : nat) (v : value) : framed b (load v) (fun _ => True).
Proof.
  intros s Hb. unfold load. destruct (read_tensor s v);
    (split; [apply preserves_refl | auto]).
Qed.

Lemma framed_new_tensor (b : nat) (t : Tensor) :
  framed b (new_tensor t) (fresh b).
Proof.
  unfold new_tensor. eapply framed_bind; [apply framed_alloc|].
  intros l Hl. now apply framed_ret.
Qed.

Lemma framed_torch1 (b : nat) (f : Tensor -> Tensor) (m : M value)
    (Q : value -> Prop) :
  framed b m Q -> framed b (torch1 f m) (fresh b).
Proof.
  intros Hm. unfold torch1. eapply framed_bind; [exact Hm|]. intros a _.
  eapply framed_bind; [apply framed_load|]. intros t _.
  apply framed_new_tensor.
Qed.

Lemma framed_torch1r (b : nat) (f : Tensor -> result Tensor) (m : M value)
    (Q : value -> Prop) :
  framed b m Q -> framed b (torch1r f m) (fresh b).
Proof.
  intros Hm. unfold torch1r. eapply framed_bind; [exact Hm|]. intros a _.
  eapply framed_bind; [apply framed_load|]. intros t _.
  eapply framed_bind; [apply framed_lift_result|]. intros r _.
  apply framed_new_tensor.
Qed.

Lemma framed_torch2 (b : nat) (op : Tensor -> Tensor -> result Tensor)
    (ma mb : M value) (Qa Qb : value -> Prop) :
  framed b ma Qa -> framed b mb Qb -> framed b (torch2 op ma mb) (fresh b).
Proof.
  intros Ha Hb'. unfold torch2.
  eapply framed_bind; [exact Ha|]. intros a _.
  eapply framed_bind; [exact Hb'|]. intros c _.
  eapply framed_bind; [apply framed_load|]. intros x _.
  eapply framed_bind; [apply framed_load|]. intros y _.
  eapply framed_bind; [apply framed_lift_result|]. intros r _.
  apply framed_new_tensor.
Qed.

Lemma framed_view_flat (b : nat) (v : value) :
  framed b (view_flat v) (fun _ => True).
Proof.
  destruct v; try apply framed_raise. unfold view_flat.
  destruct (mergeable_dims _ _); [now apply framed_ret | apply framed_raise].
Qed.

Lemma framed_unsqueeze (b : nat) (v : value) (d : nat) :
  framed b (unsqueeze v d) (fun _ => True).
Proof.
  destruct v; try apply framed_raise. unfold unsqueeze.
  destruct (d <=? _)%nat; [now apply framed_ret | apply framed_raise].
Qed.

Lemma framed_getitem (b : nat) (v : value) (i : nat) :
  framed b (getitem v i) (fun _ => True).
Proof.
  assert (L : forall w, framed b (items <<- list_items w ;;
                                  match nth_error items i with
                                  | Some x => ret x
                                  | None => raise IndexError
                                  end) (fun _ => True)).
  { intros w. eapply framed_bind; [apply framed_list_items|]. intros items _.
    destruct (nth_error items i); [now apply framed_ret | apply framed_raise]. }
  destruct v; try apply L. unfold getitem.
  destruct (hshape h); [apply framed_raise|].
  destruct (i <? n)%nat; [now apply framed_ret | apply framed_raise].
Qed.

Lemma framed_len (b : nat) (v : value) : framed b (len v) (fun _ => True).
Proof.
  assert (L : forall w, framed b (items <<- list_items w ;; ret (length items))
                          (fun _ => True)).
  { intros w. eapply framed_bind; [apply framed_list_items|]. intros items _.
    now apply framed_ret. }
  destruct v; try apply L. unfold len.
  destruct (hshape h); [apply framed_raise | now apply framed_ret].
Qed.

Lemma framed_slice_from (b : nat) (v : value) (n : nat) :
  framed b (slice_from v n) (fun _ => True).
Proof.
  destruct v; try apply framed_raise; unfold slice_from.
  - eapply framed_bind; [apply framed_list_items|]. intros items _.
    eapply framed_weaken; [apply framed_new_list|auto].
  - now apply framed_ret.
  - destruct (hshape h); [apply framed_raise | now apply framed_ret].
Qed.

Lemma framed_slice_to (b : nat) (v : value) (n : nat) :
  framed b (slice_to v n) (fun _ => True).
Proof.
  destruct v; try apply framed_raise; unfold slice_to.
  - eapply framed_bind; [apply framed_list_items|]. intros items _.
    eapply framed_weaken; [apply framed_new_list|auto].
  - now apply framed_ret.
  - destruct (hshape h); [apply framed_raise | now apply framed_ret].
Qed.

Lemma framed_new_list_made (b : nat) (items : list value) :
  framed b (new_list items) (fun a => exists l, a = VList l /\ (b <= l)%nat).
Proof.
  unfold new_list. eapply framed_bind; [apply framed_alloc|].
  intros l Hl. apply framed_ret. now exists l.
Qed.

(** What a slice is. *)
Lemma framed_slice_from_kind (b : nat) (v : value) (n : nat) :
  framed b (slice_from v n) (slice_of b v).
Proof.
  destruct v; try apply framed_raise; unfold slice_from, slice_of.
  - eapply framed_bind; [apply framed_list_items|]. intros items _.
    apply framed_new_list_made.
  - apply framed_ret. now eexists.
  - destruct (hshape h); [apply framed_raise|]. apply framed_ret. now eexists.
Qed.

Lemma framed_slice_to_kind (b : nat) (v : value) (n : nat) :
  framed b (slice_to v n) (slice_of b v).
Proof.
  destruct v; try apply framed_raise; unfold slice_to, slice_of.
  - eapply framed_bind; [apply framed_list_items|]. intros items _.
    apply framed_new_list_made.
  - apply framed_ret. now eexists.
  - destruct (hshape h); [apply framed_raise|]. apply framed_ret. now eexists.
Qed.

Lemma framed_store_tensor (b : nat) (h : handle) (new : list R) :
  (b <= storage h)%nat -> framed b (store_tensor h new) (fun _ => True).
Proof.
  intros Hh. unfold store_tensor. eapply framed_bind; [apply framed_lookup|].
  intros [items|d] _; [apply framed_raise | now apply framed_update].
Qed.

Lemma framed_iadd (b : nat) (acc x : value) :
  fresh b acc -> framed b (iadd acc x) (fresh b).
Proof.
  intros Hacc. unfold iadd. destruct acc; try apply framed_raise.
  - eapply framed_torch1. now apply framed_ret with (Q := fun _ => True).
  - eapply framed_torch1. now apply framed_ret with (Q := fun _ => True).
  - eapply framed_bind; [apply framed_load|]. intros a _.
    eapply framed_bind; [apply framed_load|]. intros t _.
    eapply framed_bind; [apply framed_lift_result|]. intros r _.
    eapply framed_bind; [now apply framed_store_tensor|]. intros _ _.
    now apply framed_ret.
Qed.

Lemma framed_idiv (b : nat) (acc : value) (n : Z) :
  fresh b acc -> framed b (idiv acc n) (fresh b).
Proof.
  intros Hacc. unfold idiv. destruct acc; try apply framed_raise.
  - destruct (n =? 0)%Z; [apply framed_raise | now apply framed_ret].
  - destruct (n =? 0)%Z; [apply framed_raise | now apply framed_ret].
  - eapply framed_bind; [apply framed_load|]. intros a _.
    eapply framed_bind; [now apply framed_store_tensor|]. intros _ _.
    now apply framed_ret.
Qed.

(** *** Generators, warnings and output *)

Lemma framed_with_generator {A : Type} (b : nat) (gen : value) (d : G -> A * G) :
  framed b (with_generator gen d) (fun _ => True).
Proof.
  destruct gen; try apply framed_raise; intros s Hb; unfold with_generator.
  - destruct (d (default_generator s)) as [a g']. split; [|auto].
    repeat split; auto.
  - destruct (nth_error (generators s) i) as [g|];
      [destruct (d g) as [a g']|]; (split; [|auto]); repeat split; auto.
Qed.

Lemma framed_normal_like (b : nat) (m gen : value) :
  framed b (normal_like m gen) (fresh b).
Proof.
  unfold normal_like. eapply framed_bind; [apply framed_load|]. intros t _.
  eapply framed_bind; [apply framed_with_generator|]. intros eps _.
  apply framed_new_tensor.
Qed.

Lemma framed_normal_scalar (b : nat) (gen : value) :
  framed b (normal_scalar gen) (fresh b).
Proof.
  unfold normal_scalar. eapply framed_bind; [apply framed_with_generator|].
  intros r _. apply framed_new_tensor.
Qed.

Lemma framed_normal_size (b : nat) (size : list nat) (gen : value) :
  framed b (normal_size size gen) (fresh b).
Proof.
  unfold normal_size. eapply framed_bind; [apply framed_with_generator|].
  intros r _. apply framed_new_tensor.
Qed.

Lemma framed_torch_rand (b : nat) (size : list nat) :
  framed b (torch_rand size) (fresh b).
Proof.
  unfold torch_rand. eapply framed_bind; [apply framed_with_generator|].
  intros r _. apply framed_new_tensor.
Qed.

(** A call that warns first: the objects are kept as the rest of the call
    keeps them, and the names of the module are those that [warn] leaves. *)
Lemma warn_then_framed {A : Type} (b : nat) (msg : string) (m : M A)
    (Q : A -> Prop) :
  framed b m Q ->
  forall s, (b <= length (heap s))%nat ->
    (forall l, (l < b)%nat ->
               nth_error (heap (snd ((_ <<- warn msg ;; m) s))) l
               = nth_error (heap s) l)
    /\ module_globals (snd ((_ <<- warn msg ;; m) s))
       = setdefault "__warningregistry__" VDict (module_globals s)
    /\ (forall a, fst ((_ <<- warn msg ;; m) s) = Ok a -> Q a).
Proof.
  intros Hm s Hb. unfold mbind, warn.
  match goal with
  | |- context [m ?s1] => destruct (Hm s1 Hb) as [(_ & Hf & Hg) HQ]
  end.
  split; [exact Hf | split; [exact Hg | exact HQ]].
Qed.

Lemma framed_print (b : nat) (line : string) :
  framed b (print line) (fun _ => True).
Proof. intros s Hb. split; [|auto]. repeat split; auto. Qed.

(** *** Loops *)

Lemma framed_for_in {A St : Type} (b : nat) (l : list A) (body : A -> St -> M St)
    (acc : St) (Inv : St -> Prop) :
  (forall x a, Inv a -> framed b (body x a) Inv) -> Inv acc ->
  framed b (for_in l body acc) Inv.
Proof.
  intros Hbody. revert acc. induction l as [|x l IH]; intros acc Hacc; cbn [for_in].
  - now apply framed_ret.
  - eapply framed_bind; [now apply Hbody|]. intros a Ha. now apply IH.
Qed.

Lemma framed_map_in {A B : Type} (b : nat) (f : A -> M B) (l : list A)
    (Q : B -> Prop) :
  (forall x, framed b (f x) Q) -> framed b (map_in f l) (fun _ => True).
Proof.
  intros Hf. induction l as [|x l IH]; cbn [map_in].
  - now apply framed_ret.
  - eapply framed_bind; [apply Hf|]. intros y _.
    eapply framed_bind; [apply IH|]. intros ys _. now apply framed_ret.
Qed.

Lemma framed_for_in_return {A : Type} (b : nat) (l : list nat)
    (body : nat -> M (option A)) (after : M A) (Q : A -> Prop) :
  (forall i, framed b (body i) (fun r => forall v, r = Some v -> Q v)) ->
  framed b after Q ->
  framed b (for_in_return l body after) Q.
Proof.
  intros Hbody Hafter. induction l as [|i l IH]; cbn [for_in_return].
  - exact Hafter.
  - eapply framed_bind; [apply Hbody|]. intros [v|] Hr.
    + apply framed_ret. now apply Hr.
    + exact IH.
Qed.

(** *** More of [torch] *)

Lemma framed_iter_items (b : nat) (v : value) :
  framed b (iter_items v) (fun _ => True).
Proof.
  destruct v; try apply framed_list_items. unfold iter_items.
  destruct (hshape h); [apply framed_raise|].
  eapply framed_map_in. intros i. apply framed_getitem.
Qed.

Lemma framed_torch_cat (b : nat) (mv : M value) (Q : value -> Prop) :
  framed b mv Q -> framed b (torch_cat mv) (fresh b).
Proof.
  intros Hm. unfold torch_cat. eapply framed_bind; [exact Hm|]. intros v _.
  eapply framed_bind; [apply framed_list_items|]. intros items _.
  eapply framed_bind; [eapply framed_map_in; intros x; apply framed_load|].
  intros ts _.
  eapply framed_bind; [apply framed_lift_result|]. intros r _.
  apply framed_new_tensor.
Qed.

Lemma framed_flat_views (b : nat) (v : value) :
  framed b (flat_views v) (fresh b).
Proof.
  unfold flat_views. eapply framed_bind; [apply framed_iter_items|]. intros items _.
  eapply framed_bind; [eapply framed_map_in; intros x; apply framed_view_flat|].
  intros views _. apply framed_new_list.
Qed.

Lemma framed_new_Normal (b : nat) (mmu msigma : M value) (Qa Qb : value -> Prop) :
  framed b mmu Qa -> framed b msigma Qb ->
  framed b (new_Normal mmu msigma) (fun _ => True).
Proof.
  intros Ha Hb'. unfold new_Normal.
  eapply framed_bind; [exact Ha|]. intros a _.
  eapply framed_bind; [exact Hb'|]. intros c _.
  eapply framed_bind; [apply framed_load|]. intros x _.
  eapply framed_bind; [apply framed_load|]. intros y _.
  eapply framed_bind; [apply framed_lift_result|]. intros p _.
  eapply framed_bind; [apply framed_alloc|]. intros lm _.
  eapply framed_bind; [apply framed_alloc|]. intros ls _.
  now apply framed_ret.
Qed.

Lemma framed_Normal_log_prob (b : nat) (p : value) (mv : M value)
    (Q : value -> Prop) :
  framed b mv Q -> framed b (Normal_log_prob p mv) (fresh b).
Proof.
  intros Hm. unfold Normal_log_prob. eapply framed_bind; [exact Hm|]. intros v _.
  destruct p; try apply framed_raise.
  eapply framed_bind; [apply framed_load|]. intros m _.
  eapply framed_bind; [apply framed_load|]. intros sg _.
  eapply framed_bind; [apply framed_load|]. intros x _.
  eapply framed_bind; [apply framed_lift_result|]. intros r _.
  apply framed_new_tensor.
Qed.

Lemma framed_Normal_rsample (b : nat) (p : value) :
  framed b (Normal_rsample p) (fresh b).
Proof.
  unfold Normal_rsample. destruct p; try apply framed_raise.
  eapply framed_bind; [apply framed_load|]. intros m _.
  eapply framed_bind; [apply framed_load|]. intros sg _.
  eapply framed_bind; [apply framed_with_generator|]. intros eps _.
  eapply framed_bind; [apply framed_lift_result|]. intros r _.
  apply framed_new_tensor.
Qed.

Lemma framed_sub_value (b : nat) (t acc : value) :
  framed b (sub_value t acc) (fresh b).
Proof.
  unfold sub_value.
  destruct acc;
    solve [ eapply framed_torch1; now apply framed_ret with (Q := fun _ => True)
          | eapply framed_torch2; now apply framed_ret with (Q := fun _ => True) ].
Qed.

(** *** The functions *)

Ltac frame_post :=
  first [ exact I | assumption | (intros; exact I) | (intros; assumption)
        | (intros; discriminate) ].

Create HintDb framed.

Ltac frame :=
  cbv beta zeta;
  lazymatch goal with
  | |- Py.framed ?b (mbind _ _) _ =>
      first
        [ eapply framed_bind with (Q := Py.fresh b);
          [ solve [frame] | intros ? ?; frame ]
        | eapply framed_bind with (Q := fun _ => True);
          [ solve [frame] | intros ? _; frame ] ]
  | |- Py.framed _ (if ?c then _ else _) _ => destruct c; frame
  | |- Py.framed _ (ret _) _ => apply framed_ret; frame_post
  | |- Py.framed _ (raise _) _ => apply framed_raise
  | |- Py.framed _ (lift_result _) _ =>
      eapply framed_weaken; [ apply framed_lift_result | frame_post ]
  | |- Py.framed _ (torch1 _ _) _ =>
      eapply framed_weaken;
      [ eapply framed_torch1 with (Q := fun _ => True); frame | frame_post ]
  | |- Py.framed _ (torch1r _ _) _ =>
      eapply framed_weaken;
      [ eapply framed_torch1r with (Q := fun _ => True); frame | frame_post ]
  | |- Py.framed _ (torch2 _ _ _) _ =>
      eapply framed_weaken;
      [ eapply framed_torch2 with (Qa := fun _ => True) (Qb := fun _ => True);
        frame
      | frame_post ]
  | |- Py.framed _ (torch_cat _) _ =>
      eapply framed_weaken;
      [ eapply framed_torch_cat with (Q := fun _ => True); frame | frame_post ]
  | |- Py.framed _ (new_Normal _ _) _ =>
      eapply framed_weaken;
      [ eapply framed_new_Normal with (Qa := fun _ => True) (Qb := fun _ => True);
        frame
      | frame_post ]
  | |- Py.framed _ (Normal_log_prob _ _) _ =>
      eapply framed_weaken;
      [ eapply framed_Normal_log_prob with (Q := fun _ => True); frame
      | frame_post ]
  | |- Py.framed ?b (for_in _ _ _) _ =>
      first
        [ eapply framed_weaken;
          [ eapply framed_for_in with (Inv := Py.fresh b);
            [ intros ? ? ?; frame | solve [frame_post] ]
          | frame_post ]
        | eapply framed_weaken;
          [ eapply framed_for_in with (Inv := fun _ => True);
            [ intros ? ? _; frame | exact I ]
          | frame_post ] ]
  | |- Py.framed _ (map_in _ _) _ =>
      eapply framed_weaken;
      [ eapply framed_map_in with (Q := fun _ => True); intros ?; frame
      | frame_post ]
  | |- Py.framed _ (for_in_return _ _ _) _ =>
      eapply framed_for_in_return; [ intros ?; frame | frame ]
  | |- Py.framed _ (append _ _) _ =>
      eapply framed_weaken; [ apply framed_append; assumption | frame_post ]
  | |- Py.framed _ (Py.iadd _ _) _ =>
      eapply framed_weaken; [ apply framed_iadd; assumption | frame_post ]
  | |- Py.framed _ (Py.idiv _ _) _ =>
      eapply framed_weaken; [ apply framed_idiv; assumption | frame_post ]
  | |- _ =>
      eapply framed_weaken; [ solve [ eauto 2 with framed ] | frame_post ]
  end.

#[local] Hint Resolve framed_new_list framed_list_items framed_load
  framed_new_tensor framed_view_flat framed_unsqueeze framed_getitem framed_len
  framed_normal_like framed_normal_scalar framed_normal_size framed_torch_rand
  framed_slice_from framed_slice_to framed_print framed_iter_items framed_flat_views
  framed_Normal_rsample framed_sub_value framed_with_generator : framed.

Lemma framed_decode_and_sample_diag_gauss (b : nat) (mean rho : value)
    (logvar_enc : bool) (generator : value) (is_radial : bool) :
  framed b (Py.decode_and_sample_diag_gauss mean rho logvar_enc generator is_radial)
    (fun _ => True).
Proof. unfold Py.decode_and_sample_diag_gauss. frame. Qed.

Lemma framed_decode_diag_gauss (b : nat) (rho : value)
    (logvar_enc return_var return_logvar : bool) :
  framed b (Py.decode_diag_gauss rho logvar_enc return_var return_logvar)
    (fun _ => True).
Proof. unfold Py.decode_diag_gauss. frame. Qed.

Lemma framed_sample_diag_gauss (b : nat) (mean std generator : value)
    (is_radial : bool) :
  framed b (Py.sample_diag_gauss mean std generator is_radial) (fun _ => True).
Proof. unfold Py.sample_diag_gauss. frame. Qed.

Lemma framed_kl_diag_gaussians (b : nat) (mean_a logvar_a mean_b logvar_b : value) :
  framed b (Py.kl_diag_gaussians mean_a logvar_a mean_b logvar_b) (fun _ => True).
Proof. unfold Py.kl_diag_gaussians. frame. Qed.

Lemma framed_kl_diag_gauss_with_standard_gauss (b : nat) (mean logvar : value) :
  framed b (Py.kl_diag_gauss_with_standard_gauss mean logvar) (fun _ => True).
Proof. unfold Py.kl_diag_gauss_with_standard_gauss. frame. Qed.

Lemma framed_square_wasserstein_2 (b : nat) (mean_a logvar_a mean_b logvar_b : value) :
  framed b (Py.square_wasserstein_2 mean_a logvar_a mean_b logvar_b) (fun _ => True).
Proof. unfold Py.square_wasserstein_2. frame. Qed.

#[local] Hint Resolve framed_sample_diag_gauss : framed.

Lemma framed_kl_radial_bnn_with_diag_gauss (b : nat)
    (mean_a std_a mean_b std_b : value) (ce_sample_size : Z) (generator : value) :
  framed b (Py.kl_radial_bnn_with_diag_gauss mean_a std_a mean_b std_b
              ce_sample_size generator) (fun _ => True).
Proof. unfold Py.kl_radial_bnn_with_diag_gauss. frame. Qed.

(** The calls that warn first. *)
Ltac after_warn s :=
  lazymatch goal with
  | |- context [mbind (warn ?msg) (fun _ => ?m)] =>
      let Hw := fresh "Hw" in
      assert (Hw : framed (length (heap s)) m (fun _ => True)) by frame;
      destruct (warn_then_framed (length (heap s)) msg m _ Hw s (le_n _))
        as (Hold & Hg & _);
      split; [|exact Hg];
      intros l o Hl; rewrite Hold; [exact Hl|];
      apply nth_error_Some; congruence
  end.

Lemma registry_sample_diag_gaus_from_hnet (hnet_outputs : value) :
  stateless_but_registry (Py.sample_diag_gaus_from_hnet hnet_outputs).
Proof. intros s. unfold Py.sample_diag_gaus_from_hnet. after_warn s. Qed.

(** What [extract_mean_std] returns: the slices of its argument and a new
    list. *)
Lemma extract_mean_std_returns (hnet_outputs : value) (return_logvar : bool)
    (s : store) (a : value) :
  fst (Py.extract_mean_std hnet_outputs return_logvar s) = Ok a ->
  mean_std_tuple (length (heap s)) hnet_outputs return_logvar a.
Proof.
  unfold Py.extract_mean_std.
  lazymatch goal with
  | |- context [mbind (warn ?msg) (fun _ => ?m)] =>
      assert (Hw : framed (length (heap s)) m
                     (mean_std_tuple (length (heap s)) hnet_outputs return_logvar))
  end.
  { eapply framed_bind; [apply framed_len|]. intros k _.
    destruct (negb (k mod 2 =? 0)%nat); [apply framed_raise|].
    eapply framed_bind; [apply framed_len|]. intros k' _. cbv zeta.
    eapply framed_bind; [apply framed_slice_from_kind|]. intros mean Hmean.
    eapply framed_bind; [apply framed_slice_to_kind|]. intros logvar Hlogvar.
    eapply framed_bind.
    { apply framed_map_in with (Q := fresh (length (heap s))). intros i.
      eapply framed_torch1. eapply framed_torch1. apply framed_getitem. }
    intros stds _.
    eapply framed_bind; [apply framed_new_list_made|]. intros std Hstd.
    destruct return_logvar; apply framed_ret.
    - exists mean, std, [logvar]. repeat split; auto.
    - exists mean, std, []. repeat split; auto. }
  intros Ha.
  lazymatch type of Ha with
  | context [mbind (warn ?msg) (fun _ => ?m)] =>
      destruct (warn_then_framed (length (heap s)) msg m _ Hw s (le_n _))
        as (_ & _ & HQ)
  end.
  now apply HQ.
Qed.

Lemma registry_extract_mean_std (hnet_outputs : value) (return_logvar : bool) :
  stateless_but_registry (Py.extract_mean_std hnet_outputs return_logvar).
Proof. intros s. unfold Py.extract_mean_std. after_warn s. Qed.

Lemma framed_sample_gumbel_softmax (b : nat) (x : value) (tau : R) :
  framed b (Py.sample_gumbel_softmax x tau) (fun _ => True).
Proof. unfold Py.sample_gumbel_softmax. frame. Qed.

Lemma framed_compute_kl (b : nat) (mean exp_var prior_mean prior_exp_var : value)
    (sum : bool) (lamb initial_prior_var : R) :
  framed b (Py.compute_kl mean exp_var prior_mean prior_exp_var sum lamb
              initial_prior_var) (fun _ => True).
Proof. unfold Py.compute_kl. frame. Qed.

#[local] Hint Resolve framed_compute_kl : framed.

Lemma framed_kl_mixture_gauss (b : nat) (distribution_a distribution_b : value)
    (gauss_mixture : Z) (lamb : R) :
  framed b (Py.kl_mixture_gauss distribution_a distribution_b gauss_mixture lamb)
    (fun _ => True).
Proof. unfold Py.kl_mixture_gauss. frame. Qed.

Lemma framed_sample_gauss (b : nat) (mean rho : value) (logvar_enc : bool)
    (coef : value) (gauss_mixture K d_in d_out : nat) (is_bias : bool)
    (generator : value) (is_radial : bool) :
  framed b (Py.sample_gauss mean rho logvar_enc coef gauss_mixture K d_in d_out
              is_bias generator is_radial) (fun _ => True).
Proof. unfold Py.sample_gauss. frame. Qed.

Lemma framed_sample_gumbel (b : nat) (mean rho : value) (logvar_enc : bool)
    (coef : value) (tau : R) (gauss_mixture K d_in d_out : nat) (is_bias : bool)
    (generator : value) (is_radial : bool) :
  framed b (Py.sample_gumbel mean rho logvar_enc coef tau gauss_mixture K d_in
              d_out is_bias generator is_radial) (fun _ => True).
Proof. unfold Py.sample_gumbel. frame. Qed.

#[local] Hint Resolve framed_sample_gauss : framed.

Lemma framed_sample_from_gumbel_softmax_trick (b : nat) (mean rho coef : value)
    (tau : R) (gauss_mixture K d_in d_out : nat) (is_bias logvar_enc : bool)
    (generator : value) (is_radial : bool) :
  framed b (Py.sample_from_gumbel_softmax_trick mean rho coef tau gauss_mixture K
              d_in d_out is_bias logvar_enc generator is_radial) (fun _ => True).
Proof. unfold Py.sample_from_gumbel_softmax_trick. frame. Qed.

Lemma framed_compute_coef (b : nat) (num_component : Z) :
  framed b (Py.compute_coef num_component) (fun _ => True).
Proof. unfold Py.compute_coef. frame. Qed.

Lemma framed_kl_gauss (b : nat) (mean_a logvar_a mean_b logvar_b : value) :
  framed b (Py.kl_gauss mean_a logvar_a mean_b logvar_b) (fun _ => True).
Proof. unfold Py.kl_gauss. frame. Qed.

#[local] Hint Resolve framed_compute_coef framed_kl_gauss : framed.

Lemma framed_upperbound_kl_mixture_gauss (b : nat)
    (mixture_gauss_a mixture_gauss_b : value) :
  framed b (Py.upperbound_kl_mixture_gauss mixture_gauss_a mixture_gauss_b)
    (fun _ => True).
Proof. unfold Py.upperbound_kl_mixture_gauss. frame. Qed.

(** A call that leaves the objects below every [b] as they were is
    stateless. *)
Lemma framed_stateless {A : Type} (m : M A) :
  (forall b, framed b m (fun _ => True)) -> stateless m.
Proof.
  intros Hf s. destruct (Hf (length (heap s)) s (le_n _)) as [[_ [Hold Hg]] _].
  split; [|exact Hg]. intros l o Hl. rewrite Hold; [exact Hl|].
  apply nth_error_Some. congruence.
Qed.

End Framing.

(** ** What the analytic functions compute *)

Section Refinement.
Context {G : Type} `{Generator G}.
Notation "x <<- m ;; k" := (Py.mbind m (fun x => k))
  (at level 61, m at next level, right associativity).
Abbreviation store := (@Py.store G).
Abbreviation M := (@Py.M G).
Abbreviation extends := (@Py.extends G).
Abbreviation computes := (@Py.computes G).
Abbreviation hoare := (@Py.hoare G).
Abbreviation stable := (@Py.stable G).
Abbreviation read_handle := (@Py.read_handle G).
Abbreviation read_tensor := (@Py.read_tensor G).
Abbreviation read_tensors := (@Py.read_tensors G).
Abbreviation items_of := (@Py.items_of G).
Abbreviation read_list := (@Py.read_list G).
Abbreviation read_strided := (@Py.read_strided G).
Abbreviation read_strideds := (@Py.read_strideds G).
Abbreviation read_views := (@Py.read_views G).
Abbreviation read_mixture := (@Py.read_mixture G).
Abbreviation read_pynum := (@Py.read_pynum G).
Abbreviation read_ints := (@Py.read_ints G).
Abbreviation read_lists := (@Py.read_lists G).
Abbreviation holds := (@Py.holds G).
Abbreviation local_list := (@Py.local_list G).
Abbreviation list_holds := (@Py.list_holds G).
Abbreviation read_pair := (@Py.read_pair G).
Abbreviation decode_lists := (@Py.decode_lists G).

Lemma extends_refl (s : store) : extends s s.
Proof. intros l o Hl. exact Hl. Qed.

Lemma extends_trans (s1 s2 s3 : store) :
  extends s1 s2 -> extends s2 s3 -> extends s1 s3.
Proof. intros H12 H23 l o Hl. apply H23, H12, Hl. Qed.

Lemma extends_length (s s' : store) :
  extends s s' -> (length (Py.heap s) <= length (Py.heap s'))%nat.
Proof.
  intros E. apply Nat.nlt_ge. intros Hlt.
  destruct (nth_error (Py.heap s) (length (Py.heap s'))) as [o|] eqn:Hl.
  - apply E in Hl.
    assert (length (Py.heap s') < length (Py.heap s'))%nat; [|lia].
    apply nth_error_Some. congruence.
  - apply nth_error_None in Hl. lia.
Qed.

Lemma extends_alloc (s : store) (o : Py.object) :
  extends s (Py.set_heap (Py.heap s ++ [o]) s).
Proof.
  intros l o' Hl. cbn [Py.set_heap Py.heap]. rewrite nth_error_app1; [exact Hl|].
  apply nth_error_Some. congruence.
Qed.

Lemma read_handle_mono (s s' : store) (h : Py.handle) (t : Tensor) :
  extends s s' -> read_handle s h = Some t -> read_handle s' h = Some t.
Proof.
  intros E. unfold Py.read_handle.
  destruct (nth_error (Py.heap s) (Py.storage h)) as [[|d]|] eqn:Hl; try discriminate.
  rewrite (E _ _ Hl). auto.
Qed.

Lemma read_tensor_mono (s s' : store) (v : Py.value) (t : Tensor) :
  extends s s' -> read_tensor s v = Some t -> read_tensor s' v = Some t.
Proof. intros E. destruct v; try discriminate. apply read_handle_mono, E. Qed.

Lemma read_tensors_mono (s s' : store) (vs : list Py.value) (ts : list Tensor) :
  extends s s' -> read_tensors s vs = Some ts -> read_tensors s' vs = Some ts.
Proof.
  intros E. revert ts. induction vs as [|v vs IH]; intros ts; cbn [Py.read_tensors]; auto.
  destruct (Py.read_tensor s v) as [t|] eqn:Hv; try discriminate.
  destruct (Py.read_tensors s vs) as [ts'|]; try discriminate.
  rewrite (read_tensor_mono _ _ _ _ E Hv), (IH _ eq_refl). auto.
Qed.

Lemma items_of_mono (s s' : store) (v : Py.value) (items : list Py.value) :
  extends s s' -> items_of s v = Some items -> items_of s' v = Some items.
Proof.
  intros E. destruct v; cbn [Py.items_of]; auto.
  destruct (nth_error (Py.heap s) l) as [[its|]|] eqn:Hl; try discriminate.
  rewrite (E _ _ Hl). auto.
Qed.

Lemma read_list_mono (s s' : store) (v : Py.value) (ts : list Tensor) :
  extends s s' -> read_list s v = Some ts -> read_list s' v = Some ts.
Proof.
  intros E. unfold Py.read_list.
  destruct (Py.items_of s v) as [items|] eqn:Hi; try discriminate.
  rewrite (items_of_mono _ _ _ _ E Hi). apply read_tensors_mono, E.
Qed.

Lemma read_mixture_mono (s s' : store) (v : Py.value) (mx : mixture) :
  extends s s' -> read_mixture s v = Some mx -> read_mixture s' v = Some mx.
Proof.
  intros E. unfold Py.read_mixture.
  destruct (Py.items_of s v) as [items|] eqn:Hi; try discriminate.
  rewrite (items_of_mono _ _ _ _ E Hi).
  destruct items as [|m [|lv [|c rest]]]; try discriminate.
  destruct (Py.read_list s m) as [ms|] eqn:Hm; try discriminate.
  destruct (Py.read_list s lv) as [lvs|] eqn:Hlv; try discriminate.
  destruct (Py.read_tensor s c) as [ct|] eqn:Hc; try discriminate.
  rewrite (read_list_mono _ _ _ _ E Hm), (read_list_mono _ _ _ _ E Hlv),
    (read_tensor_mono _ _ _ _ E Hc). auto.
Qed.

(** *** Runs of the primitives *)

Lemma load_run (s : store) (v : Py.value) (t : Tensor) :
  read_tensor s v = Some t -> Py.load v s = (Ok t, s).
Proof. intros Hv. unfold Py.load. now rewrite Hv. Qed.

Lemma tensor_eta (t : Tensor) : mkT (shape t) (data t) = t.
Proof. now destruct t. Qed.

Lemma read_new_tensor (s : store) (t : Tensor) :
  read_tensor (Py.set_heap (Py.heap s ++ [Py.OStorage (data t)]) s)
    (Py.VTensor (Py.mkHandle (length (Py.heap s)) [] (shape t) Py.Dense)) = Some t.
Proof.
  cbn [Py.read_tensor]. unfold Py.read_handle. cbn [Py.set_heap Py.heap Py.storage].
  rewrite nth_error_app2, Nat.sub_diag; [|lia]. cbn. now rewrite tensor_eta.
Qed.

Lemma computes_eq {A B : Type} (D : store -> A -> option B) (s0 : store)
    (m : M A) (r r' : result B) :
  computes D s0 m r' -> r' = r -> computes D s0 m r.
Proof. now intros Hm <-. Qed.

Lemma computes_base {A B : Type} (D : store -> A -> option B) (s0 s1 : store)
    (m : M A) (r : result B) :
  extends s0 s1 -> computes D s0 m r -> computes D s1 m r.
Proof. intros E Hm s Es. apply Hm. eapply extends_trans; eauto. Qed.

Lemma computes_bind {A B A' B' : Type} (D : store -> A -> option B)
    (D' : store -> A' -> option B') (s0 : store) (m : M A) (k : A -> M A')
    (r : result B) (kr : B -> result B') :
  computes D s0 m r ->
  (forall s1 a x, extends s0 s1 -> D s1 a = Some x -> computes D' s1 (k a) (kr x)) ->
  computes D' s0 (x <<- m ;; k x) (x <- r ;; kr x).
Proof.
  intros Hm Hk s Es. destruct (Hm s Es) as [E1 Hr]. unfold Py.mbind.
  destruct r as [x|e]; cbn [bind].
  - destruct Hr as (a & Ha & Da). destruct (m s) as [ra s1]; cbn [fst snd] in *.
    subst ra.
    destruct (Hk s1 a x (extends_trans _ _ _ Es E1) Da s1 (extends_refl s1))
      as [E2 Hr2].
    split; [eapply extends_trans; eauto|]. exact Hr2.
  - destruct (m s) as [ra s1]; cbn [fst snd] in *. subst ra. split; auto.
Qed.

Lemma computes_ret (s0 : store) (v : Py.value) (t : Tensor) :
  read_tensor s0 v = Some t -> computes Py.read_tensor s0 (Py.ret v) (Ok t).
Proof.
  intros Hv s Es. split; [apply extends_refl|]. exists v. split; [reflexivity|].
  cbn [snd Py.ret]. eapply read_tensor_mono; eauto.
Qed.

Lemma computes_new_tensor (s0 : store) (t : Tensor) :
  computes Py.read_tensor s0 (Py.new_tensor t) (Ok t).
Proof.
  intros s Es. split; [apply extends_alloc|]. eexists. split; [reflexivity|].
  apply read_new_tensor.
Qed.

Lemma computes_result (s0 : store) (r : result Tensor) :
  computes Py.read_tensor s0 (x <<- Py.lift_result r ;; Py.new_tensor x) r.
Proof.
  destruct r as [t|e].
  - apply computes_new_tensor.
  - intros s Es. split; [apply extends_refl|reflexivity].
Qed.

Lemma computes_load {A B : Type} (D : store -> A -> option B) (s0 : store)
    (v : Py.value) (t : Tensor) (k : Tensor -> M A) (r : result B) :
  read_tensor s0 v = Some t -> computes D s0 (k t) r ->
  computes D s0 (x <<- Py.load v ;; k x) r.
Proof.
  intros Hv Hk s Es. unfold Py.mbind.
  rewrite (load_run s v t); [|eapply read_tensor_mono; eauto]. apply Hk, Es.
Qed.

Lemma computes_torch1r (s0 : store) (f : Tensor -> result Tensor) (m : M Py.value)
    (r : result Tensor) :
  computes Py.read_tensor s0 m r ->
  computes Py.read_tensor s0 (Py.torch1r f m) (x <- r ;; f x).
Proof.
  intros Hm. unfold Py.torch1r. eapply computes_bind; [exact Hm|].
  intros s1 a x E1 Da. apply computes_load with (t := x); [exact Da|].
  apply computes_result.
Qed.

Lemma computes_torch1 (s0 : store) (f : Tensor -> Tensor) (m : M Py.value)
    (r : result Tensor) :
  computes Py.read_tensor s0 m r ->
  computes Py.read_tensor s0 (Py.torch1 f m) (fmap f r).
Proof.
  intros Hm. unfold Py.torch1, fmap. eapply computes_bind; [exact Hm|].
  intros s1 a x E1 Da. apply computes_load with (t := x); [exact Da|].
  apply computes_new_tensor.
Qed.

Lemma computes_torch2 (s0 : store) (op : Tensor -> Tensor -> result Tensor)
    (ma mb : M Py.value) (ra rb : result Tensor) :
  computes Py.read_tensor s0 ma ra -> computes Py.read_tensor s0 mb rb ->
  computes Py.read_tensor s0 (Py.torch2 op ma mb) (lift2 op ra rb).
Proof.
  intros Ha Hb. unfold Py.torch2, lift2. eapply computes_bind; [exact Ha|].
  intros s1 a x E1 Da. eapply computes_bind; [eapply computes_base; eauto|].
  intros s2 b y E2 Db.
  apply computes_load with (t := x); [eapply read_tensor_mono; eauto|].
  apply computes_load with (t := y); [exact Db|].
  apply computes_result.
Qed.

(** A step that returns [a] and leaves the store as it is. *)
Lemma computes_run {A A' B : Type} (D : store -> A' -> option B) (s0 : store)
    (m : M A) (a : A) (k : A -> M A') (r : result B) :
  (forall s, extends s0 s -> m s = (Ok a, s)) -> computes D s0 (k a) r ->
  computes D s0 (x <<- m ;; k x) r.
Proof. intros Hm Hk s Es. unfold Py.mbind. rewrite (Hm s Es). apply Hk, Es. Qed.

Lemma list_items_run (s : store) (v : Py.value) (items : list Py.value) :
  items_of s v = Some items -> Py.list_items v s = (Ok items, s).
Proof.
  destruct v; try discriminate; cbn [Py.items_of Py.list_items].
  - unfold Py.mbind, Py.lookup.
    destruct (nth_error (Py.heap s) l) as [[its|]|]; try discriminate.
    now intros [= ->].
  - now intros [= ->].
Qed.

Lemma iter_items_run (s : store) (v : Py.value) (items : list Py.value) :
  items_of s v = Some items -> Py.iter_items v s = (Ok items, s).
Proof.
  intros Hi. destruct v; try discriminate; now apply list_items_run.
Qed.

Lemma getitem_run (s : store) (v : Py.value) (items : list Py.value) (i : nat) :
  items_of s v = Some items ->
  Py.getitem v i s = match nth_error items i with
                     | Some x => (Ok x, s)
                     | None => (Raise IndexError, s)
                     end.
Proof.
  intros Hi. pose proof (list_items_run s v items Hi) as Hr.
  destruct v; try discriminate; cbn [Py.getitem]; unfold Py.mbind; rewrite Hr;
    now destruct (nth_error items i).
Qed.

Lemma len_run (s : store) (v : Py.value) (items : list Py.value) :
  items_of s v = Some items -> Py.len v s = (Ok (length items), s).
Proof.
  intros Hi. pose proof (list_items_run s v items Hi) as Hr.
  destruct v; try discriminate; cbn [Py.len]; unfold Py.mbind; now rewrite Hr.
Qed.

Lemma read_tensors_length (s : store) (items : list Py.value) (ts : list Tensor) :
  read_tensors s items = Some ts -> length items = length ts.
Proof.
  revert ts. induction items as [|x items IH]; intros ts; cbn [Py.read_tensors].
  - now intros [= <-].
  - destruct (Py.read_tensor s x); try discriminate.
    destruct (Py.read_tensors s items); try discriminate.
    intros [= <-]. simpl. f_equal. now apply IH.
Qed.

Lemma read_tensors_nth (s : store) (items : list Py.value) (ts : list Tensor)
    (i : nat) :
  read_tensors s items = Some ts ->
  match nth_error items i with
  | Some x => exists t, nth_error ts i = Some t /\ read_tensor s x = Some t
  | None => nth_error ts i = None
  end.
Proof.
  revert ts i. induction items as [|x items IH]; intros ts i; cbn [Py.read_tensors].
  - intros [= <-]. now destruct i.
  - destruct (Py.read_tensor s x) as [t|] eqn:Hx; try discriminate.
    destruct (Py.read_tensors s items) as [ts'|]; try discriminate.
    intros [= <-]. destruct i as [|i]; cbn [nth_error].
    + now exists t.
    + now apply IH.
Qed.

Lemma computes_getitem_list (s0 : store) (v : Py.value) (ts : list Tensor)
    (i : nat) :
  read_list s0 v = Some ts ->
  computes Py.read_tensor s0 (Py.getitem v i) (getitem ts i).
Proof.
  intros Hv s Es. apply (read_list_mono _ _ _ _ Es) in Hv. unfold Py.read_list in Hv.
  destruct (Py.items_of s v) as [items|] eqn:Hi; try discriminate.
  rewrite (getitem_run s v items i Hi). unfold getitem.
  pose proof (read_tensors_nth s items ts i Hv) as Hn.
  destruct (nth_error items i) as [x|].
  - destruct Hn as (t & -> & Hx). split; [apply extends_refl|]. now exists x.
  - rewrite Hn. split; [apply extends_refl|reflexivity].
Qed.

(** *** Strided views *)

Lemma positions_length (offset : nat) (sizes steps : list nat) :
  length (Py.positions offset sizes steps) = numel sizes.
Proof.
  revert offset steps. induction sizes as [|n sizes IH]; intros offset steps;
    [reflexivity|].
  cbn [Py.positions]. change (numel (n :: sizes)) with (n * numel sizes)%nat.
  generalize 0%nat at 2 as a.
  induction n as [|n IHn]; intros a; [reflexivity|].
  cbn [seq flat_map]. rewrite length_app, IH, IHn. reflexivity.
Qed.

(** The block [i] of a concatenation of [n] blocks of one length. *)
Lemma block_of_flat_map {A : Type} (g : nat -> list A) (k a n i : nat) :
  (forall j, length (g j) = k) -> (i < n)%nat ->
  firstn k (skipn (i * k) (flat_map g (seq a n))) = g (a + i)%nat.
Proof.
  intros Hk. revert a i. induction n as [|n IH]; intros a i Hi; [lia|].
  cbn [seq flat_map]. destruct i as [|i].
  - cbn [Nat.mul skipn]. rewrite Nat.add_0_r.
    rewrite firstn_app, (Hk a), Nat.sub_diag. cbn [firstn].
    rewrite app_nil_r. apply firstn_all2. rewrite Hk. lia.
  - replace (S i * k)%nat with (length (g a) + i * k)%nat by (rewrite Hk; lia).
    rewrite skipn_app, skipn_all2 by lia.
    replace (length (g a) + i * k - length (g a))%nat with (i * k)%nat by lia.
    cbn [app]. rewrite IH by lia. f_equal. lia.
Qed.

Lemma gather_flat_map (g : nat -> list nat) (l : list nat) (d : list R) :
  Py.gather (flat_map g l) d = flat_map (fun i => Py.gather (g i) d) l.
Proof.
  unfold Py.gather. induction l as [|x l IH]; [reflexivity|].
  cbn [flat_map]. now rewrite map_app, IH.
Qed.

Lemma gather_length (ps : list nat) (d : list R) :
  length (Py.gather ps d) = length ps.
Proof. apply length_map. Qed.

(** The slice [i] of a strided view. *)
Lemma gather_select (offset n : nat) (rest steps : list nat) (d : list R) (i : nat) :
  (i < n)%nat ->
  firstn (numel rest)
    (skipn (i * numel rest) (Py.gather (Py.positions offset (n :: rest) steps) d))
  = Py.gather (Py.positions (offset + i * hd 0%nat steps) rest (tl steps)) d.
Proof.
  intros Hi. cbn [Py.positions]. rewrite gather_flat_map.
  rewrite (block_of_flat_map _ (numel rest) 0 n i); [reflexivity| |exact Hi].
  intros j. now rewrite gather_length, positions_length.
Qed.

Lemma map_seq_from {A : Type} (f : nat -> A) (a k : nat) :
  map f (seq a k) = map (fun j => f (a + j)%nat) (seq 0 k).
Proof.
  revert a f. induction k as [|k IH]; intros a f; [reflexivity|].
  cbn [seq map]. rewrite Nat.add_0_r. f_equal.
  rewrite (IH (S a)), (IH 1%nat (fun j => f (a + j)%nat)).
  apply map_ext. intros j. f_equal. lia.
Qed.

Lemma flat_map_seq_blocks {A : Type} (f : nat -> A) (n k : nat) :
  flat_map (fun i => map (fun j => f (i * k + j)%nat) (seq 0 k)) (seq 0 n)
  = map f (seq 0 (n * k)).
Proof.
  induction n as [|n IH]; [reflexivity|].
  rewrite seq_S, flat_map_app, IH. cbn [flat_map Nat.add]. rewrite app_nil_r.
  replace (S n * k)%nat with (n * k + k)%nat by lia.
  rewrite seq_app, map_app. f_equal. cbn [Nat.add].
  symmetry. apply map_seq_from.
Qed.

Lemma flat_map_singleton {A B : Type} (f : A -> B) (l : list A) :
  flat_map (fun x => [f x]) l = map f l.
Proof. induction l as [|x l IH]; [reflexivity|]. cbn [flat_map map app]. now rewrite IH. Qed.

(** A missing step counts as 0. *)
Lemma positions_no_steps (offset : nat) (sizes : list nat) (k : nat) :
  Py.positions offset sizes (repeat 0%nat k) = Py.positions offset sizes [].
Proof.
  revert offset k. induction sizes as [|n sizes IH]; intros offset k; [reflexivity|].
  cbn [Py.positions]. apply flat_map_ext. intros i.
  destruct k as [|k]; [reflexivity|]. cbn [repeat hd tl]. apply IH.
Qed.

Lemma positions_pad (offset : nat) (sizes steps : list nat) (k : nat) :
  Py.positions offset sizes (steps ++ repeat 0%nat k)
  = Py.positions offset sizes steps.
Proof.
  revert offset steps. induction sizes as [|n sizes IH]; intros offset steps;
    [reflexivity|].
  destruct steps as [|st steps].
  - apply positions_no_steps.
  - cbn [Py.positions app hd tl]. apply flat_map_ext. intros i. apply IH.
Qed.

(** The positions of a view whose dimensions merge into one: equally spaced
    by the step of the last dimension of more than one index. *)
Lemma positions_merge (sizes steps : list nat) :
  (length sizes <= length steps)%nat ->
  mergeable (squeeze_dims sizes steps) = true ->
  (forall offset,
      Py.positions offset sizes steps
      = map (fun j => offset + j * Py.merged_step sizes steps)%nat
          (seq 0 (numel sizes)))
  /\ match squeeze_dims sizes steps with
     | [] => numel sizes = 1%nat
     | (n, step) :: _ => (step * n = numel sizes * Py.merged_step sizes steps)%nat
     end.
Proof.
  revert steps. induction sizes as [|n sizes IH]; intros steps Hl Hm.
  - split; [|reflexivity]. intros offset. cbn. now rewrite Nat.add_0_r.
  - destruct steps as [|st steps]; [cbn in Hl; lia|].
    cbn [length] in Hl. apply le_S_n in Hl. specialize (IH steps Hl).
    unfold Py.merged_step, squeeze_dims in *.
    cbn [combine filter fst negb] in *.
    change (numel (n :: sizes)) with (n * numel sizes)%nat.
    cbn [Py.positions hd tl].
    destruct (Nat.eqb_spec n 1) as [->|Hn]; cbn [negb] in *.
    + destruct (IH Hm) as [IHp IHi]. split.
      * intros offset. cbn [seq flat_map]. rewrite app_nil_r, IHp.
        rewrite Nat.mul_1_l. apply map_ext. intros j. lia.
      * rewrite Nat.mul_1_l. exact IHi.
    + cbn [mergeable] in Hm.
      destruct (filter _ (combine sizes steps)) as [|[n2 st2] r].
      * destruct (IH eq_refl) as [IHp IHi]. cbn [map last snd] in *.
        rewrite IHi in *. split; [|lia].
        intros offset. rewrite Nat.mul_1_r.
        rewrite <- flat_map_singleton. apply flat_map_ext. intros i.
        rewrite IHp. cbn [seq map]. f_equal. lia.
      * apply andb_prop in Hm. destruct Hm as [Hst Hm].
        apply Nat.eqb_eq in Hst.
        destruct (IH Hm) as [IHp IHi].
        cbn [map last snd] in *.
        set (ms := match map snd r with
                   | [] => st2
                   | _ :: _ => last (map snd r) 1%nat
                   end) in *.
        split.
        -- intros offset.
           rewrite <- (flat_map_seq_blocks (fun j => offset + j * ms)%nat n (numel sizes)).
           apply flat_map_ext. intros i. rewrite IHp. apply map_ext. intros j. nia.
        -- nia.
Qed.

Lemma window_app (sl : list (nat * nat)) (o n : nat) (d : list R) :
  Py.window (sl ++ [(o, n)]) d = firstn n (skipn o (Py.window sl d)).
Proof. unfold Py.window. now rewrite fold_left_app. Qed.

Lemma computes_getitem_tensor (s0 : store) (v : Py.value) (t : Tensor) (i : nat) :
  read_tensor s0 v = Some t ->
  computes Py.read_tensor s0 (Py.getitem v i) (tindex t i).
Proof.
  intros Hv s Es. apply (read_tensor_mono _ _ _ _ Es) in Hv.
  destruct v; try discriminate. cbn [Py.read_tensor] in Hv. unfold Py.read_handle in Hv.
  destruct (nth_error (Py.heap s) (Py.storage h)) as [[|d]|] eqn:Hl; try discriminate.
  injection Hv as <-. cbn [Py.getitem]. unfold tindex. cbn [shape data].
  destruct h as [st sl sh [|offset steps]]; cbn [Py.hshape Py.hlayout Py.storage Py.slices] in *;
    (destruct sh as [|n rest]; [split; [apply extends_refl|reflexivity]|]);
    (destruct (i <? n)%nat eqn:Hi; [|split; [apply extends_refl|reflexivity]]);
    (split; [apply extends_refl|]); (eexists; split; [reflexivity|]);
    cbn [snd Py.ret Py.read_tensor]; unfold Py.read_handle, Py.seen;
    cbn [Py.storage Py.slices Py.hshape Py.hlayout]; rewrite Hl.
  - now rewrite window_app.
  - apply Nat.ltb_lt in Hi. now rewrite gather_select.
Qed.

Lemma map_in_load_run (s : store) (items : list Py.value) (ts : list Tensor) :
  read_tensors s items = Some ts -> Py.map_in Py.load items s = (Ok ts, s).
Proof.
  revert ts. induction items as [|x items IH]; intros ts; cbn [Py.read_tensors Py.map_in].
  - now intros [= <-].
  - destruct (Py.read_tensor s x) as [t|] eqn:Hx; try discriminate.
    destruct (Py.read_tensors s items) as [ts'|]; try discriminate.
    intros [= <-]. unfold Py.mbind. rewrite (load_run s x t Hx), (IH ts' eq_refl).
    reflexivity.
Qed.

(** *** Tensors with their layouts *)

Lemma read_strided_tensor (s : store) (v : Py.value) (x : Strided) :
  read_strided s v = Some x -> read_tensor s v = Some (tensor x).
Proof.
  destruct v; try discriminate. cbn [Py.read_strided Py.read_tensor].
  destruct (Py.read_handle s h) as [t|]; try discriminate.
  now intros [= <-].
Qed.

Lemma read_strideds_tensors (s : store) (vs : list Py.value) (xs : list Strided) :
  read_strideds s vs = Some xs -> read_tensors s vs = Some (map tensor xs).
Proof.
  revert xs. induction vs as [|v vs IH]; intros xs;
    cbn [Py.read_strideds Py.read_tensors].
  - now intros [= <-].
  - destruct (Py.read_strided s v) as [x|] eqn:Hv; try discriminate.
    destruct (Py.read_strideds s vs) as [xs'|]; try discriminate.
    intros [= <-]. now rewrite (read_strided_tensor _ _ _ Hv), (IH _ eq_refl).
Qed.

Lemma read_views_list (s : store) (v : Py.value) (xs : list Strided) :
  read_views s v = Some xs -> read_list s v = Some (map tensor xs).
Proof.
  unfold Py.read_views, Py.read_list.
  destruct (Py.items_of s v); try discriminate. apply read_strideds_tensors.
Qed.

(** A list or tuple of contiguous tensors. *)
Lemma read_strided_mono (s s' : store) (v : Py.value) (x : Strided) :
  extends s s' -> read_strided s v = Some x -> read_strided s' v = Some x.
Proof.
  intros E. destruct v; try discriminate. cbn [Py.read_strided].
  destruct (Py.read_handle s h) as [t|] eqn:Hh; try discriminate.
  now rewrite (read_handle_mono _ _ _ _ E Hh).
Qed.

Lemma read_strideds_mono (s s' : store) (vs : list Py.value) (xs : list Strided) :
  extends s s' -> read_strideds s vs = Some xs -> read_strideds s' vs = Some xs.
Proof.
  intros E. revert xs. induction vs as [|v vs IH]; intros xs; cbn [Py.read_strideds]; auto.
  destruct (Py.read_strided s v) as [x|] eqn:Hv; try discriminate.
  destruct (Py.read_strideds s vs) as [xs'|]; try discriminate.
  rewrite (read_strided_mono _ _ _ _ E Hv), (IH _ eq_refl). auto.
Qed.

Lemma read_views_mono (s s' : store) (v : Py.value) (xs : list Strided) :
  extends s s' -> read_views s v = Some xs -> read_views s' v = Some xs.
Proof.
  intros E. unfold Py.read_views.
  destruct (Py.items_of s v) as [items|] eqn:Hi; try discriminate.
  rewrite (items_of_mono _ _ _ _ E Hi). apply read_strideds_mono, E.
Qed.

(** The entries that [t.view(-1)] sees are those of [t], in the order of
    their indices. *)
Lemma seen_view_flat (h : Py.handle) (d : list R) :
  mergeable_dims (Py.hshape h) (Py.strides_of h) = true ->
  Py.seen (Py.mkHandle (Py.storage h) (Py.slices h) [numel (Py.hshape h)]
             match Py.hlayout h with
             | Py.Dense => Py.Dense
             | Py.Strides offset _ =>
                 Py.Strides offset [Py.merged_step (Py.hshape h) (Py.strides_of h)]
             end) d
  = Py.seen h d.
Proof.
  intros Hm. unfold Py.seen, Py.strides_of in *.
  cbn [Py.hlayout Py.slices Py.hshape].
  destruct (Py.hlayout h) as [|offset steps]; [reflexivity|]. f_equal.
  set (padded := steps ++ repeat 0%nat (length (Py.hshape h) - length steps)) in *.
  rewrite <- (positions_pad offset (Py.hshape h) steps
                (length (Py.hshape h) - length steps)).
  fold padded. cbn [Py.positions hd tl]. rewrite flat_map_singleton.
  unfold mergeable_dims in Hm. apply orb_prop in Hm. destruct Hm as [Hz|Hm].
  - apply Nat.eqb_eq in Hz. rewrite Hz. cbn [seq map].
    symmetry. apply length_zero_iff_nil. now rewrite positions_length.
  - symmetry. apply positions_merge; [|exact Hm].
    subst padded. rewrite length_app, repeat_length. lia.
Qed.

Lemma view_flat_run (s : store) (v : Py.value) (x : Strided) :
  read_strided s v = Some x ->
  if viewable x
  then exists v', Py.view_flat v s = (Ok v', s)
                  /\ read_tensor s v' = Some (flatten (tensor x))
  else Py.view_flat v s = (Raise RuntimeError, s).
Proof.
  destruct v; try discriminate. cbn [Py.read_strided Py.view_flat].
  unfold Py.read_handle.
  destruct (nth_error (Py.heap s) (Py.storage h)) as [[|d]|] eqn:Hl; try discriminate.
  cbn [option_map]. intros [= <-]. unfold viewable. cbn [tensor strides shape].
  destruct (mergeable_dims (Py.hshape h) (Py.strides_of h)) eqn:Hm; [|reflexivity].
  eexists. split; [reflexivity|].
  cbn [Py.read_tensor]. unfold Py.read_handle. cbn [Py.storage]. rewrite Hl.
  cbn [Py.hshape]. now rewrite (seen_view_flat h d Hm).
Qed.

Lemma map_in_view_flat_run (s : store) (items : list Py.value) (xs : list Strided) :
  read_strideds s items = Some xs ->
  match mapM view_flat xs with
  | Ok ts => exists views, Py.map_in Py.view_flat items s = (Ok views, s)
                           /\ read_tensors s views = Some ts
  | Raise e => Py.map_in Py.view_flat items s = (Raise e, s)
  end.
Proof.
  revert xs. induction items as [|v items IH]; intros xs;
    cbn [Py.read_strideds Py.map_in].
  - intros [= <-]. now exists [].
  - destruct (Py.read_strided s v) as [x|] eqn:Hx; try discriminate.
    destruct (Py.read_strideds s items) as [xs'|]; try discriminate.
    intros [= <-]. specialize (IH xs' eq_refl).
    pose proof (view_flat_run s v x Hx) as Hv.
    cbn [mapM]. unfold view_flat at 1. unfold Py.mbind.
    destruct (viewable x); cbn [bind].
    + destruct Hv as (v' & -> & Hv').
      destruct (mapM view_flat xs') as [ts|e]; cbn [bind].
      * destruct IH as (views & -> & Hviews). eexists. split; [reflexivity|].
        cbn [Py.read_tensors]. now rewrite Hv', Hviews.
      * now rewrite IH.
    + now rewrite Hv.
Qed.

Lemma read_new_list (s : store) (items : list Py.value) (ts : list Tensor) :
  read_tensors s items = Some ts ->
  read_list (Py.set_heap (Py.heap s ++ [Py.OList items]) s)
    (Py.VList (length (Py.heap s))) = Some ts.
Proof.
  intros Hv. unfold Py.read_list. cbn [Py.items_of Py.set_heap Py.heap].
  rewrite nth_error_app2, Nat.sub_diag; [|lia]. cbn [nth_error].
  eapply read_tensors_mono; [apply extends_alloc|exact Hv].
Qed.

Lemma computes_flat_views (s0 : store) (v : Py.value) (xs : list Strided) :
  read_views s0 v = Some xs ->
  computes Py.read_list s0 (Py.flat_views v) (mapM view_flat xs).
Proof.
  intros Hv s Es. apply (read_views_mono _ _ _ _ Es) in Hv. unfold Py.read_views in Hv.
  destruct (Py.items_of s v) as [items|] eqn:Hi; try discriminate.
  pose proof (map_in_view_flat_run s items xs Hv) as Hr.
  unfold Py.flat_views, Py.mbind. rewrite (iter_items_run s v items Hi).
  destruct (mapM view_flat xs) as [ts|e].
  - destruct Hr as (views & -> & Hviews).
    unfold Py.new_list, Py.mbind, Py.alloc, Py.ret.
    cbn [fst snd]. split; [apply extends_alloc|]. eexists. split; [reflexivity|].
    now apply read_new_list.
  - rewrite Hr. split; [apply extends_refl|reflexivity].
Qed.

Lemma computes_torch_cat (s0 : store) (mv : M Py.value) (r : result (list Tensor)) :
  computes Py.read_list s0 mv r ->
  computes Py.read_tensor s0 (Py.torch_cat mv) (x <- r ;; cat x).
Proof.
  intros Hm. unfold Py.torch_cat. eapply computes_bind; [exact Hm|].
  intros s1 v ts E1 Hv.
  assert (Hi : exists items, forall s, extends s1 s ->
                 items_of s v = Some items /\ read_tensors s items = Some ts).
  { unfold Py.read_list in Hv. destruct (Py.items_of s1 v) as [items|] eqn:Hi;
      try discriminate.
    exists items. intros s Es. split; [eapply items_of_mono; eauto|].
    eapply read_tensors_mono; eauto. }
  destruct Hi as (items & Hi).
  eapply computes_run; [intros s Es; apply list_items_run, Hi, Es|].
  eapply computes_run; [intros s Es; apply map_in_load_run, Hi, Es|].
  apply computes_result.
Qed.

Lemma computes_cat_flat (s0 : store) (v : Py.value) (xs : list Strided) :
  read_views s0 v = Some xs ->
  computes Py.read_tensor s0 (Py.torch_cat (Py.flat_views v))
    (views <- mapM view_flat xs ;; cat views).
Proof.
  intros Hv. apply (computes_torch_cat s0 _ (mapM view_flat xs)).
  now apply computes_flat_views.
Qed.

End Refinement.

(** *** Expressions *)

Ltac transport E :=
  lazymatch type of E with
  | Py.extends ?s ?s' =>
      repeat match goal with
        | Hx : Py.read_tensor s _ = Some _ |- _ =>
            apply (read_tensor_mono _ _ _ _ E) in Hx
        | Hx : Py.read_list s _ = Some _ |- _ =>
            apply (read_list_mono _ _ _ _ E) in Hx
        | Hx : Py.read_views s _ = Some _ |- _ =>
            apply (read_views_mono _ _ _ _ E) in Hx
        | Hx : Py.read_mixture s _ = Some _ |- _ =>
            apply (read_mixture_mono _ _ _ _ E) in Hx
        end
  end.

Create HintDb computes.

Ltac refine_expr :=
  lazymatch goal with
  | |- Py.computes _ _ (Py.mbind _ _) _ =>
      eapply computes_bind;
      [ refine_expr
      | let E := fresh "E" in intros ? ? ? E ?; transport E; refine_expr ]
  | |- Py.computes _ _ (Py.torch1 _ _) _ => eapply computes_torch1; refine_expr
  | |- Py.computes _ _ (Py.torch1r _ _) _ => eapply computes_torch1r; refine_expr
  | |- Py.computes _ _ (Py.torch2 _ _ _) _ => eapply computes_torch2; refine_expr
  | |- Py.computes _ _ (Py.ret _) _ => eapply computes_ret; eassumption
  | |- Py.computes _ _ (Py.torch_cat (Py.flat_views _)) _ =>
      eapply computes_cat_flat; eassumption
  | |- Py.computes _ _ (Py.getitem _ _) _ =>
      first [ eapply computes_getitem_list; eassumption
            | eapply computes_getitem_tensor; eassumption ]
  | |- _ => solve [ eauto with computes ]
  end.

Ltac stuck m :=
  lazymatch m with
  | bind _ _ => fail
  | Ok _ => fail
  | Raise _ => fail
  | _ => idtac
  end.

Ltac result_eq :=
  cbv beta zeta delta [fmap lift2]; cbn [bind];
  first
    [ reflexivity
    | match goal with
      | |- context [bind ?m _] => stuck m; destruct m; result_eq
      end ].

(** ** What the functions compute *)

Section Programs.
Context {G : Type} `{Generator G}.
Notation "x <<- m ;; k" := (Py.mbind m (fun x => k))
  (at level 61, m at next level, right associativity).
Abbreviation store := (@Py.store G).
Abbreviation M := (@Py.M G).
Abbreviation extends := (@Py.extends G).
Abbreviation computes := (@Py.computes G).
Abbreviation hoare := (@Py.hoare G).
Abbreviation stable := (@Py.stable G).
Abbreviation read_handle := (@Py.read_handle G).
Abbreviation read_tensor := (@Py.read_tensor G).
Abbreviation read_tensors := (@Py.read_tensors G).
Abbreviation items_of := (@Py.items_of G).
Abbreviation read_list := (@Py.read_list G).
Abbreviation read_strided := (@Py.read_strided G).
Abbreviation read_strideds := (@Py.read_strideds G).
Abbreviation read_views := (@Py.read_views G).
Abbreviation read_mixture := (@Py.read_mixture G).
Abbreviation read_pynum := (@Py.read_pynum G).
Abbreviation read_ints := (@Py.read_ints G).
Abbreviation read_lists := (@Py.read_lists G).
Abbreviation holds := (@Py.holds G).
Abbreviation local_list := (@Py.local_list G).
Abbreviation list_holds := (@Py.list_holds G).
Abbreviation read_pair := (@Py.read_pair G).
Abbreviation decode_lists := (@Py.decode_lists G).

Lemma computes_kl_diag_gaussians (s0 : store)
    (mean_a logvar_a mean_b logvar_b : Py.value) (ma la mb lb : list Strided) :
  read_views s0 mean_a = Some ma -> read_views s0 logvar_a = Some la ->
  read_views s0 mean_b = Some mb -> read_views s0 logvar_b = Some lb ->
  computes Py.read_tensor s0 (Py.kl_diag_gaussians mean_a logvar_a mean_b logvar_b)
    (kl_diag_gaussians ma la mb lb).
Proof.
  intros Hma Hla Hmb Hlb. unfold Py.kl_diag_gaussians.
  eapply computes_eq; [refine_expr|]. unfold kl_diag_gaussians. result_eq.
Qed.

Lemma computes_kl_diag_gauss_with_standard_gauss (s0 : store)
    (mean logvar : Py.value) (m l : list Strided) :
  read_views s0 mean = Some m -> read_views s0 logvar = Some l ->
  computes Py.read_tensor s0 (Py.kl_diag_gauss_with_standard_gauss mean logvar)
    (kl_diag_gauss_with_standard_gauss m l).
Proof.
  intros Hm Hl. unfold Py.kl_diag_gauss_with_standard_gauss.
  eapply computes_eq; [refine_expr|].
  unfold kl_diag_gauss_with_standard_gauss. result_eq.
Qed.

Lemma computes_square_wasserstein_2 (s0 : store)
    (mean_a logvar_a mean_b logvar_b : Py.value) (ma la mb lb : list Strided) :
  read_views s0 mean_a = Some ma -> read_views s0 logvar_a = Some la ->
  read_views s0 mean_b = Some mb -> read_views s0 logvar_b = Some lb ->
  computes Py.read_tensor s0
    (Py.square_wasserstein_2 mean_a logvar_a mean_b logvar_b)
    (square_wasserstein_2 ma la mb lb).
Proof.
  intros Hma Hla Hmb Hlb. unfold Py.square_wasserstein_2.
  eapply computes_eq; [refine_expr|]. unfold square_wasserstein_2. result_eq.
Qed.

Lemma computes_compute_kl (s0 : store)
    (mean exp_var prior_mean prior_exp_var : Py.value) (m ev pm pev : Tensor)
    (sum : bool) (lamb initial_prior_var : R) :
  read_tensor s0 mean = Some m -> read_tensor s0 exp_var = Some ev ->
  read_tensor s0 prior_mean = Some pm -> read_tensor s0 prior_exp_var = Some pev ->
  computes Py.read_tensor s0
    (Py.compute_kl mean exp_var prior_mean prior_exp_var sum lamb initial_prior_var)
    (compute_kl m ev pm pev sum lamb initial_prior_var).
Proof.
  intros Hm Hev Hpm Hpev. unfold Py.compute_kl, compute_kl.
  destruct sum, (Rneqb lamb 1); (eapply computes_eq; [refine_expr|result_eq]).
Qed.

Lemma computes_kl_gauss (s0 : store) (mean_a logvar_a mean_b logvar_b : Py.value)
    (ma la mb lb : Tensor) :
  read_tensor s0 mean_a = Some ma -> read_tensor s0 logvar_a = Some la ->
  read_tensor s0 mean_b = Some mb -> read_tensor s0 logvar_b = Some lb ->
  computes Py.read_tensor s0 (Py.kl_gauss mean_a logvar_a mean_b logvar_b)
    (kl_gauss ma la mb lb).
Proof.
  intros Hma Hla Hmb Hlb. unfold Py.kl_gauss.
  eapply computes_eq; [refine_expr|]. unfold kl_gauss. result_eq.
Qed.

(** *** Statements that update objects of their own *)

Lemma hoare_eq {A B : Type} (sb : store) (P : store -> Prop) (m : M A)
    (r r' : result B) (Q : store -> A -> B -> Prop) :
  hoare sb P m r' Q -> r' = r -> hoare sb P m r Q.
Proof. now intros Hm <-. Qed.

Lemma hoare_conseq {A B : Type} (sb : store) (P P' : store -> Prop) (m : M A)
    (r : result B) (Q Q' : store -> A -> B -> Prop) :
  (forall s, extends sb s -> P s -> P' s) ->
  hoare sb P' m r Q' ->
  (forall s a x, extends sb s -> Q' s a x -> Q s a x) ->
  hoare sb P m r Q.
Proof.
  intros HP Hm HQ s E Hs. destruct (Hm s E (HP s E Hs)) as [E' Hr].
  split; [exact E'|]. destruct r as [x|e]; [|exact Hr].
  destruct Hr as (a & Ha & Hq). exists a. split; [exact Ha|]. now apply HQ.
Qed.

Lemma hoare_bind {A B A' B' : Type} (sb : store) (P : store -> Prop) (m : M A)
    (k : A -> M A') (r : result B) (kr : B -> result B')
    (Q : store -> A -> B -> Prop) (Q' : store -> A' -> B' -> Prop) :
  hoare sb P m r Q ->
  (forall a x, hoare sb (fun s => Q s a x) (k a) (kr x) Q') ->
  hoare sb P (x <<- m ;; k x) (x <- r ;; kr x) Q'.
Proof.
  intros Hm Hk s E Hs. destruct (Hm s E Hs) as [E1 Hr]. unfold Py.mbind.
  destruct r as [x|e]; cbn [bind].
  - destruct Hr as (a & Ha & Hq). destruct (m s) as [ra s1]; cbn [fst snd] in *.
    subst ra. exact (Hk a x s1 E1 Hq).
  - destruct (m s) as [ra s1]; cbn [fst snd] in *. subst ra. split; auto.
Qed.

(** A step that returns [a] and leaves the store as it is. *)
Lemma hoare_run {A A' B : Type} (sb : store) (P : store -> Prop) (m : M A) (a : A)
    (k : A -> M A') (r : result B) (Q : store -> A' -> B -> Prop) :
  (forall s, extends sb s -> P s -> m s = (Ok a, s)) ->
  hoare sb P (k a) r Q ->
  hoare sb P (x <<- m ;; k x) r Q.
Proof.
  intros Hm Hk s E Hs. unfold Py.mbind. rewrite (Hm s E Hs). exact (Hk s E Hs).
Qed.

Lemma hoare_ret {A B : Type} (sb : store) (P : store -> Prop) (a : A) (x : B)
    (Q : store -> A -> B -> Prop) :
  (forall s, extends sb s -> P s -> Q s a x) -> hoare sb P (Py.ret a) (Ok x) Q.
Proof. intros HQ s E Hs. split; [exact E|]. exists a. split; [reflexivity|]. now apply HQ. Qed.

(** An expression keeps every object, hence whatever is stable. *)
Lemma hoare_computes {A B : Type} (D : store -> A -> option B) (sb : store)
    (P : store -> Prop) (m : M A) (r : result B) :
  (forall s, extends sb s -> P s -> computes D s m r) ->
  stable P ->
  hoare sb P m r (fun s a x => D s a = Some x /\ P s).
Proof.
  intros Hm HP s E Hs. destruct (Hm s E Hs s (extends_refl s)) as [E1 Hr].
  split; [eapply extends_trans; eauto|].
  destruct r as [x|e]; [|exact Hr].
  destruct Hr as (a & Ha & Hd). exists a. split; [exact Ha|]. split; [exact Hd|].
  eapply HP; eauto.
Qed.

Lemma hoare_for_in {A St PSt : Type} (sb : store) (Inv : store -> St -> PSt -> Prop)
    (l : list A) (body : A -> St -> M St) (pbody : A -> PSt -> result PSt)
    (acc : St) (pacc : PSt) :
  (forall x a pa, hoare sb (fun s => Inv s a pa) (body x a) (pbody x pa) Inv) ->
  hoare sb (fun s => Inv s acc pacc) (Py.for_in l body acc) (for_each l pbody pacc) Inv.
Proof.
  intros Hb. revert acc pacc. induction l as [|x l IH]; intros acc pacc;
    cbn [Py.for_in for_each].
  - apply hoare_ret. auto.
  - eapply hoare_bind; [apply Hb|]. intros a pa. apply IH.
Qed.

Lemma nth_error_replace_nth_same {A : Type} (i : nat) (x : A) (l : list A) :
  (i < length l)%nat -> nth_error (Py.replace_nth i x l) i = Some x.
Proof.
  revert i. induction l as [|y l IH]; intros [|i] Hi; simpl in *; try lia; auto.
  apply IH. lia.
Qed.

(** Replacing an object made after [sb] keeps the objects of [sb]. *)
Lemma extends_update (sb s : store) (l : Py.addr) (o : Py.object) :
  extends sb s -> (length (Py.heap sb) <= l)%nat ->
  extends sb (Py.set_heap (Py.replace_nth l o (Py.heap s)) s).
Proof.
  intros E Hl a o' Ha. cbn [Py.set_heap Py.heap].
  rewrite nth_error_replace_nth_other; [now apply E|].
  assert (a < length (Py.heap sb))%nat by (apply nth_error_Some; congruence). lia.
Qed.

Lemma holds_stable (b : nat) (kl : Py.value) (acc : pynum) :
  stable (fun s => holds b s kl acc).
Proof.
  intros s s' E. unfold Py.holds. destruct acc as [x|t]; [auto|].
  intros (h & -> & Hb & Hs & Hly & Hsh & Hl). exists h. repeat split; auto.
Qed.

Lemma shape_eqb_eq (s1 s2 : list nat) : shape_eqb s1 s2 = true -> s1 = s2.
Proof. unfold shape_eqb. now destruct (list_eq_dec Nat.eq_dec s1 s2). Qed.

Lemma tbin_inplace_shape (f : R -> R -> R) (a t r : Tensor) :
  tbin_inplace f a t = Ok r -> shape r = shape a.
Proof.
  unfold tbin_inplace. destruct (broadcast_shapes (shape a) (shape t)) as [s|];
    [|discriminate].
  destruct (shape_eqb s (shape a)) eqn:E; [|discriminate].
  intros [= <-]. cbn [shape]. now apply shape_eqb_eq.
Qed.

Lemma torch1_ret_run (s : store) (f : Tensor -> Tensor) (x : Py.value) (tx : Tensor) :
  read_tensor s x = Some tx ->
  Py.torch1 f (Py.ret x) s
  = (Ok (Py.VTensor (Py.mkHandle (length (Py.heap s)) [] (shape (f tx)) Py.Dense)),
     Py.set_heap (Py.heap s ++ [Py.OStorage (data (f tx))]) s).
Proof.
  intros Hx. unfold Py.torch1, Py.mbind, Py.ret. now rewrite (load_run s x tx Hx).
Qed.

Lemma holds_new_tensor (sb s : store) (t : Tensor) :
  extends sb s ->
  holds (length (Py.heap sb)) (Py.set_heap (Py.heap s ++ [Py.OStorage (data t)]) s)
    (Py.VTensor (Py.mkHandle (length (Py.heap s)) [] (shape t) Py.Dense)) (PyTensor t).
Proof.
  intros E. eexists. split; [reflexivity|].
  cbn [Py.storage Py.slices Py.hshape Py.hlayout Py.set_heap Py.heap].
  repeat split; [now apply extends_length|].
  rewrite nth_error_app2, Nat.sub_diag; [reflexivity|lia].
Qed.

(** [kl += x]: the first time the sum is a new tensor, afterwards it is
    written into the accumulator. *)
Lemma hoare_iadd (sb : store) (kl x : Py.value) (acc : pynum) (tx : Tensor) :
  hoare sb
    (fun s => read_tensor s x = Some tx /\ holds (length (Py.heap sb)) s kl acc)
    (Py.iadd kl x) (iadd acc tx)
    (fun s kl' acc' => holds (length (Py.heap sb)) s kl' acc').
Proof.
  intros s E [Hx Hh].
  destruct acc as [x0|t]; cbn [Py.holds] in Hh.
  - destruct Hh as [-> | (z & -> & ->)]; cbn [Py.iadd iadd];
      rewrite (torch1_ret_run s _ x tx Hx); cbn [fst snd];
      (split; [eapply extends_trans; [exact E|apply extends_alloc]|]);
      eexists; (split; [reflexivity|]); now apply holds_new_tensor.
  - destruct Hh as (h & -> & Hb & Hs & Hly & Hsh & Hl).
    assert (Ha : Py.load (Py.VTensor h) s = (Ok t, s)).
    { apply load_run. cbn [Py.read_tensor]. unfold Py.read_handle, Py.seen.
      rewrite Hl, Hly, Hs, Hsh. cbn [Py.window fold_left]. now rewrite tensor_eta. }
    cbn [Py.iadd iadd]. unfold Py.mbind. rewrite Ha, (load_run s x tx Hx).
    unfold Py.lift_result.
    destruct (tbin_inplace Rplus t tx) as [r|e] eqn:Er; cbn [fmap bind];
      [|split; [exact E|reflexivity]].
    unfold Py.store_tensor, Py.mbind, Py.lookup. rewrite Hl.
    unfold Py.update, Py.ret. cbn [fst snd]. rewrite Hs, Hly. cbn [Py.write_slices].
    split; [now apply extends_update|].
    eexists. split; [reflexivity|]. exists h.
    repeat split; auto.
    + rewrite Hsh. symmetry. eapply tbin_inplace_shape; eauto.
    + cbn [Py.set_heap Py.heap]. apply nth_error_replace_nth_same.
      apply nth_error_Some. congruence.
Qed.

Lemma read_pynum_holds (b : nat) (s : store) (kl : Py.value) (acc : pynum) :
  holds b s kl acc -> read_pynum s kl = Some acc.
Proof.
  unfold Py.holds. destruct acc as [x|t].
  - intros [-> | (z & -> & ->)]; reflexivity.
  - intros (h & -> & _ & Hs & Hly & Hsh & Hl). cbn [Py.read_pynum]. unfold Py.read_handle, Py.seen.
    rewrite Hl, Hly, Hs, Hsh. cbn [Py.window fold_left option_map]. now rewrite tensor_eta.
Qed.

(** The components of a mixture, as indexing reaches them. *)
Lemma read_mixture_inv (s : store) (v : Py.value) (mx : mixture) :
  read_mixture s v = Some mx ->
  exists m lv c,
    (forall s', extends s s' ->
       Py.getitem v 0 s' = (Ok m, s') /\ Py.getitem v 1 s' = (Ok lv, s')
       /\ Py.getitem v 2 s' = (Ok c, s'))
    /\ read_list s m = Some (component_means mx)
    /\ read_list s lv = Some (component_logvars mx)
    /\ read_tensor s c = Some (coefficient_logits mx).
Proof.
  unfold Py.read_mixture.
  destruct (Py.items_of s v) as [items|] eqn:Hi; [|discriminate].
  destruct items as [|m [|lv [|c rest]]]; try discriminate.
  destruct (Py.read_list s m) as [ms|] eqn:Hm; [|discriminate].
  destruct (Py.read_list s lv) as [lvs|] eqn:Hlv; [|discriminate].
  destruct (Py.read_tensor s c) as [ct|] eqn:Hc; [|discriminate].
  intros [= <-]. exists m, lv, c. cbn [component_means component_logvars
    coefficient_logits]. split; [|auto].
  intros s' Es. pose proof (items_of_mono _ _ _ _ Es Hi) as Hi'.
  rewrite !(getitem_run s' v _ _ Hi'). auto.
Qed.

(** *** Loops that add to an accumulator *)

#[local] Hint Extern 1 (Py.computes _ _ (Py.compute_kl _ _ _ _ _ _ _) _) =>
  eapply computes_compute_kl; eassumption : computes.
#[local] Hint Extern 1 (Py.computes _ _ (Py.kl_gauss _ _ _ _) _) =>
  eapply computes_kl_gauss; eassumption : computes.

(** The body of the loops of [kl_mixture_gauss] and
    [upperbound_kl_mixture_gauss]: two sums are added to the accumulator,
    one after the other. *)
Lemma hoare_add_twice (sb : store) (kl : Py.value) (acc : pynum)
    (m1 m2 : M Py.value) (r1 r2 : result Tensor) :
  computes Py.read_tensor sb m1 r1 -> computes Py.read_tensor sb m2 r2 ->
  hoare sb (fun s => holds (length (Py.heap sb)) s kl acc)
    (t1 <<- Py.torch1 tsum m1 ;;
     kl <<- Py.iadd kl t1 ;;
     t2 <<- Py.torch1 tsum m2 ;;
     Py.iadd kl t2)
    (kl <- (x <- r1 ;; iadd acc (tsum x)) ;;
     x <- r2 ;; iadd kl (tsum x))
    (fun s kl' acc' => holds (length (Py.heap sb)) s kl' acc').
Proof.
  intros H1 H2.
  apply hoare_eq with
    (r' := t1 <- fmap tsum r1 ;; kl <- iadd acc t1 ;;
           t2 <- fmap tsum r2 ;; iadd kl t2).
  2: { destruct r1 as [x1|e1]; cbn [fmap bind]; [|reflexivity].
       destruct (iadd acc (tsum x1)) as [k1|e]; cbn [bind]; [|reflexivity].
       now destruct r2. }
  eapply hoare_bind.
  { apply (hoare_computes Py.read_tensor sb
             (fun s => holds (length (Py.heap sb)) s kl acc)).
    - intros s E _. eapply computes_base; [exact E|]. now apply computes_torch1.
    - apply holds_stable. }
  intros t1 x1. eapply hoare_bind; [apply hoare_iadd|].
  intros kl1 acc1. eapply hoare_bind.
  { apply (hoare_computes Py.read_tensor sb
             (fun s => holds (length (Py.heap sb)) s kl1 acc1)).
    - intros s E _. eapply computes_base; [exact E|]. now apply computes_torch1.
    - apply holds_stable. }
  intros t2 x2. apply hoare_iadd.
Qed.

(** A loop over an accumulator that starts as a number. *)
Lemma computes_accumulate {A : Type} (s0 : store) (l : list A)
    (body : A -> Py.value -> M Py.value) (pbody : A -> pynum -> result pynum)
    (kl : Py.value) (x : R) :
  (forall b s, holds b s kl (PyNum x)) ->
  (forall sb, extends s0 sb -> forall i a pa,
      hoare sb (fun s => holds (length (Py.heap sb)) s a pa) (body i a) (pbody i pa)
        (fun s a' pa' => holds (length (Py.heap sb)) s a' pa')) ->
  computes Py.read_pynum s0 (Py.for_in l body kl) (for_each l pbody (PyNum x)).
Proof.
  intros Hk Hb s Es.
  destruct (hoare_for_in s (fun s' a pa => holds (length (Py.heap s)) s' a pa)
              l body pbody kl (PyNum x) (Hb s Es) s (extends_refl s) (Hk _ _))
    as [E Hr].
  split; [exact E|].
  destruct (for_each l pbody (PyNum x)) as [r|e]; [|exact Hr].
  destruct Hr as (a & Ha & Hh). exists a. split; [exact Ha|].
  eapply read_pynum_holds; eauto.
Qed.

Lemma computes_kl_mixture_gauss (s0 : store) (distribution_a distribution_b : Py.value)
    (a b : mixture) (gauss_mixture : Z) (lamb : R) :
  read_mixture s0 distribution_a = Some a ->
  read_mixture s0 distribution_b = Some b ->
  computes Py.read_pynum s0
    (Py.kl_mixture_gauss distribution_a distribution_b gauss_mixture lamb)
    (kl_mixture_gauss a b gauss_mixture lamb).
Proof.
  intros Ha Hb.
  destruct (read_mixture_inv _ _ _ Ha) as (ma & va & ca & Ra & Hma & Hva & Hca).
  destruct (read_mixture_inv _ _ _ Hb) as (mb & vb & cb & Rb & Hmb & Hvb & Hcb).
  unfold Py.kl_mixture_gauss, kl_mixture_gauss.
  apply computes_run with (a := ma); [intros s E; apply (Ra s E)|].
  apply computes_run with (a := mb); [intros s E; apply (Rb s E)|].
  apply computes_run with (a := va); [intros s E; apply (Ra s E)|].
  apply computes_run with (a := vb); [intros s E; apply (Rb s E)|].
  apply computes_run with (a := ca); [intros s E; apply (Ra s E)|].
  apply computes_run with (a := cb); [intros s E; apply (Rb s E)|].
  apply computes_accumulate.
  - intros b0 s. right. now exists 0%Z.
  - intros sb E i kl acc. transport E. apply hoare_add_twice.
    + eapply computes_eq; [refine_expr|result_eq].
    + eapply computes_eq; [refine_expr|result_eq].
Qed.

(** *** Lists that a call makes and appends to *)

Lemma fold_left_append {A B : Type} (f : A -> B) (l : list A) (acc : list B) :
  fold_left (fun result i => result ++ [f i]) l acc = acc ++ map f l.
Proof.
  revert acc. induction l as [|x l IH]; intros acc; cbn [fold_left map].
  - now rewrite app_nil_r.
  - rewrite IH, <- app_assoc. reflexivity.
Qed.

Lemma append_run (s : store) (l : Py.addr) (vs : list Py.value) (x : Py.value) :
  nth_error (Py.heap s) l = Some (Py.OList vs) ->
  Py.append (Py.VList l) x s
  = (Ok tt, Py.set_heap (Py.replace_nth l (Py.OList (vs ++ [x])) (Py.heap s)) s).
Proof.
  intros Hl. cbn [Py.append Py.list_items]. unfold Py.mbind, Py.lookup.
  now rewrite Hl.
Qed.

(** The loop of [compute_coef]: every step appends an integer to the list
    at [l] and changes no other object. *)
Lemma append_ints_run (l : Py.addr) (f : Z -> Z) (zs : list Z) (s : store)
    (vs : list Py.value) :
  nth_error (Py.heap s) l = Some (Py.OList vs) ->
  exists s',
    Py.for_in zs (fun i _ => Py.append (Py.VList l) (Py.VInt (f i))) tt s = (Ok tt, s')
    /\ nth_error (Py.heap s') l
       = Some (Py.OList (vs ++ map (fun i => Py.VInt (f i)) zs))
    /\ length (Py.heap s') = length (Py.heap s)
    /\ (forall a, a <> l -> nth_error (Py.heap s') a = nth_error (Py.heap s) a).
Proof.
  revert s vs. induction zs as [|z zs IH]; intros s vs Hl; cbn [Py.for_in map].
  - exists s. rewrite app_nil_r. auto.
  - unfold Py.mbind at 1. rewrite (append_run s l vs _ Hl).
    assert (Hlt : (l < length (Py.heap s))%nat) by (apply nth_error_Some; congruence).
    destruct (IH (Py.set_heap (Py.replace_nth l (Py.OList (vs ++ [Py.VInt (f z)]))
                                 (Py.heap s)) s) (vs ++ [Py.VInt (f z)]))
      as (s' & Hr & Hl' & Hlen & Hother).
    { cbn [Py.set_heap Py.heap]. now apply nth_error_replace_nth_same. }
    exists s'. split; [exact Hr|]. rewrite <- app_assoc in Hl'.
    split; [exact Hl'|]. cbn [Py.set_heap Py.heap] in Hlen, Hother. split.
    + now rewrite Hlen, length_replace_nth.
    + intros a Ha. rewrite (Hother a Ha).
      apply nth_error_replace_nth_other. congruence.
Qed.

Lemma read_ints_new_list (s : store) (zs : list Z) :
  read_ints (Py.set_heap (Py.heap s ++ [Py.OList (map Py.VInt zs)]) s)
    (Py.VList (length (Py.heap s)))
  = Some zs.
Proof.
  cbn [Py.read_ints Py.set_heap Py.heap].
  rewrite nth_error_app2, Nat.sub_diag; [|lia]. cbn [nth_error].
  induction zs as [|z zs IH]; cbn [map fold_right]; [reflexivity|now rewrite IH].
Qed.

(** [compute_coef] returns a new list of integers in every store: the list
    it appends to is the object after those of the store, the reversed
    list that it returns is the next one. *)
Lemma compute_coef_run (s : store) (num_component : Z) :
  exists s',
    Py.compute_coef num_component s = (Ok (Py.VList (S (length (Py.heap s)))), s')
    /\ extends s s'
    /\ read_ints s' (Py.VList (S (length (Py.heap s))))
       = Some (compute_coef num_component).
Proof.
  set (l := length (Py.heap s)).
  set (s1 := Py.set_heap (Py.heap s ++ [Py.OList []]) s).
  assert (H1 : nth_error (Py.heap s1) l = Some (Py.OList [])).
  { subst s1 l. cbn [Py.set_heap Py.heap].
    rewrite nth_error_app2, Nat.sub_diag; [reflexivity|lia]. }
  set (s2 := Py.set_heap (Py.replace_nth l (Py.OList [Py.VInt 1]) (Py.heap s1)) s1).
  assert (H2 : nth_error (Py.heap s2) l = Some (Py.OList [Py.VInt 1])).
  { subst s2. cbn [Py.set_heap Py.heap]. apply nth_error_replace_nth_same.
    apply nth_error_Some. congruence. }
  assert (Hl2 : length (Py.heap s2) = S l).
  { subst s2 s1. cbn [Py.set_heap Py.heap].
    rewrite length_replace_nth, length_app. fold l. simpl. lia. }
  destruct (append_ints_run l (fun i => ((i + 1) * 1000)%Z)
              (zrange (num_component - 1)) s2 _ H2)
    as (s3 & Hr & H3 & Hlen & Hother).
  set (ints := [1%Z] ++ map (fun i => ((i + 1) * 1000)%Z) (zrange (num_component - 1))).
  assert (H3' : nth_error (Py.heap s3) l = Some (Py.OList (map Py.VInt ints))).
  { rewrite H3. subst ints. cbn [map app]. now rewrite map_map. }
  exists (Py.set_heap (Py.heap s3 ++ [Py.OList (map Py.VInt (rev ints))]) s3).
  split; [|split].
  - unfold Py.compute_coef.
    unfold Py.mbind at 1. unfold Py.new_list at 1, Py.mbind at 1, Py.alloc, Py.ret at 1.
    fold l. fold s1.
    unfold Py.mbind at 1. rewrite (append_run s1 l [] _ H1). cbn [app]. fold s2.
    unfold Py.mbind at 1. rewrite Hr.
    unfold Py.mbind at 1.
    rewrite (list_items_run s3 (Py.VList l) (map Py.VInt ints))
      by (cbn [Py.items_of]; now rewrite H3').
    rewrite map_rev. unfold Py.new_list, Py.mbind, Py.alloc, Py.ret.
    now rewrite Hlen, Hl2.
  - intros a o Ha. cbn [Py.set_heap Py.heap].
    assert (Hlt : (a < l)%nat) by (apply nth_error_Some; congruence).
    rewrite nth_error_app1 by lia.
    rewrite Hother by lia. subst s2 s1. cbn [Py.set_heap Py.heap].
    rewrite nth_error_replace_nth_other by lia.
    rewrite nth_error_app1 by exact Hlt. exact Ha.
  - unfold compute_coef. rewrite (fold_left_append (fun i => ((i + 1) * 1000)%Z)).
    fold ints. rewrite <- Hl2, <- Hlen. apply read_ints_new_list.
Qed.

Lemma computes_compute_coef (s0 : store) (num_component : Z) :
  computes Py.read_ints s0 (Py.compute_coef num_component)
    (Ok (compute_coef num_component)).
Proof.
  intros s _. destruct (compute_coef_run s num_component) as (s' & Hr & E & Hd).
  rewrite Hr. cbn [fst snd]. split; [exact E|]. eexists. split; [reflexivity|exact Hd].
Qed.

(** A step whose value the rest does not use. *)
Lemma computes_skip {A A' B B' : Type} (D : store -> A -> option B)
    (D' : store -> A' -> option B') (s0 : store) (m : M A) (k : A -> M A')
    (x : B) (r : result B') :
  computes D s0 m (Ok x) ->
  (forall s1 a, extends s0 s1 -> computes D' s1 (k a) r) ->
  computes D' s0 (x <<- m ;; k x) r.
Proof.
  intros Hm Hk.
  apply (computes_bind D D' s0 m k (Ok x) (fun _ => r) Hm).
  intros s1 a _ E _. now apply Hk.
Qed.

Lemma computes_value (s0 : store) (m : M Py.value) (v : Py.value) (t : Tensor) :
  (forall s, extends s0 s -> m s = (Ok v, s)) -> read_tensor s0 v = Some t ->
  computes Py.read_tensor s0 m (Ok t).
Proof.
  intros Hm Hv s E. rewrite (Hm s E). split; [apply extends_refl|].
  exists v. split; [reflexivity|]. eapply read_tensor_mono; eauto.
Qed.

Lemma computes_upperbound_kl_mixture_gauss (s0 : store)
    (mixture_gauss_a mixture_gauss_b : Py.value) (a b : mixture) :
  read_mixture s0 mixture_gauss_a = Some a ->
  read_mixture s0 mixture_gauss_b = Some b ->
  computes Py.read_pynum s0
    (Py.upperbound_kl_mixture_gauss mixture_gauss_a mixture_gauss_b)
    (upperbound_kl_mixture_gauss a b).
Proof.
  intros Ha Hb.
  destruct (read_mixture_inv _ _ _ Ha) as (ma & va & ca & Ra & Hma & Hva & Hca).
  destruct (read_mixture_inv _ _ _ Hb) as (mb & vb & cb & Rb & Hmb & Hvb & Hcb).
  assert (Hn : exists items, items_of s0 ma = Some items
                             /\ length items = length (component_means a)).
  { unfold Py.read_list in Hma. destruct (Py.items_of s0 ma) as [items|]; [|discriminate].
    exists items. split; [reflexivity|]. eapply read_tensors_length; eauto. }
  destruct Hn as (items & Hi & Hlen).
  unfold Py.upperbound_kl_mixture_gauss, upperbound_kl_mixture_gauss,
    upperbound_kl_mixture_gauss_with.
  apply computes_run with (a := ma); [intros s E; apply (Ra s E)|].
  apply computes_run with (a := length items);
    [intros s E; apply len_run; eapply items_of_mono; eauto|].
  rewrite Hlen.
  apply computes_run with (a := ma); [intros s E; apply (Ra s E)|].
  apply computes_run with (a := mb); [intros s E; apply (Rb s E)|].
  apply computes_run with (a := va); [intros s E; apply (Ra s E)|].
  apply computes_run with (a := vb); [intros s E; apply (Rb s E)|].
  eapply (computes_bind Py.read_tensor).
  { exact (computes_torch1r s0 (fun t => softmax t 0) _ (Ok (coefficient_logits a))
             (computes_value s0 _ ca _ (fun s E => proj2 (proj2 (Ra s E))) Hca)). }
  intros s1 la sa E1 Hla. transport E1.
  eapply (computes_bind Py.read_tensor).
  { exact (computes_torch1r s1 (fun t => softmax t 0) _ (Ok (coefficient_logits b))
             (computes_value s1 _ cb _
                (fun s E => proj2 (proj2 (Rb s (extends_trans _ _ _ E1 E)))) Hcb)). }
  intros s2 lb sb' E2 Hlb. transport E2.
  cbv zeta.
  eapply computes_skip; [apply computes_compute_coef|].
  intros s3 coef E3. transport E3.
  apply computes_accumulate.
  - intros b0 s. now left.
  - intros sb E i kl acc. transport E. apply hoare_add_twice.
    + eapply computes_eq; [refine_expr|result_eq].
    + eapply computes_eq; [refine_expr|result_eq].
Qed.

(** *** Lists of tensors that a call fills *)

Lemma read_tensors_app (s : store) (vs : list Py.value) (ts : list Tensor)
    (x : Py.value) (t : Tensor) :
  read_tensors s vs = Some ts -> read_tensor s x = Some t ->
  read_tensors s (vs ++ [x]) = Some (ts ++ [t]).
Proof.
  intros Hvs Hx. revert ts Hvs.
  induction vs as [|v vs IH]; intros ts; cbn [Py.read_tensors app].
  - intros [= <-]. now rewrite Hx.
  - destruct (Py.read_tensor s v) as [u|]; try discriminate.
    destruct (Py.read_tensors s vs) as [us|]; try discriminate.
    intros [= <-]. now rewrite (IH us eq_refl).
Qed.

Lemma read_tensors_pointwise (s s' : store) (vs : list Py.value) (ts : list Tensor) :
  (forall v t, read_tensor s v = Some t -> read_tensor s' v = Some t) ->
  read_tensors s vs = Some ts -> read_tensors s' vs = Some ts.
Proof.
  intros E. revert ts. induction vs as [|v vs IH]; intros ts; cbn [Py.read_tensors]; auto.
  destruct (Py.read_tensor s v) as [t|] eqn:Hv; try discriminate.
  destruct (Py.read_tensors s vs) as [ts'|]; try discriminate.
  rewrite (E _ _ Hv), (IH _ eq_refl). auto.
Qed.

(** Writing a list object changes no tensor. *)
Lemma read_tensor_update_list (s : store) (l : Py.addr) (vs vs' : list Py.value)
    (v : Py.value) (t : Tensor) :
  nth_error (Py.heap s) l = Some (Py.OList vs) ->
  read_tensor s v = Some t ->
  read_tensor (Py.set_heap (Py.replace_nth l (Py.OList vs') (Py.heap s)) s) v = Some t.
Proof.
  intros Hl. destruct v; try discriminate. cbn [Py.read_tensor]. unfold Py.read_handle.
  cbn [Py.set_heap Py.heap].
  destruct (nth_error (Py.heap s) (Py.storage h)) as [[|d]|] eqn:Hs; try discriminate.
  intros Ht. rewrite nth_error_replace_nth_other; [now rewrite Hs|congruence].
Qed.

Lemma list_holds_stable (b : nat) (v : Py.value) (ts : list Tensor) :
  stable (fun s => list_holds b s v ts).
Proof.
  intros s s' E (l & vs & -> & [Hb Hl] & Hr). exists l, vs.
  split; [reflexivity|]. split; [split; [exact Hb|now apply E]|].
  eapply read_tensors_mono; eauto.
Qed.

(** [v.append(x)] on a list that the call made: the list is one tensor
    longer, every other list of the call and every tensor is as it was. *)
Lemma append_holds (sb s : store) (v x : Py.value) (ts : list Tensor) (t : Tensor) :
  extends sb s -> list_holds (length (Py.heap sb)) s v ts ->
  read_tensor s x = Some t ->
  exists s',
    Py.append v x s = (Ok tt, s') /\ extends sb s'
    /\ list_holds (length (Py.heap sb)) s' v (ts ++ [t])
    /\ (forall v' ts', v' <> v -> list_holds (length (Py.heap sb)) s v' ts' ->
                       list_holds (length (Py.heap sb)) s' v' ts')
    /\ (forall y u, read_tensor s y = Some u -> read_tensor s' y = Some u).
Proof.
  intros E (l & vs & -> & [Hb Hl] & Hr) Hx.
  assert (Hkeep : forall y u, read_tensor s y = Some u ->
            read_tensor (Py.set_heap (Py.replace_nth l (Py.OList (vs ++ [x]))
                                        (Py.heap s)) s) y = Some u).
  { intros y u. now apply read_tensor_update_list with (vs := vs). }
  eexists. split; [exact (append_run s l vs x Hl)|].
  split; [now apply extends_update|]. split; [|split; [|exact Hkeep]].
  - exists l, (vs ++ [x]). split; [reflexivity|]. split.
    + split; [exact Hb|]. cbn [Py.set_heap Py.heap].
      apply nth_error_replace_nth_same. apply nth_error_Some. congruence.
    + apply read_tensors_app; [|now apply Hkeep].
      eapply read_tensors_pointwise; eauto.
  - intros v' ts' Hne (l' & vs' & -> & [Hb' Hl'] & Hr'). exists l', vs'.
    split; [reflexivity|]. split.
    + split; [exact Hb'|]. cbn [Py.set_heap Py.heap].
      rewrite nth_error_replace_nth_other; [exact Hl'|congruence].
    + eapply read_tensors_pointwise; eauto.
Qed.

(** [[]]: a new list, and the lists of the call are as they were. *)
Lemma new_list_holds (sb s : store) :
  extends sb s ->
  exists s',
    Py.new_list [] s = (Ok (Py.VList (length (Py.heap s))), s') /\ extends s s'
    /\ list_holds (length (Py.heap sb)) s' (Py.VList (length (Py.heap s))) []
    /\ length (Py.heap s') = S (length (Py.heap s)).
Proof.
  intros E. eexists. split; [reflexivity|]. split; [apply extends_alloc|].
  unfold Py.alloc, Py.ret. cbn [fst snd Py.set_heap Py.heap]. split.
  - exists (length (Py.heap s)), []. split; [reflexivity|]. split; [|reflexivity].
    split; [now apply extends_length|]. cbn [Py.set_heap Py.heap].
    rewrite nth_error_app2, Nat.sub_diag; [reflexivity|lia].
  - rewrite length_app. simpl. lia.
Qed.

Lemma list_holds_read (b : nat) (s : store) (v : Py.value) (ts : list Tensor) :
  list_holds b s v ts -> read_list s v = Some ts.
Proof.
  intros (l & vs & -> & [_ Hl] & Hr). unfold Py.read_list. cbn [Py.items_of].
  now rewrite Hl.
Qed.

Lemma computes_ret_pair (s0 : store) (a b : Py.value) (x y : Tensor) :
  read_tensor s0 a = Some x -> read_tensor s0 b = Some y ->
  computes Py.read_pair s0 (Py.ret (a, b)) (Ok (x, y)).
Proof.
  intros Ha Hb s E. split; [apply extends_refl|]. exists (a, b).
  split; [reflexivity|]. unfold Py.read_pair. cbn [fst snd Py.ret].
  now rewrite (read_tensor_mono _ _ _ _ E Ha), (read_tensor_mono _ _ _ _ E Hb).
Qed.

(** The standard deviation and the log-variance of entry [i]. *)
Lemma computes_decode_entry (s0 : store) (rho : Py.value) (ts : list Tensor)
    (logvar_enc : bool) (i : nat) :
  read_list s0 rho = Some ts ->
  computes Py.read_pair s0
    (if logvar_enc then
       std <<- Py.torch1 texp (Py.torch1 (rmul 0.5) (Py.getitem rho i)) ;;
       logvar <<- Py.getitem rho i ;;
       Py.ret (std, logvar)
     else
       std <<- Py.torch1 softplus (Py.getitem rho i) ;;
       logvar <<- Py.torch1 (rmul 2) (Py.torch1 tlog (Py.ret std)) ;;
       Py.ret (std, logvar))
    (if logvar_enc then
       std <- fmap texp (fmap (rmul 0.5) (getitem ts i)) ;;
       logvar <- getitem ts i ;;
       Ok (std, logvar)
     else
       std <- fmap softplus (getitem ts i) ;;
       logvar <- fmap (rmul 2) (fmap tlog (Ok std)) ;;
       Ok (std, logvar)).
Proof.
  intros Hr. destruct logvar_enc.
  - eapply (computes_bind Py.read_tensor); [refine_expr|].
    intros s1 std x E1 Hstd. transport E1.
    eapply (computes_bind Py.read_tensor); [refine_expr|].
    intros s2 lv y E2 Hlv. transport E2. now apply computes_ret_pair.
  - eapply (computes_bind Py.read_tensor); [refine_expr|].
    intros s1 std x E1 Hstd. transport E1.
    eapply (computes_bind Py.read_tensor); [refine_expr|].
    intros s2 lv y E2 Hlv. transport E2. now apply computes_ret_pair.
Qed.

(** A step that returns [a] and leaves a store in which [P'] holds. *)
Lemma hoare_then {A A' B : Type} (sb : store) (P P' : store -> Prop) (m : M A)
    (a : A) (k : A -> M A') (r : result B) (Q : store -> A' -> B -> Prop) :
  (forall s, extends sb s -> P s ->
     exists s', m s = (Ok a, s') /\ extends sb s' /\ P' s') ->
  hoare sb P' (k a) r Q ->
  hoare sb P (x <<- m ;; k x) r Q.
Proof.
  intros Hm Hk s E Hs. destruct (Hm s E Hs) as (s' & Hr & E' & Hp).
  unfold Py.mbind. rewrite Hr. exact (Hk s' E' Hp).
Qed.

Lemma computes_of_hoare {A B : Type} (D : store -> A -> option B) (s0 : store)
    (m : M A) (r : result B) :
  (forall sb, extends s0 sb ->
     hoare sb (fun s => s = sb) m r (fun s a x => D s a = Some x)) ->
  computes D s0 m r.
Proof. intros Hh s E. exact (Hh s E s (extends_refl s) eq_refl). Qed.

Lemma decode_lists_stable (b : nat) (l1 l2 l3 : Py.value)
    (st : list Tensor * list Tensor * list Tensor) :
  stable (fun s => decode_lists b l1 l2 l3 s tt st).
Proof.
  intros s s' E (H1 & H2 & H3).
  repeat split; eapply list_holds_stable; eauto.
Qed.

(** One iteration of the loop of [decode_diag_gauss]. *)
Lemma hoare_decode_body (sb : store) (rho ret_std ret_var ret_logvar : Py.value)
    (ts : list Tensor) (logvar_enc return_var : bool) (i : nat)
    (st : list Tensor * list Tensor * list Tensor) :
  read_list sb rho = Some ts ->
  ret_std <> ret_var -> ret_std <> ret_logvar -> ret_var <> ret_logvar ->
  hoare sb
    (fun s => decode_lists (length (Py.heap sb)) ret_std ret_var ret_logvar s tt st)
    (sl <<- (if logvar_enc then
               std <<- Py.torch1 texp (Py.torch1 (rmul 0.5) (Py.getitem rho i)) ;;
               logvar <<- Py.getitem rho i ;;
               Py.ret (std, logvar)
             else
               std <<- Py.torch1 softplus (Py.getitem rho i) ;;
               logvar <<- Py.torch1 (rmul 2) (Py.torch1 tlog (Py.ret std)) ;;
               Py.ret (std, logvar)) ;;
     _ <<- Py.append ret_std (fst sl) ;;
     _ <<- Py.append ret_logvar (snd sl) ;;
     if return_var then
       v <<- Py.torch1 (fun t => tpow t 2) (Py.ret (fst sl)) ;;
       Py.append ret_var v
     else Py.ret tt)
    (sl <- (if logvar_enc then
              std <- fmap texp (fmap (rmul 0.5) (getitem ts i)) ;;
              logvar <- getitem ts i ;;
              Ok (std, logvar)
            else
              std <- fmap softplus (getitem ts i) ;;
              logvar <- fmap (rmul 2) (fmap tlog (Ok std)) ;;
              Ok (std, logvar)) ;;
     if return_var then
       Ok (fst (fst st) ++ [fst sl], snd (fst st) ++ [tpow (fst sl) 2],
           snd st ++ [snd sl])
     else Ok (fst (fst st) ++ [fst sl], snd (fst st), snd st ++ [snd sl]))
    (decode_lists (length (Py.heap sb)) ret_std ret_var ret_logvar).
Proof.
  intros Hrho N12 N13 N23. eapply hoare_bind.
  { apply (hoare_computes Py.read_pair sb
             (fun s => decode_lists (length (Py.heap sb)) ret_std ret_var ret_logvar
                         s tt st)).
    - intros s E _. eapply computes_base; [exact E|].
      now apply computes_decode_entry.
    - apply decode_lists_stable. }
  intros [a1 a2] [x1 x2] s E [Hp (H1 & H2 & H3)]. cbn [fst snd] in *.
  unfold Py.read_pair in Hp. cbn [fst snd] in Hp.
  destruct (Py.read_tensor s a1) as [y1|] eqn:R1; [|discriminate].
  destruct (Py.read_tensor s a2) as [y2|] eqn:R2; [|discriminate].
  injection Hp as -> ->.
  destruct (append_holds sb s ret_std a1 _ x1 E H1 R1)
    as (s1 & Run1 & E1 & H1' & F1 & K1).
  destruct (append_holds sb s1 ret_logvar a2 _ x2 E1 (F1 _ _ (not_eq_sym N13) H3)
              (K1 _ _ R2))
    as (s2 & Run2 & E2 & H3' & F2 & K2).
  pose proof (F2 _ _ N13 H1') as H1''.
  pose proof (F2 _ _ N23 (F1 _ _ (not_eq_sym N12) H2)) as H2''.
  destruct return_var.
  - set (s3 := Py.set_heap (Py.heap s2 ++ [Py.OStorage (data (tpow x1 2))]) s2).
    set (v := Py.VTensor (Py.mkHandle (length (Py.heap s2)) [] (shape (tpow x1 2)) Py.Dense)).
    assert (E23 : extends s2 s3) by apply extends_alloc.
    assert (E3 : extends sb s3) by (eapply extends_trans; eauto).
    assert (Rv : read_tensor s3 v = Some (tpow x1 2)) by apply read_new_tensor.
    destruct (append_holds sb s3 ret_var v _ _ E3
                (list_holds_stable _ _ _ _ _ E23 H2'') Rv)
      as (s4 & Run4 & E4 & H2f & F4 & K4).
    match goal with
    | |- Py.extends _ (snd (?m s)) /\ _ => assert (Hrun : m s = (Ok tt, s4))
    end.
    { unfold Py.mbind. rewrite Run1, Run2.
      rewrite (torch1_ret_run s2 (fun t => tpow t 2) a1 x1 (K2 _ _ (K1 _ _ R1))).
      exact Run4. }
    rewrite Hrun. cbn [fst snd]. split; [exact E4|].
    exists tt. split; [reflexivity|]. repeat split; cbn [fst snd].
    + apply F4; [exact N12|]. exact (list_holds_stable _ _ _ _ _ E23 H1'').
    + exact H2f.
    + apply F4; [exact (not_eq_sym N23)|].
      exact (list_holds_stable _ _ _ _ _ E23 H3').
  - match goal with
    | |- Py.extends _ (snd (?m s)) /\ _ => assert (Hrun : m s = (Ok tt, s2))
    end.
    { unfold Py.mbind. now rewrite Run1, Run2. }
    rewrite Hrun. cbn [fst snd]. split; [exact E2|].
    exists tt. split; [reflexivity|]. repeat split; assumption.
Qed.

Lemma computes_decode_diag_gauss (s0 : store) (rho : Py.value) (ts : list Tensor)
    (logvar_enc return_var return_logvar : bool) :
  read_list s0 rho = Some ts ->
  computes Py.read_lists s0
    (Py.decode_diag_gauss rho logvar_enc return_var return_logvar)
    (decode_diag_gauss ts logvar_enc return_var return_logvar).
Proof.
  intros Hrho. apply computes_of_hoare. intros sb Eb. transport Eb.
  assert (Hn : exists items, items_of sb rho = Some items /\ length items = length ts).
  { unfold Py.read_list in Hrho.
    destruct (Py.items_of sb rho) as [items|]; [|discriminate].
    exists items. split; [reflexivity|]. eapply read_tensors_length; eauto. }
  destruct Hn as (items & Hi & Hlen).
  set (n := length (Py.heap sb)).
  assert (N12 : Py.VList n <> Py.VList (S n)) by (intros [= Hx]; lia).
  assert (N13 : Py.VList n <> Py.VList (S (S n))) by (intros [= Hx]; lia).
  assert (N23 : Py.VList (S n) <> Py.VList (S (S n))) by (intros [= Hx]; lia).
  unfold Py.decode_diag_gauss, decode_diag_gauss. cbv zeta.
  apply hoare_then with (a := Py.VList n)
    (P' := fun s => length (Py.heap s) = S n /\ list_holds n s (Py.VList n) []).
  { intros s _ ->.
    destruct (new_list_holds sb sb (extends_refl sb)) as (s' & Hr & E & Hl & Hl').
    exists s'. repeat split; auto. }
  apply hoare_then with (a := Py.VList (S n))
    (P' := fun s => length (Py.heap s) = S (S n) /\ list_holds n s (Py.VList n) []
                    /\ list_holds n s (Py.VList (S n)) []).
  { intros s E [Hl1 H1].
    destruct (new_list_holds sb s E) as (s' & Hr & E' & Hl & Hl').
    rewrite Hl1 in Hr, Hl, Hl'. exists s'. split; [exact Hr|].
    split; [eapply extends_trans; eauto|]. split; [exact Hl'|].
    split; [exact (list_holds_stable _ _ _ _ _ E' H1)|exact Hl]. }
  apply hoare_then with (a := Py.VList (S (S n)))
    (P' := fun s => decode_lists n (Py.VList n) (Py.VList (S n)) (Py.VList (S (S n)))
                      s tt ([], [], [])).
  { intros s E (Hl2 & H1 & H2).
    destruct (new_list_holds sb s E) as (s' & Hr & E' & Hl & Hl').
    rewrite Hl2 in Hr, Hl. exists s'. split; [exact Hr|].
    split; [eapply extends_trans; eauto|].
    split; [exact (list_holds_stable _ _ _ _ _ E' H1)|].
    split; [exact (list_holds_stable _ _ _ _ _ E' H2)|exact Hl]. }
  apply hoare_then with (a := length ts)
    (P' := fun s => decode_lists n (Py.VList n) (Py.VList (S n)) (Py.VList (S (S n)))
                      s tt ([], [], [])).
  { intros s E Hp. exists s. rewrite <- Hlen. split; [|auto].
    apply len_run. eapply items_of_mono; eauto. }
  eapply hoare_bind.
  { apply (hoare_for_in sb
             (decode_lists n (Py.VList n) (Py.VList (S n)) (Py.VList (S (S n))))).
    intros i [] [[t1 t2] t3].
    exact (hoare_decode_body sb rho _ _ _ ts logvar_enc return_var i (t1, t2, t3)
             Hrho N12 N13 N23). }
  intros [] [[t1 t2] t3].
  destruct return_var, return_logvar; cbn [andb]; apply hoare_ret;
    intros s E (H1 & H2 & H3); cbn [fst snd] in H1, H2, H3;
    apply list_holds_read in H1, H2, H3;
    cbn [Py.read_lists fold_right]; rewrite ?H1, ?H2, ?H3; reflexivity.
Qed.

End Programs.

(** * Further properties of [prob_utils.py] *)

(** ** The divergences as numbers *)

Lemma kl_elem_nonneg (ma la mb lb : R) : 0 <= kl_elem ma la mb lb.
Proof.
  unfold kl_elem. pose proof (exp_ineq1_le (la - lb)) as He.
  assert (Hs : 0 <= (ma - mb) ^ 2 * exp (- lb)).
  { apply Rmult_le_pos; [apply pow2_ge_0|left; apply exp_pos]. }
  lra.
Qed.

Lemma kl_elem_same (m l : R) : kl_elem m l m l = 0.
Proof.
  unfold kl_elem. replace (l - l) with 0 by ring. rewrite exp_0.
  replace (m - m) with 0 by ring. lra.
Qed.

Lemma kl_term_elem (ma la mb lb : R) :
  0.5 * (-1 + (exp la + (mb - ma) ^ 2) / exp lb + lb - la) = kl_elem ma la mb lb.
Proof.
  unfold kl_elem. rewrite exp_minus, exp_Ropp, half_eq. field. apply exp_neq_0.
Qed.

Lemma same_shapes_refl (xs : list Tensor) : same_shapes xs xs.
Proof. induction xs; constructor; auto. Qed.

Lemma sum_n_zero (n : nat) : sum_n n (fun _ => 0) = 0.
Proof. induction n as [|n IH]; simpl; [reflexivity|]. rewrite IH. lra. Qed.

(** The value of [kl_diag_gaussians], coordinate by coordinate. *)
Lemma kl_diag_gaussians_value (mean_a logvar_a mean_b logvar_b : list Strided) :
  mean_a <> [] ->
  forallb viewable mean_a = true -> forallb viewable logvar_a = true ->
  forallb viewable mean_b = true -> forallb viewable logvar_b = true ->
  Forall wf (map tensor mean_a) -> Forall wf (map tensor logvar_a) ->
  Forall wf (map tensor mean_b) -> Forall wf (map tensor logvar_b) ->
  same_shapes (map tensor mean_a) (map tensor logvar_a) ->
  same_shapes (map tensor mean_a) (map tensor mean_b) ->
  same_shapes (map tensor mean_a) (map tensor logvar_b) ->
  kl_diag_gaussians mean_a logvar_a mean_b logvar_b
  = Ok (scalar (sum_n (length (flat (map tensor mean_a)))
                  (fun j => kl_elem (nth j (flat (map tensor mean_a)) 0)
                              (nth j (flat (map tensor logvar_a)) 0)
                              (nth j (flat (map tensor mean_b)) 0)
                              (nth j (flat (map tensor logvar_b)) 0)))).
Proof.
  intros Hne Vma Vla Vmb Vlb Wma Wla Wmb Wlb Sla Smb Slb.
  assert (Hne' : map tensor mean_a <> []) by (destruct mean_a; [congruence|discriminate]).
  destruct (flat_arguments _ _ _ _ Hne' Wma Wla Wmb Wlb Sla Smb Slb)
    as (n & fa & ga & fb & gb & Ea & Eg & Eb & Egb & Ca & Cg & Cb & Cgb).
  unfold kl_diag_gaussians. rewrite !cat_views by assumption.
  rewrite Ca, Cg, Cb, Cgb, Ea, Eg, Eb, Egb, tab_length.
  tensor_norm. unfold scalar, tmap. cbn [shape data map]. do 3 f_equal.
  rewrite <- sum_n_scal. apply sum_n_ext. intros j Hj.
  rewrite !tab_nth by assumption. apply kl_term_elem.
Qed.

(** X1: in exact real arithmetic, on non-empty lists of tensors with
    matching shapes that [view(-1)] accepts, the KL divergence that
    [kl_diag_gaussians] returns is never negative, and it is zero when
    both distributions are the same. *)
Theorem kl_diag_gaussians_nonneg (mean_a logvar_a mean_b logvar_b : list Strided) :
  mean_a <> [] ->
  forallb viewable mean_a = true -> forallb viewable logvar_a = true ->
  forallb viewable mean_b = true -> forallb viewable logvar_b = true ->
  Forall wf (map tensor mean_a) -> Forall wf (map tensor logvar_a) ->
  Forall wf (map tensor mean_b) -> Forall wf (map tensor logvar_b) ->
  same_shapes (map tensor mean_a) (map tensor logvar_a) ->
  same_shapes (map tensor mean_a) (map tensor mean_b) ->
  same_shapes (map tensor mean_a) (map tensor logvar_b) ->
  (exists kl, kl_diag_gaussians mean_a logvar_a mean_b logvar_b = Ok (scalar kl)
              /\ 0 <= kl)
  /\ kl_diag_gaussians mean_a logvar_a mean_a logvar_a = Ok (scalar 0).
Proof.
  intros Hne Vma Vla Vmb Vlb Wma Wla Wmb Wlb Sla Smb Slb. split.
  - eexists. split; [now apply kl_diag_gaussians_value|].
    apply sum_n_nonneg. intros j. apply kl_elem_nonneg.
  - rewrite kl_diag_gaussians_value; try assumption.
    + do 2 f_equal. rewrite <- (sum_n_zero (length (flat (map tensor mean_a)))).
      apply sum_n_ext. intros j _. apply kl_elem_same.
    + apply same_shapes_refl.
Qed.

Lemma kl_diag_gaussians_nonneg_witness :
  let m := [contiguous (mkT [2%nat] [1; 2])] in
  let v := [contiguous (mkT [2%nat] [0; 0])] in
  (exists kl, kl_diag_gaussians m v v m = Ok (scalar kl) /\ 0 <= kl)
  /\ kl_diag_gaussians m v m v = Ok (scalar 0).
Proof.
  intros m v. apply (kl_diag_gaussians_nonneg m v v m);
    solve [ discriminate | reflexivity | repeat constructor ].
Defined.

Lemma zeros_like_wf (ts : list Tensor) : Forall wf ts -> Forall wf (map zeros_like ts).
Proof.
  induction 1 as [|t ts Wt _ IH]; constructor; [|exact IH].
  unfold wf, zeros_like, tmap. cbn [shape data]. now rewrite length_map.
Qed.

Lemma zeros_like_shapes (ts : list Tensor) : same_shapes ts (map zeros_like ts).
Proof. induction ts as [|t ts IH]; constructor; [reflexivity|exact IH]. Qed.

Lemma nth_flat_zeros (ts : list Tensor) (j : nat) :
  nth j (flat (map zeros_like ts)) 0 = 0.
Proof.
  assert (Hz : Forall (fun x => x = 0) (flat (map zeros_like ts))).
  { unfold flat. induction ts as [|t ts IH]; cbn [map concat]; [constructor|].
    apply Forall_app. split; [|exact IH].
    unfold zeros_like, tmap. cbn [data]. apply Forall_forall.
    intros x Hx. apply in_map_iff in Hx. now destruct Hx as (y & <- & _). }
  revert j. induction Hz as [|x l Hx _ IH]; intros [|j]; simpl; auto.
Qed.

(** X2: in exact real arithmetic, on non-empty lists of tensors with
    matching shapes that [view(-1)] accepts,
    [kl_diag_gauss_with_standard_gauss] returns what [kl_diag_gaussians]
    returns against zero means and zero log-variances of the same shapes,
    the standard Gaussian. *)
Theorem kl_with_standard_gauss_agrees (mean logvar : list Strided) :
  mean <> [] ->
  forallb viewable mean = true -> forallb viewable logvar = true ->
  Forall wf (map tensor mean) -> Forall wf (map tensor logvar) ->
  same_shapes (map tensor mean) (map tensor logvar) ->
  kl_diag_gauss_with_standard_gauss mean logvar
  = kl_diag_gaussians mean logvar (zeros_of mean) (zeros_of mean).
Proof.
  intros Hne Vm Vl Wm Wl Sl.
  assert (Hne' : map tensor mean <> []) by (destruct mean; [congruence|discriminate]).
  unfold zeros_of.
  rewrite kl_diag_gaussians_value;
    rewrite ?tensor_contiguous;
    try assumption; try apply forallb_viewable_contiguous;
    try apply zeros_like_wf; try apply zeros_like_shapes;
    try assumption.
  destruct (flat_arguments _ _ _ _ Hne' Wm Wl Wm Wl Sl
              (same_shapes_refl (map tensor mean)) Sl)
    as (n & fa & ga & fb & gb & Ea & Eg & Eb & Egb & Ca & Cg & Cb & Cgb).
  unfold kl_diag_gauss_with_standard_gauss. rewrite !cat_views by assumption.
  rewrite Ca, Cg, Ea, Eg, tab_length.
  tensor_norm. unfold scalar, tmap. cbn [shape data map]. do 3 f_equal.
  rewrite <- sum_n_scal. apply sum_n_ext. intros j Hj.
  rewrite !tab_nth by assumption. rewrite !nth_flat_zeros.
  unfold kl_elem. rewrite Ropp_0, exp_0. unfold Rminus. rewrite Ropp_0, !Rplus_0_r.
  lra.
Qed.

Lemma kl_with_standard_gauss_agrees_witness :
  let m := [contiguous (mkT [2%nat] [1; 2])] in
  let v := [contiguous (mkT [2%nat] [0; 3])] in
  kl_diag_gauss_with_standard_gauss m v
  = kl_diag_gaussians m v (zeros_of m) (zeros_of m).
Proof.
  intros m v. apply (kl_with_standard_gauss_agrees m v);
    solve [ discriminate | reflexivity | repeat constructor ].
Defined.

(** The value of [square_wasserstein_2] on flattened arguments of one
    length. *)
Lemma square_wasserstein_2_flat (mean_a logvar_a mean_b logvar_b : list Strided)
    (n : nat) (fa ga fb gb : nat -> R) :
  (views <- mapM view_flat mean_a ;; cat views) = Ok (mkT [n] (tab n fa)) ->
  (views <- mapM view_flat logvar_a ;; cat views) = Ok (mkT [n] (tab n ga)) ->
  (views <- mapM view_flat mean_b ;; cat views) = Ok (mkT [n] (tab n fb)) ->
  (views <- mapM view_flat logvar_b ;; cat views) = Ok (mkT [n] (tab n gb)) ->
  square_wasserstein_2 mean_a logvar_a mean_b logvar_b
  = Ok (scalar (sum_n n (fun j => (fa j - fb j) ^ 2)
                + sum_n n (fun j => (sqrt (exp (ga j)) - sqrt (exp (gb j))) ^ 2))).
Proof.
  intros Ca Cg Cb Cgb. unfold square_wasserstein_2. rewrite Ca, Cg, Cb, Cgb.
  tensor_norm. rewrite tnorm2_tab, tmap_scalar, lift2_scalar.
  do 2 f_equal. f_equal.
  - rewrite pow2_sqrt; [reflexivity|].
    apply sum_n_nonneg. intros j. apply pow2_ge_0.
  - apply sum_n_ext. intros j _.
    pose proof (exp_pos (ga j)) as Pa. pose proof (exp_pos (gb j)) as Pb.
    rewrite sqrt_mult by lra.
    rewrite <- (sqrt_sqrt (exp (ga j))) at 1 by lra.
    rewrite <- (sqrt_sqrt (exp (gb j))) at 1 by lra. ring.
Qed.

(** Where one of the four arguments holds a tensor that [view(-1)]
    rejects, [square_wasserstein_2] raises, whatever the order of the two
    distributions. *)
Lemma square_wasserstein_2_no_view (mean_a logvar_a mean_b logvar_b : list Strided)
    (n : nat) (fa ga fb gb : nat -> R) :
  (forallb viewable mean_a = true ->
   (views <- mapM view_flat mean_a ;; cat views) = Ok (mkT [n] (tab n fa))) ->
  (forallb viewable logvar_a = true ->
   (views <- mapM view_flat logvar_a ;; cat views) = Ok (mkT [n] (tab n ga))) ->
  (forallb viewable mean_b = true ->
   (views <- mapM view_flat mean_b ;; cat views) = Ok (mkT [n] (tab n fb))) ->
  (forallb viewable logvar_b = true ->
   (views <- mapM view_flat logvar_b ;; cat views) = Ok (mkT [n] (tab n gb))) ->
  forallb viewable mean_a && forallb viewable logvar_a
  && forallb viewable mean_b && forallb viewable logvar_b = false ->
  square_wasserstein_2 mean_a logvar_a mean_b logvar_b = Raise RuntimeError.
Proof.
  intros Ca Cg Cb Cgb Hv. unfold square_wasserstein_2.
  destruct (forallb viewable mean_a) eqn:Va;
    [rewrite (Ca eq_refl)|now rewrite (cat_views_raises _ Va)].
  destruct (forallb viewable logvar_a) eqn:Vg;
    [rewrite (Cg eq_refl)|now rewrite (cat_views_raises _ Vg)].
  destruct (forallb viewable mean_b) eqn:Vb;
    [rewrite (Cb eq_refl)|now rewrite (cat_views_raises _ Vb)].
  destruct (forallb viewable logvar_b) eqn:Vgb;
    [discriminate|now rewrite (cat_views_raises _ Vgb)].
Qed.

(** X3: on non-empty lists of tensors with matching shapes,
    [square_wasserstein_2] is symmetric in the two distributions, whatever
    the memory layout of the tensors is: where [view(-1)] rejects one of
    them, the call raises the same exception in both orders. *)
Theorem square_wasserstein_2_sym (mean_a logvar_a mean_b logvar_b : list Strided) :
  mean_a <> [] ->
  Forall wf (map tensor mean_a) -> Forall wf (map tensor logvar_a) ->
  Forall wf (map tensor mean_b) -> Forall wf (map tensor logvar_b) ->
  same_shapes (map tensor mean_a) (map tensor logvar_a) ->
  same_shapes (map tensor mean_a) (map tensor mean_b) ->
  same_shapes (map tensor mean_a) (map tensor logvar_b) ->
  square_wasserstein_2 mean_a logvar_a mean_b logvar_b
  = square_wasserstein_2 mean_b logvar_b mean_a logvar_a.
Proof.
  intros Hne Wma Wla Wmb Wlb Sla Smb Slb.
  assert (Hne' : map tensor mean_a <> []) by (destruct mean_a; [congruence|discriminate]).
  destruct (flat_arguments _ _ _ _ Hne' Wma Wla Wmb Wlb Sla Smb Slb)
    as (n & fa & ga & fb & gb & _ & _ & _ & _ & Ca & Cg & Cb & Cgb).
  assert (Ca' := fun V => eq_trans (cat_views mean_a V) Ca).
  assert (Cg' := fun V => eq_trans (cat_views logvar_a V) Cg).
  assert (Cb' := fun V => eq_trans (cat_views mean_b V) Cb).
  assert (Cgb' := fun V => eq_trans (cat_views logvar_b V) Cgb).
  destruct (forallb viewable mean_a && forallb viewable logvar_a
            && forallb viewable mean_b && forallb viewable logvar_b) eqn:Hv.
  - apply andb_prop in Hv. destruct Hv as [Hv Vgb].
    apply andb_prop in Hv. destruct Hv as [Hv Vb].
    apply andb_prop in Hv. destruct Hv as [Va Vg].
    rewrite (square_wasserstein_2_flat _ _ _ _ n fa ga fb gb
               (Ca' Va) (Cg' Vg) (Cb' Vb) (Cgb' Vgb)).
    rewrite (square_wasserstein_2_flat _ _ _ _ n fb gb fa ga
               (Cb' Vb) (Cgb' Vgb) (Ca' Va) (Cg' Vg)).
    do 2 f_equal. f_equal; apply sum_n_ext; intros j _; ring.
  - rewrite (square_wasserstein_2_no_view _ _ _ _ n fa ga fb gb Ca' Cg' Cb' Cgb' Hv).
    symmetry. apply (square_wasserstein_2_no_view _ _ _ _ n fb gb fa ga Cb' Cgb' Ca' Cg').
    destruct (forallb viewable mean_a), (forallb viewable logvar_a),
      (forallb viewable mean_b), (forallb viewable logvar_b);
      solve [discriminate | reflexivity].
Qed.

Lemma square_wasserstein_2_sym_witness :
  let m := [contiguous (mkT [2%nat] [1; 2])] in
  let v := [contiguous (mkT [2%nat] [0; 3])] in
  square_wasserstein_2 m v v m = square_wasserstein_2 v m m v.
Proof.
  intros m v. apply (square_wasserstein_2_sym m v v m);
    solve [ discriminate | repeat constructor ].
Defined.

(** X4: in exact real arithmetic, on non-empty lists of tensors with
    matching shapes that [view(-1)] accepts, the squared distance that
    [square_wasserstein_2] returns is never negative, and it is zero when
    both distributions are the same. *)
Theorem square_wasserstein_2_nonneg (mean_a logvar_a mean_b logvar_b : list Strided) :
  mean_a <> [] ->
  forallb viewable mean_a = true -> forallb viewable logvar_a = true ->
  forallb viewable mean_b = true -> forallb viewable logvar_b = true ->
  Forall wf (map tensor mean_a) -> Forall wf (map tensor logvar_a) ->
  Forall wf (map tensor mean_b) -> Forall wf (map tensor logvar_b) ->
  same_shapes (map tensor mean_a) (map tensor logvar_a) ->
  same_shapes (map tensor mean_a) (map tensor mean_b) ->
  same_shapes (map tensor mean_a) (map tensor logvar_b) ->
  (exists w, square_wasserstein_2 mean_a logvar_a mean_b logvar_b = Ok (scalar w)
             /\ 0 <= w)
  /\ square_wasserstein_2 mean_a logvar_a mean_a logvar_a = Ok (scalar 0).
Proof.
  intros Hne Vma Vla Vmb Vlb Wma Wla Wmb Wlb Sla Smb Slb.
  assert (Hne' : map tensor mean_a <> []) by (destruct mean_a; [congruence|discriminate]).
  destruct (flat_arguments _ _ _ _ Hne' Wma Wla Wmb Wlb Sla Smb Slb)
    as (n & fa & ga & fb & gb & _ & _ & _ & _ & Ca & Cg & Cb & Cgb).
  rewrite <- (cat_views _ Vma) in Ca. rewrite <- (cat_views _ Vla) in Cg.
  rewrite <- (cat_views _ Vmb) in Cb. rewrite <- (cat_views _ Vlb) in Cgb.
  split.
  - eexists. split; [apply (square_wasserstein_2_flat _ _ _ _ n fa ga fb gb); eassumption|].
    apply Rplus_le_le_0_compat; apply sum_n_nonneg; intros j; apply pow2_ge_0.
  - rewrite (square_wasserstein_2_flat _ _ _ _ n fa ga fa ga Ca Cg Ca Cg).
    do 2 f_equal.
    rewrite (sum_n_ext n _ (fun _ => 0)) by (intros j _; ring).
    rewrite (sum_n_ext n (fun j => (sqrt (exp (ga j)) - sqrt (exp (ga j))) ^ 2)
               (fun _ => 0)) by (intros j _; ring).
    rewrite sum_n_zero. lra.
Qed.

Lemma square_wasserstein_2_nonneg_witness :
  let m := [contiguous (mkT [2%nat] [1; 2])] in
  let v := [contiguous (mkT [2%nat] [0; 3])] in
  (exists w, square_wasserstein_2 m v v m = Ok (scalar w) /\ 0 <= w)
  /\ square_wasserstein_2 m v m v = Ok (scalar 0).
Proof.
  intros m v. apply (square_wasserstein_2_nonneg m v v m);
    solve [ discriminate | reflexivity | repeat constructor ].
Defined.

(** ** [compute_kl] and [kl_gauss] *)

Lemma cat_flatten_one (s : list nat) (n : nat) (f : nat -> R) :
  n = numel s ->
  cat (map flatten [mkT s (tab n f)]) = Ok (mkT [n] (tab n f)).
Proof.
  intros ->. rewrite cat_flatten; [|discriminate|].
  - unfold flat. cbn [map concat data]. now rewrite app_nil_r, tab_length.
  - constructor; [|constructor]. unfold wf. cbn [shape data]. apply tab_length.
Qed.

Lemma cat_view_one (x : Strided) :
  viewable x = true ->
  (views <- mapM view_flat [x] ;; cat views) = cat (map flatten [tensor x]).
Proof. intros V. apply (cat_views [x]). cbn [forallb]. now rewrite V. Qed.

(** X5: in exact real arithmetic, on four tensors of one shape that
    [view(-1)] accepts, [compute_kl] with [sum=True] and [lamb=1] returns
    the KL divergence that [kl_diag_gaussians] returns for the same
    Gaussians, whatever [initial_prior_var] is. *)
Theorem compute_kl_sum_is_kl_diag_gaussians
    (mean exp_var prior_mean prior_exp_var : Strided) (initial_prior_var : R) :
  viewable mean = true -> viewable exp_var = true ->
  viewable prior_mean = true -> viewable prior_exp_var = true ->
  wf (tensor mean) -> wf (tensor exp_var) ->
  wf (tensor prior_mean) -> wf (tensor prior_exp_var) ->
  shape (tensor exp_var) = shape (tensor mean) ->
  shape (tensor prior_mean) = shape (tensor mean) ->
  shape (tensor prior_exp_var) = shape (tensor mean) ->
  compute_kl (tensor mean) (tensor exp_var) (tensor prior_mean)
    (tensor prior_exp_var) true 1 initial_prior_var
  = kl_diag_gaussians [mean] [exp_var] [prior_mean] [prior_exp_var].
Proof.
  intros Vm Ve Vp Vq Wm We Wp Wq Se Sp Sq.
  unfold kl_diag_gaussians. rewrite !cat_view_one by assumption.
  destruct mean as [mean ?], exp_var as [exp_var ?],
    prior_mean as [prior_mean ?], prior_exp_var as [prior_exp_var ?].
  cbn [tensor] in *.
  tabulate mean Wm fa. tabulate exp_var We ga.
  tabulate prior_mean Wp fb. tabulate prior_exp_var Wq gb. subst.
  rewrite !cat_flatten_one by reflexivity.
  unfold compute_kl. rewrite Rneqb_refl.
  tensor_norm. do 3 f_equal. apply sum_n_ext. intros j _.
  rewrite exp_minus, exp_Ropp. field. apply exp_neq_0.
Qed.

Lemma compute_kl_sum_is_kl_diag_gaussians_witness :
  let t := contiguous (mkT [2%nat] [1; 2]) in
  let u := contiguous (mkT [2%nat] [0; 3]) in
  compute_kl (tensor t) (tensor u) (tensor u) (tensor t) true 1 0.5
  = kl_diag_gaussians [t] [u] [u] [t].
Proof.
  intros t u. apply (compute_kl_sum_is_kl_diag_gaussians t u u t 0.5); reflexivity.
Defined.

(** X6: in exact real arithmetic, on four tensors of one shape, every
    entry of the tensor that [kl_gauss] returns is non-negative, and the
    tensor is all zeros when both Gaussians are the same. *)
Theorem kl_gauss_nonneg (mean_a logvar_a mean_b logvar_b : Tensor) :
  wf mean_a -> wf logvar_a -> wf mean_b -> wf logvar_b ->
  shape logvar_a = shape mean_a ->
  shape mean_b = shape mean_a ->
  shape logvar_b = shape mean_a ->
  (exists kl, kl_gauss mean_a logvar_a mean_b logvar_b = Ok kl
              /\ shape kl = shape mean_a
              /\ Forall (fun x => 0 <= x) (data kl))
  /\ kl_gauss mean_a logvar_a mean_a logvar_a = Ok (zeros_like mean_a).
Proof.
  intros Wma Wla Wmb Wlb Sla Smb Slb.
  tabulate mean_a Wma fa. tabulate logvar_a Wla ga.
  tabulate mean_b Wmb fb. tabulate logvar_b Wlb gb. subst.
  split.
  - eexists. split; [apply kl_gauss_tab; reflexivity|]. split; [reflexivity|].
    cbn [data]. unfold tab. apply Forall_forall. intros x Hx.
    apply in_map_iff in Hx. destruct Hx as (j & <- & _). apply kl_elem_nonneg.
  - rewrite kl_gauss_tab by reflexivity. unfold zeros_like. rewrite tmap_tab.
    do 2 f_equal. apply tab_ext. intros j _. apply kl_elem_same.
Qed.

Lemma kl_gauss_nonneg_witness :
  let t := mkT [2%nat] [1; 2] in
  let u := mkT [2%nat] [0; 3] in
  (exists kl, kl_gauss t u u t = Ok kl /\ shape kl = shape t
              /\ Forall (fun x => 0 <= x) (data kl))
  /\ kl_gauss t u t u = Ok (zeros_like t).
Proof.
  intros t u. apply (kl_gauss_nonneg t u u t); reflexivity.
Defined.

(** ** [compute_coef] *)

Lemma rev_map_seq {A : Type} (g : nat -> A) (m : nat) :
  rev (map g (seq 0 m)) = map (fun k => g (m - 1 - k)%nat) (seq 0 m).
Proof.
  induction m as [|m IH]; [reflexivity|].
  rewrite seq_S at 1. rewrite map_app, rev_app_distr. cbn [map rev app seq].
  rewrite IH. f_equal; [f_equal; lia|].
  rewrite <- seq_shift, map_map. apply map_ext_in. intros k Hk.
  apply in_seq in Hk. f_equal. lia.
Qed.

(** X7: [compute_coef] returns the multiples of 1000 from
    [(num_component - 1) * 1000] down to [1000], followed by [1]; for
    [num_component <= 1] that is the list [[1]]. *)
Theorem compute_coef_closed_form (num_component : Z) :
  compute_coef num_component
  = map (fun k => ((num_component - 1 - Z.of_nat k) * 1000)%Z)
      (seq 0 (Z.to_nat (num_component - 1)))
    ++ [1%Z].
Proof.
  unfold compute_coef, zrange.
  rewrite (fold_left_append (fun i => ((i + 1) * 1000)%Z)).
  rewrite rev_app_distr. cbn [rev app]. f_equal.
  rewrite map_map, rev_map_seq. apply map_ext_in. intros k Hk.
  apply in_seq in Hk. f_equal. lia.
Qed.

(** ** [decode_diag_gauss] *)

Lemma for_each_app {A St : Type} (l1 l2 : list A) (body : A -> St -> result St)
    (acc : St) :
  for_each (l1 ++ l2) body acc = (acc' <- for_each l1 body acc ;; for_each l2 body acc').
Proof.
  revert acc. induction l1 as [|x l1 IH]; intros acc; cbn [app for_each bind];
    [reflexivity|].
  destruct (body x acc) as [acc'|e]; cbn [bind]; [apply IH|reflexivity].
Qed.

(** The log-variance that belongs to a decoded standard deviation. *)
Lemma decode_loop (logvar_enc return_var : bool) (pre rho : list Tensor)
    (st : list Tensor * list Tensor * list Tensor) :
  for_each (seq (length pre) (length rho))
    (fun i st =>
       let '(ret_std, ret_var, ret_logvar) := st in
       sl <- (if logvar_enc then
                std <- fmap texp (fmap (rmul 0.5) (getitem (pre ++ rho) i)) ;;
                logvar <- getitem (pre ++ rho) i ;;
                Ok (std, logvar)
              else
                std <- fmap softplus (getitem (pre ++ rho) i) ;;
                logvar <- fmap (rmul 2) (fmap tlog (Ok std)) ;;
                Ok (std, logvar)) ;;
       let ret_std := ret_std ++ [fst sl] in
       let ret_logvar := ret_logvar ++ [snd sl] in
       if return_var then
         Ok (ret_std, ret_var ++ [tpow (fst sl) 2], ret_logvar)
       else Ok (ret_std, ret_var, ret_logvar))
    st
  = Ok (fst (fst st) ++ map (decode_std logvar_enc) rho,
        snd (fst st)
        ++ (if return_var
            then map (fun t => tpow (decode_std logvar_enc t) 2) rho else []),
        snd st
        ++ map (fun t => if logvar_enc then t
                         else rmul 2 (tlog (decode_std logvar_enc t))) rho).
Proof.
  revert pre st. induction rho as [|t rho IH]; intros pre [[s v] l].
  - cbn [length seq for_each map fst snd]. destruct return_var;
      now rewrite !app_nil_r.
  - cbn [length seq for_each]. rewrite getitem_app.
    replace (pre ++ t :: rho) with ((pre ++ [t]) ++ rho) by now rewrite <- app_assoc.
    replace (S (length pre)) with (length (pre ++ [t]))
      by (rewrite length_app; simpl; lia).
    destruct logvar_enc, return_var; cbn [fmap bind fst snd];
      rewrite IH; cbn [fst snd map decode_std]; rewrite <- ?app_assoc;
      reflexivity.
Qed.

Lemma decode_diag_gauss_value (rho : list Tensor)
    (logvar_enc return_var return_logvar : bool) :
  let std := map (decode_std logvar_enc) rho in
  let var := map (fun s => tpow s 2) std in
  let logvar := if logvar_enc then rho else map (fun s => rmul 2 (tlog s)) std in
  decode_diag_gauss rho logvar_enc return_var return_logvar
  = Ok (if return_var && return_logvar then TupleOf [std; var; logvar]
        else if return_var then TupleOf [std; var]
        else if return_logvar then TupleOf [std; logvar]
        else ListOf std).
Proof.
  cbv zeta. unfold decode_diag_gauss.
  pose proof (decode_loop logvar_enc return_var [] rho ([], [], [])) as L.
  cbn [length app fst snd] in L. rewrite L. cbn [bind].
  rewrite !map_map.
  destruct logvar_enc, return_var, return_logvar; cbn [andb];
    rewrite ?map_id; reflexivity.
Qed.

(** X8: [decode_diag_gauss] never raises.  Its lists have one tensor per
    tensor of [rho]: the standard deviations [exp(0.5 * rho)] or
    [softplus(rho)], their squares, and the log-variances [rho] or
    [2 * log(std)]; the flags select a list, a pair or a triple. *)
Theorem decode_diag_gauss_closed_form (rho : list Tensor)
    (logvar_enc return_var return_logvar : bool) :
  let std := map (decode_std logvar_enc) rho in
  let var := map (fun s => tpow s 2) std in
  let logvar := if logvar_enc then rho else map (fun s => rmul 2 (tlog s)) std in
  decode_diag_gauss rho logvar_enc return_var return_logvar
  = Ok (if return_var && return_logvar then TupleOf [std; var; logvar]
        else if return_var then TupleOf [std; var]
        else if return_logvar then TupleOf [std; logvar]
        else ListOf std).
Proof.
  cbv zeta. unfold decode_diag_gauss.
  pose proof (decode_loop logvar_enc return_var [] rho ([], [], [])) as L.
  cbn [length app fst snd] in L. rewrite L. cbn [bind].
  rewrite !map_map.
  destruct logvar_enc, return_var, return_logvar; cbn [andb];
    rewrite ?map_id; reflexivity.
Qed.

Lemma softplus_pos (x : R) : 0 < ln (1 + exp x).
Proof.
  rewrite <- ln_1. apply ln_increasing; [lra|]. pose proof (exp_pos x). lra.
Qed.

(** X9: in exact real arithmetic, the lists that [decode_diag_gauss]
    returns fit together, whatever [rho] holds: every standard deviation
    is positive, every variance is the square of its standard deviation,
    and the exponential of every log-variance is its variance. *)
Theorem decode_diag_gauss_consistent (rho : list Tensor) (logvar_enc : bool) :
  exists std var logvar,
    decode_diag_gauss rho logvar_enc true true = Ok (TupleOf [std; var; logvar])
    /\ positive std
    /\ var = map (fun s => tpow s 2) std
    /\ map texp logvar = var.
Proof.
  eexists _, _, _. split; [exact (decode_diag_gauss_value rho logvar_enc true true)|].
  split; [|split; [reflexivity|]].
  - unfold positive. apply Forall_forall. intros s Hs.
    apply in_map_iff in Hs. destruct Hs as (t & <- & _).
    apply Forall_forall. intros x Hx.
    destruct logvar_enc; cbn [decode_std] in Hx; unfold_ops; cbn [tmap data] in Hx;
      rewrite ?map_map in Hx; apply in_map_iff in Hx; destruct Hx as (y & <- & _).
    + apply exp_pos.
    + apply softplus_pos.
  - destruct logvar_enc; rewrite ?map_map; apply map_ext; intros t;
      cbn [decode_std]; unfold_ops; unfold tmap; cbn [shape data];
      f_equal; rewrite ?map_map; apply map_ext; intros x.
    + replace x with (0.5 * x + 0.5 * x) at 1 by lra. rewrite exp_plus. ring.
    + pose proof (softplus_pos x) as Hp.
      replace (2 * ln (ln (1 + exp x))) with (ln (ln (1 + exp x)) + ln (ln (1 + exp x)))
        by ring.
      rewrite exp_plus, exp_ln by assumption. ring.
Qed.

(** ** Decoding, then sampling *)

Section SamplingExtras.
Context {G : Type} `{Generator G}.

Lemma decode_getitem (logvar_enc : bool) (pre rho : list Tensor) (rh : Tensor) :
  (if logvar_enc
   then fmap (fun t => texp (rmul 0.5 t)) (getitem (pre ++ rh :: rho) (length pre))
   else fmap softplus (getitem (pre ++ rh :: rho) (length pre)))
  = Ok (decode_std logvar_enc rh).
Proof. rewrite getitem_app. now destruct logvar_enc. Qed.

Lemma decode_sample_loop (logvar_enc is_radial : bool)
    (pre_m pre_r pre_s mean rho acc : list Tensor) (k : nat) (g : G) :
  length pre_r = length pre_m -> length pre_s = length pre_m ->
  same_shapes mean rho ->
  for_enumerate
    (fun (_ : nat) i sample =>
       std <~ slift (if logvar_enc
                     then fmap (fun t => texp (rmul 0.5 t)) (getitem (pre_r ++ rho) i)
                     else fmap softplus (getitem (pre_r ++ rho) i)) ;;
       eps <~ draw (normal (shape std)) ;;
       if negb is_radial then
         x <~ slift (getitem (pre_m ++ mean) i + Ok eps * Ok std)%T ;;
         sret (sample ++ [x])
       else
         r <~ draw (normal []) ;;
         x <~ slift (getitem (pre_m ++ mean) i + Ok std * Ok r * Ok eps
                     / Ok (tnorm2 eps))%T ;;
         sret (sample ++ [x]))
    k (seq (length pre_m) (length mean)) acc g
  = for_enumerate
      (fun i m sample =>
         eps <~ draw (normal (shape m)) ;;
         if negb is_radial then
           x <~ slift (Ok m + Ok eps
                       * getitem (pre_s ++ map (decode_std logvar_enc) rho) i)%T ;;
           sret (sample ++ [x])
         else
           r <~ draw (normal []) ;;
           x <~ slift (Ok m + getitem (pre_s ++ map (decode_std logvar_enc) rho) i
                       * Ok r * Ok eps / Ok (tnorm2 eps))%T ;;
           sret (sample ++ [x]))
      (length pre_m) mean acc g.
Proof.
  intros Lr Ls Sh. revert pre_m pre_r pre_s acc k g Lr Ls.
  induction Sh as [|m rh mean rho Emr _ IH]; intros pre_m pre_r pre_s acc k g Lr Ls.
  - reflexivity.
  - cbn [length seq for_enumerate map].
    assert (Ed : (if logvar_enc
                  then fmap (fun t => texp (rmul 0.5 t))
                         (getitem (pre_r ++ rh :: rho) (length pre_m))
                  else fmap softplus (getitem (pre_r ++ rh :: rho) (length pre_m)))
                 = Ok (decode_std logvar_enc rh))
      by (rewrite <- Lr; apply decode_getitem).
    rewrite Ed.
    rewrite !sbind_assoc, sbind_slift_Ok.
    rewrite !sbind_assoc, !sbind_draw, decode_std_shape, <- Emr.
    destruct (normal (shape m) g) as [eps g1]. cbn [fst snd].
    assert (Em : getitem (pre_m ++ m :: mean) (length pre_m) = Ok m)
      by apply getitem_app.
    assert (Es : getitem (pre_s ++ decode_std logvar_enc rh
                            :: map (decode_std logvar_enc) rho) (length pre_m)
                 = Ok (decode_std logvar_enc rh))
      by (rewrite <- Ls; apply getitem_app).
    assert (Hnext : forall acc' g',
      for_enumerate
        (fun (_ : nat) i sample =>
           std <~ slift (if logvar_enc
                         then fmap (fun t => texp (rmul 0.5 t))
                                (getitem (pre_r ++ rh :: rho) i)
                         else fmap softplus (getitem (pre_r ++ rh :: rho) i)) ;;
           eps <~ draw (normal (shape std)) ;;
           if negb is_radial then
             x <~ slift (getitem (pre_m ++ m :: mean) i + Ok eps * Ok std)%T ;;
             sret (sample ++ [x])
           else
             r <~ draw (normal []) ;;
             x <~ slift (getitem (pre_m ++ m :: mean) i + Ok std * Ok r * Ok eps
                         / Ok (tnorm2 eps))%T ;;
             sret (sample ++ [x]))
        (S k) (seq (S (length pre_m)) (length mean)) acc' g'
      = for_enumerate
          (fun i m0 sample =>
             eps <~ draw (normal (shape m0)) ;;
             if negb is_radial then
               x <~ slift (Ok m0 + Ok eps
                           * getitem (pre_s ++ decode_std logvar_enc rh
                                        :: map (decode_std logvar_enc) rho) i)%T ;;
               sret (sample ++ [x])
             else
               r <~ draw (normal []) ;;
               x <~ slift (Ok m0 + getitem (pre_s ++ decode_std logvar_enc rh
                                              :: map (decode_std logvar_enc) rho) i
                           * Ok r * Ok eps / Ok (tnorm2 eps))%T ;;
               sret (sample ++ [x]))
          (S (length pre_m)) mean acc' g').
    { intros acc' g'.
      replace (pre_m ++ m :: mean) with ((pre_m ++ [m]) ++ mean)
        by now rewrite <- app_assoc.
      replace (pre_r ++ rh :: rho) with ((pre_r ++ [rh]) ++ rho)
        by now rewrite <- app_assoc.
      replace (pre_s ++ decode_std logvar_enc rh :: map (decode_std logvar_enc) rho)
        with ((pre_s ++ [decode_std logvar_enc rh]) ++ map (decode_std logvar_enc) rho)
        by now rewrite <- app_assoc.
      replace (S (length pre_m)) with (length (pre_m ++ [m]))
        by (rewrite length_app; simpl; lia).
      apply IH; rewrite !length_app; simpl; lia. }
    destruct is_radial; cbn [negb].
    + rewrite !sbind_assoc, !sbind_draw.
      destruct (normal [] g1) as [r g2]. cbn [fst snd].
      rewrite Em, Es. rewrite !sbind_assoc.
      destruct (Ok m + Ok (decode_std logvar_enc rh) * Ok r * Ok eps
                / Ok (tnorm2 eps))%T as [x|e].
      * rewrite !sbind_slift_Ok, !sbind_sret. apply Hnext.
      * now rewrite !sbind_slift_Raise.
    + rewrite Em, Es. rewrite !sbind_assoc.
      destruct (Ok m + Ok eps * Ok (decode_std logvar_enc rh))%T as [x|e].
      * rewrite !sbind_slift_Ok, !sbind_sret. apply Hnext.
      * now rewrite !sbind_slift_Raise.
Qed.

(** X10: on lists of matching shapes, [decode_and_sample_diag_gauss]
    returns what [sample_diag_gauss] returns on the standard deviations
    that [decode_diag_gauss] decodes from [rho], from the same generator
    state and in both sampling modes, exceptions included. *)
Theorem decode_then_sample (mean rho : list Tensor) (logvar_enc is_radial : bool)
    (g : G) :
  same_shapes mean rho ->
  exists std,
    decode_diag_gauss rho logvar_enc false false = Ok (ListOf std)
    /\ decode_and_sample_diag_gauss mean rho logvar_enc is_radial g
       = sample_diag_gauss mean std is_radial g.
Proof.
  intros Sh. eexists. split; [exact (decode_diag_gauss_value rho logvar_enc false false)|].
  unfold decode_and_sample_diag_gauss, sample_diag_gauss, for_range.
  rewrite (same_shapes_length _ _ Sh), Nat.eqb_refl. cbn [negb].
  apply (decode_sample_loop logvar_enc is_radial [] [] [] mean rho [] 0%nat g
           eq_refl eq_refl Sh).
Qed.

Lemma sample_loop_short (std : list Tensor) (is_radial : bool) (mean : list Tensor)
    (i : nat) (acc : list Tensor) (g : G) :
  mean <> [] -> (length std < i + length mean)%nat ->
  exists e,
    fst (for_enumerate
           (fun i m sample =>
              eps <~ draw (normal (shape m)) ;;
              if negb is_radial then
                x <~ slift (Ok m + Ok eps * getitem std i)%T ;;
                sret (sample ++ [x])
              else
                r <~ draw (normal []) ;;
                x <~ slift (Ok m + getitem std i * Ok r * Ok eps / Ok (tnorm2 eps))%T ;;
                sret (sample ++ [x]))
           i mean acc g) = Raise e.
Proof.
  revert i acc g. induction mean as [|m mean IH]; intros i acc g Hne Hlen;
    [congruence|].
  cbn [for_enumerate length] in *.
  rewrite sbind_assoc, sbind_draw.
  destruct (normal (shape m) g) as [eps g1]. cbn [fst snd].
  assert (Hcont : forall x g',
            (length std <= i)%nat \/
            exists e, fst (for_enumerate
              (fun i m sample =>
                 eps <~ draw (normal (shape m)) ;;
                 if negb is_radial then
                   x <~ slift (Ok m + Ok eps * getitem std i)%T ;;
                   sret (sample ++ [x])
                 else
                   r <~ draw (normal []) ;;
                   x <~ slift (Ok m + getitem std i * Ok r * Ok eps
                               / Ok (tnorm2 eps))%T ;;
                   sret (sample ++ [x]))
              (S i) mean (acc ++ [x]) g') = Raise e).
  { intros x g'. destruct (Nat.le_gt_cases (length std) i) as [Hle|Hgt]; [now left|].
    right. apply IH; [|lia]. destruct mean; [simpl in Hlen; lia|discriminate]. }
  assert (Hget : (length std <= i)%nat -> getitem std i = Raise IndexError).
  { intros Hle. unfold getitem.
    destruct (nth_error std i) eqn:E; [|reflexivity].
    assert (i < length std)%nat by (apply nth_error_Some; congruence). lia. }
  destruct is_radial; cbn [negb].
  - rewrite sbind_assoc, sbind_draw.
    destruct (normal [] g1) as [r g2]. cbn [fst snd]. rewrite sbind_assoc.
    destruct (Ok m + getitem std i * Ok r * Ok eps / Ok (tnorm2 eps))%T as [x|e] eqn:E.
    + rewrite sbind_slift_Ok, sbind_sret.
      destruct (Hcont x g2) as [Hle|Hr]; [|exact Hr].
      rewrite (Hget Hle) in E. discriminate.
    + rewrite sbind_slift_Raise. now exists e.
  - rewrite sbind_assoc.
    destruct (Ok m + Ok eps * getitem std i)%T as [x|e] eqn:E.
    + rewrite sbind_slift_Ok, sbind_sret.
      destruct (Hcont x g1) as [Hle|Hr]; [|exact Hr].
      rewrite (Hget Hle) in E. discriminate.
    + rewrite sbind_slift_Raise. now exists e.
Qed.

(** X11: [sample_diag_gauss] indexes [std] by the positions of [mean]:
    when [std] has fewer tensors than [mean], the call raises and returns
    no sample, in both sampling modes. *)
Theorem sample_diag_gauss_short_std (mean std : list Tensor) (is_radial : bool)
    (g : G) :
  (length std < length mean)%nat ->
  exists e, fst (sample_diag_gauss mean std is_radial g) = Raise e.
Proof.
  intros Hlen. unfold sample_diag_gauss.
  apply sample_loop_short; [|simpl; lia]. destruct mean; [simpl in Hlen; lia|discriminate].
Qed.

(** X12: in [kl_radial_bnn_with_diag_gauss], with a non-empty list [std_a]
    of standard deviations that [view(-1)] accepts, [ce_sample_size = 0]
    raises [ZeroDivisionError], and a negative [ce_sample_size] returns
    the entropy term [- sum_j log(std_a_j)] alone; in both cases nothing
    is drawn from the generator. *)
Theorem kl_radial_bnn_no_samples (mean_a : list Tensor) (std_a : list Strided)
    (mean_b std_b : list Tensor) (ce_sample_size : Z) (g : G) :
  std_a <> [] -> forallb viewable std_a = true ->
  Forall wf (map tensor std_a) -> (ce_sample_size <= 0)%Z ->
  kl_radial_bnn_with_diag_gauss mean_a std_a mean_b std_b ce_sample_size g
  = (if (ce_sample_size =? 0)%Z then Raise ZeroDivisionError
     else Ok (scalar (- sum_n (length (flat (map tensor std_a)))
                          (fun j => ln (nth j (flat (map tensor std_a)) 0)))),
     g).
Proof.
  intros Hne Vs Ws Hn. unfold kl_radial_bnn_with_diag_gauss.
  assert (Hne' : map tensor std_a <> []) by (destruct std_a; [congruence|discriminate]).
  rewrite (cat_views std_a Vs), (cat_flatten _ Hne' Ws).
  rewrite fmap_Ok, sbind_slift_Ok.
  replace (Z.to_nat ce_sample_size) with 0%nat by lia.
  unfold for_range. cbn [seq for_enumerate]. rewrite sbind_sret. cbn [idiv].
  destruct (ce_sample_size =? 0)%Z; [reflexivity|].
  rewrite sbind_slift_Ok. unfold slift, tsub_pynum.
  unfold tlog, tsum, tneg, rsubr. rewrite !tmap_scalar. cbn [tmap shape data].
  rewrite rsum_map_nth. do 3 f_equal. unfold Rdiv. ring.
Qed.
End SamplingExtras.

Lemma decode_then_sample_witness :
  let m := [mkT [2%nat] [1; 2]] in
  let g := mkTape (fun _ => 1) 0 in
  exists std,
    decode_diag_gauss m true false false = Ok (ListOf std)
    /\ decode_and_sample_diag_gauss m m true false g = sample_diag_gauss m std false g.
Proof.
  intros m g. apply (decode_then_sample m m true false g). repeat constructor.
Defined.

Lemma sample_diag_gauss_short_std_witness :
  let m := [mkT [2%nat] [1; 2]] in
  let g := mkTape (fun _ => 1) 0 in
  exists e, fst (sample_diag_gauss m [] false g) = Raise e.
Proof.
  intros m g. apply (sample_diag_gauss_short_std m [] false g). simpl. lia.
Defined.

Lemma kl_radial_bnn_no_samples_witness :
  let m := [mkT [2%nat] [1; 2]] in
  let sd := map contiguous m in
  let g := mkTape (fun _ => 1) 0 in
  kl_radial_bnn_with_diag_gauss m sd m m 0 g
  = (if (0 =? 0)%Z then Raise ZeroDivisionError
     else Ok (scalar (- sum_n (length (flat (map tensor sd)))
                          (fun j => ln (nth j (flat (map tensor sd)) 0)))),
     g).
Proof.
  intros m sd g. apply (kl_radial_bnn_no_samples m sd m m 0 g);
    solve [ discriminate | reflexivity | repeat constructor | lia ].
Defined.

(** ** Mixtures *)

Lemma sum_n_le (n : nat) (f g : nat -> R) :
  (forall j, f j <= g j) -> sum_n n f <= sum_n n g.
Proof.
  revert f g. induction n as [|n IH]; intros f g Hfg; simpl; [lra|].
  specialize (IH (fun j => f (S j)) (fun j => g (S j)) (fun j => Hfg (S j))).
  specialize (Hfg O). lra.
Qed.

Lemma sum_n_pos (n : nat) (f : nat -> R) :
  (0 < n)%nat -> (forall j, 0 < f j) -> 0 < sum_n n f.
Proof.
  intros Hn Hf. destruct n as [|n]; [lia|]. simpl.
  pose proof (sum_n_nonneg n (fun j => f (S j)) (fun j => Rlt_le _ _ (Hf (S j)))).
  specialize (Hf O). lra.
Qed.

Lemma sum_n_swap (n m : nat) (F : nat -> nat -> R) :
  sum_n n (fun i => sum_n m (fun p => F i p))
  = sum_n m (fun p => sum_n n (fun i => F i p)).
Proof.
  revert F. induction n as [|n IH]; intros F; cbn [sum_n].
  - now rewrite sum_n_zero.
  - rewrite (IH (fun i p => F (S i) p)), <- sum_n_plus. reflexivity.
Qed.

(** Gibbs' inequality for two families of positive weights with the same
    total. *)
Lemma gibbs (n : nat) (a b : nat -> R) :
  (forall i, 0 < a i) -> (forall i, 0 < b i) -> sum_n n a = sum_n n b ->
  0 <= sum_n n (fun i => a i * (ln (a i) - ln (b i))).
Proof.
  intros Ha Hb Hab.
  apply Rle_trans with (sum_n n (fun i => a i + -1 * b i)).
  - rewrite sum_n_plus, sum_n_scal. lra.
  - apply sum_n_le. intros i.
    pose proof (exp_ineq1_le (ln (b i) - ln (a i))) as He.
    rewrite exp_minus, !exp_ln in He by auto.
    specialize (Ha i). specialize (Hb i).
    apply (Rmult_le_compat_l (a i)) in He; [|lra].
    replace (a i * (b i / a i)) with (b i) in He by (field; lra). lra.
Qed.

Lemma coef_weight_pos (c : Tensor) (i p : nat) :
  (0 < hd 0%nat (shape c))%nat -> 0 < coef_weight c i p.
Proof.
  intros Hn. unfold coef_weight. apply Rdiv_lt_0_compat; [apply exp_pos|].
  apply sum_n_pos; [exact Hn|]. intros k. apply exp_pos.
Qed.

Lemma coef_weight_total (c : Tensor) (p : nat) :
  (0 < hd 0%nat (shape c))%nat ->
  sum_n (hd 0%nat (shape c)) (fun i => coef_weight c i p) = 1.
Proof.
  intros Hn. unfold coef_weight.
  set (S := sum_n (hd 0%nat (shape c))
              (fun k => exp (entry c (k * numel (tl (shape c)) + p)))).
  assert (HS : 0 < S) by (apply sum_n_pos; [exact Hn|intros k; apply exp_pos]).
  rewrite (sum_n_ext _ _ (fun i => / S * exp (entry c (i * numel (tl (shape c)) + p))))
    by (intros i _; unfold Rdiv; ring).
  rewrite sum_n_scal. fold S. field. lra.
Qed.

Lemma upperbound_formula_nonneg (a b : mixture) (sc : list nat) :
  shape (coefficient_logits a) = length (component_means a) :: sc ->
  shape (coefficient_logits b) = length (component_means a) :: sc ->
  0 <= upperbound_formula a b.
Proof.
  intros Sa Sb. unfold upperbound_formula.
  destruct (length (component_means a)) as [|n] eqn:En; [simpl; lra|].
  assert (Ha : (0 < hd 0%nat (shape (coefficient_logits a)))%nat)
    by (rewrite Sa; simpl; lia).
  assert (Hb : (0 < hd 0%nat (shape (coefficient_logits b)))%nat)
    by (rewrite Sb; simpl; lia).
  rewrite sum_n_plus. apply Rplus_le_le_0_compat.
  - rewrite sum_n_swap. apply sum_n_nonneg. intros p.
    apply gibbs; try (intros i; now apply coef_weight_pos).
    pose proof (coef_weight_total (coefficient_logits a) p Ha) as Ta.
    pose proof (coef_weight_total (coefficient_logits b) p Hb) as Tb.
    rewrite Sa in Ta. rewrite Sb in Tb. cbn [hd] in Ta, Tb. now rewrite Ta, Tb.
  - apply sum_n_nonneg. intros i. apply sum_n_nonneg. intros e.
    apply Rmult_le_pos; [left; now apply coef_weight_pos|apply kl_elem_nonneg].
Qed.

Lemma upperbound_formula_same (a : mixture) : upperbound_formula a a = 0.
Proof.
  unfold upperbound_formula.
  transitivity (sum_n (length (component_means a)) (fun _ => 0));
    [|apply sum_n_zero].
  apply sum_n_ext. intros i _.
  rewrite (sum_n_ext _ _ (fun _ => 0)) by (intros p _; ring).
  rewrite (sum_n_ext (numel (shape (nth i (component_means a) (scalar 0)))) _
             (fun _ => 0)) by (intros e _; rewrite kl_elem_same; ring).
  rewrite !sum_n_zero. lra.
Qed.

(** The value of [upperbound_kl_mixture_gauss]. *)
Lemma upperbound_value (a b : mixture) (sc : list nat) :
  shape (coefficient_logits a) = length (component_means a) :: sc ->
  shape (coefficient_logits b) = length (component_means a) :: sc ->
  wf (coefficient_logits a) -> wf (coefficient_logits b) ->
  Forall wf (component_means a) -> Forall wf (component_logvars a) ->
  Forall wf (component_means b) -> Forall wf (component_logvars b) ->
  same_shapes (component_means a) (component_logvars a) ->
  same_shapes (component_means a) (component_means b) ->
  same_shapes (component_means a) (component_logvars b) ->
  weights_fit sc (component_means a) ->
  exists r, upperbound_kl_mixture_gauss a b = Ok r
            /\ acc_val r (upperbound_formula a b).
Proof.
  intros Sa Sb Wa Wb Wma Wla Wmb Wlb Sla Smb Slb Hfit.
  destruct a as [lma lla ca], b as [lmb llb cb]. cbn [component_means
    component_logvars coefficient_logits] in *.
  unfold upperbound_kl_mixture_gauss, upperbound_kl_mixture_gauss_with,
    upperbound_formula.
  cbn [component_means component_logvars coefficient_logits].
  set (n := length lma) in *.
  tabulate ca Wa fa. tabulate cb Wb fb. subst.
  cbn [numel fold_right] in *. fold (numel sc) in *.
  rewrite !softmax_dim0_tab. cbn [bind].
  destruct (mixture_loop n sc (softmax0_entry n (numel sc) fa)
              (softmax0_entry n (numel sc) fb) lma lla lmb llb n 0%nat (PyNum 0) 0)
    as (r & E & Hr); try assumption; try (subst n; lia); [now left|].
  exists r. split; [exact E|].
  eapply acc_val_eq; [|exact Hr].
  rewrite Rplus_0_l. cbn [shape tl]. apply sum_n_ext. intros i Hi.
  cbv zeta. cbn [Nat.add]. f_equal.
  - apply sum_n_ext. intros p Hp.
    now rewrite !softmax0_entry_weight.
  - apply sum_n_ext. intros e He. f_equal.
    unfold coef_position. cbn [shape tl].
    apply softmax0_entry_weight; [assumption|].
    destruct (weights_fit_nth sc lma i Hfit Hi) as [-> | Es].
    + cbn. lia.
    + rewrite Es in He. destruct sc; [cbn in *; lia | assumption].
Qed.

(** X13: in exact real arithmetic, on two mixtures with the same number
    of components, coefficient logits of one shape and components of
    matching shapes, the number that [upperbound_kl_mixture_gauss] returns
    is never negative, and it is zero when both mixtures are the same. *)
Theorem upperbound_kl_mixture_gauss_nonneg (a b : mixture) (sc : list nat) :
  shape (coefficient_logits a) = length (component_means a) :: sc ->
  shape (coefficient_logits b) = length (component_means a) :: sc ->
  wf (coefficient_logits a) -> wf (coefficient_logits b) ->
  Forall wf (component_means a) -> Forall wf (component_logvars a) ->
  Forall wf (component_means b) -> Forall wf (component_logvars b) ->
  same_shapes (component_means a) (component_logvars a) ->
  same_shapes (component_means a) (component_means b) ->
  same_shapes (component_means a) (component_logvars b) ->
  weights_fit sc (component_means a) ->
  (exists r x, upperbound_kl_mixture_gauss a b = Ok r /\ acc_val r x /\ 0 <= x)
  /\ (exists r, upperbound_kl_mixture_gauss a a = Ok r /\ acc_val r 0).
Proof.
  intros Sa Sb Wa Wb Wma Wla Wmb Wlb Sla Smb Slb Hfit. split.
  - destruct (upperbound_value a b sc) as (r & E & Hr); try assumption.
    exists r, (upperbound_formula a b). split; [exact E|]. split; [exact Hr|].
    now apply (upperbound_formula_nonneg a b sc).
  - destruct (upperbound_value a a sc) as (r & E & Hr); try assumption;
      try apply same_shapes_refl.
    exists r. split; [exact E|]. now rewrite <- (upperbound_formula_same a).
Qed.

Lemma upperbound_kl_mixture_gauss_nonneg_witness :
  let t := mkT [2%nat] [1; 2] in
  let u := mkT [2%nat] [0; 3] in
  let a := Build_mixture [t; u] [u; t] (mkT [2%nat] [0; 1]) in
  let b := Build_mixture [u; u] [t; t] (mkT [2%nat] [3; 1]) in
  (exists r x, upperbound_kl_mixture_gauss a b = Ok r /\ acc_val r x /\ 0 <= x)
  /\ (exists r, upperbound_kl_mixture_gauss a a = Ok r /\ acc_val r 0).
Proof.
  intros t u a b. apply (upperbound_kl_mixture_gauss_nonneg a b []);
    try reflexivity; repeat constructor.
Defined.

Lemma for_each_ext_in {A St : Type} (l : list A) (body1 body2 : A -> St -> result St)
    (acc : St) :
  (forall x acc', In x l -> body1 x acc' = body2 x acc') ->
  for_each l body1 acc = for_each l body2 acc.
Proof.
  revert acc. induction l as [|x l IH]; intros acc Hb; cbn [for_each]; [reflexivity|].
  rewrite (Hb x acc (or_introl eq_refl)).
  destruct (body2 x acc) as [acc'|e]; cbn [bind]; [|reflexivity].
  apply IH. intros y acc'' Hy. apply Hb. now right.
Qed.

Lemma kl_gauss_is_compute_kl (mean_a logvar_a mean_b logvar_b : Tensor) :
  wf mean_a -> wf logvar_a -> wf mean_b -> wf logvar_b ->
  shape logvar_a = shape mean_a ->
  shape mean_b = shape mean_a ->
  shape logvar_b = shape mean_a ->
  kl_gauss mean_a logvar_a mean_b logvar_b
  = compute_kl mean_a logvar_a mean_b logvar_b false 1 0.0.
Proof.
  intros Wma Wla Wmb Wlb Sla Smb Slb.
  tabulate mean_a Wma fa. tabulate logvar_a Wla ga.
  tabulate mean_b Wmb fb. tabulate logvar_b Wlb gb.
  subst. unfold kl_gauss, compute_kl. rewrite Rneqb_refl.
  tensor_norm. f_equal; f_equal; apply tab_ext; intros j Hj.
  rewrite kl_elem_alt. unfold kl_elem. rewrite exp_minus, exp_Ropp. field.
  apply exp_neq_0.
Qed.

(** X14: in exact real arithmetic, on mixtures with components of
    matching shapes, [upperbound_kl_mixture_gauss] returns what [kl_mixture_gauss] returns
    on the same components with the softmax over dimension 0 of the
    coefficient logits as coefficients, [gauss_mixture] the number of
    components and [lamb = 1]. *)
Theorem upperbound_is_kl_mixture_gauss (a b : mixture) (ca cb : Tensor) :
  softmax (coefficient_logits a) 0 = Ok ca ->
  softmax (coefficient_logits b) 0 = Ok cb ->
  Forall wf (component_means a) -> Forall wf (component_logvars a) ->
  Forall wf (component_means b) -> Forall wf (component_logvars b) ->
  same_shapes (component_means a) (component_logvars a) ->
  same_shapes (component_means a) (component_means b) ->
  same_shapes (component_means a) (component_logvars b) ->
  upperbound_kl_mixture_gauss a b
  = kl_mixture_gauss
      (Build_mixture (component_means a) (component_logvars a) ca)
      (Build_mixture (component_means b) (component_logvars b) cb)
      (Z.of_nat (length (component_means a))) 1.
Proof.
  intros Ea Eb Wma Wla Wmb Wlb Sla Smb Slb.
  unfold upperbound_kl_mixture_gauss, upperbound_kl_mixture_gauss_with,
    kl_mixture_gauss.
  cbn [component_means component_logvars coefficient_logits].
  rewrite Ea, Eb, Nat2Z.id. cbn [bind].
  apply for_each_ext_in. intros i kl Hi. apply in_seq in Hi.
  destruct Hi as [_ Hi]. cbn [Nat.add] in Hi.
  rewrite (nth_getitem (component_means a) i (scalar 0)) by assumption.
  rewrite (nth_getitem (component_logvars a) i (scalar 0))
    by (rewrite (same_shapes_length _ _ Sla); assumption).
  rewrite (nth_getitem (component_means b) i (scalar 0))
    by (rewrite (same_shapes_length _ _ Smb); assumption).
  rewrite (nth_getitem (component_logvars b) i (scalar 0))
    by (rewrite (same_shapes_length _ _ Slb); assumption).
  cbn [bind]. rewrite kl_gauss_is_compute_kl; try reflexivity;
    try (now apply Forall_nth_wf); now apply same_shapes_nth.
Qed.

Lemma upperbound_is_kl_mixture_gauss_witness :
  let t := mkT [2%nat] [1; 2] in
  let u := mkT [2%nat] [0; 3] in
  let a := Build_mixture [t; u] [u; t] (mkT [2%nat] [0; 0]) in
  let c := mkT [2%nat] (tab 2 (softmax0_entry 2 1 (fun j => nth j [0; 0] 0))) in
  upperbound_kl_mixture_gauss a a
  = kl_mixture_gauss (Build_mixture [t; u] [u; t] c) (Build_mixture [t; u] [u; t] c)
      (Z.of_nat 2) 1.
Proof.
  intros t u a c.
  apply (upperbound_is_kl_mixture_gauss a a c c);
    try (exact (softmax_dim0_tab 2 [] (fun j => nth j [0; 0] 0)));
    repeat constructor.
Defined.

Lemma tindex_rows (t : Tensor) : tindex t (hd 0%nat (shape t)) = Raise IndexError.
Proof.
  unfold tindex. destruct (shape t) as [|n rest]; [reflexivity|].
  cbn [hd]. now rewrite Nat.ltb_irrefl.
Qed.

Lemma kl_mixture_loop_raises (coff_a coff_b : Tensor)
    (mean_a var_a mean_b var_b : list Tensor) (lamb : R)
    (len start : nat) (acc : pynum) :
  (start <= hd 0%nat (shape coff_a) < start + len)%nat ->
  exists e,
    for_each (seq start len)
      (fun i kl =>
         kl <- (x <- (tindex coff_a i
                      * (fmap tlog (tindex coff_a i) - fmap tlog (tindex coff_b i)))%T ;;
                iadd kl (tsum x)) ;;
         x <- (tindex coff_a i
               * (ma <- getitem mean_a i ;;
                  va <- getitem var_a i ;;
                  mb <- getitem mean_b i ;;
                  vb <- getitem var_b i ;;
                  compute_kl ma va mb vb false lamb 0.0))%T ;;
         iadd kl (tsum x))
      acc = Raise e.
Proof.
  revert start acc. induction len as [|len IH]; intros start acc Hb; [lia|].
  cbn [seq for_each].
  destruct (Nat.eq_dec start (hd 0%nat (shape coff_a))) as [->|Hne].
  - rewrite tindex_rows. cbn [lift2 bind]. now exists IndexError.
  - match goal with |- exists e, bind ?m _ = _ => destruct m as [acc'|e] end;
      cbn [bind]; [|now exists e].
    apply IH. lia.
Qed.

(** X15: [kl_mixture_gauss] indexes the coefficients by [range(gauss_mixture)]:
    when [gauss_mixture] exceeds the number of rows of the coefficients of
    [distribution_a], the call raises and returns no value. *)
Theorem kl_mixture_gauss_too_few_components (distribution_a distribution_b : mixture)
    (gauss_mixture : Z) (lamb : R) :
  (Z.of_nat (hd 0%nat (shape (coefficient_logits distribution_a)))
   < gauss_mixture)%Z ->
  exists e, kl_mixture_gauss distribution_a distribution_b gauss_mixture lamb = Raise e.
Proof.
  intros Hn. unfold kl_mixture_gauss. apply kl_mixture_loop_raises. lia.
Qed.

Lemma kl_mixture_gauss_too_few_components_witness :
  let t := mkT [2%nat] [1; 2] in
  let a := Build_mixture [t; t] [t; t] (mkT [2%nat] [0.5; 0.5]) in
  exists e, kl_mixture_gauss a a 3 1 = Raise e.
Proof.
  intros t a. apply (kl_mixture_gauss_too_few_components a a 3 1). simpl. lia.
Defined.

(** ** What a call leaves alone *)

Create HintDb framed_functions.

#[export] Hint Resolve framed_decode_and_sample_diag_gauss framed_decode_diag_gauss
  framed_sample_diag_gauss framed_kl_diag_gaussians
  framed_kl_diag_gauss_with_standard_gauss framed_square_wasserstein_2
  framed_kl_radial_bnn_with_diag_gauss framed_sample_gumbel_softmax framed_compute_kl
  framed_kl_mixture_gauss framed_sample_gauss framed_sample_gumbel
  framed_sample_from_gumbel_softmax_trick framed_compute_coef framed_kl_gauss
  framed_upperbound_kl_mixture_gauss : framed_functions.

Section StoreExtras.
Context {G : Type} `{Generator G}.
Abbreviation stateless := (@Py.stateless G).

Ltac stateless_calls :=
  repeat apply conj; intros; apply framed_stateless; intros ?;
  auto with framed_functions.

(** X16: no call of an analytic function of [prob_utils.py] changes a list
    or a tensor storage that existed before the call, or a name of the
    module, whether the call returns or raises: the lists that
    [decode_diag_gauss] and [compute_coef] append to and the accumulators
    that [kl_radial_bnn_with_diag_gauss], [kl_mixture_gauss] and
    [upperbound_kl_mixture_gauss] update in place are objects the call
    made itself. *)
Theorem analytic_functions_stateless :
  (forall mean_a logvar_a mean_b logvar_b,
      stateless (Py.kl_diag_gaussians mean_a logvar_a mean_b logvar_b))
  /\ (forall mean logvar,
        stateless (Py.kl_diag_gauss_with_standard_gauss mean logvar))
  /\ (forall mean_a logvar_a mean_b logvar_b,
        stateless (Py.square_wasserstein_2 mean_a logvar_a mean_b logvar_b))
  /\ (forall mean_a std_a mean_b std_b ce_sample_size generator,
        stateless (Py.kl_radial_bnn_with_diag_gauss mean_a std_a mean_b std_b
                        ce_sample_size generator))
  /\ (forall mean exp_var prior_mean prior_exp_var sum lamb initial_prior_var,
        stateless (Py.compute_kl mean exp_var prior_mean prior_exp_var sum lamb
                        initial_prior_var))
  /\ (forall distribution_a distribution_b gauss_mixture lamb,
        stateless (Py.kl_mixture_gauss distribution_a distribution_b
                        gauss_mixture lamb))
  /\ (forall mean_a logvar_a mean_b logvar_b,
        stateless (Py.kl_gauss mean_a logvar_a mean_b logvar_b))
  /\ (forall mixture_gauss_a mixture_gauss_b,
        stateless (Py.upperbound_kl_mixture_gauss mixture_gauss_a mixture_gauss_b))
  /\ (forall num_component, stateless (Py.compute_coef num_component))
  /\ (forall rho logvar_enc return_var return_logvar,
        stateless (Py.decode_diag_gauss rho logvar_enc return_var return_logvar)).
Proof. stateless_calls. Qed.

(** X17: no call of a sampling function of [prob_utils.py] changes a list
    or a tensor storage that existed before the call, whether the call
    returns or raises; the samples are new tensors in a new list.  The
    six functions that do not warn leave every name of the module as it
    was.  [sample_diag_gaus_from_hnet] and [extract_mean_std] call [warn]
    first, which binds [__warningregistry__] in the module where it was
    not bound: afterwards the names of the module are those that
    [globals.setdefault('__warningregistry__', {})] leaves, so that a name
    that was bound is bound to the value it had. *)
Theorem sampling_functions_stateless :
  (forall mean rho logvar_enc generator is_radial,
      stateless (Py.decode_and_sample_diag_gauss mean rho logvar_enc generator
                      is_radial))
  /\ (forall mean std generator is_radial,
        stateless (Py.sample_diag_gauss mean std generator is_radial))
  /\ (forall hnet_outputs,
        Py.stateless_but_registry (G := G) (Py.sample_diag_gaus_from_hnet hnet_outputs))
  /\ (forall hnet_outputs return_logvar,
        Py.stateless_but_registry (G := G)
          (Py.extract_mean_std hnet_outputs return_logvar))
  /\ (forall x tau, stateless (Py.sample_gumbel_softmax x tau))
  /\ (forall mean rho logvar_enc coef gauss_mixture K d_in d_out is_bias generator
             is_radial,
        stateless (Py.sample_gauss mean rho logvar_enc coef gauss_mixture K d_in
                        d_out is_bias generator is_radial))
  /\ (forall mean rho logvar_enc coef tau gauss_mixture K d_in d_out is_bias
             generator is_radial,
        stateless (Py.sample_gumbel mean rho logvar_enc coef tau gauss_mixture K
                        d_in d_out is_bias generator is_radial))
  /\ (forall mean rho coef tau gauss_mixture K d_in d_out is_bias logvar_enc
             generator is_radial,
        stateless (Py.sample_from_gumbel_softmax_trick mean rho coef tau
                        gauss_mixture K d_in d_out is_bias logvar_enc generator
                        is_radial))
  /\ (forall (names : list (string * Py.value)) k v,
        In (k, v) names ->
        In (k, v) (Py.setdefault "__warningregistry__" Py.VDict names))
  /\ (forall s : @Py.store G,
        Py.module_globals s = [] ->
        Py.module_globals (snd (Py.extract_mean_std (Py.VTuple []) false s))
        = [("__warningregistry__"%string, Py.VDict)]).
Proof.
  split; [stateless_calls|]. split; [stateless_calls|].
  split; [intros; apply registry_sample_diag_gaus_from_hnet|].
  split; [intros; apply registry_extract_mean_std|].
  split; [stateless_calls|]. split; [stateless_calls|].
  split; [stateless_calls|]. split; [stateless_calls|].
  split.
  - intros names k v Hin. unfold Py.setdefault.
    destruct (existsb _ names); [exact Hin|]. apply in_or_app. now left.
  - intros s Hs.
    rewrite (proj2 (registry_extract_mean_std (Py.VTuple []) false s)), Hs.
    reflexivity.
Qed.

(** ** What a call computes, whatever the store *)

Lemma computes_outcome {O : Type}
    (rd : Py.store -> Py.value -> option O) (s : @Py.store G) (m : Py.M Py.value)
    (r : result O) :
  Py.computes rd s m r ->
  Py.outcome rd (m s) = fmap Some r /\ Py.extends s (snd (m s)).
Proof.
  intros Hm. destruct (Hm s (extends_refl s)) as [E Hr]. split; [|exact E].
  unfold Py.outcome. destruct r as [x|e].
  - destruct Hr as (a & -> & ->). reflexivity.
  - now rewrite Hr.
Qed.

(** X18: called on lists or tuples of tensors in any store,
    [kl_diag_gaussians], [kl_diag_gauss_with_standard_gauss] and
    [square_wasserstein_2] raise the exception or return a tensor with the
    value that the contents and the memory layouts of the tensors
    determine, the layout deciding whether [view(-1)] raises
    [RuntimeError]; the generators and the other objects of the store do
    not matter, and every object of the store is afterwards as it was. *)
Theorem divergences_depend_on_contents (s : @Py.store G)
    (mean_a logvar_a mean_b logvar_b : Py.value) (ma la mb lb : list Strided) :
  Py.read_views s mean_a = Some ma -> Py.read_views s logvar_a = Some la ->
  Py.read_views s mean_b = Some mb -> Py.read_views s logvar_b = Some lb ->
  (Py.outcome Py.read_tensor (Py.kl_diag_gaussians mean_a logvar_a mean_b logvar_b s)
   = fmap Some (kl_diag_gaussians ma la mb lb)
   /\ Py.extends s (snd (Py.kl_diag_gaussians mean_a logvar_a mean_b logvar_b s)))
  /\ (Py.outcome Py.read_tensor (Py.kl_diag_gauss_with_standard_gauss mean_a logvar_a s)
      = fmap Some (kl_diag_gauss_with_standard_gauss ma la)
      /\ Py.extends s (snd (Py.kl_diag_gauss_with_standard_gauss mean_a logvar_a s)))
  /\ (Py.outcome Py.read_tensor
        (Py.square_wasserstein_2 mean_a logvar_a mean_b logvar_b s)
      = fmap Some (square_wasserstein_2 ma la mb lb)
      /\ Py.extends s (snd (Py.square_wasserstein_2 mean_a logvar_a mean_b logvar_b s))).
Proof.
  intros Hma Hla Hmb Hlb. split; [|split]; apply computes_outcome.
  - now apply computes_kl_diag_gaussians.
  - now apply computes_kl_diag_gauss_with_standard_gauss.
  - now apply computes_square_wasserstein_2.
Qed.

(** X19: called on tensors in any store, [compute_kl] and [kl_gauss]
    raise the exception or return a tensor with the value that the
    tensors' contents alone determine, whatever the generators and the
    other objects of the store are, and every object of the store is
    afterwards as it was. *)
Theorem tensor_divergences_depend_on_contents
    (s : @Py.store G) (mean_a logvar_a mean_b logvar_b : Py.value)
    (ma la mb lb : Tensor) (sum : bool) (lamb initial_prior_var : R) :
  Py.read_tensor s mean_a = Some ma -> Py.read_tensor s logvar_a = Some la ->
  Py.read_tensor s mean_b = Some mb -> Py.read_tensor s logvar_b = Some lb ->
  (Py.outcome Py.read_tensor
     (Py.compute_kl mean_a logvar_a mean_b logvar_b sum lamb initial_prior_var s)
   = fmap Some (compute_kl ma la mb lb sum lamb initial_prior_var)
   /\ Py.extends s (snd (Py.compute_kl mean_a logvar_a mean_b logvar_b sum lamb
                           initial_prior_var s)))
  /\ (Py.outcome Py.read_tensor (Py.kl_gauss mean_a logvar_a mean_b logvar_b s)
      = fmap Some (kl_gauss ma la mb lb)
      /\ Py.extends s (snd (Py.kl_gauss mean_a logvar_a mean_b logvar_b s))).
Proof.
  intros Hma Hla Hmb Hlb. split; apply computes_outcome.
  - now apply computes_compute_kl.
  - now apply computes_kl_gauss.
Qed.

(** X23: called on two mixtures (lists or tuples that start with the list
    of means, the list of log-variances and the coefficient tensor) in any
    store, [kl_mixture_gauss] and [upperbound_kl_mixture_gauss] raise the
    exception or return the number or tensor that the contents of the
    mixtures alone determine: the accumulator that [kl += ...] writes into
    is a tensor the call made, so that every object of the store is
    afterwards as it was. *)
Theorem mixture_divergences_depend_on_contents (s : @Py.store G)
    (mixture_gauss_a mixture_gauss_b : Py.value) (a b : mixture)
    (gauss_mixture : Z) (lamb : R) :
  Py.read_mixture s mixture_gauss_a = Some a ->
  Py.read_mixture s mixture_gauss_b = Some b ->
  (Py.outcome Py.read_pynum
     (Py.kl_mixture_gauss mixture_gauss_a mixture_gauss_b gauss_mixture lamb s)
   = fmap Some (kl_mixture_gauss a b gauss_mixture lamb)
   /\ Py.extends s (snd (Py.kl_mixture_gauss mixture_gauss_a mixture_gauss_b
                           gauss_mixture lamb s)))
  /\ (Py.outcome Py.read_pynum
        (Py.upperbound_kl_mixture_gauss mixture_gauss_a mixture_gauss_b s)
      = fmap Some (upperbound_kl_mixture_gauss a b)
      /\ Py.extends s (snd (Py.upperbound_kl_mixture_gauss mixture_gauss_a
                              mixture_gauss_b s))).
Proof.
  intros Ha Hb. split; apply computes_outcome.
  - now apply computes_kl_mixture_gauss.
  - now apply computes_upperbound_kl_mixture_gauss.
Qed.

(** X24: in every store and for every integer, [compute_coef] returns and
    does not raise; what it returns is a list object that did not exist
    before the call, it holds the integers of the list computed from
    [num_component] alone, and every object of the store is afterwards as
    it was. *)
Theorem compute_coef_returns_new_list (s : @Py.store G) (num_component : Z) :
  exists l,
    fst (Py.compute_coef num_component s) = Ok (Py.VList l)
    /\ (length (Py.heap s) <= l)%nat
    /\ Py.read_ints (snd (Py.compute_coef num_component s)) (Py.VList l)
       = Some (compute_coef num_component)
    /\ Py.extends s (snd (Py.compute_coef num_component s)).
Proof.
  destruct (compute_coef_run s num_component) as (s' & Hr & E & Hd).
  exists (S (length (Py.heap s))). rewrite Hr. cbn [fst snd].
  repeat split; auto.
Qed.

(** X25: called on a list or tuple of tensors in any store,
    [decode_diag_gauss] raises the exception or returns lists that hold
    the tensors that the contents of [rho] alone determine: one list, or a
    tuple of two or three lists as [return_var] and [return_logvar] ask.
    The lists it appends to are lists the call made, so that every object
    of the store is afterwards as it was. *)
Theorem decode_diag_gauss_depends_on_contents (s : @Py.store G) (rho : Py.value)
    (ts : list Tensor) (logvar_enc return_var return_logvar : bool) :
  Py.read_list s rho = Some ts ->
  Py.outcome Py.read_lists
    (Py.decode_diag_gauss rho logvar_enc return_var return_logvar s)
  = fmap Some (decode_diag_gauss ts logvar_enc return_var return_logvar)
  /\ Py.extends s (snd (Py.decode_diag_gauss rho logvar_enc return_var
                          return_logvar s)).
Proof.
  intros Hrho. apply computes_outcome. now apply computes_decode_diag_gauss.
Qed.

(** ** Every function of the module *)

(** Two calls that compute the same result have the same outcome. *)
Lemma computes_same_outcome {O : Type}
    (rd : Py.store -> Py.value -> option O) (s1 s2 : @Py.store G)
    (m1 m2 : Py.M Py.value) (r : result O) :
  Py.computes rd s1 m1 r -> Py.computes rd s2 m2 r ->
  Py.same_outcome rd (m1 s1) (m2 s2).
Proof.
  intros H1 H2. exists r.
  split; [exact (proj1 (computes_outcome rd s1 m1 r H1))
         |exact (proj1 (computes_outcome rd s2 m2 r H2))].
Qed.

Ltac equal_inputs :=
  repeat match goal with
         | [ E : Py.same_input _ _ _ _ _ |- _ ] => destruct E as (? & ? & ?)
         end.

(** C8 (amended): no call of a function of [prob_utils.py] changes a list
    or a tensor storage that existed before the call, its arguments
    included, whether the call returns or raises.  Sixteen of the eighteen
    functions leave the names of the module as they were;
    [sample_diag_gaus_from_hnet] and [extract_mean_std] call [warn], which
    binds [__warningregistry__] in the module where it was not bound and
    leaves every name that was bound.  The nine analytic functions are
    deterministic: two calls, in whatever stores, on arguments that hold
    the same data raise the same exception or return values that hold the
    same data, where for the three functions that flatten with [view(-1)]
    the data of a tensor are its shape, its entries and its strides. *)
Theorem prob_utils_stateless_and_deterministic :
  ((forall mean rho logvar_enc generator is_radial,
       stateless (Py.decode_and_sample_diag_gauss mean rho logvar_enc generator
                    is_radial))
   /\ (forall rho logvar_enc return_var return_logvar,
         stateless (Py.decode_diag_gauss rho logvar_enc return_var return_logvar))
   /\ (forall mean std generator is_radial,
         stateless (Py.sample_diag_gauss mean std generator is_radial))
   /\ (forall mean_a logvar_a mean_b logvar_b,
         stateless (Py.kl_diag_gaussians mean_a logvar_a mean_b logvar_b))
   /\ (forall mean logvar,
         stateless (Py.kl_diag_gauss_with_standard_gauss mean logvar))
   /\ (forall mean_a logvar_a mean_b logvar_b,
         stateless (Py.square_wasserstein_2 mean_a logvar_a mean_b logvar_b))
   /\ (forall mean_a std_a mean_b std_b ce_sample_size generator,
         stateless (Py.kl_radial_bnn_with_diag_gauss mean_a std_a mean_b std_b
                      ce_sample_size generator))
   /\ (forall x tau, stateless (Py.sample_gumbel_softmax x tau))
   /\ (forall mean exp_var prior_mean prior_exp_var sum lamb initial_prior_var,
         stateless (Py.compute_kl mean exp_var prior_mean prior_exp_var sum lamb
                      initial_prior_var))
   /\ (forall distribution_a distribution_b gauss_mixture lamb,
         stateless (Py.kl_mixture_gauss distribution_a distribution_b
                      gauss_mixture lamb))
   /\ (forall mean rho logvar_enc coef gauss_mixture K d_in d_out is_bias generator
              is_radial,
         stateless (Py.sample_gauss mean rho logvar_enc coef gauss_mixture K d_in
                      d_out is_bias generator is_radial))
   /\ (forall mean rho logvar_enc coef tau gauss_mixture K d_in d_out is_bias
              generator is_radial,
         stateless (Py.sample_gumbel mean rho logvar_enc coef tau gauss_mixture K
                      d_in d_out is_bias generator is_radial))
   /\ (forall mean rho coef tau gauss_mixture K d_in d_out is_bias logvar_enc
              generator is_radial,
         stateless (Py.sample_from_gumbel_softmax_trick mean rho coef tau
                      gauss_mixture K d_in d_out is_bias logvar_enc generator
                      is_radial))
   /\ (forall num_component, stateless (Py.compute_coef num_component))
   /\ (forall mean_a logvar_a mean_b logvar_b,
         stateless (Py.kl_gauss mean_a logvar_a mean_b logvar_b))
   /\ (forall mixture_gauss_a mixture_gauss_b,
         stateless (Py.upperbound_kl_mixture_gauss mixture_gauss_a mixture_gauss_b)))
  /\ ((forall hnet_outputs,
         Py.stateless_but_registry (G := G) (Py.sample_diag_gaus_from_hnet hnet_outputs))
      /\ (forall hnet_outputs return_logvar,
            Py.stateless_but_registry (G := G)
              (Py.extract_mean_std hnet_outputs return_logvar))
      /\ (forall (names : list (string * Py.value)) k v,
            In (k, v) names ->
            In (k, v) (Py.setdefault "__warningregistry__" Py.VDict names)))
  /\ ((forall (s1 s2 : @Py.store G) mean_a logvar_a mean_b logvar_b
              mean_a' logvar_a' mean_b' logvar_b',
         Py.same_input Py.read_views s1 mean_a s2 mean_a' ->
         Py.same_input Py.read_views s1 logvar_a s2 logvar_a' ->
         Py.same_input Py.read_views s1 mean_b s2 mean_b' ->
         Py.same_input Py.read_views s1 logvar_b s2 logvar_b' ->
         Py.same_outcome Py.read_tensor
           (Py.kl_diag_gaussians mean_a logvar_a mean_b logvar_b s1)
           (Py.kl_diag_gaussians mean_a' logvar_a' mean_b' logvar_b' s2))
      /\ (forall (s1 s2 : @Py.store G) mean logvar mean' logvar',
            Py.same_input Py.read_views s1 mean s2 mean' ->
            Py.same_input Py.read_views s1 logvar s2 logvar' ->
            Py.same_outcome Py.read_tensor
              (Py.kl_diag_gauss_with_standard_gauss mean logvar s1)
              (Py.kl_diag_gauss_with_standard_gauss mean' logvar' s2))
      /\ (forall (s1 s2 : @Py.store G) mean_a logvar_a mean_b logvar_b
                 mean_a' logvar_a' mean_b' logvar_b',
            Py.same_input Py.read_views s1 mean_a s2 mean_a' ->
            Py.same_input Py.read_views s1 logvar_a s2 logvar_a' ->
            Py.same_input Py.read_views s1 mean_b s2 mean_b' ->
            Py.same_input Py.read_views s1 logvar_b s2 logvar_b' ->
            Py.same_outcome Py.read_tensor
              (Py.square_wasserstein_2 mean_a logvar_a mean_b logvar_b s1)
              (Py.square_wasserstein_2 mean_a' logvar_a' mean_b' logvar_b' s2))
      /\ (forall (s1 s2 : @Py.store G) mean exp_var prior_mean prior_exp_var
                 mean' exp_var' prior_mean' prior_exp_var' sum lamb
                 initial_prior_var,
            Py.same_input Py.read_tensor s1 mean s2 mean' ->
            Py.same_input Py.read_tensor s1 exp_var s2 exp_var' ->
            Py.same_input Py.read_tensor s1 prior_mean s2 prior_mean' ->
            Py.same_input Py.read_tensor s1 prior_exp_var s2 prior_exp_var' ->
            Py.same_outcome Py.read_tensor
              (Py.compute_kl mean exp_var prior_mean prior_exp_var sum lamb
                 initial_prior_var s1)
              (Py.compute_kl mean' exp_var' prior_mean' prior_exp_var' sum lamb
                 initial_prior_var s2))
      /\ (forall (s1 s2 : @Py.store G) mean_a logvar_a mean_b logvar_b
                 mean_a' logvar_a' mean_b' logvar_b',
            Py.same_input Py.read_tensor s1 mean_a s2 mean_a' ->
            Py.same_input Py.read_tensor s1 logvar_a s2 logvar_a' ->
            Py.same_input Py.read_tensor s1 mean_b s2 mean_b' ->
            Py.same_input Py.read_tensor s1 logvar_b s2 logvar_b' ->
            Py.same_outcome Py.read_tensor
              (Py.kl_gauss mean_a logvar_a mean_b logvar_b s1)
              (Py.kl_gauss mean_a' logvar_a' mean_b' logvar_b' s2))
      /\ (forall (s1 s2 : @Py.store G) distribution_a distribution_b
                 distribution_a' distribution_b' gauss_mixture lamb,
            Py.same_input Py.read_mixture s1 distribution_a s2 distribution_a' ->
            Py.same_input Py.read_mixture s1 distribution_b s2 distribution_b' ->
            Py.same_outcome Py.read_pynum
              (Py.kl_mixture_gauss distribution_a distribution_b gauss_mixture
                 lamb s1)
              (Py.kl_mixture_gauss distribution_a' distribution_b' gauss_mixture
                 lamb s2))
      /\ (forall (s1 s2 : @Py.store G) mixture_gauss_a mixture_gauss_b
                 mixture_gauss_a' mixture_gauss_b',
            Py.same_input Py.read_mixture s1 mixture_gauss_a s2 mixture_gauss_a' ->
            Py.same_input Py.read_mixture s1 mixture_gauss_b s2 mixture_gauss_b' ->
            Py.same_outcome Py.read_pynum
              (Py.upperbound_kl_mixture_gauss mixture_gauss_a mixture_gauss_b s1)
              (Py.upperbound_kl_mixture_gauss mixture_gauss_a' mixture_gauss_b' s2))
      /\ (forall (s1 s2 : @Py.store G) num_component,
            Py.same_outcome Py.read_ints (Py.compute_coef num_component s1)
              (Py.compute_coef num_component s2))
      /\ (forall (s1 s2 : @Py.store G) rho rho' logvar_enc return_var
                 return_logvar,
            Py.same_input Py.read_list s1 rho s2 rho' ->
            Py.same_outcome Py.read_lists
              (Py.decode_diag_gauss rho logvar_enc return_var return_logvar s1)
              (Py.decode_diag_gauss rho' logvar_enc return_var return_logvar s2))).
Proof.
  split; [stateless_calls|]. split.
  - split; [intros; apply registry_sample_diag_gaus_from_hnet|].
    split; [intros; apply registry_extract_mean_std|].
    intros names k v Hin. unfold Py.setdefault.
    destruct (existsb _ names); [exact Hin|]. apply in_or_app. now left.
  - repeat apply conj; intros; equal_inputs.
    + eapply computes_same_outcome; apply computes_kl_diag_gaussians; eassumption.
    + eapply computes_same_outcome;
        apply computes_kl_diag_gauss_with_standard_gauss; eassumption.
    + eapply computes_same_outcome; apply computes_square_wasserstein_2; eassumption.
    + eapply computes_same_outcome; apply computes_compute_kl; eassumption.
    + eapply computes_same_outcome; apply computes_kl_gauss; eassumption.
    + eapply computes_same_outcome; apply computes_kl_mixture_gauss; eassumption.
    + eapply computes_same_outcome;
        apply computes_upperbound_kl_mixture_gauss; eassumption.
    + exists (Ok (compute_coef num_component)). unfold Py.outcome.
      destruct (compute_coef_run s1 num_component) as (s1' & E1 & _ & R1).
      destruct (compute_coef_run s2 num_component) as (s2' & E2 & _ & R2).
      rewrite E1, E2. cbn [fst snd fmap]. rewrite R1, R2. split; reflexivity.
    + eapply computes_same_outcome; apply computes_decode_diag_gauss; eassumption.
Qed.
End StoreExtras.

Lemma prob_utils_stateless_and_deterministic_witness :
  let g := mkTape (fun _ => 1) 0 in
  let h := Py.VTensor (Py.mkHandle 0%nat [] [2%nat] Py.Dense) in
  let h' := Py.VTensor (Py.mkHandle 1%nat [] [2%nat] Py.Dense) in
  let s1 := Py.mkStore [Py.OStorage [1; 2]; Py.OList [h]]
              [("conditions"%string, Py.VNone)] g [] [] [] in
  let s2 := Py.mkStore [Py.OList [h']; Py.OStorage [1; 2]] [] g [] [] [] in
  Py.same_outcome Py.read_tensor (Py.kl_gauss h h h h s1) (Py.kl_gauss h' h' h' h' s2)
  /\ Py.same_outcome Py.read_tensor
       (Py.kl_diag_gaussians (Py.VList 1%nat) (Py.VList 1%nat) (Py.VList 1%nat)
          (Py.VList 1%nat) s1)
       (Py.kl_diag_gaussians (Py.VList 0%nat) (Py.VList 0%nat) (Py.VList 0%nat)
          (Py.VList 0%nat) s2)
  /\ In ("conditions"%string, Py.VNone)
       (Py.setdefault "__warningregistry__" Py.VDict (Py.module_globals s1)).
Proof.
  intros g h h' s1 s2.
  destruct (@prob_utils_stateless_and_deterministic Tape _)
    as (_ & (_ & _ & Hin) & Hkl & _ & _ & _ & Hg & _).
  split; [|split].
  - apply Hg; (eexists; split; reflexivity).
  - apply Hkl; (eexists; split; reflexivity).
  - apply Hin. now left.
Defined.

(** C8 as stated fails in three ways.  A call of [extract_mean_std]
    returns and leaves the name [__warningregistry__] bound in a module
    in which no name was bound: a module-level state has changed.  A call
    of [sample_diag_gauss] without a generator leaves the default
    generator of [torch], which is shared by all callers, seven draws
    further.  And [kl_diag_gauss_with_standard_gauss] returns on a list
    that holds a contiguous tensor and raises [RuntimeError] on a list
    that holds a transposed tensor with the same shape and the same
    entries: two calls with arguments that compare equal entry by entry
    do not give equal results. *)
Lemma prob_utils_calls_change_state :
  let g := mkTape (fun _ => 1) 0 in
  let t := Py.VTensor (Py.mkHandle 0%nat [] [3%nat; 2%nat] Py.Dense) in
  let u := Py.VTensor (Py.mkHandle 1%nat [] [3%nat; 2%nat]
                         (Py.Strides 0 [1%nat; 3%nat])) in
  let s := Py.mkStore [Py.OStorage [1; 4; 2; 5; 3; 6]; Py.OStorage [1; 2; 3; 4; 5; 6];
                       Py.OList [t]; Py.OList [u]]
             [] g [] [] [] in
  (fst (Py.extract_mean_std (Py.VTuple []) false s)
   = Ok (Py.VTuple [Py.VTuple []; Py.VList 4%nat])
   /\ Py.module_globals s = []
   /\ Py.module_globals (snd (Py.extract_mean_std (Py.VTuple []) false s))
      = [("__warningregistry__"%string, Py.VDict)])
  /\ (Py.default_generator s = g
      /\ Py.default_generator
           (snd (Py.sample_diag_gauss (Py.VList 2%nat) (Py.VList 2%nat) Py.VNone true s))
         = mkTape (fun _ => 1) 7%nat)
  /\ (Py.read_list s (Py.VList 2%nat) = Py.read_list s (Py.VList 3%nat)
      /\ Py.read_list s (Py.VList 2%nat)
         = Some [mkT [3%nat; 2%nat] [1; 4; 2; 5; 3; 6]]
      /\ (exists v,
            fst (Py.kl_diag_gauss_with_standard_gauss (Py.VList 2%nat) (Py.VList 2%nat) s)
            = Ok v)
      /\ fst (Py.kl_diag_gauss_with_standard_gauss (Py.VList 3%nat) (Py.VList 3%nat) s)
         = Raise RuntimeError).
Proof.
  intros g t u s. split; [|split].
  - split; [vm_compute; reflexivity|]. split; [reflexivity|]. vm_compute. reflexivity.
  - split; vm_compute; reflexivity.
  - split; [vm_compute; reflexivity|]. split; [vm_compute; reflexivity|]. split.
    + vm_compute. eexists. reflexivity.
    + vm_compute. reflexivity.
Qed.

Lemma sampling_functions_stateless_witness :
  let s := Py.mkStore [] [("conditions"%string, Py.VNone)] (mkTape (fun _ => 1) 0)
             [] [] [] in
  In ("conditions"%string, Py.VNone)
    (Py.setdefault "__warningregistry__" Py.VDict (Py.module_globals s))
  /\ Py.module_globals
       (snd (Py.extract_mean_std (Py.VTuple []) false
               (Py.mkStore [] [] (mkTape (fun _ => 1) 0) [] [] [])))
     = [("__warningregistry__"%string, Py.VDict)].
Proof.
  intros s.
  destruct (@sampling_functions_stateless Tape _)
    as (_ & _ & _ & _ & _ & _ & _ & _ & Hin & Hreg).
  split.
  - apply Hin. now left.
  - apply Hreg. reflexivity.
Defined.

Lemma mixture_divergences_depend_on_contents_witness :
  let s := Py.mkStore
             [Py.OStorage [1; 2]; Py.OList [Py.VTensor (Py.mkHandle 0%nat [] [2%nat] Py.Dense)]]
             [] (mkTape (fun _ => 1) 0) [] [] [] in
  let v := Py.VTuple [Py.VList 1%nat; Py.VList 1%nat;
                      Py.VTensor (Py.mkHandle 0%nat [] [2%nat] Py.Dense)] in
  let t := mkT [2%nat] [1; 2] in
  let a := Build_mixture [t] [t] t in
  (Py.outcome Py.read_pynum (Py.kl_mixture_gauss v v 1 1 s)
   = fmap Some (kl_mixture_gauss a a 1 1)
   /\ Py.extends s (snd (Py.kl_mixture_gauss v v 1 1 s)))
  /\ (Py.outcome Py.read_pynum (Py.upperbound_kl_mixture_gauss v v s)
      = fmap Some (upperbound_kl_mixture_gauss a a)
      /\ Py.extends s (snd (Py.upperbound_kl_mixture_gauss v v s))).
Proof.
  intros s v t a. apply (mixture_divergences_depend_on_contents s v v a a 1 1);
    reflexivity.
Defined.

Lemma decode_diag_gauss_depends_on_contents_witness :
  let s := Py.mkStore
             [Py.OStorage [1; 2]; Py.OList [Py.VTensor (Py.mkHandle 0%nat [] [2%nat] Py.Dense)]]
             [] (mkTape (fun _ => 1) 0) [] [] [] in
  let rho := Py.VList 1%nat in
  let ts := [mkT [2%nat] [1; 2]] in
  Py.outcome Py.read_lists (Py.decode_diag_gauss rho true true true s)
  = fmap Some (decode_diag_gauss ts true true true)
  /\ Py.extends s (snd (Py.decode_diag_gauss rho true true true s)).
Proof.
  intros s rho ts.
  apply (decode_diag_gauss_depends_on_contents s rho ts true true true).
  reflexivity.
Defined.

Lemma divergences_depend_on_contents_witness :
  let transposed := Py.VTensor (Py.mkHandle 0%nat [] [3%nat; 2%nat]
                                  (Py.Strides 0 [1%nat; 3%nat])) in
  let s := Py.mkStore
             [Py.OStorage [1; 2; 3; 4; 5; 6];
              Py.OList [Py.VTensor (Py.mkHandle 0%nat [] [6%nat] Py.Dense)];
              Py.OList [transposed]]
             [] (mkTape (fun _ => 1) 0) [] [] [] in
  let v := Py.VList 1%nat in
  let w := Py.VList 2%nat in
  let c := [contiguous (mkT [6%nat] [1; 2; 3; 4; 5; 6])] in
  let t := [mkStrided (mkT [3%nat; 2%nat] [1; 4; 2; 5; 3; 6]) [1%nat; 3%nat]] in
  (Py.outcome Py.read_tensor (Py.kl_diag_gaussians v v w v s)
   = fmap Some (kl_diag_gaussians c c t c)
   /\ Py.extends s (snd (Py.kl_diag_gaussians v v w v s)))
  /\ (Py.outcome Py.read_tensor (Py.kl_diag_gauss_with_standard_gauss v v s)
      = fmap Some (kl_diag_gauss_with_standard_gauss c c)
      /\ Py.extends s (snd (Py.kl_diag_gauss_with_standard_gauss v v s)))
  /\ (Py.outcome Py.read_tensor (Py.square_wasserstein_2 v v w v s)
      = fmap Some (square_wasserstein_2 c c t c)
      /\ Py.extends s (snd (Py.square_wasserstein_2 v v w v s))).
Proof.
  intros transposed s v w c t.
  apply (divergences_depend_on_contents s v v w v c c t c); reflexivity.
Defined.

Lemma tensor_divergences_depend_on_contents_witness :
  let s := Py.mkStore [Py.OStorage [1; 2]] [] (mkTape (fun _ => 1) 0) [] [] [] in
  let v := Py.VTensor (Py.mkHandle 0%nat [] [2%nat] Py.Dense) in
  let t := mkT [2%nat] [1; 2] in
  (Py.outcome Py.read_tensor (Py.compute_kl v v v v true 1 0 s)
   = fmap Some (compute_kl t t t t true 1 0)
   /\ Py.extends s (snd (Py.compute_kl v v v v true 1 0 s)))
  /\ (Py.outcome Py.read_tensor (Py.kl_gauss v v v v s)
      = fmap Some (kl_gauss t t t t)
      /\ Py.extends s (snd (Py.kl_gauss v v v v s))).
Proof.
  intros s v t.
  apply (tensor_divergences_depend_on_contents s v v v v t t t t true 1 0);
    reflexivity.
Defined.

(** ** Which generators a call draws from *)

Section Generators.
Context {G : Type} `{Generator G}.
Notation "x <<- m ;; k" := (Py.mbind m (fun x => k))
  (at level 61, m at next level, right associativity).
Abbreviation store := (@Py.store G).
Abbreviation M := (@Py.M G).
Abbreviation keeps := (@Py.keeps G).
Abbreviation same_generators := (@Py.same_generators G).

Section Keeps.
Variable Rel : store -> store -> Prop.
Variable drawn_from : Py.value -> Prop.
Hypothesis Rel_refl : forall s, Rel s s.
Hypothesis Rel_trans : forall s1 s2 s3, Rel s1 s2 -> Rel s2 s3 -> Rel s1 s3.
Hypothesis Rel_same : forall s s', same_generators s s' -> Rel s s'.
Hypothesis Rel_draw :
  forall (A : Type) (gen : Py.value) (d : G -> A * G),
    drawn_from gen -> keeps Rel (Py.with_generator gen d).

Lemma keeps_ret {A : Type} (a : A) : keeps Rel (Py.ret a).
Proof. intros s. apply Rel_refl. Qed.

Lemma keeps_raise {A : Type} (e : exn) : keeps Rel (@Py.raise G A e).
Proof. intros s. apply Rel_refl. Qed.

Lemma keeps_lift_result {A : Type} (r : result A) : keeps Rel (Py.lift_result r).
Proof. intros s. apply Rel_refl. Qed.

Lemma keeps_bind {A B : Type} (m : M A) (k : A -> M B) :
  keeps Rel m -> (forall a, keeps Rel (k a)) -> keeps Rel (x <<- m ;; k x).
Proof.
  intros Hm Hk s. unfold Py.mbind. specialize (Hm s).
  destruct (m s) as [[a|e] s1]; cbn [snd] in *; [|exact Hm].
  eapply Rel_trans; [exact Hm|apply Hk].
Qed.

Lemma keeps_alloc (o : Py.object) : keeps Rel (Py.alloc o).
Proof. intros s. apply Rel_same. split; reflexivity. Qed.

Lemma keeps_lookup (l : Py.addr) : keeps Rel (Py.lookup l).
Proof.
  intros s. unfold Py.lookup. destruct (nth_error (Py.heap s) l); apply Rel_refl.
Qed.

Lemma keeps_update (l : Py.addr) (o : Py.object) : keeps Rel (Py.update l o).
Proof. intros s. apply Rel_same. split; reflexivity. Qed.

Lemma keeps_load (v : Py.value) : keeps Rel (Py.load v).
Proof.
  intros s. unfold Py.load. destruct (Py.read_tensor s v); apply Rel_refl.
Qed.

Lemma keeps_warn (msg : string) : keeps Rel (Py.warn msg).
Proof. intros s. apply Rel_same. split; reflexivity. Qed.

Lemma keeps_print (line : string) : keeps Rel (Py.print line).
Proof. intros s. apply Rel_same. split; reflexivity. Qed.

Lemma keeps_for_in {A St : Type} (l : list A) (body : A -> St -> M St) (acc : St) :
  (forall x a, keeps Rel (body x a)) -> keeps Rel (Py.for_in l body acc).
Proof.
  intros Hb. revert acc. induction l as [|x l IH]; intros acc; cbn [Py.for_in].
  - apply keeps_ret.
  - apply keeps_bind; [apply Hb|exact IH].
Qed.

Lemma keeps_map_in {A B : Type} (f : A -> M B) (l : list A) :
  (forall x, keeps Rel (f x)) -> keeps Rel (Py.map_in f l).
Proof.
  intros Hf. induction l as [|x l IH]; cbn [Py.map_in].
  - apply keeps_ret.
  - apply keeps_bind; [apply Hf|]. intros y.
    apply keeps_bind; [exact IH|]. intros ys. apply keeps_ret.
Qed.

Lemma keeps_for_in_return {A : Type} (l : list nat) (body : nat -> M (option A))
    (after : M A) :
  (forall i, keeps Rel (body i)) -> keeps Rel after ->
  keeps Rel (Py.for_in_return l body after).
Proof.
  intros Hb Ha. induction l as [|i l IH]; cbn [Py.for_in_return]; [exact Ha|].
  apply keeps_bind; [apply Hb|]. intros [v|]; [apply keeps_ret|exact IH].
Qed.

Ltac keep :=
  cbv beta zeta;
  lazymatch goal with
  | |- Py.keeps _ (Py.mbind _ _) => apply keeps_bind; [ keep | intros ?; keep ]
  | |- Py.keeps _ (Py.ret _) => apply keeps_ret
  | |- Py.keeps _ (Py.raise _) => apply keeps_raise
  | |- Py.keeps _ (Py.lift_result _) => apply keeps_lift_result
  | |- Py.keeps _ (Py.alloc _) => apply keeps_alloc
  | |- Py.keeps _ (Py.lookup _) => apply keeps_lookup
  | |- Py.keeps _ (Py.update _ _) => apply keeps_update
  | |- Py.keeps _ (Py.load _) => apply keeps_load
  | |- Py.keeps _ (Py.warn _) => apply keeps_warn
  | |- Py.keeps _ (Py.print _) => apply keeps_print
  | |- Py.keeps _ (Py.with_generator _ _) => apply Rel_draw; assumption
  | |- Py.keeps _ (Py.for_in _ _ _) => apply keeps_for_in; intros ? ?; keep
  | |- Py.keeps _ (Py.map_in _ _) => apply keeps_map_in; intros ?; keep
  | |- Py.keeps _ (Py.for_in_return _ _ _) =>
      apply keeps_for_in_return; [ intros ?; keep | keep ]
  | |- Py.keeps _ (if ?c then _ else _) => destruct c; keep
  | |- Py.keeps _ (match ?x with _ => _ end) => destruct x; keep
  | |- Py.keeps _ (Py.new_list _) => unfold Py.new_list; keep
  | |- Py.keeps _ (Py.list_items _) => unfold Py.list_items; keep
  | |- Py.keeps _ (Py.append _ _) => unfold Py.append; keep
  | |- Py.keeps _ (Py.new_tensor _) => unfold Py.new_tensor; keep
  | |- Py.keeps _ (Py.torch1 _ _) => unfold Py.torch1; keep
  | |- Py.keeps _ (Py.torch1r _ _) => unfold Py.torch1r; keep
  | |- Py.keeps _ (Py.torch2 _ _ _) => unfold Py.torch2; keep
  | |- Py.keeps _ (Py.view_flat _) => unfold Py.view_flat; keep
  | |- Py.keeps _ (Py.unsqueeze _ _) => unfold Py.unsqueeze; keep
  | |- Py.keeps _ (Py.getitem _ _) => unfold Py.getitem; keep
  | |- Py.keeps _ (Py.len _) => unfold Py.len; keep
  | |- Py.keeps _ (Py.slice_from _ _) => unfold Py.slice_from; keep
  | |- Py.keeps _ (Py.slice_to _ _) => unfold Py.slice_to; keep
  | |- Py.keeps _ (Py.store_tensor _ _) => unfold Py.store_tensor; keep
  | |- Py.keeps _ (Py.iadd _ _) => unfold Py.iadd; keep
  | |- Py.keeps _ (Py.idiv _ _) => unfold Py.idiv; keep
  | |- Py.keeps _ (Py.normal_like _ _) => unfold Py.normal_like; keep
  | |- Py.keeps _ (Py.normal_scalar _) => unfold Py.normal_scalar; keep
  | |- Py.keeps _ (Py.normal_size _ _) => unfold Py.normal_size; keep
  | |- Py.keeps _ (Py.torch_rand _) => unfold Py.torch_rand; keep
  | |- Py.keeps _ (Py.iter_items _) => unfold Py.iter_items; keep
  | |- Py.keeps _ (Py.torch_cat _) => unfold Py.torch_cat; keep
  | |- Py.keeps _ (Py.flat_views _) => unfold Py.flat_views; keep
  | |- Py.keeps _ (Py.new_Normal _ _) => unfold Py.new_Normal; keep
  | |- Py.keeps _ (Py.Normal_log_prob _ _) => unfold Py.Normal_log_prob; keep
  | |- Py.keeps _ (Py.Normal_rsample _) => unfold Py.Normal_rsample; keep
  | |- Py.keeps _ (Py.sub_value _ _) => unfold Py.sub_value; keep
  | |- Py.keeps _ (Py.sample_diag_gauss _ _ _ _) => unfold Py.sample_diag_gauss; keep
  | |- Py.keeps _ (Py.compute_kl _ _ _ _ _ _ _) => unfold Py.compute_kl; keep
  | |- Py.keeps _ (Py.kl_gauss _ _ _ _) => unfold Py.kl_gauss; keep
  | |- Py.keeps _ (Py.compute_coef _) => unfold Py.compute_coef; keep
  | |- Py.keeps _ (Py.sample_gauss _ _ _ _ _ _ _ _ _ _ _) =>
      unfold Py.sample_gauss; keep
  end.

Lemma keeps_kl_diag_gaussians (mean_a logvar_a mean_b logvar_b : Py.value) :
  keeps Rel (Py.kl_diag_gaussians mean_a logvar_a mean_b logvar_b).
Proof. unfold Py.kl_diag_gaussians. keep. Qed.

Lemma keeps_kl_diag_gauss_with_standard_gauss (mean logvar : Py.value) :
  keeps Rel (Py.kl_diag_gauss_with_standard_gauss mean logvar).
Proof. unfold Py.kl_diag_gauss_with_standard_gauss. keep. Qed.

Lemma keeps_square_wasserstein_2 (mean_a logvar_a mean_b logvar_b : Py.value) :
  keeps Rel (Py.square_wasserstein_2 mean_a logvar_a mean_b logvar_b).
Proof. unfold Py.square_wasserstein_2. keep. Qed.

Lemma keeps_compute_kl (mean exp_var prior_mean prior_exp_var : Py.value)
    (sum : bool) (lamb initial_prior_var : R) :
  keeps Rel (Py.compute_kl mean exp_var prior_mean prior_exp_var sum lamb
             initial_prior_var).
Proof. keep. Qed.

Lemma keeps_kl_gauss (mean_a logvar_a mean_b logvar_b : Py.value) :
  keeps Rel (Py.kl_gauss mean_a logvar_a mean_b logvar_b).
Proof. keep. Qed.

Lemma keeps_kl_mixture_gauss (distribution_a distribution_b : Py.value)
    (gauss_mixture : Z) (lamb : R) :
  keeps Rel (Py.kl_mixture_gauss distribution_a distribution_b gauss_mixture lamb).
Proof. unfold Py.kl_mixture_gauss. keep. Qed.

Lemma keeps_upperbound_kl_mixture_gauss (mixture_gauss_a mixture_gauss_b : Py.value) :
  keeps Rel (Py.upperbound_kl_mixture_gauss mixture_gauss_a mixture_gauss_b).
Proof. unfold Py.upperbound_kl_mixture_gauss. keep. Qed.

Lemma keeps_compute_coef (num_component : Z) : keeps Rel (Py.compute_coef num_component).
Proof. keep. Qed.

Lemma keeps_decode_diag_gauss (rho : Py.value)
    (logvar_enc return_var return_logvar : bool) :
  keeps Rel (Py.decode_diag_gauss rho logvar_enc return_var return_logvar).
Proof. unfold Py.decode_diag_gauss. keep. Qed.

Lemma keeps_extract_mean_std (hnet_outputs : Py.value) (return_logvar : bool) :
  keeps Rel (Py.extract_mean_std hnet_outputs return_logvar).
Proof. unfold Py.extract_mean_std. keep. Qed.

Lemma keeps_decode_and_sample_diag_gauss (mean rho : Py.value) (logvar_enc : bool)
    (generator : Py.value) (is_radial : bool) :
  drawn_from generator ->
  keeps Rel (Py.decode_and_sample_diag_gauss mean rho logvar_enc generator is_radial).
Proof. intros Hg. unfold Py.decode_and_sample_diag_gauss. keep. Qed.

Lemma keeps_sample_diag_gauss (mean std generator : Py.value) (is_radial : bool) :
  drawn_from generator ->
  keeps Rel (Py.sample_diag_gauss mean std generator is_radial).
Proof. intros Hg. keep. Qed.

Lemma keeps_kl_radial_bnn_with_diag_gauss (mean_a std_a mean_b std_b : Py.value)
    (ce_sample_size : Z) (generator : Py.value) :
  drawn_from generator ->
  keeps Rel (Py.kl_radial_bnn_with_diag_gauss mean_a std_a mean_b std_b
             ce_sample_size generator).
Proof. intros Hg. unfold Py.kl_radial_bnn_with_diag_gauss. keep. Qed.

Lemma keeps_sample_gauss (mean rho : Py.value) (logvar_enc : bool)
    (coef : Py.value) (gauss_mixture K d_in d_out : nat) (is_bias : bool)
    (generator : Py.value) (is_radial : bool) :
  drawn_from generator ->
  keeps Rel (Py.sample_gauss mean rho logvar_enc coef gauss_mixture K d_in d_out
             is_bias generator is_radial).
Proof. intros Hg. keep. Qed.

Lemma keeps_sample_from_gumbel_softmax_trick (mean rho coef : Py.value) (tau : R)
    (gauss_mixture K d_in d_out : nat) (is_bias logvar_enc : bool)
    (generator : Py.value) (is_radial : bool) :
  drawn_from generator ->
  keeps Rel (Py.sample_from_gumbel_softmax_trick mean rho coef tau gauss_mixture K
             d_in d_out is_bias logvar_enc generator is_radial).
Proof. intros Hg. unfold Py.sample_from_gumbel_softmax_trick. keep. Qed.

Lemma keeps_sample_gumbel (mean rho : Py.value) (logvar_enc : bool)
    (coef : Py.value) (tau : R) (gauss_mixture K d_in d_out : nat) (is_bias : bool)
    (generator : Py.value) (is_radial : bool) :
  drawn_from Py.VNone ->
  keeps Rel (Py.sample_gumbel mean rho logvar_enc coef tau gauss_mixture K d_in
             d_out is_bias generator is_radial).
Proof. intros Hg. unfold Py.sample_gumbel. keep. Qed.

Lemma keeps_sample_gumbel_softmax (x : Py.value) (tau : R) :
  drawn_from Py.VNone -> keeps Rel (Py.sample_gumbel_softmax x tau).
Proof. intros Hg. unfold Py.sample_gumbel_softmax. keep. Qed.

Lemma keeps_sample_diag_gaus_from_hnet (hnet_outputs : Py.value) :
  drawn_from Py.VNone -> keeps Rel (Py.sample_diag_gaus_from_hnet hnet_outputs).
Proof. intros Hg. unfold Py.sample_diag_gaus_from_hnet. keep. Qed.
End Keeps.

Abbreviation same_generators_but := (@Py.same_generators_but G).
Abbreviation same_generator_objects := (@Py.same_generator_objects G).

Lemma same_generators_refl (s : store) : same_generators s s.
Proof. split; reflexivity. Qed.

Lemma same_generators_trans (s1 s2 s3 : store) :
  same_generators s1 s2 -> same_generators s2 s3 -> same_generators s1 s3.
Proof. intros [D1 G1] [D2 G2]. split; congruence. Qed.

Lemma same_generators_but_trans (i : nat) (s1 s2 s3 : store) :
  same_generators_but i s1 s2 -> same_generators_but i s2 s3 ->
  same_generators_but i s1 s3.
Proof.
  intros [D1 G1] [D2 G2]. split; [congruence|].
  intros j Hj. now rewrite G2, G1.
Qed.

Lemma same_generators_but_draw (i : nat) (A : Type) (gen : Py.value)
    (d : G -> A * G) :
  gen = Py.VGenerator i -> keeps (same_generators_but i) (Py.with_generator gen d).
Proof.
  intros -> s. unfold Py.with_generator.
  destruct (nth_error (Py.generators s) i) as [g|]; [|split; reflexivity].
  destruct (d g) as [a g']. split; [reflexivity|].
  intros j Hj. cbn [snd Py.set_generators Py.generators].
  apply nth_error_replace_nth_other. congruence.
Qed.

Lemma same_generator_objects_draw (A : Type) (gen : Py.value) (d : G -> A * G) :
  gen = Py.VNone -> keeps same_generator_objects (Py.with_generator gen d).
Proof.
  intros -> s. unfold Py.with_generator.
  destruct (d (Py.default_generator s)) as [a g']. reflexivity.
Qed.

Lemma same_generators_but_refl (i : nat) (s : store) : same_generators_but i s s.
Proof. split; reflexivity. Qed.

Lemma same_generators_but_same (i : nat) (s s' : store) :
  same_generators s s' -> same_generators_but i s s'.
Proof. intros [D E]. split; [exact D|]. intros j _. now rewrite E. Qed.

Lemma same_generator_objects_trans (s1 s2 s3 : store) :
  same_generator_objects s1 s2 -> same_generator_objects s2 s3 ->
  same_generator_objects s1 s3.
Proof. unfold Py.same_generator_objects. congruence. Qed.

Lemma same_generator_objects_same (s s' : store) :
  same_generators s s' -> same_generator_objects s s'.
Proof. now intros [_ E]. Qed.

Ltac draws_nothing lemma :=
  apply lemma;
  solve [ exact same_generators_refl | exact same_generators_trans
        | intros ? ? E; exact E ].

Ltac draws_from_object i lemma :=
  apply lemma with (drawn_from := fun gen => gen = Py.VGenerator i);
  solve [ exact (same_generators_but_refl i) | exact (same_generators_but_trans i)
        | exact (same_generators_but_same i) | exact (same_generators_but_draw i)
        | reflexivity ].

Ltac draws_from_default lemma :=
  apply lemma with (drawn_from := fun gen => gen = Py.VNone);
  solve [ intros ?; reflexivity | exact same_generator_objects_trans
        | exact same_generator_objects_same | exact same_generator_objects_draw
        | reflexivity ].

(** X20: the analytic functions of [prob_utils.py], [decode_diag_gauss]
    and [extract_mean_std] draw no random number: after the call the
    default generator and every generator object are in the state they
    were in, whether the call returns or raises. *)
Theorem analytic_functions_draw_nothing :
  (forall mean_a logvar_a mean_b logvar_b,
      keeps same_generators (Py.kl_diag_gaussians mean_a logvar_a mean_b logvar_b))
  /\ (forall mean logvar,
        keeps same_generators (Py.kl_diag_gauss_with_standard_gauss mean logvar))
  /\ (forall mean_a logvar_a mean_b logvar_b,
        keeps same_generators
          (Py.square_wasserstein_2 mean_a logvar_a mean_b logvar_b))
  /\ (forall mean exp_var prior_mean prior_exp_var sum lamb initial_prior_var,
        keeps same_generators
          (Py.compute_kl mean exp_var prior_mean prior_exp_var sum lamb
             initial_prior_var))
  /\ (forall mean_a logvar_a mean_b logvar_b,
        keeps same_generators (Py.kl_gauss mean_a logvar_a mean_b logvar_b))
  /\ (forall distribution_a distribution_b gauss_mixture lamb,
        keeps same_generators
          (Py.kl_mixture_gauss distribution_a distribution_b gauss_mixture lamb))
  /\ (forall mixture_gauss_a mixture_gauss_b,
        keeps same_generators
          (Py.upperbound_kl_mixture_gauss mixture_gauss_a mixture_gauss_b))
  /\ (forall num_component, keeps same_generators (Py.compute_coef num_component))
  /\ (forall rho logvar_enc return_var return_logvar,
        keeps same_generators
          (Py.decode_diag_gauss rho logvar_enc return_var return_logvar))
  /\ (forall hnet_outputs return_logvar,
        keeps same_generators (Py.extract_mean_std hnet_outputs return_logvar)).
Proof.
  repeat apply conj; intros.
  - draws_nothing keeps_kl_diag_gaussians.
  - draws_nothing keeps_kl_diag_gauss_with_standard_gauss.
  - draws_nothing keeps_square_wasserstein_2.
  - draws_nothing keeps_compute_kl.
  - draws_nothing keeps_kl_gauss.
  - draws_nothing keeps_kl_mixture_gauss.
  - draws_nothing keeps_upperbound_kl_mixture_gauss.
  - draws_nothing keeps_compute_coef.
  - draws_nothing keeps_decode_diag_gauss.
  - draws_nothing keeps_extract_mean_std.
Qed.

(** X21: given a generator object, [decode_and_sample_diag_gauss],
    [sample_diag_gauss], [kl_radial_bnn_with_diag_gauss] and [sample_gauss]
    draw from that generator only: the default generator and every other
    generator object are afterwards in the state they were in. *)
Theorem explicit_generator_is_the_only_one_used (i : nat) :
  (forall mean rho logvar_enc is_radial,
      keeps (same_generators_but i)
        (Py.decode_and_sample_diag_gauss mean rho logvar_enc (Py.VGenerator i)
           is_radial))
  /\ (forall mean std is_radial,
        keeps (same_generators_but i)
          (Py.sample_diag_gauss mean std (Py.VGenerator i) is_radial))
  /\ (forall mean_a std_a mean_b std_b ce_sample_size,
        keeps (same_generators_but i)
          (Py.kl_radial_bnn_with_diag_gauss mean_a std_a mean_b std_b
             ce_sample_size (Py.VGenerator i)))
  /\ (forall mean rho logvar_enc coef gauss_mixture K d_in d_out is_bias is_radial,
        keeps (same_generators_but i)
          (Py.sample_gauss mean rho logvar_enc coef gauss_mixture K d_in d_out
             is_bias (Py.VGenerator i) is_radial)).
Proof.
  repeat apply conj; intros.
  - draws_from_object i keeps_decode_and_sample_diag_gauss.
  - draws_from_object i keeps_sample_diag_gauss.
  - draws_from_object i keeps_kl_radial_bnn_with_diag_gauss.
  - draws_from_object i keeps_sample_gauss.
Qed.

(** X22: [sample_gumbel], [sample_gumbel_softmax] and
    [sample_diag_gaus_from_hnet] draw from the default generator only.
    [sample_gumbel] takes a generator and never draws from it: no
    generator object changes, and the call does the same whatever
    generator is passed. *)
Theorem default_generator_is_the_only_one_used :
  (forall mean rho logvar_enc coef tau gauss_mixture K d_in d_out is_bias generator
          is_radial,
      keeps same_generator_objects
        (Py.sample_gumbel mean rho logvar_enc coef tau gauss_mixture K d_in d_out
           is_bias generator is_radial)
      /\ forall generator',
           Py.sample_gumbel mean rho logvar_enc coef tau gauss_mixture K d_in
             d_out is_bias generator is_radial
           = Py.sample_gumbel mean rho logvar_enc coef tau gauss_mixture K d_in
               d_out is_bias generator' is_radial)
  /\ (forall x tau, keeps same_generator_objects (Py.sample_gumbel_softmax x tau))
  /\ (forall hnet_outputs,
        keeps same_generator_objects (Py.sample_diag_gaus_from_hnet hnet_outputs)).
Proof.
  split; [|split]; intros.
  - split; [draws_from_default keeps_sample_gumbel|reflexivity].
  - draws_from_default keeps_sample_gumbel_softmax.
  - draws_from_default keeps_sample_diag_gaus_from_hnet.
Qed.
End Generators.

(** ** What the sampling functions draw *)

Section Draws.
Context {G : Type} `{Generator G}.
Notation "x <<- m ;; k" := (Py.mbind m (fun x => k))
  (at level 61, m at next level, right associativity).
Abbreviation store := (@Py.store G).
Abbreviation M := (@Py.M G).
Abbreviation extends := (@Py.extends G).
Abbreviation computes := (@Py.computes G).
Abbreviation hoare := (@Py.hoare G).
Abbreviation stable := (@Py.stable G).
Abbreviation keeps := (@Py.keeps G).
Abbreviation same_generators := (@Py.same_generators G).
Abbreviation read_tensor := (@Py.read_tensor G).
Abbreviation read_tensors := (@Py.read_tensors G).
Abbreviation read_list := (@Py.read_list G).
Abbreviation items_of := (@Py.items_of G).
Abbreviation list_holds := (@Py.list_holds G).
Abbreviation generator_of := (@Py.generator_of G).
Abbreviation draws_like := (@Py.draws_like G _).

(** Steps that draw nothing. *)
Ltac quiet :=
  first
    [ exact same_generators_refl
    | exact same_generators_trans
    | exact (fun (s s' : store) (E : same_generators s s') => E)
    | intros; cbv beta zeta;
      lazymatch goal with
      | |- Py.keeps _ (Py.mbind _ _) => apply keeps_bind; quiet
      | |- Py.keeps _ (Py.ret _) => apply keeps_ret; quiet
      | |- Py.keeps _ (Py.raise _) => apply keeps_raise; quiet
      | |- Py.keeps _ (Py.lift_result _) => apply keeps_lift_result; quiet
      | |- Py.keeps _ (Py.alloc _) => apply keeps_alloc; quiet
      | |- Py.keeps _ (Py.lookup _) => apply keeps_lookup; quiet
      | |- Py.keeps _ (Py.update _ _) => apply keeps_update; quiet
      | |- Py.keeps _ (Py.load _) => apply keeps_load; quiet
      | |- Py.keeps _ (if ?c then _ else _) => destruct c; quiet
      | |- Py.keeps _ (match ?x with _ => _ end) => destruct x; quiet
      | |- Py.keeps _ (Py.new_list _) => unfold Py.new_list; quiet
      | |- Py.keeps _ (Py.list_items _) => unfold Py.list_items; quiet
      | |- Py.keeps _ (Py.append _ _) => unfold Py.append; quiet
      | |- Py.keeps _ (Py.new_tensor _) => unfold Py.new_tensor; quiet
      | |- Py.keeps _ (Py.torch1 _ _) => unfold Py.torch1; quiet
      | |- Py.keeps _ (Py.torch1r _ _) => unfold Py.torch1r; quiet
      | |- Py.keeps _ (Py.torch2 _ _ _) => unfold Py.torch2; quiet
      | |- Py.keeps _ (Py.getitem _ _) => unfold Py.getitem; quiet
      | |- Py.keeps _ (Py.len _) => unfold Py.len; quiet
      | |- Py.keeps _ (Py.warn _) => apply keeps_warn; quiet
      | |- Py.keeps _ (Py.new_Normal _ _) => unfold Py.new_Normal; quiet
      end ].

Lemma generator_of_same (gen : Py.value) (s s' : store) :
  same_generators s s' -> generator_of gen s' = generator_of gen s.
Proof. intros [Hd Hg]. destruct gen; cbn [Py.generator_of]; congruence. Qed.

Lemma draws_ext {A B : Type} (sb : store) (gen : Py.value) (P : store -> Prop)
    (m : M A) (r r' : rng G B) (Q : store -> A -> B -> Prop) :
  (forall g, r' g = r g) -> draws_like sb gen P m r' Q -> draws_like sb gen P m r Q.
Proof. intros Hr Hm s g E Hp Hg. rewrite <- Hr. now apply Hm. Qed.

Lemma draws_bind {A B A' B' : Type} (sb : store) (gen : Py.value)
    (P : store -> Prop) (m : M A) (k : A -> M A') (r : rng G B)
    (kr : B -> rng G B') (Q : store -> A -> B -> Prop)
    (Q' : store -> A' -> B' -> Prop) :
  draws_like sb gen P m r Q ->
  (forall a x, draws_like sb gen (fun s => Q s a x) (k a) (kr x) Q') ->
  draws_like sb gen P (x <<- m ;; k x) (x <~ r ;; kr x) Q'.
Proof.
  intros Hm Hk s g E Hp Hg. destruct (Hm s g E Hp Hg) as (E1 & Hg1 & Hr).
  unfold Py.mbind, sbind.
  destruct (r g) as [[x|e] g1]; destruct (m s) as [ra s1]; cbn [fst snd] in *.
  - destruct Hr as (a & -> & Hq). exact (Hk a x s1 g1 E1 Hq Hg1).
  - subst ra. cbn [fst snd]. auto.
Qed.

(** A step that draws nothing. *)
Lemma draws_pure {A B : Type} (sb : store) (gen : Py.value) (P : store -> Prop)
    (m : M A) (r : result B) (Q : store -> A -> B -> Prop) :
  hoare sb P m r Q -> keeps same_generators m ->
  draws_like sb gen P m (slift r) Q.
Proof.
  intros Hm Hk s g E Hp Hg. destruct (Hm s E Hp) as [E1 Hr].
  split; [exact E1|]. split; [|exact Hr]. cbn [slift snd].
  now rewrite (generator_of_same gen _ _ (Hk s)).
Qed.

(** A step that returns [a], draws nothing and leaves a store in which
    [P'] holds. *)
Lemma draws_then {A A' B : Type} (sb : store) (gen : Py.value)
    (P P' : store -> Prop) (m : M A) (a : A) (k : A -> M A') (r : rng G B)
    (Q : store -> A' -> B -> Prop) :
  (forall s, extends sb s -> P s ->
     exists s', m s = (Ok a, s') /\ extends sb s' /\ same_generators s s' /\ P' s') ->
  draws_like sb gen P' (k a) r Q ->
  draws_like sb gen P (x <<- m ;; k x) r Q.
Proof.
  intros Hm Hk s g E Hp Hg. destruct (Hm s E Hp) as (s' & Hr & E' & Hs & Hp').
  unfold Py.mbind. rewrite Hr. apply (Hk s' g E' Hp').
  now rewrite (generator_of_same gen _ _ Hs).
Qed.

(** One draw from the selected generator. *)
Lemma with_generator_run {A : Type} (gen : Py.value) (d : G -> A * G) (s : store)
    (g : G) :
  generator_of gen s = Some g ->
  exists s',
    Py.with_generator gen d s = (Ok (fst (d g)), s')
    /\ Py.heap s' = Py.heap s
    /\ generator_of gen s' = Some (snd (d g)).
Proof.
  destruct gen; try discriminate; cbn [Py.generator_of Py.with_generator].
  - intros [= <-]. destruct (d (Py.default_generator s)) as [a g'].
    eexists. split; [reflexivity|]. split; reflexivity.
  - intros Hg. rewrite Hg. destruct (d g) as [a g'].
    eexists. split; [reflexivity|]. split; [reflexivity|].
    cbn [Py.set_generators Py.generators fst snd].
    apply nth_error_replace_nth_same. apply nth_error_Some. congruence.
Qed.

Lemma extends_heap (s s' : store) : Py.heap s' = Py.heap s -> extends s s'.
Proof. intros Hh l o. now rewrite Hh. Qed.

(** [torch.normal(torch.zeros_like(m), 1., generator=gen)] *)
Lemma draws_normal_like (sb : store) (gen m : Py.value) (t : Tensor)
    (P : store -> Prop) :
  stable P ->
  draws_like sb gen (fun s => read_tensor s m = Some t /\ P s)
    (Py.normal_like m gen) (draw (normal (shape t)))
    (fun s a x => read_tensor s a = Some x /\ P s).
Proof.
  intros HP s g E [Hm Hp] Hg. unfold Py.normal_like, Py.mbind.
  rewrite (load_run s m t Hm).
  destruct (with_generator_run gen (normal (shape t)) s g Hg) as (s' & Hr & Hh & Hg').
  rewrite Hr. unfold draw. destruct (normal (shape t) g) as [eps g'] eqn:Hd.
  cbn [fst snd] in *. unfold Py.new_tensor, Py.mbind, Py.alloc, Py.ret. cbn [fst snd].
  assert (E' : extends s s') by now apply extends_heap.
  split; [|split].
  - eapply extends_trans; [exact E|]. eapply extends_trans; [exact E'|].
    apply extends_alloc.
  - rewrite <- Hg'. apply generator_of_same. split; reflexivity.
  - eexists. split; [reflexivity|]. split; [apply read_new_tensor|].
    eapply HP; [|exact Hp]. eapply extends_trans; [exact E'|apply extends_alloc].
Qed.

(** [torch.normal(torch.tensor(0.), 1., generator=gen)] *)
Lemma draws_normal_scalar (sb : store) (gen : Py.value) (P : store -> Prop) :
  stable P ->
  draws_like sb gen P (Py.normal_scalar gen) (draw (normal []))
    (fun s a x => read_tensor s a = Some x /\ P s).
Proof.
  intros HP s g E Hp Hg. unfold Py.normal_scalar, Py.mbind.
  destruct (with_generator_run gen (normal []) s g Hg) as (s' & Hr & Hh & Hg').
  rewrite Hr. unfold draw. destruct (normal [] g) as [eps g'] eqn:Hd.
  cbn [fst snd] in *. unfold Py.new_tensor, Py.mbind, Py.alloc, Py.ret. cbn [fst snd].
  assert (E' : extends s s') by now apply extends_heap.
  split; [|split].
  - eapply extends_trans; [exact E|]. eapply extends_trans; [exact E'|].
    apply extends_alloc.
  - rewrite <- Hg'. apply generator_of_same. split; reflexivity.
  - eexists. split; [reflexivity|]. split; [apply read_new_tensor|].
    eapply HP; [|exact Hp]. eapply extends_trans; [exact E'|apply extends_alloc].
Qed.

(** [for i in range(n)] *)
Lemma draws_for_range {St PSt : Type} (sb : store) (gen : Py.value)
    (Inv : store -> St -> PSt -> Prop) (l : list nat)
    (body : nat -> St -> M St) (pbody : nat -> PSt -> rng G PSt) :
  (forall i a pa, draws_like sb gen (fun s => Inv s a pa) (body i a) (pbody i pa) Inv) ->
  forall k acc pacc,
    draws_like sb gen (fun s => Inv s acc pacc) (Py.for_in l body acc)
      (for_enumerate (fun _ i => pbody i) k l pacc) Inv.
Proof.
  intros Hb. induction l as [|x l IH]; intros k acc pacc;
    cbn [Py.for_in for_enumerate].
  - intros s g E Hp Hg. cbn [sret Py.ret fst snd]. split; [exact E|].
    split; [exact Hg|]. now exists acc.
  - eapply draws_bind; [apply Hb|]. intros a pa. apply IH.
Qed.

(** [for i, m in enumerate(mean)] *)
Lemma draws_for_enumerate {St PSt : Type} (sb : store) (gen : Py.value)
    (Inv : store -> St -> PSt -> Prop) (body : nat * Py.value -> St -> M St)
    (pbody : nat -> Tensor -> PSt -> rng G PSt) (items : list Py.value) :
  (forall i v t a pa, read_tensor sb v = Some t ->
     draws_like sb gen (fun s => Inv s a pa) (body (i, v) a) (pbody i t pa) Inv) ->
  forall ts k acc pacc,
    read_tensors sb items = Some ts ->
    draws_like sb gen (fun s => Inv s acc pacc)
      (Py.for_in (combine (seq k (length items)) items) body acc)
      (for_enumerate pbody k ts pacc) Inv.
Proof.
  intros Hb. induction items as [|v items IH]; intros ts k acc pacc;
    cbn [Py.read_tensors length seq combine Py.for_in].
  - intros [= <-] s g E Hp Hg. cbn [for_enumerate sret Py.ret fst snd].
    split; [exact E|]. split; [exact Hg|]. now exists acc.
  - destruct (Py.read_tensor sb v) as [t|] eqn:Hv; [|discriminate].
    destruct (Py.read_tensors sb items) as [ts'|] eqn:Hts; [|discriminate].
    intros [= <-]. cbn [for_enumerate].
    eapply draws_bind; [now apply Hb|]. intros a pa. now apply IH.
Qed.

Lemma draws_outcome {B : Type} (D : store -> Py.value -> option B) (s : store)
    (gen : Py.value) (g : G) (m : M Py.value) (r : rng G B) :
  draws_like s gen (fun s' => s' = s) m r (fun s' a x => D s' a = Some x) ->
  generator_of gen s = Some g ->
  Py.outcome D (m s) = fmap Some (fst (r g))
  /\ generator_of gen (snd (m s)) = Some (snd (r g))
  /\ extends s (snd (m s)).
Proof.
  intros Hm Hg. destruct (Hm s g (extends_refl s) eq_refl Hg) as (E & Hg' & Hr).
  split; [|split; assumption]. unfold Py.outcome.
  destruct (fst (r g)) as [x|e].
  - destruct Hr as (a & -> & ->). reflexivity.
  - now rewrite Hr.
Qed.

Lemma draws_pre {A B : Type} (sb : store) (gen : Py.value) (P P' : store -> Prop)
    (m : M A) (r : rng G B) (Q : store -> A -> B -> Prop) :
  (forall s, extends sb s -> P s -> P' s) ->
  draws_like sb gen P' m r Q -> draws_like sb gen P m r Q.
Proof. intros HP Hm s g E Hp Hg. apply Hm; auto. Qed.

(** A step that returns, draws nothing and leaves a store in which [P']
    holds; the rest does not use its value. *)
Lemma draws_skip {A A' B : Type} (sb : store) (gen : Py.value)
    (P P' : store -> Prop) (m : M A) (k : A -> M A') (r : rng G B)
    (Q : store -> A' -> B -> Prop) :
  (forall s, extends sb s -> P s ->
     exists a s', m s = (Ok a, s') /\ extends sb s' /\ same_generators s s' /\ P' s') ->
  (forall a, draws_like sb gen P' (k a) r Q) ->
  draws_like sb gen P (x <<- m ;; k x) r Q.
Proof.
  intros Hm Hk s g E Hp Hg. destruct (Hm s E Hp) as (a & s' & Hr & E' & Hs & Hp').
  unfold Py.mbind. rewrite Hr. apply (Hk a s' g E' Hp').
  now rewrite (generator_of_same gen _ _ Hs).
Qed.

Lemma quiet_run {A : Type} (m : M A) (s s' : store) (a : result A) :
  keeps same_generators m -> m s = (a, s') -> same_generators s s'.
Proof. intros Hk Hr. specialize (Hk s). now rewrite Hr in Hk. Qed.

Lemma stable_and (P Q : store -> Prop) :
  stable P -> stable Q -> stable (fun s => P s /\ Q s).
Proof. intros HP HQ s s' E [Hp Hq]. split; eauto. Qed.

Lemma stable_read_tensor (v : Py.value) (t : Tensor) :
  stable (fun s => read_tensor s v = Some t).
Proof. intros s s' E. now apply read_tensor_mono. Qed.

(** [sample.append(x)] on the list that the call made. *)
Lemma hoare_append (sb : store) (sample x : Py.value) (ts : list Tensor) (t : Tensor) :
  hoare sb
    (fun s => read_tensor s x = Some t
              /\ list_holds (length (Py.heap sb)) s sample ts)
    (Py.append sample x) (Ok (ts ++ [t]))
    (fun s _ ts' => list_holds (length (Py.heap sb)) s sample ts').
Proof.
  intros s E [Hx Hl].
  destruct (append_holds sb s sample x ts t E Hl Hx) as (s' & Hr & E' & Hl' & _).
  rewrite Hr. cbn [fst snd]. split; [exact E'|]. now exists tt.
Qed.

(** A new tensor is computed and appended to the list of the call. *)
Lemma draws_append (sb : store) (gen sample : Py.value) (P : store -> Prop)
    (m : M Py.value) (r : result Tensor) (ts : list Tensor) :
  stable P ->
  (forall s, extends sb s -> P s -> computes Py.read_tensor s m r) ->
  keeps same_generators m ->
  draws_like sb gen
    (fun s => P s /\ list_holds (length (Py.heap sb)) s sample ts)
    (x <<- m ;; Py.append sample x)
    (x <~ slift r ;; sret (ts ++ [x]))
    (fun s _ ts' => list_holds (length (Py.heap sb)) s sample ts').
Proof.
  intros HP Hm Hq. eapply draws_bind.
  - apply draws_pure; [|exact Hq].
    apply (hoare_computes Py.read_tensor sb
             (fun s => P s /\ list_holds (length (Py.heap sb)) s sample ts)).
    + intros s E [Hp _]. now apply Hm.
    + apply stable_and; [exact HP|apply list_holds_stable].
  - intros a x. cbv beta.
    apply draws_pre with
      (P' := fun s => read_tensor s a = Some x
                      /\ list_holds (length (Py.heap sb)) s sample ts).
    { intros s E (Ha & _ & Hl). now split. }
    apply (draws_pure sb gen _ (Py.append sample a) (Ok (ts ++ [x])));
      [apply hoare_append|quiet].
Qed.

Lemma draws_sample_diag_gauss (sb : store) (mean std generator : Py.value)
    (ms ss : list Tensor) (is_radial : bool) :
  read_list sb mean = Some ms -> read_list sb std = Some ss ->
  draws_like sb generator (fun s => s = sb)
    (Py.sample_diag_gauss mean std generator is_radial)
    (sample_diag_gauss ms ss is_radial)
    (fun s a x => read_list s a = Some x).
Proof.
  intros Hmean Hstd.
  assert (Hi : exists items, items_of sb mean = Some items
                             /\ read_tensors sb items = Some ms).
  { unfold Py.read_list in Hmean.
    destruct (Py.items_of sb mean) as [items|]; [|discriminate]. now exists items. }
  destruct Hi as (items & Hi & Hts).
  set (n := length (Py.heap sb)).
  unfold Py.sample_diag_gauss, sample_diag_gauss.
  eapply draws_ext; [intros g; apply sbind_sret_r|].
  apply draws_then with (a := Py.VList n)
    (P' := fun s => list_holds n s (Py.VList n) []).
  { intros s _ ->.
    destruct (new_list_holds sb sb (extends_refl sb)) as (s' & Hr & E & Hl & _).
    exists s'. split; [exact Hr|]. split; [exact E|]. split; [|exact Hl].
    eapply quiet_run; [|exact Hr]. quiet. }
  apply draws_then with (a := length items)
    (P' := fun s => list_holds n s (Py.VList n) []).
  { intros s E Hp. exists s. split; [|split; [exact E|split; [apply same_generators_refl|exact Hp]]].
    apply len_run. eapply items_of_mono; eauto. }
  apply draws_skip with (P' := fun s => list_holds n s (Py.VList n) []).
  { intros s E Hp. pose proof (items_of_mono _ _ _ _ E Hi) as Hi'.
    destruct (0 <? length items)%nat eqn:Hn.
    - rewrite (getitem_run s mean items 0 Hi').
      destruct items as [|v0 items']; [discriminate|]. cbn [nth_error].
      exists v0, s. split; [reflexivity|]. split; [exact E|]. split; [apply same_generators_refl|exact Hp].
    - exists Py.VNone, s. split; [reflexivity|]. split; [exact E|].
      split; [apply same_generators_refl|exact Hp]. }
  intros _.
  apply draws_then with (a := items)
    (P' := fun s => list_holds n s (Py.VList n) []).
  { intros s E Hp. exists s. split; [|split; [exact E|split; [apply same_generators_refl|exact Hp]]].
    apply iter_items_run. eapply items_of_mono; eauto. }
  eapply draws_bind.
  { apply (draws_for_enumerate sb generator
             (fun s (_ : unit) ts => list_holds n s (Py.VList n) ts)); [|exact Hts].
    intros i v t [] ts Hv. cbv zeta. cbn [fst snd].
    eapply draws_bind.
    { apply draws_pre with
        (P' := fun s => read_tensor s v = Some t /\ list_holds n s (Py.VList n) ts).
      { intros s E Hp. split; [eapply read_tensor_mono; eauto|exact Hp]. }
      apply draws_normal_like. apply list_holds_stable. }
    intros eps x. destruct is_radial; cbn [negb].
    - eapply draws_bind.
      { apply (draws_normal_scalar sb generator
                 (fun s => read_tensor s eps = Some x
                           /\ list_holds n s (Py.VList n) ts)).
        apply stable_and; [apply stable_read_tensor|apply list_holds_stable]. }
      intros r y.
      apply draws_pre with
        (P' := fun s => (read_tensor s r = Some y /\ read_tensor s eps = Some x)
                        /\ list_holds n s (Py.VList n) ts).
      { intros s E (Hr & He & Hl). auto. }
      apply draws_append.
      + apply stable_and; apply stable_read_tensor.
      + intros s E [Hr He]. transport E.
        eapply computes_eq; [refine_expr|result_eq].
      + quiet.
    - apply draws_pre with
        (P' := fun s => read_tensor s eps = Some x
                        /\ list_holds n s (Py.VList n) ts).
      { auto. }
      apply draws_append.
      + apply stable_read_tensor.
      + intros s E He. transport E.
        eapply computes_eq; [refine_expr|result_eq].
      + quiet. }
  intros [] ts.
  apply (draws_pure sb generator _ (Py.ret (Py.VList n)) (Ok ts)); [|quiet].
  apply hoare_ret. intros s E Hl. eapply list_holds_read; eauto.
Qed.

Lemma hoare_raise {A B : Type} (sb : store) (P : store -> Prop) (e : exn)
    (Q : store -> A -> B -> Prop) :
  hoare sb P (Py.raise e) (Raise e) Q.
Proof. intros s E _. split; [exact E|reflexivity]. Qed.

Lemma read_list_items (s : store) (v : Py.value) (ts : list Tensor) :
  read_list s v = Some ts ->
  exists items, items_of s v = Some items /\ read_tensors s items = Some ts
                /\ length items = length ts.
Proof.
  unfold Py.read_list. destruct (Py.items_of s v) as [items|]; [|discriminate].
  intros Hts. exists items. split; [reflexivity|]. split; [exact Hts|].
  eapply read_tensors_length; eauto.
Qed.

Lemma draws_decode_and_sample_diag_gauss (sb : store) (mean rho generator : Py.value)
    (ms rs : list Tensor) (logvar_enc is_radial : bool) :
  read_list sb mean = Some ms -> read_list sb rho = Some rs ->
  draws_like sb generator (fun s => s = sb)
    (Py.decode_and_sample_diag_gauss mean rho logvar_enc generator is_radial)
    (decode_and_sample_diag_gauss ms rs logvar_enc is_radial)
    (fun s a x => read_list s a = Some x).
Proof.
  intros Hmean Hrho.
  destruct (read_list_items _ _ _ Hmean) as (items & Hi & Hts & Hlen).
  destruct (read_list_items _ _ _ Hrho) as (ritems & Hri & Hrts & Hrlen).
  set (n := length (Py.heap sb)).
  unfold Py.decode_and_sample_diag_gauss, decode_and_sample_diag_gauss.
  apply draws_then with (a := length ms) (P' := fun s => s = sb).
  { intros s E ->. exists sb. rewrite <- Hlen.
    split; [now apply len_run|]. split; [exact E|].
    split; [apply same_generators_refl|reflexivity]. }
  apply draws_then with (a := length rs) (P' := fun s => s = sb).
  { intros s E ->. exists sb. rewrite <- Hrlen.
    split; [now apply len_run|]. split; [exact E|].
    split; [apply same_generators_refl|reflexivity]. }
  destruct (negb (length ms =? length rs)%nat).
  { apply draws_pure; [apply hoare_raise|quiet]. }
  unfold for_range.
  eapply draws_ext; [intros g; apply sbind_sret_r|].
  apply draws_then with (a := Py.VList n)
    (P' := fun s => list_holds n s (Py.VList n) []).
  { intros s _ ->.
    destruct (new_list_holds sb sb (extends_refl sb)) as (s' & Hr & E & Hl & _).
    exists s'. split; [exact Hr|]. split; [exact E|]. split; [|exact Hl].
    eapply quiet_run; [|exact Hr]. quiet. }
  apply draws_skip with (P' := fun s => list_holds n s (Py.VList n) []).
  { intros s E Hp. pose proof (items_of_mono _ _ _ _ E Hi) as Hi'.
    destruct (0 <? length ms)%nat eqn:Hn.
    - rewrite (getitem_run s mean items 0 Hi').
      destruct items as [|v0 items']; [rewrite <- Hlen in Hn; discriminate|].
      cbn [nth_error].
      exists v0, s. split; [reflexivity|]. split; [exact E|].
      split; [apply same_generators_refl|exact Hp].
    - exists Py.VNone, s. split; [reflexivity|]. split; [exact E|].
      split; [apply same_generators_refl|exact Hp]. }
  intros _.
  eapply draws_bind.
  { apply (draws_for_range sb generator
             (fun s (_ : unit) ts => list_holds n s (Py.VList n) ts)).
    intros i [] ts.
    eapply draws_bind.
    { apply draws_pure; [|quiet].
      apply (hoare_computes Py.read_tensor sb
               (fun s => list_holds n s (Py.VList n) ts)).
      - intros s E _. transport E.
        destruct logvar_enc; (eapply computes_eq; [refine_expr|result_eq]).
      - apply list_holds_stable. }
    intros std x. cbv beta.
    eapply draws_bind.
    { apply draws_pre with
        (P' := fun s => read_tensor s std = Some x
                        /\ (read_tensor s std = Some x
                            /\ list_holds n s (Py.VList n) ts)).
      { intros s E [Hs Hl]. auto. }
      apply draws_normal_like.
      apply stable_and; [apply stable_read_tensor|apply list_holds_stable]. }
    intros eps y. cbv beta. destruct is_radial; cbn [negb].
    - eapply draws_bind.
      { apply (draws_normal_scalar sb generator
                 (fun s => read_tensor s eps = Some y
                           /\ read_tensor s std = Some x
                           /\ list_holds n s (Py.VList n) ts)).
        apply stable_and; [apply stable_read_tensor|].
        apply stable_and; [apply stable_read_tensor|apply list_holds_stable]. }
      intros r z.
      apply draws_pre with
        (P' := fun s => (read_tensor s r = Some z /\ read_tensor s eps = Some y
                         /\ read_tensor s std = Some x)
                        /\ list_holds n s (Py.VList n) ts).
      { intros s E (Hr & He & Hs & Hl). auto. }
      apply draws_append.
      + apply stable_and; [apply stable_read_tensor|].
        apply stable_and; apply stable_read_tensor.
      + intros s E (Hr & He & Hs). transport E.
        eapply computes_eq; [refine_expr|result_eq].
      + quiet.
    - apply draws_pre with
        (P' := fun s => (read_tensor s eps = Some y /\ read_tensor s std = Some x)
                        /\ list_holds n s (Py.VList n) ts).
      { intros s E (He & Hs & Hl). auto. }
      apply draws_append.
      + apply stable_and; apply stable_read_tensor.
      + intros s E (He & Hs). transport E.
        eapply computes_eq; [refine_expr|result_eq].
      + quiet. }
  intros [] ts.
  apply (draws_pure sb generator _ (Py.ret (Py.VList n)) (Ok ts)); [|quiet].
  apply hoare_ret. intros s E Hl. eapply list_holds_read; eauto.
Qed.

(** X26: called on lists or tuples of tensors in any store, with [None]
    or a generator object as [generator], [sample_diag_gauss] and
    [decode_and_sample_diag_gauss] raise the exception or return a list
    holding the sample that the draws of the selected generator determine,
    from the state that generator is in; the call leaves that generator in
    the state after these draws, and every object of the store is
    afterwards as it was. *)
Theorem samples_depend_on_contents_and_generator (s : store)
    (mean std rho generator : Py.value) (ms ss rs : list Tensor)
    (logvar_enc is_radial : bool) (g : G) :
  read_list s mean = Some ms -> read_list s std = Some ss ->
  read_list s rho = Some rs -> generator_of generator s = Some g ->
  (Py.outcome Py.read_list (Py.sample_diag_gauss mean std generator is_radial s)
   = fmap Some (fst (sample_diag_gauss ms ss is_radial g))
   /\ generator_of generator (snd (Py.sample_diag_gauss mean std generator is_radial s))
      = Some (snd (sample_diag_gauss ms ss is_radial g))
   /\ extends s (snd (Py.sample_diag_gauss mean std generator is_radial s)))
  /\ (Py.outcome Py.read_list
        (Py.decode_and_sample_diag_gauss mean rho logvar_enc generator is_radial s)
      = fmap Some (fst (decode_and_sample_diag_gauss ms rs logvar_enc is_radial g))
      /\ generator_of generator
           (snd (Py.decode_and_sample_diag_gauss mean rho logvar_enc generator
                   is_radial s))
         = Some (snd (decode_and_sample_diag_gauss ms rs logvar_enc is_radial g))
      /\ extends s (snd (Py.decode_and_sample_diag_gauss mean rho logvar_enc
                           generator is_radial s))).
Proof.
  intros Hmean Hstd Hrho Hg. split.
  - apply draws_outcome; [|exact Hg]. now apply draws_sample_diag_gauss.
  - apply draws_outcome; [|exact Hg]. now apply draws_decode_and_sample_diag_gauss.
Qed.

(** *** The outputs of a hypernetwork *)

Lemma computes_warn (s0 : store) (msg : string) :
  computes (fun _ _ => Some tt) s0 (Py.warn msg) (Ok tt).
Proof.
  intros s E. split; [now apply extends_heap|]. now exists tt.
Qed.

(** A step whose value is known. *)
Lemma computes_let {A A' B B' : Type} (D : store -> A -> option B)
    (D' : store -> A' -> option B') (s0 : store) (m : M A) (k : A -> M A')
    (x : B) (r : result B') :
  computes D s0 m (Ok x) ->
  (forall s1 a, extends s0 s1 -> D s1 a = Some x -> computes D' s1 (k a) r) ->
  computes D' s0 (x <<- m ;; k x) r.
Proof.
  intros Hm Hk s Es. destruct (Hm s Es) as [E1 (a & Ha & Da)]. unfold Py.mbind.
  destruct (m s) as [ra s1]; cbn [fst snd] in *. subst ra.
  destruct (Hk s1 a (extends_trans _ _ _ Es E1) Da s1 (extends_refl s1)) as [E2 Hr].
  split; [eapply extends_trans; eauto|exact Hr].
Qed.

Lemma computes_raise {A B : Type} (D : store -> A -> option B) (s0 : store)
    (e : exn) :
  computes D s0 (Py.raise e) (Raise e).
Proof. intros s E. split; [apply extends_refl|reflexivity]. Qed.

Lemma computes_new_list (s0 : store) (items : list Py.value) (ts : list Tensor) :
  read_tensors s0 items = Some ts ->
  computes Py.read_list s0 (Py.new_list items) (Ok ts).
Proof.
  intros Hts s E. split; [apply extends_alloc|]. eexists. split; [reflexivity|].
  apply read_new_list. eapply read_tensors_mono; eauto.
Qed.

Lemma computes_map_in {A : Type} (s0 : store) (f : A -> M Py.value)
    (pf : A -> result Tensor) (l : list A) :
  (forall s x, extends s0 s -> computes Py.read_tensor s (f x) (pf x)) ->
  computes Py.read_tensors s0 (Py.map_in f l) (mapM pf l).
Proof.
  intros Hf. revert s0 Hf. induction l as [|x l IH]; intros s0 Hf;
    cbn [Py.map_in mapM].
  - intros s E. split; [apply extends_refl|]. now exists [].
  - eapply (computes_bind Py.read_tensor); [apply Hf, extends_refl|].
    intros s1 y t E1 Hy.
    eapply (computes_bind Py.read_tensors).
    { apply IH. intros s x' E. apply Hf. eapply extends_trans; eauto. }
    intros s2 ys ts E2 Hys s E. split; [apply extends_refl|].
    exists (y :: ys). split; [reflexivity|]. cbn [Py.ret snd Py.read_tensors].
    rewrite (read_tensor_mono _ _ _ _ (extends_trans _ _ _ E2 E) Hy).
    now rewrite (read_tensors_mono _ _ _ _ E Hys).
Qed.

Lemma read_tensors_skipn (s : store) (n : nat) (items : list Py.value)
    (ts : list Tensor) :
  read_tensors s items = Some ts ->
  read_tensors s (skipn n items) = Some (skipn n ts).
Proof.
  revert items ts. induction n as [|n IH]; intros items ts; [auto|].
  destruct items as [|v items]; cbn [Py.read_tensors skipn].
  - now intros [= <-].
  - destruct (Py.read_tensor s v); try discriminate.
    destruct (Py.read_tensors s items) as [ts'|] eqn:Hts; try discriminate.
    intros [= <-]. cbn [skipn]. now apply IH.
Qed.

Lemma read_tensors_firstn (s : store) (n : nat) (items : list Py.value)
    (ts : list Tensor) :
  read_tensors s items = Some ts ->
  read_tensors s (firstn n items) = Some (firstn n ts).
Proof.
  revert items ts. induction n as [|n IH]; intros items ts; [auto|].
  destruct items as [|v items]; cbn [Py.read_tensors firstn].
  - now intros [= <-].
  - destruct (Py.read_tensor s v) as [t|]; try discriminate.
    destruct (Py.read_tensors s items) as [ts'|] eqn:Hts; try discriminate.
    intros [= <-]. cbn [firstn]. now rewrite (IH items ts' Hts).
Qed.

Abbreviation slice_holds := (@Py.slice_holds G).

(** [v[n:]] and [v[:n]] on a list or tuple of tensors. *)
Lemma computes_slice_from (s0 : store) (v : Py.value) (ts : list Tensor) (n : nat) :
  read_list s0 v = Some ts ->
  computes Py.read_list s0 (Py.slice_from v n) (Ok (skipn n ts)).
Proof.
  intros Hv s E. apply (read_list_mono _ _ _ _ E) in Hv.
  destruct (read_list_items _ _ _ Hv) as (items & Hi & Hts & _).
  destruct v; try discriminate; cbn [Py.slice_from].
  - unfold Py.mbind. rewrite (list_items_run s _ items Hi).
    exact (computes_new_list s (skipn n items) (skipn n ts)
             (read_tensors_skipn s n items ts Hts) s (extends_refl s)).
  - cbn [Py.items_of] in Hi. injection Hi as ->.
    split; [apply extends_refl|]. eexists. split; [reflexivity|].
    unfold Py.read_list. cbn [Py.ret snd Py.items_of]. now apply read_tensors_skipn.
Qed.

Lemma computes_slice_to (s0 : store) (v : Py.value) (ts : list Tensor) (n : nat) :
  read_list s0 v = Some ts ->
  computes Py.read_list s0 (Py.slice_to v n) (Ok (firstn n ts)).
Proof.
  intros Hv s E. apply (read_list_mono _ _ _ _ E) in Hv.
  destruct (read_list_items _ _ _ Hv) as (items & Hi & Hts & _).
  destruct v; try discriminate; cbn [Py.slice_to].
  - unfold Py.mbind. rewrite (list_items_run s _ items Hi).
    exact (computes_new_list s (firstn n items) (firstn n ts)
             (read_tensors_firstn s n items ts Hts) s (extends_refl s)).
  - cbn [Py.items_of] in Hi. injection Hi as ->.
    split; [apply extends_refl|]. eexists. split; [reflexivity|].
    unfold Py.read_list. cbn [Py.ret snd Py.items_of]. now apply read_tensors_firstn.
Qed.

Lemma computes_extract_mean_std (s0 : store) (hnet_outputs : Py.value)
    (ts : list Tensor) (return_logvar : bool) :
  read_list s0 hnet_outputs = Some ts ->
  computes Py.read_mean_std s0 (Py.extract_mean_std hnet_outputs return_logvar)
    (extract_mean_std ts return_logvar).
Proof.
  intros Hh. destruct (read_list_items _ _ _ Hh) as (items & Hi & Hts & Hlen).
  unfold Py.extract_mean_std, extract_mean_std.
  eapply computes_skip; [apply computes_warn|]. intros s1 [] E1.
  apply computes_run with (a := length items);
    [intros s E; apply len_run;
     exact (items_of_mono _ _ _ _ (extends_trans _ _ _ E1 E) Hi)|].
  rewrite Hlen.
  destruct (negb (length ts mod 2 =? 0)%nat); [apply computes_raise|].
  apply computes_run with (a := length items);
    [intros s E; apply len_run;
     exact (items_of_mono _ _ _ _ (extends_trans _ _ _ E1 E) Hi)|].
  rewrite Hlen.
  cbv zeta. set (n := (length ts / 2)%nat).
  pose proof (read_list_mono _ _ _ _ E1 Hh) as Hh1.
  eapply computes_let; [apply computes_slice_from, Hh1|].
  intros s2 mean E2 Hmean.
  eapply computes_let;
    [apply computes_slice_to; eapply read_list_mono; eauto|].
  intros s3 logvar E3 Hlogvar. transport E3.
  eapply (computes_bind Py.read_tensors).
  { apply computes_map_in with
      (pf := fun i => fmap (fun t => texp (rmul 0.5 t)) (getitem (firstn n ts) i)).
    intros s i E. transport E. eapply computes_eq; [refine_expr|result_eq]. }
  intros s4 stds sds E4 Hstds. transport E4.
  eapply computes_let; [apply computes_new_list, Hstds|].
  intros s5 std E5 Hstd. transport E5.
  destruct return_logvar; intros s E; transport E;
    (split; [apply extends_refl|]); eexists; (split; [reflexivity|]);
    cbn [Py.ret snd Py.read_mean_std]; now rewrite Hmean, Hstd, ?Hlogvar.
Qed.

Abbreviation read_normal := (@Py.read_normal G).

Lemma computes_new_Normal (s0 : store) (mmu msigma : M Py.value)
    (ra rb : result Tensor) :
  computes Py.read_tensor s0 mmu ra -> computes Py.read_tensor s0 msigma rb ->
  computes Py.read_normal s0 (Py.new_Normal mmu msigma)
    (a <- ra ;; b <- rb ;; Normal a b).
Proof.
  intros Ha Hb. unfold Py.new_Normal.
  eapply (computes_bind Py.read_tensor); [exact Ha|]. intros s1 a x E1 Da.
  eapply (computes_bind Py.read_tensor); [eapply computes_base; eauto|].
  intros s2 b y E2 Db.
  apply computes_load with (t := x); [eapply read_tensor_mono; eauto|].
  apply computes_load with (t := y); [exact Db|].
  intros s E. unfold Py.mbind, Py.lift_result.
  destruct (Normal x y) as [p|e]; cbn [fst snd];
    [|split; [apply extends_refl|reflexivity]].
  unfold Py.alloc, Py.ret. cbn [fst snd Py.set_heap Py.heap]. split.
  - intros l0 o Hl. cbn [Py.set_heap Py.heap].
    assert (l0 < length (Py.heap s))%nat by (apply nth_error_Some; congruence).
    rewrite nth_error_app1 by (rewrite length_app; simpl; lia).
    rewrite nth_error_app1 by lia. exact Hl.
  - eexists. split; [reflexivity|].
    cbn [Py.read_normal]. unfold Py.read_handle.
    cbn [Py.set_heap Py.heap Py.storage Py.slices Py.hshape].
    rewrite nth_error_app1 by (rewrite length_app; simpl; lia).
    rewrite nth_error_app2, Nat.sub_diag by lia. cbn [nth_error].
    rewrite nth_error_app2 by lia.
    replace (length (Py.heap s ++ [Py.OStorage (data (loc p))])
             - length (Py.heap s ++ [Py.OStorage (data (loc p))]))%nat
      with 0%nat by lia.
    cbn [nth_error Py.window fold_left]. rewrite !tensor_eta. now destruct p.
Qed.

(** [p.rsample()]: one draw from the default generator. *)
Lemma draws_Normal_rsample (sb : store) (p : Py.value) (pd : NormalDist)
    (P : store -> Prop) :
  stable P ->
  draws_like sb Py.VNone (fun s => read_normal s p = Some pd /\ P s)
    (Py.Normal_rsample p) (rsample pd)
    (fun s a x => read_tensor s a = Some x /\ P s).
Proof.
  intros HP s g E [Hn Hp] Hg.
  destruct p as [| | | | | | |hm hs| |]; try discriminate Hn.
  cbn [Py.read_normal] in Hn.
  destruct (Py.read_handle s hm) as [l|] eqn:Hl; [|discriminate].
  destruct (Py.read_handle s hs) as [sc|] eqn:Hs; [|discriminate].
  injection Hn as <-. cbn [loc scale].
  destruct (with_generator_run Py.VNone (normal (shape l)) s g Hg)
    as (s' & Hr & Hh & Hg').
  unfold rsample, sbind, draw, slift. cbn [loc scale].
  destruct (normal (shape l) g) as [eps g'] eqn:Hd. cbn [fst snd] in *.
  assert (E' : extends s s') by now apply extends_heap.
  destruct (Ok l + Ok eps * Ok sc)%T as [r|e] eqn:Hsum; cbn [fst snd].
  - assert (Hrun : Py.Normal_rsample (Py.VNormal hm hs) s
                   = (Ok (Py.VTensor (Py.mkHandle (length (Py.heap s')) [] (shape r) Py.Dense)),
                      Py.set_heap (Py.heap s' ++ [Py.OStorage (data r)]) s')).
    { cbn [Py.Normal_rsample]. unfold Py.mbind.
      rewrite (load_run s (Py.VTensor hm) l Hl), (load_run s (Py.VTensor hs) sc Hs).
      rewrite Hr. unfold Py.lift_result. now rewrite Hsum. }
    rewrite Hrun. cbn [fst snd]. split; [|split].
    + eapply extends_trans; [exact E|]. eapply extends_trans; [exact E'|].
      apply extends_alloc.
    + rewrite <- Hg'. apply generator_of_same. split; reflexivity.
    + eexists. split; [reflexivity|]. split; [apply read_new_tensor|].
      eapply HP; [|exact Hp]. eapply extends_trans; [exact E'|apply extends_alloc].
  - assert (Hrun : Py.Normal_rsample (Py.VNormal hm hs) s = (Raise e, s')).
    { cbn [Py.Normal_rsample]. unfold Py.mbind.
      rewrite (load_run s (Py.VTensor hm) l Hl), (load_run s (Py.VTensor hs) sc Hs).
      rewrite Hr. unfold Py.lift_result. now rewrite Hsum. }
    rewrite Hrun. cbn [fst snd].
    split; [eapply extends_trans; eauto|]. split; [exact Hg'|reflexivity].
Qed.

(** A new list of tensors that there are. *)
Lemma new_list_holds_items (sb s : store) (items : list Py.value) (ts : list Tensor) :
  extends sb s -> read_tensors s items = Some ts ->
  exists s',
    Py.new_list items s = (Ok (Py.VList (length (Py.heap s))), s') /\ extends s s'
    /\ list_holds (length (Py.heap sb)) s' (Py.VList (length (Py.heap s))) ts
    /\ length (Py.heap s') = S (length (Py.heap s))
    /\ same_generators s s'.
Proof.
  intros E Hts. eexists. split; [reflexivity|]. split; [apply extends_alloc|].
  unfold Py.alloc, Py.ret. cbn [fst snd Py.set_heap Py.heap]. split; [|split].
  - exists (length (Py.heap s)), items. split; [reflexivity|]. split.
    + split; [now apply extends_length|]. cbn [Py.set_heap Py.heap].
      rewrite nth_error_app2, Nat.sub_diag; [reflexivity|lia].
    + eapply read_tensors_mono; [apply extends_alloc|exact Hts].
  - rewrite length_app. simpl. lia.
  - split; reflexivity.
Qed.

(** *** The slices of the argument *)

Lemma slice_holds_stable (b : nat) (v : Py.value) (ts : list Tensor) :
  stable (fun s => slice_holds b s v ts).
Proof.
  intros s s' E [(vs & -> & Hr)|Hl].
  - left. exists vs. split; [reflexivity|]. eapply read_tensors_mono; eauto.
  - right. exact (list_holds_stable _ _ _ _ _ E Hl).
Qed.

Lemma slice_holds_read (b : nat) (s : store) (v : Py.value) (ts : list Tensor) :
  slice_holds b s v ts -> read_list s v = Some ts.
Proof.
  intros [(vs & -> & Hr)|Hl]; [exact Hr|]. eapply list_holds_read; eauto.
Qed.

(** A slice is no list that is made later. *)
Lemma slice_holds_older (b : nat) (s : store) (v : Py.value) (ts : list Tensor) :
  slice_holds b s v ts -> v <> Py.VList (length (Py.heap s)).
Proof.
  intros [(vs & -> & _)|(l & vs & -> & [_ Hl] & _)]; [discriminate|].
  intros [= ->].
  assert (Hlt : (length (Py.heap s) < length (Py.heap s))%nat)
    by (apply nth_error_Some; congruence).
  lia.
Qed.

Lemma slice_from_holds (sb s : store) (v : Py.value) (ts : list Tensor) (n : nat) :
  extends sb s -> read_list s v = Some ts ->
  exists a s',
    Py.slice_from v n s = (Ok a, s') /\ extends s s' /\ same_generators s s'
    /\ slice_holds (length (Py.heap sb)) s' a (skipn n ts).
Proof.
  intros E Hv. destruct (read_list_items _ _ _ Hv) as (items & Hi & Hts & _).
  destruct v; try discriminate; cbn [Py.slice_from].
  - unfold Py.mbind. rewrite (list_items_run s _ items Hi).
    destruct (new_list_holds_items sb s (skipn n items) (skipn n ts) E
                (read_tensors_skipn s n items ts Hts))
      as (s' & Hr & E' & Hh & _ & Hg).
    exists (Py.VList (length (Py.heap s))), s'.
    split; [exact Hr|]. split; [exact E'|]. split; [exact Hg|]. right. exact Hh.
  - cbn [Py.items_of] in Hi. injection Hi as ->.
    exists (Py.VTuple (skipn n items)), s. split; [reflexivity|].
    split; [apply extends_refl|]. split; [apply same_generators_refl|].
    left. eexists. split; [reflexivity|]. now apply read_tensors_skipn.
Qed.

Lemma slice_to_holds (sb s : store) (v : Py.value) (ts : list Tensor) (n : nat) :
  extends sb s -> read_list s v = Some ts ->
  exists a s',
    Py.slice_to v n s = (Ok a, s') /\ extends s s' /\ same_generators s s'
    /\ slice_holds (length (Py.heap sb)) s' a (firstn n ts).
Proof.
  intros E Hv. destruct (read_list_items _ _ _ Hv) as (items & Hi & Hts & _).
  destruct v; try discriminate; cbn [Py.slice_to].
  - unfold Py.mbind. rewrite (list_items_run s _ items Hi).
    destruct (new_list_holds_items sb s (firstn n items) (firstn n ts) E
                (read_tensors_firstn s n items ts Hts))
      as (s' & Hr & E' & Hh & _ & Hg).
    exists (Py.VList (length (Py.heap s))), s'.
    split; [exact Hr|]. split; [exact E'|]. split; [exact Hg|]. right. exact Hh.
  - cbn [Py.items_of] in Hi. injection Hi as ->.
    exists (Py.VTuple (firstn n items)), s. split; [reflexivity|].
    split; [apply extends_refl|]. split; [apply same_generators_refl|].
    left. eexists. split; [reflexivity|]. now apply read_tensors_firstn.
Qed.

(** [sample.append(x)], with the two slices of the argument. *)
Lemma hoare_append_among (sb : store) (sample v1 v2 x : Py.value)
    (ts t1 t2 : list Tensor) (t : Tensor) :
  v1 <> sample -> v2 <> sample ->
  hoare sb
    (fun s => read_tensor s x = Some t
              /\ list_holds (length (Py.heap sb)) s sample ts
              /\ slice_holds (length (Py.heap sb)) s v1 t1
              /\ slice_holds (length (Py.heap sb)) s v2 t2)
    (Py.append sample x) (Ok (ts ++ [t]))
    (fun s _ ts' => list_holds (length (Py.heap sb)) s sample ts'
                    /\ slice_holds (length (Py.heap sb)) s v1 t1
                    /\ slice_holds (length (Py.heap sb)) s v2 t2).
Proof.
  intros N1 N2 s E (Hx & Hl & H1 & H2).
  destruct (append_holds sb s sample x ts t E Hl Hx) as (s' & Hr & E' & Hl' & F & K).
  rewrite Hr. cbn [fst snd]. split; [exact E'|]. exists tt.
  split; [reflexivity|]. split; [exact Hl'|].
  assert (S : forall v u, v <> sample -> slice_holds (length (Py.heap sb)) s v u ->
                          slice_holds (length (Py.heap sb)) s' v u).
  { intros v u Hne [(vs & -> & Hvs)|Hv].
    - left. exists vs. split; [reflexivity|]. eapply read_tensors_pointwise; eauto.
    - right. now apply F. }
  split; apply S; assumption.
Qed.

(** A step that returns and draws nothing; what it returns and the store
    it leaves satisfy [P']. *)
Lemma draws_step {A A' B : Type} (sb : store) (gen : Py.value)
    (P : store -> Prop) (P' : A -> store -> Prop) (m : M A) (k : A -> M A')
    (r : rng G B) (Q : store -> A' -> B -> Prop) :
  (forall s, extends sb s -> P s ->
     exists a s', m s = (Ok a, s') /\ extends sb s' /\ same_generators s s'
                  /\ P' a s') ->
  (forall a, draws_like sb gen (P' a) (k a) r Q) ->
  draws_like sb gen P (x <<- m ;; k x) r Q.
Proof.
  intros Hm Hk s g E Hp Hg. destruct (Hm s E Hp) as (a & s' & Hr & E' & Hs & Hp').
  unfold Py.mbind. rewrite Hr. apply (Hk a s' g E' Hp').
  now rewrite (generator_of_same gen _ _ Hs).
Qed.

Lemma draws_sample_diag_gaus_from_hnet (sb : store) (hnet_outputs : Py.value)
    (ts : list Tensor) :
  read_list sb hnet_outputs = Some ts ->
  draws_like sb Py.VNone (fun s => s = sb)
    (Py.sample_diag_gaus_from_hnet hnet_outputs)
    (sample_diag_gaus_from_hnet ts)
    (fun s a x => read_list s a = Some x).
Proof.
  intros Hh. destruct (read_list_items _ _ _ Hh) as (items & Hi & Hts & Hlen).
  set (n := length (Py.heap sb)).
  unfold Py.sample_diag_gaus_from_hnet, sample_diag_gaus_from_hnet.
  apply draws_skip with (P' := fun _ => True).
  { intros s E ->. eexists tt, _. split; [reflexivity|]. split; [|split].
    - now apply extends_heap.
    - split; reflexivity.
    - exact I. }
  intros _.
  assert (Hlen_run : forall s, extends sb s -> True ->
            exists s', Py.len hnet_outputs s = (Ok (length items), s')
                       /\ extends sb s' /\ same_generators s s' /\ True).
  { intros s E _. exists s. split; [|split; [exact E|split; [apply same_generators_refl|exact I]]].
    apply len_run. eapply items_of_mono; eauto. }
  apply draws_then with (a := length items) (P' := fun _ => True); [exact Hlen_run|].
  rewrite Hlen.
  destruct (negb (length ts mod 2 =? 0)%nat).
  { apply draws_pure; [apply hoare_raise|quiet]. }
  apply draws_then with (a := length items) (P' := fun _ => True); [exact Hlen_run|].
  rewrite Hlen.
  cbv zeta. set (k := (length ts / 2)%nat).
  unfold for_range.
  eapply draws_ext; [intros g; apply sbind_sret_r|].
  apply draws_step with (P' := fun mu s => slice_holds n s mu (skipn k ts)).
  { intros s E _.
    destruct (slice_from_holds sb s hnet_outputs ts k E (read_list_mono _ _ _ _ E Hh))
      as (mu & s' & Hr & E' & Hg & Hmu).
    exists mu, s'. split; [exact Hr|]. split; [eapply extends_trans; eauto|].
    split; [exact Hg|exact Hmu]. }
  intros mu.
  apply draws_step with
    (P' := fun logvar s => slice_holds n s mu (skipn k ts)
                           /\ slice_holds n s logvar (firstn k ts)).
  { intros s E Hmu.
    destruct (slice_to_holds sb s hnet_outputs ts k E (read_list_mono _ _ _ _ E Hh))
      as (logvar & s' & Hr & E' & Hg & Hlv).
    exists logvar, s'. split; [exact Hr|]. split; [eapply extends_trans; eauto|].
    split; [exact Hg|]. split; [|exact Hlv].
    exact (slice_holds_stable _ _ _ _ _ E' Hmu). }
  intros logvar.
  apply draws_step with
    (P' := fun sample s => (mu <> sample /\ logvar <> sample)
                           /\ list_holds n s sample []
                           /\ slice_holds n s mu (skipn k ts)
                           /\ slice_holds n s logvar (firstn k ts)).
  { intros s E [Hmu Hlv].
    destruct (new_list_holds_items sb s [] [] E eq_refl)
      as (s' & Hr & E' & Hh' & Hl' & Hq).
    exists (Py.VList (length (Py.heap s))), s'. split; [exact Hr|].
    split; [eapply extends_trans; eauto|]. split; [exact Hq|].
    split; [split; eapply slice_holds_older; eauto|].
    split; [exact Hh'|].
    split; [exact (slice_holds_stable _ _ _ _ _ E' Hmu)
           |exact (slice_holds_stable _ _ _ _ _ E' Hlv)]. }
  intros sample.
  assert (HS : forall us, stable (fun s => list_holds n s sample us
                    /\ slice_holds n s mu (skipn k ts)
                    /\ slice_holds n s logvar (firstn k ts))).
  { intros us. apply stable_and; [apply list_holds_stable|].
    apply stable_and; apply slice_holds_stable. }
  eapply draws_bind.
  { apply (draws_for_range sb Py.VNone
             (fun s (_ : unit) us =>
                (mu <> sample /\ logvar <> sample)
                /\ list_holds n s sample us
                /\ slice_holds n s mu (skipn k ts)
                /\ slice_holds n s logvar (firstn k ts))).
    intros i [] us.
    eapply draws_bind.
    { apply draws_pure; [|quiet].
      apply (hoare_computes Py.read_tensor sb
               (fun s => (mu <> sample /\ logvar <> sample)
                         /\ list_holds n s sample us
                         /\ slice_holds n s mu (skipn k ts)
                         /\ slice_holds n s logvar (firstn k ts)));
        [|apply stable_and; [intros ? ? _ Hn; exact Hn|apply HS]].
      intros s E (_ & _ & _ & Hlv). apply slice_holds_read in Hlv.
      eapply computes_eq; [refine_expr|result_eq]. }
    intros std x. cbv beta.
    eapply draws_bind.
    { apply draws_pure; [|quiet].
      apply (hoare_computes Py.read_normal sb
               (fun s => read_tensor s std = Some x
                         /\ (mu <> sample /\ logvar <> sample)
                         /\ list_holds n s sample us
                         /\ slice_holds n s mu (skipn k ts)
                         /\ slice_holds n s logvar (firstn k ts))).
      - intros s E (Hstd & _ & _ & Hmu & _). apply slice_holds_read in Hmu.
        eapply computes_eq;
          [apply computes_new_Normal; refine_expr|].
        destruct (getitem (skipn k ts) i); reflexivity.
      - apply stable_and; [apply stable_read_tensor|].
        apply stable_and; [intros ? ? _ Hn; exact Hn|apply HS]. }
    intros p pd. cbv beta.
    eapply draws_bind.
    { apply draws_pre with
        (P' := fun s => read_normal s p = Some pd
                        /\ ((mu <> sample /\ logvar <> sample)
                            /\ list_holds n s sample us
                            /\ slice_holds n s mu (skipn k ts)
                            /\ slice_holds n s logvar (firstn k ts))).
      { intros s E (Hp & _ & Hl). auto. }
      apply draws_Normal_rsample.
      apply stable_and; [intros ? ? _ Hn; exact Hn|apply HS]. }
    intros a y. cbv beta.
    apply (draws_pure sb Py.VNone _ (Py.append sample a) (Ok (us ++ [y]))); [|quiet].
    intros s E (Hy & [N1 N2] & Hl).
    destruct (hoare_append_among sb sample mu logvar a us (skipn k ts) (firstn k ts) y
                N1 N2 s E (conj Hy Hl)) as [E' Hr].
    split; [exact E'|]. destruct Hr as (u & Hu & Hq). exists u. split; [exact Hu|].
    split; [now split|exact Hq]. }
  intros [] us.
  apply (draws_pure sb Py.VNone _ (Py.ret sample) (Ok us)); [|quiet].
  apply hoare_ret. intros s E (_ & Hl & _). eapply list_holds_read; eauto.
Qed.

(** X28: called on a list or tuple of tensors in any store,
    [extract_mean_std] raises [AssertionError] or returns a tuple that
    holds the means, the standard deviations and, if asked for, the
    log-variances that the contents of [hnet_outputs] alone determine.
    The means and the log-variances are the slices [hnet_outputs[n:]] and
    [hnet_outputs[:n]], which are new lists for a list and tuples for a
    tuple; the standard deviations are a new list.  Every object of the
    store is afterwards as it was. *)
Theorem extract_mean_std_depends_on_contents (s : store) (hnet_outputs : Py.value)
    (ts : list Tensor) (return_logvar : bool) :
  read_list s hnet_outputs = Some ts ->
  Py.outcome Py.read_mean_std (Py.extract_mean_std hnet_outputs return_logvar s)
  = fmap Some (extract_mean_std ts return_logvar)
  /\ extends s (snd (Py.extract_mean_std hnet_outputs return_logvar s))
  /\ (forall a,
        fst (Py.extract_mean_std hnet_outputs return_logvar s) = Ok a ->
        Py.mean_std_tuple (length (Py.heap s)) hnet_outputs return_logvar a).
Proof.
  intros Hh.
  destruct (computes_extract_mean_std s hnet_outputs ts return_logvar Hh s
              (extends_refl s)) as [E Hr].
  split; [|split; [exact E|apply extract_mean_std_returns]]. unfold Py.outcome.
  destruct (extract_mean_std ts return_logvar) as [x|e].
  - destruct Hr as (a & -> & ->). reflexivity.
  - now rewrite Hr.
Qed.

(** X29: called on a list or tuple of tensors in any store,
    [sample_diag_gaus_from_hnet] raises the exception or returns a new
    list holding the sample that the contents of [hnet_outputs] and the
    draws of the default generator determine, from the state that
    generator is in; the call leaves the default generator in the state
    after these draws, and every object of the store is afterwards as it
    was. *)
Theorem hnet_samples_depend_on_contents_and_generator (s : store)
    (hnet_outputs : Py.value) (ts : list Tensor) :
  read_list s hnet_outputs = Some ts ->
  Py.outcome Py.read_list (Py.sample_diag_gaus_from_hnet hnet_outputs s)
  = fmap Some (fst (sample_diag_gaus_from_hnet ts (Py.default_generator s)))
  /\ Py.default_generator (snd (Py.sample_diag_gaus_from_hnet hnet_outputs s))
     = snd (sample_diag_gaus_from_hnet ts (Py.default_generator s))
  /\ extends s (snd (Py.sample_diag_gaus_from_hnet hnet_outputs s)).
Proof.
  intros Hh.
  destruct (draws_outcome Py.read_list s Py.VNone (Py.default_generator s)
              (Py.sample_diag_gaus_from_hnet hnet_outputs)
              (sample_diag_gaus_from_hnet ts)
              (draws_sample_diag_gaus_from_hnet s hnet_outputs ts Hh) eq_refl)
    as (Ho & Hg & E).
  split; [exact Ho|]. split; [|exact E].
  cbn [Py.generator_of] in Hg. now injection Hg.
Qed.
End Draws.

Lemma extract_mean_std_depends_on_contents_witness :
  let h := Py.VTensor (Py.mkHandle 0%nat [] [2%nat] Py.Dense) in
  let s := Py.mkStore [Py.OStorage [1; 2]; Py.OList [h; h]]
             [] (mkTape (fun _ => 1) 0) [] [] [] in
  let ts := [mkT [2%nat] [1; 2]; mkT [2%nat] [1; 2]] in
  (Py.outcome Py.read_mean_std (Py.extract_mean_std (Py.VList 1%nat) true s)
   = fmap Some (extract_mean_std ts true)
   /\ Py.extends s (snd (Py.extract_mean_std (Py.VList 1%nat) true s))
   /\ (forall a,
         fst (Py.extract_mean_std (Py.VList 1%nat) true s) = Ok a ->
         Py.mean_std_tuple (length (Py.heap s)) (Py.VList 1%nat) true a))
  /\ (Py.outcome Py.read_mean_std (Py.extract_mean_std (Py.VTuple [h; h]) true s)
      = fmap Some (extract_mean_std ts true)
      /\ Py.extends s (snd (Py.extract_mean_std (Py.VTuple [h; h]) true s))
      /\ (forall a,
            fst (Py.extract_mean_std (Py.VTuple [h; h]) true s) = Ok a ->
            Py.mean_std_tuple (length (Py.heap s)) (Py.VTuple [h; h]) true a)).
Proof.
  intros h s ts. split.
  - apply (extract_mean_std_depends_on_contents s (Py.VList 1%nat) ts true).
    reflexivity.
  - apply (extract_mean_std_depends_on_contents s (Py.VTuple [h; h]) ts true).
    reflexivity.
Defined.

Lemma hnet_samples_depend_on_contents_and_generator_witness :
  let h := Py.VTensor (Py.mkHandle 0%nat [] [2%nat] Py.Dense) in
  let s := Py.mkStore [Py.OStorage [1; 2]; Py.OList [h; h]]
             [] (mkTape (fun _ => 1) 0) [] [] [] in
  let ts := [mkT [2%nat] [1; 2]; mkT [2%nat] [1; 2]] in
  Py.outcome Py.read_list (Py.sample_diag_gaus_from_hnet (Py.VList 1%nat) s)
  = fmap Some (fst (sample_diag_gaus_from_hnet ts (Py.default_generator s)))
  /\ Py.default_generator (snd (Py.sample_diag_gaus_from_hnet (Py.VList 1%nat) s))
     = snd (sample_diag_gaus_from_hnet ts (Py.default_generator s))
  /\ Py.extends s (snd (Py.sample_diag_gaus_from_hnet (Py.VList 1%nat) s)).
Proof.
  intros h s ts.
  apply (hnet_samples_depend_on_contents_and_generator s (Py.VList 1%nat) ts).
  reflexivity.
Defined.

Lemma samples_depend_on_contents_and_generator_witness :
  let g := mkTape (fun _ => 1) 0 in
  let s := Py.mkStore
             [Py.OStorage [1; 2]; Py.OList [Py.VTensor (Py.mkHandle 0%nat [] [2%nat] Py.Dense)]]
             [] g [g] [] [] in
  let v := Py.VList 1%nat in
  let gen := Py.VGenerator 0 in
  let ts := [mkT [2%nat] [1; 2]] in
  (Py.outcome Py.read_list (Py.sample_diag_gauss v v gen true s)
   = fmap Some (fst (sample_diag_gauss ts ts true g))
   /\ Py.generator_of gen (snd (Py.sample_diag_gauss v v gen true s))
      = Some (snd (sample_diag_gauss ts ts true g))
   /\ Py.extends s (snd (Py.sample_diag_gauss v v gen true s)))
  /\ (Py.outcome Py.read_list (Py.decode_and_sample_diag_gauss v v true gen true s)
      = fmap Some (fst (decode_and_sample_diag_gauss ts ts true true g))
      /\ Py.generator_of gen
           (snd (Py.decode_and_sample_diag_gauss v v true gen true s))
         = Some (snd (decode_and_sample_diag_gauss ts ts true true g))
      /\ Py.extends s (snd (Py.decode_and_sample_diag_gauss v v true gen true s))).
Proof.
  intros g s v gen ts.
  apply (samples_depend_on_contents_and_generator s v v v gen ts ts ts true true g);
    reflexivity.
Defined.

(** ** Calls that cannot return *)

Section Raises.
Context {G : Type} `{Generator G}.
Notation "x <<- m ;; k" := (Py.mbind m (fun x => k))
  (at level 61, m at next level, right associativity).
Abbreviation store := (@Py.store G).
Abbreviation M := (@Py.M G).
Abbreviation raises := (@Py.raises G).
Abbreviation items_of := (@Py.items_of G).

Lemma raises_raise {A : Type} (e : exn) : raises (@Py.raise G A e).
Proof. intros s. now exists e. Qed.

Lemma raises_bind_l {A B : Type} (m : M A) (k : A -> M B) :
  raises m -> raises (x <<- m ;; k x).
Proof.
  intros Hm s. destruct (Hm s) as [e He]. exists e. unfold Py.mbind.
  destruct (m s) as [[a|e'] s1]; cbn [fst] in *; [discriminate|].
  now injection He as ->.
Qed.

(** The rest raises for every value that the first step can return. *)
Lemma raises_bind_post {A B : Type} (Q : A -> Prop) (m : M A) (k : A -> M B) :
  (forall s a, fst (m s) = Ok a -> Q a) ->
  (forall a, Q a -> raises (k a)) ->
  raises (x <<- m ;; k x).
Proof.
  intros Hm Hk s. unfold Py.mbind. pose proof (Hm s) as Hq.
  destruct (m s) as [[a|e] s1]; cbn [fst] in *.
  - apply Hk. now apply Hq.
  - now exists e.
Qed.

Lemma raises_bind_r {A B : Type} (m : M A) (k : A -> M B) :
  (forall a, raises (k a)) -> raises (x <<- m ;; k x).
Proof.
  intros Hk. apply (raises_bind_post (fun _ => True)); auto.
Qed.

Lemma raises_assoc {A B C : Type} (m : M A) (k : A -> M B) (k' : B -> M C) :
  raises (x <<- m ;; y <<- k x ;; k' y) ->
  raises (y <<- (x <<- m ;; k x) ;; k' y).
Proof.
  intros Hr s. destruct (Hr s) as [e He]. exists e. revert He. unfold Py.mbind.
  destruct (m s) as [[a|e'] s1]; cbn [fst]; [auto|].
  now intros [= ->].
Qed.

Lemma raises_ret_bind {A B : Type} (a : A) (k : A -> M B) :
  raises (k a) -> raises (x <<- Py.ret a ;; k x).
Proof. intros Hr s. exact (Hr s). Qed.

Lemma new_list_value (items : list Py.value) (s : store) (a : Py.value) :
  fst (Py.new_list items s) = Ok a -> exists l, a = Py.VList l.
Proof. intros [= <-]. eexists. reflexivity. Qed.

(** [torch.unsqueeze] of a list or a tuple *)
Lemma raises_unsqueeze_items (v : Py.value) (d : nat) (s : store)
    (items : list Py.value) :
  items_of s v = Some items -> raises (Py.unsqueeze v d).
Proof.
  destruct v; try discriminate; intros _; apply raises_raise.
Qed.

Lemma raises_tile_unsqueeze {B : Type} (f : Tensor -> Tensor) (v : Py.value)
    (d : nat) (k : Py.value -> M B) :
  raises (Py.unsqueeze v d) -> raises (x <<- Py.torch1 f (Py.unsqueeze v d) ;; k x).
Proof. intros Hr. apply raises_bind_l. unfold Py.torch1. now apply raises_bind_l. Qed.

(** The first iteration of the loop of [sample_gauss] on a list or tuple
    [mean]: whatever the draws are, [torch.unsqueeze] is applied to a
    list. *)
Lemma sample_gauss_rest_raises (mean rho coef generator : Py.value)
    (logvar_enc is_bias is_radial : bool) (gauss_mixture K d_in d_out n : nat) :
  (is_bias = true \/ raises (Py.unsqueeze mean 0)) ->
  raises
    (nr <<- Py.len rho ;;
     ok <<- (if (S n =? nr)%nat then nc <<- Py.len coef ;; Py.ret (S n =? nc)%nat
             else Py.ret false) ;;
     if negb ok then Py.raise AssertionError
     else
       sample <<- Py.new_list [] ;;
       _ <<- (if (0 <? S n)%nat then m0 <<- Py.getitem mean 0 ;; Py.getitem m0 0
              else Py.ret Py.VNone) ;;
       _ <<- Py.for_in (seq 0 (S n))
               (fun i mean =>
                  std <<- (if logvar_enc
                           then Py.torch1 texp (Py.torch1 (rmul 0.5) (Py.getitem rho i))
                           else
                             _ <<- Py.getitem rho i ;;
                             _ <<- Py.print "The rho: " ;;
                             Py.torch1 softplus
                               (Py.torch1 (fun t => t) (Py.getitem rho i))) ;;
                  ems <<- (if negb is_bias then
                             eps <<- Py.normal_size [K; gauss_mixture; d_in; d_out]
                                       generator ;;
                             Py.ret (eps, (mean, std))
                           else
                             eps <<- Py.normal_size [K; gauss_mixture; 1%nat; d_out]
                                       generator ;;
                             ms <<- Py.iter_items mean ;;
                             ms' <<- Py.map_in (fun t => Py.unsqueeze t 0) ms ;;
                             mean' <<- Py.new_list ms' ;;
                             ss <<- Py.iter_items std ;;
                             ss' <<- Py.map_in (fun t => Py.unsqueeze t 0) ss ;;
                             std' <<- Py.new_list ss' ;;
                             Py.ret (eps, (mean', std'))) ;;
                  let eps := fst ems in
                  mean <<- Py.torch1 (fun t => tile t [K; 1; 1; 1]%nat)
                             (Py.unsqueeze (fst (snd ems)) 0) ;;
                  std <<- Py.torch1 (fun t => tile t [K; 1; 1; 1]%nat)
                            (Py.unsqueeze (snd (snd ems)) 0) ;;
                  x <<- (if negb is_radial then
                           Py.torch2 (tbin Rplus) (Py.getitem mean i)
                             (Py.torch2 (tbin Rmult) (Py.ret eps) (Py.ret std))
                         else
                           r <<- Py.normal_scalar generator ;;
                           Py.torch2 (tbin Rplus) (Py.getitem mean i)
                             (Py.torch2 (tbin Rdiv)
                                (Py.torch2 (tbin Rmult)
                                   (Py.torch2 (tbin Rmult) (Py.ret std) (Py.ret r))
                                   (Py.ret eps))
                                (Py.torch1 tnorm2 (Py.ret eps)))) ;;
                  _ <<- Py.append sample x ;;
                  Py.ret mean)
               mean ;;
       Py.ret sample).
Proof.
  intros Hm. apply raises_bind_r. intros nr. apply raises_bind_r. intros ok.
  destruct (negb ok); [apply raises_raise|].
  apply raises_bind_r. intros sample. apply raises_bind_r. intros _.
  apply raises_bind_l. cbn [seq Py.for_in]. apply raises_bind_l.
  apply raises_bind_r. intros std.
  destruct is_bias; cbn [negb].
  - apply raises_assoc. apply raises_bind_r. intros eps.
    apply raises_assoc. apply raises_bind_r. intros ms.
    apply raises_assoc. apply raises_bind_r. intros ms'.
    apply raises_assoc.
    apply (raises_bind_post (fun a => exists l, a = Py.VList l));
      [apply new_list_value|].
    intros mean' [l ->].
    apply raises_assoc. apply raises_bind_r. intros ss.
    apply raises_assoc. apply raises_bind_r. intros ss'.
    apply raises_assoc. apply raises_bind_r. intros std'.
    apply raises_ret_bind. cbv zeta. cbn [fst snd].
    apply raises_tile_unsqueeze. apply raises_raise.
  - destruct Hm as [Hb|Hm]; [discriminate|].
    apply raises_assoc. apply raises_bind_r. intros eps.
    apply raises_ret_bind. cbv zeta. cbn [fst snd].
    now apply raises_tile_unsqueeze.
Qed.

(** X30: [sample_gauss] raises an exception and returns no sample whenever
    [mean] is a non-empty list or tuple: in the first iteration
    [torch.unsqueeze] is applied to it.  With [is_bias] set it also raises
    for every tensor [mean] of non-zero length, since [mean] is then
    rebound to a list before [torch.unsqueeze].  Hence
    [sample_from_gumbel_softmax_trick], which in addition calls
    [sample_gumbel] with one argument too few, returns from no store. *)
Theorem sample_gauss_raises (s : store) (mean rho coef generator : Py.value)
    (logvar_enc is_bias is_radial : bool) (tau : R) (gauss_mixture K d_in d_out : nat) :
  (forall items,
     items_of s mean = Some items -> items <> [] ->
     exists e,
       fst (Py.sample_gauss mean rho logvar_enc coef gauss_mixture K d_in d_out
              is_bias generator is_radial s) = Raise e)
  /\ (forall h n rest,
        mean = Py.VTensor h -> Py.hshape h = S n :: rest -> is_bias = true ->
        exists e,
          fst (Py.sample_gauss mean rho logvar_enc coef gauss_mixture K d_in d_out
                 is_bias generator is_radial s) = Raise e)
  /\ (exists e,
        fst (Py.sample_from_gumbel_softmax_trick mean rho coef tau gauss_mixture K
               d_in d_out is_bias logvar_enc generator is_radial s) = Raise e).
Proof.
  split; [|split].
  - intros items Hi Hne. unfold Py.sample_gauss, Py.mbind at 1.
    rewrite (len_run s mean items Hi).
    destruct items as [|v items]; [contradiction|]. cbn [length].
    apply sample_gauss_rest_raises. right.
    now apply raises_unsqueeze_items with (s := s) (items := v :: items).
  - intros h n rest -> Hs ->. unfold Py.sample_gauss, Py.mbind at 1.
    cbn [Py.len]. rewrite Hs. cbn [Py.ret].
    apply sample_gauss_rest_raises. now left.
  - unfold Py.sample_from_gumbel_softmax_trick.
    apply raises_bind_r. intros gauss_sample. apply raises_raise.
Qed.
End Raises.

Lemma sample_gauss_raises_witness :
  let h := Py.mkHandle 0%nat [] [2%nat] Py.Dense in
  let s := Py.mkStore [Py.OStorage [1; 2]; Py.OList [Py.VTensor h]]
             [] (mkTape (fun _ => 1) 0) [] [] [] in
  (exists e,
     fst (Py.sample_gauss (Py.VList 1%nat) (Py.VList 1%nat) true (Py.VTensor h)
            1 1 1 2 false Py.VNone false s) = Raise e)
  /\ (exists e,
        fst (Py.sample_gauss (Py.VTensor h) (Py.VTensor h) true (Py.VTensor h)
               1 1 1 2 true Py.VNone false s) = Raise e).
Proof.
  intros h s. split.
  - destruct (sample_gauss_raises s (Py.VList 1%nat) (Py.VList 1%nat) (Py.VTensor h)
                Py.VNone true false false 1 1 1 1 2) as (L & _ & _).
    apply (L [Py.VTensor h]); [reflexivity|discriminate].
  - destruct (sample_gauss_raises s (Py.VTensor h) (Py.VTensor h) (Py.VTensor h)
                Py.VNone true true false 1 1 1 1 2) as (_ & T & _).
    apply (T h 1%nat []); reflexivity.
Defined.

(** ** The configuration modules: the performance key *)

Lemma assert_key_inv (k : string) (keywords : list string) (u : unit) :
  assert_key (Some k) keywords = Ok u -> In k keywords.
Proof.
  unfold assert_key. destruct (existsb (String.eqb k) keywords) eqn:E; [|discriminate].
  intros _. apply existsb_exists in E. destruct E as (x & Hin & Hx).
  apply String.eqb_eq in Hx. now subst x.
Qed.

Lemma assert_key_not_in (k : string) (keywords : list string) :
  ~ In k keywords -> assert_key (Some k) keywords = Raise AssertionError.
Proof.
  intros Hn. unfold assert_key.
  destruct (existsb (String.eqb k) keywords) eqn:E; [|reflexivity].
  exfalso. apply Hn. apply existsb_exists in E. destruct E as (x & Hin & Hx).
  apply String.eqb_eq in Hx. now subst x.
Qed.

(** X27: importing either configuration module fails with
    [AssertionError] when ['acc_avg_final'] is not among the summary
    keywords of the module it imports them from; when the import
    completes, the name [_PERFORMANCE_KEY] is bound to ['acc_avg_final'],
    [_SUMMARY_KEYWORDS] to the imported keywords, which contain that key,
    and [_PERFORMANCE_SORT_ASC] to [False]. *)
Theorem config_performance_key (imported : hpsplit.attributes)
    (bbb : hpsplitbbb.attributes) (ssge : hpsplitssge.attributes) :
  (~ In "acc_avg_final"%string (hpsplit._SUMMARY_KEYWORDS imported) ->
   hpsearch_config_zenke_bbb_mixture.init imported = Raise AssertionError)
  /\ (forall ns,
        hpsearch_config_zenke_bbb_mixture.init imported = Ok ns ->
        In "acc_avg_final"%string (hpsplit._SUMMARY_KEYWORDS imported)
        /\ ns "_PERFORMANCE_KEY"%string = Some (VStr "acc_avg_final")
        /\ ns "_SUMMARY_KEYWORDS"%string
           = Some (VStrs (hpsplit._SUMMARY_KEYWORDS imported))
        /\ ns "_PERFORMANCE_SORT_ASC"%string = Some (VBool false))
  /\ (~ In "acc_avg_final"%string (hpsplitssge._SUMMARY_KEYWORDS ssge) ->
      hpsearch_config_gmm_ssge.init bbb ssge = Raise AssertionError)
  /\ (forall ns,
        hpsearch_config_gmm_ssge.init bbb ssge = Ok ns ->
        In "acc_avg_final"%string (hpsplitssge._SUMMARY_KEYWORDS ssge)
        /\ ns "_PERFORMANCE_KEY"%string = Some (VStr "acc_avg_final")
        /\ ns "_SUMMARY_KEYWORDS"%string
           = Some (VStrs (hpsplitssge._SUMMARY_KEYWORDS ssge))
        /\ ns "_PERFORMANCE_SORT_ASC"%string = Some (VBool false)).
Proof.
  split; [|split; [|split]].
  - intros Hn. unfold hpsearch_config_zenke_bbb_mixture.init.
    cbn [load_conditions assign String.eqb Ascii.eqb Bool.eqb bind].
    now rewrite (assert_key_not_in _ _ Hn).
  - intros ns E. unfold hpsearch_config_zenke_bbb_mixture.init in E.
    cbn [load_conditions assign String.eqb Ascii.eqb Bool.eqb bind] in E.
    destruct (assert_key _ _) as [u|e] eqn:Ha in E; [|discriminate].
    cbn [bind] in E. injection E as <-.
    split; [exact (assert_key_inv _ _ _ Ha)|]. repeat split.
  - intros Hn. unfold hpsearch_config_gmm_ssge.init.
    cbn [load_conditions assign String.eqb Ascii.eqb Bool.eqb bind].
    now rewrite (assert_key_not_in _ _ Hn).
  - intros ns E. unfold hpsearch_config_gmm_ssge.init in E.
    cbn [load_conditions assign String.eqb Ascii.eqb Bool.eqb bind] in E.
    destruct (assert_key _ _) as [u|e] eqn:Ha in E; [|discriminate].
    cbn [bind] in E. injection E as <-.
    split; [exact (assert_key_inv _ _ _ Ha)|]. repeat split.
Qed.

Lemma config_performance_key_witness :
  let imported := hpsplit.Build_attributes [] [] ["acc_task_1"%string] in
  let bbb := hpsplitbbb.Build_attributes [] in
  let ssge := hpsplitssge.Build_attributes [] "performance_overview.txt"%string [] in
  hpsearch_config_zenke_bbb_mixture.init imported = Raise AssertionError
  /\ hpsearch_config_gmm_ssge.init bbb ssge = Raise AssertionError.
Proof.
  intros imported bbb ssge.
  destruct (config_performance_key imported bbb ssge) as (Z & _ & M & _).
  split; [apply Z | apply M]; simpl; intuition discriminate.
Defined.
